(* ===== verification/_CoqProject ===== *)
-Q . S2P
Prelude.v
Endian.v
ArithUint256.v
Serialize.v
Hasher.v
Sha256.v
Sha512.v
Sha1.v
Ripemd160.v
Hash.v
SipHash.v
Primitives.v
Script.v
PubKey.v
Interpreter.v
InterpreterTheory.v
DerSignatures.v
SigHash.v
SigHashTheory.v
VerifyScript.v
VerifyTheory.v
ScriptCaching.v
CuckooCache.v
Merkle.v
BlockIndex.v
Pow.v
MedianTime.v
VersionBits.v
Headers.v
CoinsList.v
Coins.v
CoinsProgram.v
Compressor.v
DbWrapper.v
TxDb.v
CoinsStack.v
TxVerify.v
Signet.v
CheckBlock.v
BlockBinding.v
ScriptExamples.v
BlockExamples.v
