(* ===== verification/Prelude.v ===== *)
(** * A verification of libbitcoinkernel

    The program is swift-bitcoinkernel: a Swift package around Bitcoin Core's validation library.
    The library, in C++, is under src/Sources/libbitcoinkernel/src; every path below is relative to
    that directory.  This development models the part of it that decides consensus: serialization
    and hashing, scripts and signature hashes, the block index and its rules for headers, the checks
    of blocks and transactions, and the set of unspent outputs with its caches and its database.

    ** The parts and how they interact

    A block header enters through [AcceptBlockHeader] (validation.cpp), which hashes it (hash.h,
    crypto/), checks its work and difficulty (pow.cpp, arith_uint256.cpp), its time against the
    ancestors (chain.cpp) and its version (versionbits.cpp), and adds an entry to the block index
    (node/blockstorage.cpp).  A block is checked on its own by [CheckBlock], with its Merkle root
    (consensus/merkle.cpp), its transactions (consensus/tx_check.cpp) and, on signet, its solution
    (signet.cpp), then in its context by [ContextualCheckBlock].  The inputs of its transactions are
    looked up in a cache of coins (coins.cpp) by consensus/tx_verify.cpp, over other caches and over
    the coins database (txdb.cpp, dbwrapper.cpp, compressor.cpp), and its scripts are verified by
    [VerifyScript] (script/interpreter.cpp), which asks a checker for signatures (pubkey.cpp) over
    digests of the transaction.

    ** Which file models what

    Foundations.
    - Prelude: machine integers, digit lists, the bit operators, hints and tactics.
    - Endian: crypto/common.h.  Serialize: serialize.h, with formatters and their laws
      ([LawfulFormatter], the interface between the formats and their users).
    - ArithUint256: arith_uint256.h and arith_uint256.cpp.
    - Hasher: what the hash classes of crypto/ share; Sha256, Sha512, Sha1, Ripemd160, SipHash: the
      files of crypto/ of these names; Hash: hash.h, hash.cpp, HMAC and HKDF.
    - Primitives: primitives/transaction.h, primitives/block.h, consensus/amount.h and the weights of
      consensus/validation.h.

    Scripts.
    - Script: script/script.h and script/script.cpp.  PubKey: pubkey.h and pubkey.cpp.
    - Interpreter: [EvalScript]; a state record [EvalState], one definition per opcode or group of
      opcodes, [step] for one turn of the loop.  SigHash: the digests, [PrecomputedTransactionData],
      [SigHashCache] and the checker of a transaction.  VerifyScript: [VerifyScript], witness
      programs and Taproot.  All three are script/interpreter.cpp.
    - InterpreterTheory, DerSignatures, SigHashTheory, VerifyTheory, ScriptCaching: their theory.
    - CuckooCache: cuckoocache.h, the table behind the signature cache.
    - ScriptExamples: instances and witnesses.

    Headers and blocks.
    - Merkle: consensus/merkle.cpp.  BlockIndex: chain.h, chain.cpp and [AddToBlockIndex]; a pointer to an
      entry is its key in the map of entries.  Pow: pow.cpp.  MedianTime: [GetMedianTimePast].
      VersionBits: versionbits.cpp.  Headers: [AcceptBlockHeader] and the checks it makes.
    - TxVerify: consensus/tx_check.cpp and consensus/tx_verify.cpp.  Signet: signet.cpp.  CheckBlock:
      the checks of blocks in validation.cpp.  BlockBinding: what a block hash commits to.
    - BlockExamples: the first blocks of the main chain and variants of them, and witnesses.

    Unspent outputs.
    - CoinsList: coins and entries, with the linked list of flagged entries.  Coins: the class
      [CCoinsView] (the virtual methods), [CCoinsViewCache] and its operations.  CoinsProgram: code that
      works on a cache, as a tree of calls, and a predicate transformer for it.
    - Compressor: compressor.cpp.  DbWrapper: dbwrapper.cpp.  TxDb: txdb.cpp.  CoinsStack: a concrete
      stack of caches over a database, and witnesses.

    ** Conventions

    An integer is a [Z] and every conversion to a machine type is written out ([u32], [i64], ...).  A
    byte string is a list of numbers below 256; a position in it is the list of the bytes from there on.
    A result [None] is a failed assertion, a null pointer or an access out of range; where several
    outcomes must be told apart, the error type is a sum ([stop] in Interpreter, [failure] in CoinsList,
    [ser_error] in Serialize).  State is passed explicitly, also that of caches and memos which the
    C++ mutates behind a const interface.  A theorem that an operation returns therefore says that no
    assertion fails, no exception escapes and no pointer dangles.

    ** What the theorems show

    - Foundations: the big integers form the ring modulo a power of two, the compact form of a target
      round-trips up to its precision, transactions have one encoding in each format, the unrolled hash
      functions are those of their standards, and the incremental classes hash the concatenation of what
      they were fed, however it was cut.
    - Scripts: evaluation keeps its size limits and fails no assertion; verification of an input always
      returns; a flag only removes acceptance; precomputed data and the cache of midstates change no
      result; the digests are those of the legacy rules, BIP 143 and BIP 341; the compressed stack of
      conditions is a vector of booleans; multisignature checks match signatures to keys in order;
      strict DER is what its definition says and what the lax parser reads.
    - Headers: the accepted headers form a tree in which each meets the rules, difficulty steps are
      permitted ones, skip pointers and ancestors are right, [CChain] is the path to its tip, the version
      bits caches are transparent and every deployment is decided.
    - Blocks: the checks accept exactly the blocks that meet the rules, the Merkle root and paths are
      those of the tree, two unmutated blocks with one hash are equal unless a hash collides in an
      explicit list of messages, generated commitments are valid, heights make coinbases differ, a signet solution
      commits to the fields it is meant to.
    - Unspent outputs: a cache over any lawful view is a lawful view that behaves as a finite map of coins,
      its sanity check passes in every reachable state, a flush moves all changes to the base, the
      database survives a crash at any write, coins round-trip through their compressed form,
      accepted inputs conserve value, and lock-time opcodes bind the block that includes a
      transaction.

    ** Bounds and fuel

    A loop that is not structural has fuel.  Loops over a script or a byte string have its length
    (every turn consumes a byte), [merkle_loop] has the number of hashes (a round at least halves them),
    walks through the block index have the height or one more (every step goes down), the loops of the
    Merkle path have 32 (the bits of the counter), walks of the list of flagged entries have the number
    of entries.  The theorems that a function returns are proved with these values.  Hypotheses on sizes
    are those of the machine types: heights below 2^31, scripts and stacks below 2^32 bytes, blocks that
    fit in memory (below 2^62 bytes), at most 2^31 leaves for a Merkle path.

    ** What is assumed

    Code outside the repository's own sources is an interface.  libsecp256k1 is the classes [Secp256k1] and
    [Secp256k1Signatures] (PubKey), LevelDB the class [LevelDB] (DbWrapper), the sizes of C++ types the class
    [ABI] (Primitives), the parallel SHA-256 transforms chosen at start-up the class [D64Impl] (Merkle).
    Each has instances in the example files.  No theorem assumes that a hash function has no
    collisions: where one matters, the conclusion names the messages among which it would be.

    ** What is not modelled

    Connecting and disconnecting blocks and the activation of the best chain (the rest of validation.cpp),
    the mempool and relay policy, the signature cache's locks and the check queue (threads), block and undo
    files (input and output), the vectorised SHA-256 code (only the portable transform is modelled), the C
    interface of the kernel, bitcoind with its network, RPC and wallet, and the Swift wrappers.
    The memory use of a cache takes the capacity of a script to be its size (see CoinsList), and only a
    64-bit platform is considered where the pointer size matters. *)

From Stdlib Require Import ZArith Lia.
From stdpp Require Import base option list numbers gmap.

Open Scope Z_scope.

(** ** Machine integers

    A [w]-bit unsigned C++ integer is a [Z] in [0, 2^w); a conversion to the
    type is [uwrap w].  A signed one is a [Z] in [-2^(w-1), 2^(w-1)); the
    (implementation-defined, two's complement) conversion is [swrap w]. *)

Definition uwrap (w x : Z) : Z := x mod 2 ^ w.
Definition swrap (w x : Z) : Z := (x + 2 ^ (w - 1)) mod 2 ^ w - 2 ^ (w - 1).

Declare Scope kernel_scope.
Delimit Scope kernel_scope with kernel.
Notation "'u8' x" := (uwrap 8 x) (at level 9, x at level 9, format "'u8'  x") : kernel_scope.
Notation "'u16' x" := (uwrap 16 x) (at level 9, x at level 9, format "'u16'  x") : kernel_scope.
Notation "'u32' x" := (uwrap 32 x) (at level 9, x at level 9, format "'u32'  x") : kernel_scope.
Notation "'u64' x" := (uwrap 64 x) (at level 9, x at level 9, format "'u64'  x") : kernel_scope.
Notation "'i32' x" := (swrap 32 x) (at level 9, x at level 9, format "'i32'  x") : kernel_scope.
Notation "'i64' x" := (swrap 64 x) (at level 9, x at level 9, format "'i64'  x") : kernel_scope.
Notation "x .& y" := (Z.land x y) (at level 46, left associativity) : kernel_scope.
Notation "x .| y" := (Z.lor x y) (at level 48, left associativity) : kernel_scope.
Notation "x .^ y" := (Z.lxor x y) (at level 47, left associativity) : kernel_scope.
Notation "x .<< y" := (Z.shiftl x y) (at level 45, left associativity) : kernel_scope.
Notation "x .>> y" := (Z.shiftr x y) (at level 45, left associativity) : kernel_scope.
Open Scope kernel_scope.

(** The range of an unsigned [w]-bit value. *)
Definition urange (w x : Z) : Prop := 0 ≤ x < 2 ^ w.
Definition srange (w x : Z) : Prop := - 2 ^ (w - 1) ≤ x < 2 ^ (w - 1).

Lemma uwrap_range w x : 0 ≤ w → urange w (uwrap w x).
Proof. intros. apply Z.mod_pos_bound. lia. Qed.

Lemma uwrap_small w x : urange w x → uwrap w x = x.
Proof. apply Z.mod_small. Qed.

Lemma uwrap_uwrap w x : uwrap w (uwrap w x) = uwrap w x.
Proof. apply Zmod_mod. Qed.

Lemma swrap_range w x : 0 < w → srange w (swrap w x).
Proof.
  intros. unfold srange, swrap.
  assert (2 ^ w = 2 * 2 ^ (w - 1)) by (rewrite <-Z.pow_succ_r by lia; f_equal; lia).
  assert (0 < 2 ^ (w - 1)) by lia.
  pose proof (Z.mod_pos_bound (x + 2 ^ (w - 1)) (2 ^ w)). lia.
Qed.

Lemma swrap_small w x : 0 < w → srange w x → swrap w x = x.
Proof.
  intros Hw [??]. unfold swrap.
  assert (2 ^ w = 2 * 2 ^ (w - 1)) by (rewrite <-Z.pow_succ_r by lia; f_equal; lia).
  rewrite Z.mod_small; lia.
Qed.

Lemma land_ones_uwrap w x : 0 ≤ w → x .& Z.ones w = uwrap w x.
Proof. intros. by apply Z.land_ones. Qed.

(** [lia] with division and modulo by positive constants. *)
Ltac zlia := Z.div_mod_to_equations; lia.

Create HintDb kernel.
#[export] Hint Resolve uwrap_range swrap_range : kernel.
#[export] Hint Extern 1 (0 ≤ _) => lia : kernel.
#[export] Hint Extern 1 (0 < _) => lia : kernel.
#[export] Hint Extern 3 (urange _ _) => unfold urange; lia : kernel.

(** ** Bits of bounded numbers *)

Lemma testbit_high w x n : urange w x → 0 ≤ w ≤ n → Z.testbit x n = false.
Proof.
  intros Hx Hn. rewrite <-(uwrap_small w x Hx). by apply Z.mod_pow2_bits_high.
Qed.

Lemma lor_add_disjoint w a b :
  0 ≤ w → 0 ≤ b < 2 ^ w → (a * 2 ^ w) .| b = a * 2 ^ w + b.
Proof.
  intros Hw Hb. rewrite <-Z.shiftl_mul_pow2 by done. symmetry.
  rewrite <-Z.lxor_lor; [apply Z.add_nocarry_lxor|];
    (apply Z.bits_inj'; intros n Hn; rewrite Z.land_spec, Z.bits_0;
     destruct (decide (w ≤ n));
     [rewrite (testbit_high w b) by (unfold urange; lia); by rewrite andb_false_r
     |rewrite Z.shiftl_spec_low by lia; done]).
Qed.

Lemma urange_bits w x :
  0 ≤ w → 0 ≤ x → (∀ n, w ≤ n → Z.testbit x n = false) → urange w x.
Proof.
  intros Hw Hx Hbits. split; [done|].
  destruct (decide (x = 0)) as [->|]; [lia|].
  apply Z.log2_lt_pow2; [lia|].
  destruct (decide (Z.log2 x < w)) as [|Hge]; [done|exfalso].
  pose proof (Z.bit_log2 x ltac:(lia)) as Hb. by rewrite Hbits in Hb by lia.
Qed.

Lemma lor_range w a b : 0 ≤ w → urange w a → urange w b → urange w (a .| b).
Proof.
  intros Hw Ha Hb. apply urange_bits; [done|apply Z.lor_nonneg; split; [apply Ha|apply Hb]|].
  intros n Hn. by rewrite Z.lor_spec, (testbit_high w a), (testbit_high w b) by (done || lia).
Qed.

Lemma lxor_range w a b : 0 ≤ w → urange w a → urange w b → urange w (a .^ b).
Proof.
  intros Hw Ha Hb. apply urange_bits; [done|unfold urange in *; apply Z.lxor_nonneg; lia|].
  intros n Hn. by rewrite Z.lxor_spec, (testbit_high w a), (testbit_high w b) by (done || lia).
Qed.

Lemma land_range w a b : 0 ≤ w → 0 ≤ a → urange w b → urange w (a .& b).
Proof.
  intros Hw Ha Hb. apply urange_bits; [done|apply Z.land_nonneg; auto|].
  intros n Hn. by rewrite Z.land_spec, (testbit_high w b), andb_false_r by (done || lia).
Qed.

(** [x & (1 << n)] tests bit [n]. *)
Lemma land_bit_eqb x n : 0 ≤ n → negb (x .& (1 .<< n) =? 0) = Z.testbit x n.
Proof.
  intros Hn. rewrite Z.shiftl_1_l.
  destruct (Z.testbit x n) eqn:E; destruct (Z.eqb_spec (x .& 2 ^ n) 0) as [H|H]; try done; exfalso.
  - apply (f_equal (λ y, Z.testbit y n)) in H.
    by rewrite Z.land_spec, Z.pow2_bits_true, E, Z.bits_0 in H by lia.
  - apply H, Z.bits_inj'. intros m Hm. rewrite Z.land_spec, Z.pow2_bits_eqb, Z.bits_0 by lia.
    destruct (Z.eqb_spec n m) as [<-|]; [by rewrite E|by rewrite andb_false_r].
Qed.

(** Number of significant bits: the position of the highest bit plus one. *)
Definition bitlen (x : Z) : Z := if x =? 0 then 0 else Z.log2 x + 1.

Lemma bitlen_spec x : 0 < x → 2 ^ (bitlen x - 1) ≤ x < 2 ^ bitlen x.
Proof.
  intros Hx. unfold bitlen. destruct (Z.eqb_spec x 0); [lia|].
  pose proof (Z.log2_spec x Hx). replace (Z.log2 x + 1 - 1) with (Z.log2 x) by lia.
  by rewrite Z.add_1_r.
Qed.

Lemma bitlen_nonneg x : 0 ≤ bitlen x.
Proof. unfold bitlen. pose proof (Z.log2_nonneg x). destruct (x =? 0); lia. Qed.

Lemma bitlen_pos x : 0 < x → 1 ≤ bitlen x.
Proof.
  intros. unfold bitlen. destruct (Z.eqb_spec x 0); [lia|]. pose proof (Z.log2_nonneg x). lia.
Qed.

Lemma bitlen_le x n : 0 ≤ n → 0 ≤ x < 2 ^ n → bitlen x ≤ n.
Proof.
  intros Hn Hx. unfold bitlen. destruct (Z.eqb_spec x 0); [done|].
  pose proof (proj1 (Z.log2_lt_pow2 x n ltac:(lia)) ltac:(lia)). lia.
Qed.

Lemma bitlen_shift lo d n :
  0 ≤ n → 0 ≤ lo < 2 ^ n → 0 < d → bitlen (lo + d * 2 ^ n) = n + bitlen d.
Proof.
  intros Hn Hlo Hd. unfold bitlen.
  destruct (Z.eqb_spec d 0), (Z.eqb_spec (lo + d * 2 ^ n) 0); try nia.
  rewrite (Z.log2_unique _ (n + Z.log2 d)); [lia|pose proof (Z.log2_nonneg d); lia|].
  pose proof (Z.log2_spec d Hd) as [H1 H2]. pose proof (Z.log2_nonneg d).
  rewrite <-Z.add_succ_r, !Z.pow_add_r by lia. split; [nia|].
  assert (d + 1 ≤ 2 ^ Z.succ (Z.log2 d)) by lia. nia.
Qed.

(** ** Arrays of integers

    [l .[i]] reads entry [i] of an array; the models only read in range, where
    the C++ read is defined. *)

Definition zget (l : list Z) (i : nat) : Z := default 0 (l !! i).
Notation "l .[ i ]" := (zget l i) (at level 1, left associativity, format "l .[ i ]") : kernel_scope.

Lemma zget_cons_0 d l : (d :: l).[0] = d.
Proof. done. Qed.
Lemma zget_cons_S d l i : (d :: l).[S i] = l.[i].
Proof. done. Qed.
Lemma zget_insert_eq l i d : (i < length l)%nat → (<[i:=d]> l).[i] = d.
Proof. intros. unfold zget. by rewrite list_lookup_insert_eq. Qed.
Lemma zget_insert_ne l i j d : i ≠ j → (<[i:=d]> l).[j] = l.[j].
Proof. intros. unfold zget. by rewrite list_lookup_insert_ne. Qed.
Lemma zget_ge l i : (length l ≤ i)%nat → l.[i] = 0.
Proof. intros. unfold zget. by rewrite lookup_ge_None_2. Qed.
Lemma zget_replicate_0 n i : (replicate n 0).[i] = 0.
Proof.
  unfold zget. destruct (replicate n 0 !! i) eqn:E; [|done].
  by apply lookup_replicate in E as [-> _].
Qed.

Lemma list_eq_zget (l1 l2 : list Z) :
  length l1 = length l2 → (∀ i, (i < length l1)%nat → l1.[i] = l2.[i]) → l1 = l2.
Proof.
  revert l2. induction l1 as [|d l1 IH]; intros [|e l2] Hlen H; simpl in *; try done.
  f_equal; [apply (H 0%nat); lia|]. apply IH; [lia|].
  intros i Hi. apply (H (S i)). lia.
Qed.

Lemma zget_take l n i : (i < n)%nat → (take n l).[i] = l.[i].
Proof. intros. unfold zget. by rewrite lookup_take_lt. Qed.

(** ** Loops

    [for (i = s; i < s + n; i++) body] over a state is [foldl] over [seq s n]. *)

Lemma foldl_seq_ind {A} (P : nat → A → Prop) (f : A → nat → A) s n a :
  P s a →
  (∀ i a, (s ≤ i < s + n)%nat → P i a → P (S i) (f a i)) →
  P (s + n)%nat (foldl f a (seq s n)).
Proof.
  revert s a. induction n as [|n IH]; intros s a Ha Hstep; simpl.
  - by rewrite Nat.add_0_r.
  - replace (s + S n)%nat with (S s + n)%nat by lia. apply IH.
    + apply Hstep; [lia|done].
    + intros i b Hi. apply Hstep. lia.
Qed.

(** A loop that rewrites every entry from its old value. *)
Lemma foldl_insert_zget (g : nat → Z → Z) (l : list Z) n :
  (n ≤ length l)%nat →
  let r := foldl (λ pn i, <[i := g i pn.[i]]> pn) l (seq 0 n) in
  length r = length l ∧
  ∀ i, r.[i] = if (i <? n)%nat then g i l.[i] else l.[i].
Proof.
  intros Hn.
  apply (foldl_seq_ind (λ k r, length r = length l ∧
    ∀ i, r.[i] = if (i <? k)%nat then g i l.[i] else l.[i])).
  - split; [done|]. intros i. by destruct (Nat.ltb_spec i 0); [lia|].
  - intros k r Hk [Hlen Hr]. split; [by rewrite length_insert|]. intros i.
    destruct (decide (k = i)) as [<-|Hne].
    + rewrite zget_insert_eq, (Hr k) by lia.
      by destruct (Nat.ltb_spec k k), (Nat.ltb_spec k (S k)); (done || lia).
    + rewrite zget_insert_ne, Hr by done.
      by destruct (Nat.ltb_spec i k), (Nat.ltb_spec i (S k)); (done || lia).
Qed.

(** ** Positional notation

    Little-endian digit lists in base [2^w]: the limbs of a [base_uint]
    ([w = 32]), the bytes of a serialized integer ([w = 8]). *)

Fixpoint undigits (w : Z) (l : list Z) : Z :=
  match l with
  | [] => 0
  | d :: l => d + 2 ^ w * undigits w l
  end.

Fixpoint digits (w : Z) (n : nat) (x : Z) : list Z :=
  match n with
  | O => []
  | S n => x mod 2 ^ w :: digits w n (x / 2 ^ w)
  end.

Definition digits_ok (w : Z) (l : list Z) : Prop := Forall (urange w) l.

Section Digits.
Context (w : Z) (Hw : 0 < w).

Lemma length_digits n x : length (digits w n x) = n.
Proof. revert x; induction n; intros; simpl; auto. Qed.

Lemma digits_digits_ok n x : digits_ok w (digits w n x).
Proof.
  revert x; induction n; intros; simpl; constructor; [|apply IHn].
  apply Z.mod_pos_bound. lia.
Qed.

Lemma undigits_range l :
  digits_ok w l → 0 ≤ undigits w l < 2 ^ (w * Z.of_nat (length l)).
Proof.
  induction 1 as [|d l [Hd1 Hd2] Hl IH]; [simpl; by rewrite Z.mul_0_r|].
  cbn [undigits length].
  replace (w * Z.of_nat (S (length l))) with (w + w * Z.of_nat (length l)) by lia.
  rewrite Z.pow_add_r by lia. nia.
Qed.

Lemma undigits_digits n x : undigits w (digits w n x) = x mod 2 ^ (w * Z.of_nat n).
Proof.
  revert x; induction n as [|n IH]; intros x; cbn [undigits digits].
  - by rewrite Z.mul_0_r, Z.mod_1_r.
  - rewrite IH. replace (w * Z.of_nat (S n)) with (w + w * Z.of_nat n) by lia.
    rewrite Z.pow_add_r by lia. rewrite Z.rem_mul_r by lia. lia.
Qed.

Lemma digits_undigits l : digits_ok w l → digits w (length l) (undigits w l) = l.
Proof.
  induction 1 as [|d l [Hd1 Hd2] Hl IH]; [done|]. cbn [digits undigits length].
  rewrite (Z.mul_comm (2 ^ w)), Z.mod_add, Z.div_add by lia.
  rewrite Z.mod_small, Z.div_small by lia. by rewrite Z.add_0_l, IH.
Qed.

Lemma undigits_inj l1 l2 :
  digits_ok w l1 → digits_ok w l2 → length l1 = length l2 →
  undigits w l1 = undigits w l2 → l1 = l2.
Proof.
  intros H1 H2 Hlen Heq.
  by rewrite <-(digits_undigits l1), <-(digits_undigits l2), Hlen, Heq.
Qed.

Lemma undigits_app l1 l2 :
  undigits w (l1 ++ l2) = undigits w l1 + 2 ^ (w * Z.of_nat (length l1)) * undigits w l2.
Proof.
  induction l1 as [|d l1 IH]; cbn [undigits app length].
  - rewrite Z.mul_0_r. lia.
  - rewrite IH. replace (w * Z.of_nat (S (length l1))) with (w + w * Z.of_nat (length l1)) by lia.
    rewrite Z.pow_add_r by lia. lia.
Qed.

Lemma undigits_replicate_0 n : undigits w (replicate n 0) = 0.
Proof. induction n as [|n IH]; simpl; [done|]. rewrite IH. lia. Qed.

Lemma digits_ok_replicate_0 n : digits_ok w (replicate n 0).
Proof. apply Forall_replicate. unfold urange. lia. Qed.

Lemma digits_ok_insert l i d : digits_ok w l → urange w d → digits_ok w (<[i:=d]> l).
Proof. intros. by apply Forall_insert. Qed.

Lemma digits_ok_zget l i : digits_ok w l → urange w l.[i].
Proof.
  intros Hl. unfold zget. destruct (l !! i) as [d|] eqn:Hd; simpl.
  - by eapply Forall_lookup_1 in Hd.
  - unfold urange. lia.
Qed.

Lemma undigits_insert l i d :
  (i < length l)%nat →
  undigits w (<[i:=d]> l) = undigits w l + (d - l.[i]) * 2 ^ (w * Z.of_nat i).
Proof.
  revert i. induction l as [|e l IH]; intros i Hi; simpl in Hi; [lia|].
  destruct i as [|i]; cbn [insert list_insert undigits].
  - rewrite Z.mul_0_r, zget_cons_0. lia.
  - rewrite IH, zget_cons_S by lia. replace (w * Z.of_nat (S i)) with (w + w * Z.of_nat i) by lia.
    rewrite Z.pow_add_r by lia. lia.
Qed.

Lemma undigits_take_S l i :
  (i < length l)%nat →
  undigits w (take (S i) l) = undigits w (take i l) + l.[i] * 2 ^ (w * Z.of_nat i).
Proof.
  intros Hi. destruct (lookup_lt_is_Some_2 l i Hi) as [d Hd].
  rewrite (take_S_r _ _ _ Hd), undigits_app, length_take_le by lia.
  unfold zget. rewrite Hd. cbn [undigits default from_option id]. lia.
Qed.

Lemma digits_ok_take l i : digits_ok w l → digits_ok w (take i l).
Proof. apply Forall_take. Qed.

Lemma undigits_take_range l i :
  digits_ok w l → (i ≤ length l)%nat → 0 ≤ undigits w (take i l) < 2 ^ (w * Z.of_nat i).
Proof.
  intros Hl Hi. pose proof (undigits_range _ (digits_ok_take l i Hl)) as H.
  by rewrite length_take_le in H by lia.
Qed.

Lemma undigits_take_drop l i :
  (i ≤ length l)%nat →
  undigits w l = undigits w (take i l) + 2 ^ (w * Z.of_nat i) * undigits w (drop i l).
Proof.
  intros Hi. rewrite <-(take_drop i l) at 1. by rewrite undigits_app, length_take_le by lia.
Qed.

(** Bit [n] of the number is bit [n mod w] of digit [n / w]. *)
Lemma undigits_testbit l n :
  digits_ok w l → 0 ≤ n →
  Z.testbit (undigits w l) n = Z.testbit (l.[Z.to_nat (n / w)]) (n mod w).
Proof.
  intros Hl. revert n. induction Hl as [|d l Hd Hl IH]; intros n Hn.
  - cbn [undigits]. rewrite Z.bits_0. symmetry. apply Z.bits_0.
  - cbn [undigits].
    replace (d + 2 ^ w * undigits w l) with (undigits w l * 2 ^ w + d) by lia.
    rewrite <-lor_add_disjoint by (done || lia).
    rewrite Z.lor_spec, <-Z.shiftl_mul_pow2, Z.shiftl_spec by lia.
    destruct (decide (n < w)).
    + rewrite Z.testbit_neg_r, Z.div_small, Z.mod_small by lia. done.
    + rewrite (testbit_high w d), orb_false_r by (done || lia).
      rewrite IH by lia.
      replace n with (n - w + 1 * w) at 3 4 by lia.
      rewrite Z.div_add, Z.mod_add by lia.
      assert (0 ≤ (n - w) / w) by (apply Z.div_pos; lia).
      rewrite Z2Nat.inj_add by lia. replace (Z.to_nat 1) with 1%nat by done.
      by rewrite Nat.add_1_r.
Qed.
End Digits.

#[export] Hint Resolve digits_ok_take digits_digits_ok digits_ok_replicate_0 digits_ok_insert
  digits_ok_zget : kernel.

(** ** Byte strings *)

Abbreviation bytes := (list Z).
Abbreviation uint256 := (list Z).
Abbreviation bytes_ok := (digits_ok 8).

Lemma digits_ok_app w l1 l2 : digits_ok w (l1 ++ l2) ↔ digits_ok w l1 ∧ digits_ok w l2.
Proof. apply Forall_app. Qed.
Lemma digits_ok_cons w d l : digits_ok w (d :: l) ↔ urange w d ∧ digits_ok w l.
Proof. apply Forall_cons. Qed.
Lemma digits_ok_singleton w d : digits_ok w [d] ↔ urange w d.
Proof. apply Forall_singleton. Qed.
Lemma digits_ok_nil w : digits_ok w [].
Proof. constructor. Qed.
#[export] Hint Resolve digits_ok_nil : kernel.

Definition uint256_ok (h : uint256) : Prop := length h = 32%nat ∧ bytes_ok h.
Definition uint256_zero : uint256 := replicate 32 0.

Lemma list_8 (s : list Z) :
  length s = 8%nat → ∃ s0 s1 s2 s3 s4 s5 s6 s7, s = [s0; s1; s2; s3; s4; s5; s6; s7].
Proof.
  destruct s as [|s0 [|s1 [|s2 [|s3 [|s4 [|s5 [|s6 [|s7 [|]]]]]]]]]; try done. eauto 10.
Qed.
Lemma list_5 (s : list Z) :
  length s = 5%nat → ∃ s0 s1 s2 s3 s4, s = [s0; s1; s2; s3; s4].
Proof. destruct s as [|s0 [|s1 [|s2 [|s3 [|s4 [|]]]]]]; try done. eauto 10. Qed.

(** ** Exceptions

    A computation that may throw is a sum: [inl e] is the exception. *)

Definition throw {E A} (e : E) : E + A := inl e.

#[export] Instance sum_mret {E} : MRet (sum E) := λ A x, inr x.
#[export] Instance sum_mbind {E} : MBind (sum E) :=
  λ A B f m, match m with inl e => inl e | inr x => f x end.

Lemma bind_inr {E A B} (f : A → E + B) (m : E + A) y :
  m ≫= f = inr y ↔ ∃ x, m = inr x ∧ f x = inr y.
Proof.
  destruct m as [e|x]; simpl; [|naive_solver].
  split; [done|]. intros (x & H & _). done.
Qed.
