(* ===== verification/Endian.v ===== *)
(** * Integers in memory

    Models [src/Sources/libbitcoinkernel/src/crypto/common.h]: reads and writes of
    little- and big-endian integers.  A pointer into a byte array is the list of the
    bytes from it on; a write is the list of the bytes it stores. *)

From S2P Require Import Prelude.
From Stdlib Require Import ZArith Lia.
From stdpp Require Import base option list numbers.

Open Scope Z_scope.
Open Scope kernel_scope.

Definition ReadLE16 (ptr : bytes) : Z := undigits 8 (take 2 ptr).
Definition ReadLE32 (ptr : bytes) : Z := undigits 8 (take 4 ptr).
Definition ReadLE64 (ptr : bytes) : Z := undigits 8 (take 8 ptr).
Definition WriteLE16 (x : Z) : bytes := digits 8 2 x.
Definition WriteLE32 (x : Z) : bytes := digits 8 4 x.
Definition WriteLE64 (x : Z) : bytes := digits 8 8 x.

Definition ReadBE16 (ptr : bytes) : Z := undigits 8 (rev (take 2 ptr)).
Definition ReadBE32 (ptr : bytes) : Z := undigits 8 (rev (take 4 ptr)).
Definition ReadBE64 (ptr : bytes) : Z := undigits 8 (rev (take 8 ptr)).
Definition WriteBE16 (x : Z) : bytes := rev (digits 8 2 x).
Definition WriteBE32 (x : Z) : bytes := rev (digits 8 4 x).
Definition WriteBE64 (x : Z) : bytes := rev (digits 8 8 x).

(** [memcpy(dst + off, src, src.size())]. *)
Definition memcpy (dst : bytes) (off : nat) (src : bytes) : bytes :=
  take off dst ++ src ++ drop (off + length src) dst.

Lemma bytes_ok_rev l : bytes_ok l → bytes_ok (rev l).
Proof. apply Forall_rev. Qed.

Lemma bytes_ok_drop n l : bytes_ok l → bytes_ok (drop n l).
Proof. apply Forall_drop. Qed.

Lemma length_WriteLE32 x : length (WriteLE32 x) = 4%nat.
Proof. apply length_digits. Qed.
Lemma length_WriteLE64 x : length (WriteLE64 x) = 8%nat.
Proof. apply length_digits. Qed.
Lemma length_WriteBE32 x : length (WriteBE32 x) = 4%nat.
Proof. unfold WriteBE32. by rewrite length_rev, length_digits. Qed.
Lemma length_WriteBE64 x : length (WriteBE64 x) = 8%nat.
Proof. unfold WriteBE64. by rewrite length_rev, length_digits. Qed.

Lemma WriteLE32_ok x : bytes_ok (WriteLE32 x).
Proof. by apply digits_digits_ok. Qed.
Lemma WriteLE64_ok x : bytes_ok (WriteLE64 x).
Proof. by apply digits_digits_ok. Qed.
Lemma WriteBE32_ok x : bytes_ok (WriteBE32 x).
Proof. by apply bytes_ok_rev, digits_digits_ok. Qed.
Lemma WriteBE64_ok x : bytes_ok (WriteBE64 x).
Proof. by apply bytes_ok_rev, digits_digits_ok. Qed.

#[export] Hint Resolve bytes_ok_rev bytes_ok_drop WriteLE32_ok WriteLE64_ok WriteBE32_ok
  WriteBE64_ok : kernel.

Lemma ReadLE32_write x rest : ReadLE32 (WriteLE32 x ++ rest) = u32 x.
Proof.
  unfold ReadLE32. rewrite take_app_length' by (by rewrite length_WriteLE32).
  by apply undigits_digits.
Qed.
Lemma ReadLE64_write x rest : ReadLE64 (WriteLE64 x ++ rest) = u64 x.
Proof.
  unfold ReadLE64. rewrite take_app_length' by (by rewrite length_WriteLE64).
  by apply undigits_digits.
Qed.
Lemma ReadBE32_write x rest : ReadBE32 (WriteBE32 x ++ rest) = u32 x.
Proof.
  unfold ReadBE32. rewrite take_app_length' by (by rewrite length_WriteBE32).
  unfold WriteBE32. rewrite rev_involutive. by apply undigits_digits.
Qed.
Lemma ReadBE64_write x rest : ReadBE64 (WriteBE64 x ++ rest) = u64 x.
Proof.
  unfold ReadBE64. rewrite take_app_length' by (by rewrite length_WriteBE64).
  unfold WriteBE64. rewrite rev_involutive. by apply undigits_digits.
Qed.

(** A read of bytes is in the range of its type. *)
Lemma undigits_take_urange n l :
  bytes_ok l → urange (8 * Z.of_nat n) (undigits 8 (take n l)).
Proof.
  intros Hl. pose proof (undigits_range 8 ltac:(lia) (take n l) ltac:(auto with kernel)) as H.
  split; [apply H|]. eapply Z.lt_le_trans; [apply H|].
  apply Z.pow_le_mono_r; [lia|]. rewrite length_take. lia.
Qed.
Lemma ReadLE32_range l : bytes_ok l → urange 32 (ReadLE32 l).
Proof. apply (undigits_take_urange 4). Qed.
Lemma ReadLE64_range l : bytes_ok l → urange 64 (ReadLE64 l).
Proof. apply (undigits_take_urange 8). Qed.
Lemma ReadBE32_range l : bytes_ok l → urange 32 (ReadBE32 l).
Proof.
  intros Hl. unfold ReadBE32. set (b := rev (take 4 l)).
  assert (bytes_ok b) as Hb by (unfold b; auto with kernel).
  pose proof (undigits_take_urange 4 b Hb) as H. rewrite take_ge in H; [done|].
  unfold b. rewrite length_rev, length_take. lia.
Qed.
#[export] Hint Resolve ReadLE32_range ReadLE64_range ReadBE32_range : kernel.

Lemma memcpy_length dst off src :
  (off + length src ≤ length dst)%nat → length (memcpy dst off src) = length dst.
Proof. intros. unfold memcpy. rewrite !length_app, length_take, length_drop. lia. Qed.

Lemma take_memcpy dst off src :
  (off ≤ length dst)%nat → take (off + length src) (memcpy dst off src) = take off dst ++ src.
Proof.
  intros. unfold memcpy. rewrite app_assoc, take_app_length'; [done|].
  rewrite length_app, length_take. lia.
Qed.
