(* ===== verification/ArithUint256.v ===== *)
(** * arith_uint256: fixed-width big integers and the compact target format

    Models [src/Sources/libbitcoinkernel/src/arith_uint256.{h,cpp}].

    A [base_uint<BITS>] is its array [pn] of [WIDTH = BITS / 32] 32-bit digits,
    least significant first; every operator is the loop of the source over that
    array.  [val] reads the array as a number; the theorems say that each loop
    computes the corresponding operation of the integers modulo [2^BITS]. *)

From S2P Require Import Prelude Endian.
From Stdlib Require Import ZArith Lia.
From stdpp Require Import base option list numbers.

Open Scope Z_scope.
Open Scope kernel_scope.

Module base_uint.
Section base_uint.
Context (WIDTH : nat).

(** The number an array of digits stands for, and the shape of the arrays. *)
Definition val (pn : list Z) : Z := undigits 32 pn.
Definition BITS : Z := 32 * Z.of_nat WIDTH.
Record wf (pn : list Z) : Prop := {
  wf_length : length pn = WIDTH;
  wf_digits : digits_ok 32 pn;
}.

(** [base_uint()] and [base_uint(uint64_t b)]. *)
Definition zero : list Z := replicate WIDTH 0.

Definition of_u64 (b : Z) : list Z :=
  <[1%nat := u32 (b .>> 32)]> (<[0%nat := u32 b]> (replicate WIDTH 0)).

Definition bitnot (pn : list Z) : list Z :=
  foldl (λ ret i, <[i := u32 (Z.lnot pn.[i])]> ret) zero (seq 0 WIDTH).

(** [while (i < WIDTH && ++pn[i] == 0) i++;] with [n = WIDTH - i] digits left. *)
Fixpoint inc_loop (n i : nat) (pn : list Z) : list Z :=
  match n with
  | O => pn
  | S n =>
      let d := u32 (pn.[i] + 1) in
      let pn := <[i := d]> pn in
      if d =? 0 then inc_loop n (S i) pn else pn
  end.
Definition inc (pn : list Z) : list Z := inc_loop WIDTH 0 pn.

(** [while (i < WIDTH && --pn[i] == 0xffffffff) i++;] *)
Fixpoint dec_loop (n i : nat) (pn : list Z) : list Z :=
  match n with
  | O => pn
  | S n =>
      let d := u32 (pn.[i] - 1) in
      let pn := <[i := d]> pn in
      if d =? 2 ^ 32 - 1 then dec_loop n (S i) pn else pn
  end.
Definition dec (pn : list Z) : list Z := dec_loop WIDTH 0 pn.

Definition neg (pn : list Z) : list Z := inc (bitnot pn).

Definition digitwise (op : Z → Z → Z) (pn b : list Z) : list Z :=
  foldl (λ pn i, <[i := op pn.[i] b.[i]]> pn) pn (seq 0 WIDTH).
Definition xor_assign (pn b : list Z) : list Z := digitwise Z.lxor pn b.
Definition and_assign (pn b : list Z) : list Z := digitwise Z.land pn b.
Definition or_assign (pn b : list Z) : list Z := digitwise Z.lor pn b.

Definition shl_step (a : list Z) (k : nat) (shift : Z) (pn : list Z) (i : nat) : list Z :=
  let pn := if (i + k + 1 <? WIDTH)%nat && negb (shift =? 0)
            then <[(i + k + 1)%nat := pn.[(i + k + 1)%nat] .| (a.[i] .>> (32 - shift))]> pn
            else pn in
  if (i + k <? WIDTH)%nat
  then <[(i + k)%nat := pn.[(i + k)%nat] .| u32 (a.[i] .<< shift)]> pn
  else pn.
Definition shl (a : list Z) (shift : Z) : list Z :=
  foldl (shl_step a (Z.to_nat (shift / 32)) (shift mod 32)) zero (seq 0 WIDTH).

Definition shr_step (a : list Z) (k : nat) (shift : Z) (pn : list Z) (i : nat) : list Z :=
  let pn := if (k + 1 <=? i)%nat && negb (shift =? 0)
            then <[(i - k - 1)%nat := pn.[(i - k - 1)%nat] .| u32 (a.[i] .<< (32 - shift))]> pn
            else pn in
  if (k <=? i)%nat
  then <[(i - k)%nat := pn.[(i - k)%nat] .| (a.[i] .>> shift)]> pn
  else pn.
Definition shr (a : list Z) (shift : Z) : list Z :=
  foldl (shr_step a (Z.to_nat (shift / 32)) (shift mod 32)) zero (seq 0 WIDTH).

Definition add_step (b : list Z) (st : Z * list Z) (i : nat) : Z * list Z :=
  let '(carry, pn) := st in
  let n := u64 (carry + pn.[i] + b.[i]) in
  (n .>> 32, <[i := n .& 0xffffffff]> pn).
Definition add (pn b : list Z) : list Z :=
  snd (foldl (add_step b) (0, pn) (seq 0 WIDTH)).

Definition sub (pn b : list Z) : list Z := add pn (neg b).

(** The [uint64_t] overloads of [+=] and [-=]. *)
Definition add_u64 (pn : list Z) (b64 : Z) : list Z := add pn (of_u64 b64).
Definition sub_u64 (pn : list Z) (b64 : Z) : list Z := add pn (neg (of_u64 b64)).

Definition mul_u32_step (b32 : Z) (st : Z * list Z) (i : nat) : Z * list Z :=
  let '(carry, pn) := st in
  let n := u64 (carry + b32 * pn.[i]) in
  (n .>> 32, <[i := n .& 0xffffffff]> pn).
Definition mul_u32 (pn : list Z) (b32 : Z) : list Z :=
  snd (foldl (mul_u32_step b32) (0, pn) (seq 0 WIDTH)).

Definition mul_inner (pnj : Z) (b : list Z) (j : nat) (st : Z * list Z) (i : nat) : Z * list Z :=
  let '(carry, a) := st in
  let n := u64 (carry + a.[(i + j)%nat] + pnj * b.[i]) in
  (n .>> 32, <[(i + j)%nat := n .& 0xffffffff]> a).
Definition mul_outer (pn b a : list Z) (j : nat) : list Z :=
  snd (foldl (mul_inner pn.[j] b j) (0, a) (seq 0 (WIDTH - j))).
Definition mul (pn b : list Z) : list Z :=
  foldl (mul_outer pn b) zero (seq 0 WIDTH).

(** [for (int i = WIDTH - 1; i >= 0; i--)] with [n = i + 1]. *)
Fixpoint compare_loop (n : nat) (pn b : list Z) : Z :=
  match n with
  | O => 0
  | S i =>
      if pn.[i] <? b.[i] then -1
      else if b.[i] <? pn.[i] then 1
      else compare_loop i pn b
  end.
Definition CompareTo (pn b : list Z) : Z := compare_loop WIDTH pn b.

Definition ltb (a b : list Z) : bool := CompareTo a b <? 0.
Definition gtb (a b : list Z) : bool := 0 <? CompareTo a b.
Definition geb (a b : list Z) : bool := 0 <=? CompareTo a b.

(** [for (int i = WIDTH - 1; i >= 2; i--) if (pn[i]) return false;] *)
Definition EqualTo (pn : list Z) (b : Z) : bool :=
  if existsb (λ i, negb (pn.[i] =? 0)) (rev (seq 2 (WIDTH - 2))) then false
  else if negb (pn.[1%nat] =? b .>> 32) then false
  else if negb (pn.[0%nat] =? b .& 0xffffffff) then false
  else true.

(** The inner loop of [bits]: [for (nbits = 31; nbits > 0; nbits--)]. *)
Fixpoint bits_digit (d : Z) (pos : nat) (nbits : nat) : Z :=
  match nbits with
  | O => 32 * Z.of_nat pos + 1
  | S n =>
      if negb ((d .& (1 .<< Z.of_nat nbits)) =? 0)
      then 32 * Z.of_nat pos + Z.of_nat nbits + 1
      else bits_digit d pos n
  end.
Fixpoint bits_loop (n : nat) (pn : list Z) : Z :=
  match n with
  | O => 0
  | S pos => if negb (pn.[pos] =? 0) then bits_digit pn.[pos] pos 31 else bits_loop pos pn
  end.
Definition bits (pn : list Z) : Z := bits_loop WIDTH pn.

Definition GetLow64 (pn : list Z) : Z := pn.[0%nat] .| u64 (pn.[1%nat] .<< 32).

(** [while (shift >= 0)]; [steps = shift + 1].  The state is the quotient
    ([*this]), the running numerator and the shifted divisor. *)
Fixpoint div_loop (steps : nat) (q num div : list Z) : list Z * list Z :=
  match steps with
  | O => (q, num)
  | S shift =>
      let '(q, num) :=
        if geb num div
        then (let k := (shift / 32)%nat in
              <[k := q.[k] .| u32 (1 .<< (Z.of_nat shift .& 31))]> q, sub num div)
        else (q, num) in
      div_loop shift q num (shr div 1)
  end.

(** [None] is the [uint_error] exception "Division by zero". *)
Definition div (this b : list Z) : option (list Z) :=
  let num_bits := bits this in
  let div_bits := bits b in
  if div_bits =? 0 then None
  else if num_bits <? div_bits then Some zero
  else
    let shift := num_bits - div_bits in
    Some (fst (div_loop (Z.to_nat (shift + 1)) zero this (shl b shift))).
End base_uint.
End base_uint.

Module arith_uint256.
Definition WIDTH : nat := 8.

(** [SetCompact] returns the number and the two optional flag outputs. *)
Record compact_result := {
  sc_value : list Z;
  sc_negative : bool;
  sc_overflow : bool;
}.

Definition SetCompact (nCompact : Z) : compact_result :=
  let nSize := nCompact .>> 24 in
  let nWord := nCompact .& 0x007fffff in
  let '(nWord, this) :=
    if nSize <=? 3
    then let nWord := nWord .>> (8 * (3 - nSize)) in (nWord, base_uint.of_u64 WIDTH nWord)
    else (nWord, base_uint.shl WIDTH (base_uint.of_u64 WIDTH nWord) (8 * (nSize - 3))) in
  {| sc_value := this;
     sc_negative := negb (nWord =? 0) && negb (nCompact .& 0x00800000 =? 0);
     sc_overflow := negb (nWord =? 0) &&
                    ((34 <? nSize) || ((0xff <? nWord) && (33 <? nSize))
                     || ((0xffff <? nWord) && (32 <? nSize))) |}.

(** [None] is a failed [assert]. *)
Definition GetCompact (this : list Z) (fNegative : bool) : option Z :=
  let nSize := (base_uint.bits WIDTH this + 7) / 8 in
  let nCompact :=
    if nSize <=? 3
    then u32 (u64 (base_uint.GetLow64 this .<< (8 * (3 - nSize))))
    else u32 (base_uint.GetLow64 (base_uint.shr WIDTH this (8 * (nSize - 3)))) in
  let '(nCompact, nSize) :=
    if negb (nCompact .& 0x00800000 =? 0) then (nCompact .>> 8, nSize + 1)
    else (nCompact, nSize) in
  if negb (nCompact .& u32 (Z.lnot 0x007fffff) =? 0) then None
  else if negb (nSize <? 256) then None
  else
    let nCompact := nCompact .| (nSize .<< 24) in
    let nCompact := nCompact .| (if fNegative && negb (nCompact .& 0x007fffff =? 0)
                                 then 0x00800000 else 0) in
    Some nCompact.

(** [uint256] is an opaque blob of 32 bytes. *)

Definition ArithToUint256 (a : list Z) : list Z :=
  foldl (λ b x, b ++ WriteLE32 a.[x]) [] (seq 0 WIDTH).
Definition UintToArith256 (a : list Z) : list Z :=
  foldl (λ b x, <[x := ReadLE32 (drop (x * 4) a)]> b) (base_uint.zero WIDTH) (seq 0 WIDTH).
End arith_uint256.


(** ** The operators of base_uint compute modulo 2^BITS *)

Module base_uint_facts.
Import base_uint.
Section facts.
Context (WIDTH : nat).
#[local] Abbreviation wf := (wf WIDTH).
#[local] Abbreviation BITS := (BITS WIDTH).

Lemma BITS_nonneg : 0 ≤ BITS.
Proof. unfold base_uint.BITS. lia. Qed.

Lemma val_range a : wf a → 0 ≤ val a < 2 ^ BITS.
Proof.
  intros [Hl Hd]. unfold base_uint.BITS. rewrite <-Hl.
  by apply undigits_range.
Qed.

Lemma val_inj a b : wf a → wf b → val a = val b → a = b.
Proof. intros [? Ha] [? Hb]. apply undigits_inj; [lia|done|done|congruence]. Qed.

Lemma wf_zget a i : wf a → urange 32 a.[i].
Proof. intros [_ Ha]. apply digits_ok_zget; [lia|done]. Qed.

Lemma wf_zero : wf (zero WIDTH).
Proof. split; [apply length_replicate|apply digits_ok_replicate_0; lia]. Qed.

Lemma val_zero : val (zero WIDTH) = 0.
Proof. apply undigits_replicate_0. Qed.

Lemma wf_insert a i d : wf a → urange 32 d → wf (<[i:=d]> a).
Proof. intros [??] ?. split; [by rewrite length_insert|by apply digits_ok_insert]. Qed.

(** A result in range that agrees with [x] up to a multiple of [2^BITS]. *)
Lemma val_mod a x c : wf a → val a + c * 2 ^ BITS = x → val a = x mod 2 ^ BITS.
Proof.
  intros Ha <-. pose proof BITS_nonneg.
  rewrite Z.mod_add, Z.mod_small by (lia || by apply val_range). done.
Qed.

Lemma of_u64_ok b : (2 ≤ WIDTH)%nat → wf (of_u64 WIDTH b) ∧ val (of_u64 WIDTH b) = u64 b.
Proof.
  intros HW. split.
  - unfold of_u64. repeat apply wf_insert; auto using wf_zero with kernel.
  - unfold val, of_u64.
    rewrite undigits_insert, undigits_insert by (rewrite ?length_insert, ?length_replicate; lia).
    rewrite zget_insert_ne, !zget_replicate_0, undigits_replicate_0 by done.
    unfold uwrap. rewrite Z.shiftr_div_pow2 by lia.
    replace (2 ^ 64) with (2 ^ 32 * 2 ^ 32) by lia.
    rewrite Z.rem_mul_r by lia. lia.
Qed.

Lemma undigits_map_compl l :
  undigits 32 (map (λ d, 2 ^ 32 - 1 - d) l) = 2 ^ (32 * Z.of_nat (length l)) - 1 - undigits 32 l.
Proof.
  induction l as [|d l IH]; cbn [map undigits length]; [done|].
  rewrite IH. replace (32 * Z.of_nat (S (length l))) with (32 + 32 * Z.of_nat (length l)) by lia.
  rewrite Z.pow_add_r by lia. lia.
Qed.

Lemma u32_lnot d : urange 32 d → u32 (Z.lnot d) = 2 ^ 32 - 1 - d.
Proof.
  intros Hd. unfold urange, uwrap, Z.lnot in *.
  replace (Z.pred (- d)) with (2 ^ 32 - 1 - d + (-1) * 2 ^ 32) by lia.
  rewrite Z.mod_add, Z.mod_small; lia.
Qed.

Lemma bitnot_ok a : wf a → wf (bitnot WIDTH a) ∧ val (bitnot WIDTH a) = 2 ^ BITS - 1 - val a.
Proof.
  intros Ha.
  destruct (foldl_insert_zget (λ i _, u32 (Z.lnot a.[i])) (zero WIDTH) WIDTH) as [Hlen Hget].
  { by rewrite (wf_length _ _ wf_zero). }
  fold (bitnot WIDTH a) in Hlen, Hget. rewrite (wf_length _ _ wf_zero) in Hlen.
  assert (bitnot WIDTH a = map (λ d, 2 ^ 32 - 1 - d) a) as ->.
  { apply list_eq_zget; [by rewrite length_map, (wf_length _ _ Ha)|].
    intros i Hi. unfold zget at 2. rewrite Hget. destruct (Nat.ltb_spec i WIDTH); [|lia].
    change (map (λ d, 2 ^ 32 - 1 - d) a) with ((λ d, 2 ^ 32 - 1 - d) <$> a).
    rewrite list_lookup_fmap.
    destruct (lookup_lt_is_Some_2 a i) as [d Hd]; [rewrite (wf_length _ _ Ha); lia|].
    rewrite u32_lnot by by apply wf_zget. unfold zget. by rewrite Hd. }
  unfold val. rewrite undigits_map_compl. unfold base_uint.BITS. rewrite (wf_length _ _ Ha).
  split; [|done]. split; [by rewrite length_map, (wf_length _ _ Ha)|].
  apply Forall_fmap. eapply Forall_impl; [|apply (wf_digits _ _ Ha)]. unfold urange. simpl. lia.
Qed.

Lemma pow_32_S i : 2 ^ (32 * Z.of_nat (S i)) = 2 ^ (32 * Z.of_nat i) * 2 ^ 32.
Proof. rewrite <-Z.pow_add_r by lia. f_equal. lia. Qed.

(** The loop of [++]: it adds [2^(32 i)], with a carry out of the last digit. *)
Lemma inc_loop_ok n i a :
  wf a → (i + n = WIDTH)%nat →
  wf (inc_loop n i a) ∧
  ∃ c, val (inc_loop n i a) + c * 2 ^ BITS = val a + 2 ^ (32 * Z.of_nat i).
Proof.
  revert i a. induction n as [|n IH]; intros i a Ha Hn.
  - simpl. split; [done|]. exists 1. unfold base_uint.BITS. replace WIDTH with i by lia. lia.
  - cbn [inc_loop]. pose proof (wf_zget a i Ha) as Hd. unfold urange in Hd.
    set (d := u32 (a.[i] + 1)).
    assert (wf (<[i:=d]> a)) as Hwf by (apply wf_insert; [done|by apply uwrap_range]).
    assert (val (<[i:=d]> a) = val a + (d - a.[i]) * 2 ^ (32 * Z.of_nat i)) as Hval.
    { apply undigits_insert; [lia|]. rewrite (wf_length _ _ Ha). lia. }
    destruct (Z.eqb_spec d 0) as [Hd0|Hd0].
    + destruct (IH (S i) (<[i:=d]> a)) as [Hwf' [c Hc]]; [done|lia|].
      split; [done|]. exists c. rewrite Hc, Hval, pow_32_S.
      assert (a.[i] = 2 ^ 32 - 1); [|nia].
      unfold d, uwrap in Hd0. destruct (decide (a.[i] = 2 ^ 32 - 1)); [done|].
      rewrite Z.mod_small in Hd0; lia.
    + split; [done|]. exists 0. rewrite Hval.
      assert (d = a.[i] + 1); [|nia].
      unfold d, uwrap in *. destruct (decide (a.[i] = 2 ^ 32 - 1)) as [E|].
      * rewrite E in Hd0. done.
      * rewrite Z.mod_small; lia.
Qed.

Lemma inc_ok a : wf a → wf (inc WIDTH a) ∧ val (inc WIDTH a) = (val a + 1) mod 2 ^ BITS.
Proof.
  intros Ha. destruct (inc_loop_ok WIDTH 0 a Ha) as [Hwf [c Hc]]; [lia|].
  split; [done|]. eapply val_mod; [done|]. apply Hc.
Qed.

Lemma dec_loop_ok n i a :
  wf a → (i + n = WIDTH)%nat →
  wf (dec_loop n i a) ∧
  ∃ c, val (dec_loop n i a) + c * 2 ^ BITS = val a - 2 ^ (32 * Z.of_nat i).
Proof.
  revert i a. induction n as [|n IH]; intros i a Ha Hn.
  - simpl. split; [done|]. exists (-1). unfold base_uint.BITS. replace WIDTH with i by lia. lia.
  - cbn [dec_loop]. pose proof (wf_zget a i Ha) as Hd. unfold urange in Hd.
    set (d := u32 (a.[i] - 1)).
    assert (wf (<[i:=d]> a)) as Hwf by (apply wf_insert; [done|by apply uwrap_range]).
    assert (val (<[i:=d]> a) = val a + (d - a.[i]) * 2 ^ (32 * Z.of_nat i)) as Hval.
    { apply undigits_insert; [lia|]. rewrite (wf_length _ _ Ha). lia. }
    destruct (Z.eqb_spec d (2 ^ 32 - 1)) as [Hd0|Hd0].
    + destruct (IH (S i) (<[i:=d]> a)) as [Hwf' [c Hc]]; [done|lia|].
      split; [done|]. exists c. rewrite Hc, Hval, pow_32_S.
      assert (a.[i] = 0); [|nia].
      unfold d, uwrap in Hd0. destruct (decide (a.[i] = 0)); [done|].
      rewrite Z.mod_small in Hd0; lia.
    + split; [done|]. exists 0. rewrite Hval.
      assert (d = a.[i] - 1); [|nia].
      unfold d, uwrap in *. destruct (decide (a.[i] = 0)) as [E|].
      * rewrite E in Hd0. done.
      * rewrite Z.mod_small; lia.
Qed.

Lemma dec_ok a : wf a → wf (dec WIDTH a) ∧ val (dec WIDTH a) = (val a - 1) mod 2 ^ BITS.
Proof.
  intros Ha. destruct (dec_loop_ok WIDTH 0 a Ha) as [Hwf [c Hc]]; [lia|].
  split; [done|]. eapply val_mod; [done|]. apply Hc.
Qed.

Lemma neg_ok a : wf a → wf (neg WIDTH a) ∧ val (neg WIDTH a) = (- val a) mod 2 ^ BITS.
Proof.
  intros Ha. unfold neg. destruct (bitnot_ok a Ha) as [Hn Hv].
  destruct (inc_ok _ Hn) as [Hi ->]. split; [done|]. rewrite Hv.
  replace (2 ^ BITS - 1 - val a + 1) with (- val a + 1 * 2 ^ BITS) by lia.
  apply Z.mod_add. pose proof BITS_nonneg. lia.
Qed.

(** One digit of a carry chain: splitting a 64-bit intermediate. *)
Lemma carry_digit n :
  urange 64 n →
  urange 32 (n .& 0xffffffff) ∧ urange 32 (n .>> 32) ∧
  n = (n .& 0xffffffff) + (n .>> 32) * 2 ^ 32.
Proof.
  unfold urange. intros Hn.
  change 0xffffffff with (Z.ones 32). rewrite Z.land_ones, Z.shiftr_div_pow2 by lia.
  pose proof (Z.mod_pos_bound n (2 ^ 32)). pose proof (Z.div_mod n (2 ^ 32)). lia.
Qed.

Lemma add_loop_ok a b n :
  wf a → wf b → (n ≤ WIDTH)%nat →
  let '(carry, r) := foldl (add_step b) (0, a) (seq 0 n) in
  wf r ∧ 0 ≤ carry ≤ 1 ∧
  val r + carry * 2 ^ (32 * Z.of_nat n) = val a + undigits 32 (take n b).
Proof.
  intros Ha Hb Hn.
  apply (foldl_seq_ind (λ k '(carry, r), wf r ∧ 0 ≤ carry ≤ 1 ∧
    val r + carry * 2 ^ (32 * Z.of_nat k) = val a + undigits 32 (take k b))).
  - split; [done|]. rewrite take_0. simpl. lia.
  - intros i [carry r] Hi (Hr & Hc & Heq). cbn [add_step].
    pose proof (wf_zget r i Hr) as Hri. pose proof (wf_zget b i Hb) as Hbi.
    unfold urange in Hri, Hbi.
    rewrite uwrap_small by (unfold urange; lia).
    destruct (carry_digit (carry + r.[i] + b.[i])) as (Hlo & Hhi & Hn'); [unfold urange; lia|].
    set (lo := _ .& _) in *. set (hi := _ .>> _) in *. unfold urange in Hlo, Hhi.
    split; [by apply wf_insert|]. split; [lia|].
    unfold val. rewrite undigits_insert by (lia || rewrite (wf_length _ _ Hr); lia).
    rewrite undigits_take_S by (lia || rewrite (wf_length _ _ Hb); lia).
    rewrite pow_32_S. fold (val r) (val a). apply (f_equal (λ x, x * 2 ^ (32 * Z.of_nat i))) in Hn'. lia.
Qed.

Lemma take_wf b : wf b → take WIDTH b = b.
Proof. intros Hb. apply take_ge. by rewrite (wf_length _ _ Hb). Qed.

Lemma add_ok a b : wf a → wf b →
  wf (add WIDTH a b) ∧ val (add WIDTH a b) = (val a + val b) mod 2 ^ BITS.
Proof.
  intros Ha Hb. pose proof (add_loop_ok a b WIDTH Ha Hb (le_n _)) as H.
  unfold add. destruct (foldl _ _ _) as [carry r]. destruct H as (Hr & _ & H).
  split; [done|]. simpl. rewrite take_wf in H by done. by eapply val_mod.
Qed.

Lemma sub_ok a b : wf a → wf b →
  wf (sub WIDTH a b) ∧ val (sub WIDTH a b) = (val a - val b) mod 2 ^ BITS.
Proof.
  intros Ha Hb. unfold sub. destruct (neg_ok b Hb) as [Hn Hv].
  destruct (add_ok a _ Ha Hn) as [Hs ->]. split; [done|].
  by rewrite Hv, Zplus_mod_idemp_r.
Qed.

Lemma mul_u32_loop_ok a b32 n :
  wf a → urange 32 b32 → (n ≤ WIDTH)%nat →
  let '(carry, r) := foldl (mul_u32_step b32) (0, a) (seq 0 n) in
  wf r ∧ urange 32 carry ∧
  val r + carry * 2 ^ (32 * Z.of_nat n) = val a + (b32 - 1) * undigits 32 (take n a) ∧
  (∀ j, (n ≤ j)%nat → r.[j] = a.[j]).
Proof.
  intros Ha Hb Hn.
  apply (foldl_seq_ind (λ k '(carry, r), wf r ∧ urange 32 carry ∧
    val r + carry * 2 ^ (32 * Z.of_nat k) = val a + (b32 - 1) * undigits 32 (take k a) ∧
    (∀ j, (k ≤ j)%nat → r.[j] = a.[j]))).
  - split; [done|]. rewrite take_0. cbn [undigits]. unfold urange. split; [lia|]. split; [lia|done].
  - intros i [carry r] Hi (Hr & Hc & Heq & Hrest). cbn [mul_u32_step].
    pose proof (wf_zget r i Hr) as Hri. unfold urange in Hri, Hb, Hc.
    assert (urange 64 (carry + b32 * r.[i])) as Hrange by (unfold urange; nia).
    rewrite uwrap_small by done.
    destruct (carry_digit _ Hrange) as (Hlo & Hhi & Hn').
    set (lo := _ .& _) in *. set (hi := _ .>> _) in *.
    split; [by apply wf_insert|]. split; [done|]. split.
    + unfold val. rewrite undigits_insert by (lia || rewrite (wf_length _ _ Hr); lia).
      rewrite undigits_take_S by (lia || rewrite (wf_length _ _ Ha); lia).
      rewrite pow_32_S. fold (val r) (val a). rewrite <-(Hrest i) by lia.
      apply (f_equal (λ x, x * 2 ^ (32 * Z.of_nat i))) in Hn'. lia.
    + intros j Hj. rewrite zget_insert_ne by lia. apply Hrest. lia.
Qed.

Lemma mul_u32_ok a b32 : wf a → urange 32 b32 →
  wf (mul_u32 WIDTH a b32) ∧ val (mul_u32 WIDTH a b32) = (val a * b32) mod 2 ^ BITS.
Proof.
  intros Ha Hb. pose proof (mul_u32_loop_ok a b32 WIDTH Ha Hb (le_n _)) as H.
  unfold mul_u32. destruct (foldl _ _ _) as [carry r]. destruct H as (Hr & _ & H & _).
  split; [done|]. simpl. rewrite take_wf in H by done. eapply val_mod; [done|].
  unfold base_uint.BITS. rewrite H. unfold val. lia.
Qed.

Lemma mul_inner_ok pnj b j a n :
  wf a → wf b → urange 32 pnj → (n + j ≤ WIDTH)%nat →
  let '(carry, r) := foldl (mul_inner pnj b j) (0, a) (seq 0 n) in
  wf r ∧ urange 32 carry ∧
  val r + carry * 2 ^ (32 * Z.of_nat (n + j)) =
    val a + pnj * undigits 32 (take n b) * 2 ^ (32 * Z.of_nat j).
Proof.
  intros Ha Hb Hp Hn.
  apply (foldl_seq_ind (λ k '(carry, r), wf r ∧ urange 32 carry ∧
    val r + carry * 2 ^ (32 * Z.of_nat (k + j)) =
      val a + pnj * undigits 32 (take k b) * 2 ^ (32 * Z.of_nat j))).
  - split; [done|]. rewrite take_0. cbn [undigits]. unfold urange. lia.
  - intros i [carry r] Hi (Hr & Hc & Heq). cbn [mul_inner].
    pose proof (wf_zget r (i + j) Hr) as Hri. pose proof (wf_zget b i Hb) as Hbi.
    unfold urange in Hri, Hbi, Hp, Hc.
    assert (urange 64 (carry + r.[(i + j)%nat] + pnj * b.[i])) as Hrange by (unfold urange; nia).
    rewrite uwrap_small by done.
    destruct (carry_digit _ Hrange) as (Hlo & Hhi & Hn').
    set (lo := _ .& _) in *. set (hi := _ .>> _) in *.
    split; [by apply wf_insert|]. split; [done|].
    unfold val. rewrite undigits_insert by (lia || rewrite (wf_length _ _ Hr); lia).
    rewrite undigits_take_S by (lia || rewrite (wf_length _ _ Hb); lia).
    replace (S i + j)%nat with (S (i + j)) by lia. rewrite pow_32_S. fold (val r) (val a).
    apply (f_equal (λ x, x * 2 ^ (32 * Z.of_nat (i + j)))) in Hn'.
    rewrite Z.mul_add_distr_l, Z.mul_add_distr_r.
    replace (pnj * (b.[i] * 2 ^ (32 * Z.of_nat i)) * 2 ^ (32 * Z.of_nat j))
      with (pnj * b.[i] * 2 ^ (32 * Z.of_nat (i + j)));
      [lia|].
    replace (32 * Z.of_nat (i + j)) with (32 * Z.of_nat i + 32 * Z.of_nat j) by lia.
    rewrite Z.pow_add_r by lia. ring.
Qed.

(** Multiplying the top digits beyond the width away loses a multiple of [2^BITS]. *)
Lemma take_shift_mod b j :
  wf b → (j ≤ WIDTH)%nat →
  ∃ c, undigits 32 (take (WIDTH - j) b) * 2 ^ (32 * Z.of_nat j) =
       val b * 2 ^ (32 * Z.of_nat j) + c * 2 ^ BITS.
Proof.
  intros Hb Hj. exists (- undigits 32 (drop (WIDTH - j) b)).
  unfold val, base_uint.BITS.
  rewrite (undigits_take_drop 32 ltac:(lia) b (WIDTH - j)) by (rewrite (wf_length _ _ Hb); lia).
  replace (32 * Z.of_nat WIDTH) with (32 * Z.of_nat (WIDTH - j) + 32 * Z.of_nat j) by lia.
  rewrite Z.pow_add_r by lia. ring.
Qed.

Lemma mul_loop_ok a b n :
  wf a → wf b → (n ≤ WIDTH)%nat →
  let r := foldl (mul_outer WIDTH a b) (zero WIDTH) (seq 0 n) in
  wf r ∧ ∃ c, val r + c * 2 ^ BITS = undigits 32 (take n a) * val b.
Proof.
  intros Ha Hb Hn.
  apply (foldl_seq_ind (λ k r, wf r ∧ ∃ c, val r + c * 2 ^ BITS = undigits 32 (take k a) * val b)).
  - split; [apply wf_zero|]. exists 0. rewrite take_0, val_zero. cbn [undigits]. lia.
  - intros j r Hj (Hr & c & Heq). unfold mul_outer.
    pose proof (mul_inner_ok a.[j] b j r (WIDTH - j) Hr Hb (wf_zget a j Ha) ltac:(lia)) as H.
    destruct (foldl _ _ _) as [carry r']. destruct H as (Hr' & _ & H). simpl. split; [done|].
    destruct (take_shift_mod b j Hb ltac:(lia)) as [c' Hc'].
    replace (WIDTH - j + j)%nat with WIDTH in H by lia.
    rewrite <-Z.mul_assoc, Hc' in H. fold BITS in H.
    exists (c + carry - a.[j] * c').
    rewrite undigits_take_S by (lia || rewrite (wf_length _ _ Ha); lia).
    rewrite Z.mul_add_distr_r, <-Heq.
    unfold base_uint.BITS in *. lia.
Qed.

Lemma mul_ok a b : wf a → wf b →
  wf (mul WIDTH a b) ∧ val (mul WIDTH a b) = (val a * val b) mod 2 ^ BITS.
Proof.
  intros Ha Hb. destruct (mul_loop_ok a b WIDTH Ha Hb (le_n _)) as [Hr [c Hc]].
  split; [done|]. rewrite take_wf in Hc by done. by eapply val_mod.
Qed.

(** *** Comparisons *)

Lemma compare_loop_ok a b n :
  wf a → wf b → (n ≤ WIDTH)%nat →
  compare_loop n a b = match undigits 32 (take n a) ?= undigits 32 (take n b) with
                       | Lt => -1 | Eq => 0 | Gt => 1 end.
Proof.
  intros Ha Hb. induction n as [|n IH]; intros Hn; [done|]. cbn [compare_loop].
  rewrite !undigits_take_S by (lia || rewrite ?(wf_length _ _ Ha), ?(wf_length _ _ Hb); lia).
  assert (0 ≤ undigits 32 (take n a) < 2 ^ (32 * Z.of_nat n)) as HA.
  { apply undigits_take_range; [lia|apply Ha|rewrite (wf_length _ _ Ha); lia]. }
  assert (0 ≤ undigits 32 (take n b) < 2 ^ (32 * Z.of_nat n)) as HB.
  { apply undigits_take_range; [lia|apply Hb|rewrite (wf_length _ _ Hb); lia]. }
  destruct (Z.ltb_spec a.[n] b.[n]) as [|Hge].
  { destruct (Z.compare_spec (undigits 32 (take n a) + a.[n] * 2 ^ (32 * Z.of_nat n))
      (undigits 32 (take n b) + b.[n] * 2 ^ (32 * Z.of_nat n))); (done || nia). }
  destruct (Z.ltb_spec b.[n] a.[n]) as [|Hge'].
  { destruct (Z.compare_spec (undigits 32 (take n a) + a.[n] * 2 ^ (32 * Z.of_nat n))
      (undigits 32 (take n b) + b.[n] * 2 ^ (32 * Z.of_nat n))); (done || nia). }
  replace b.[n] with a.[n] by lia. rewrite IH by lia.
  by rewrite !(Z.add_comm _ (a.[n] * _)), Z.add_compare_mono_l.
Qed.

Lemma CompareTo_ok a b : wf a → wf b →
  CompareTo WIDTH a b = match val a ?= val b with Lt => -1 | Eq => 0 | Gt => 1 end.
Proof.
  intros Ha Hb. unfold CompareTo. rewrite compare_loop_ok, !take_wf by done. done.
Qed.

Lemma ltb_ok a b : wf a → wf b → ltb WIDTH a b = (val a <? val b).
Proof.
  intros Ha Hb. unfold ltb. rewrite CompareTo_ok by done. unfold Z.ltb at 2.
  by destruct (val a ?= val b).
Qed.
Lemma gtb_ok a b : wf a → wf b → gtb WIDTH a b = (val b <? val a).
Proof.
  intros Ha Hb. unfold gtb. rewrite CompareTo_ok by done. unfold Z.ltb at 2.
  rewrite (Z.compare_antisym (val a)). by destruct (val a ?= val b).
Qed.
Lemma geb_ok a b : wf a → wf b → geb WIDTH a b = (val b <=? val a).
Proof.
  intros Ha Hb. unfold geb. rewrite CompareTo_ok by done. unfold Z.leb at 2.
  rewrite (Z.compare_antisym (val a)). by destruct (val a ?= val b).
Qed.

(** *** Shifts *)

Lemma zget_update_lor a i j x :
  (i < length a)%nat → (<[i := a.[i] .| x]> a).[j] = a.[j] .| (if (j =? i)%nat then x else 0).
Proof.
  intros Hi. destruct (Nat.eqb_spec j i) as [->|Hne].
  - by rewrite zget_insert_eq.
  - by rewrite zget_insert_ne, Z.lor_0_r.
Qed.

Lemma lor_interchange p q x y : (p .| q) .| x .| y = (p .| x) .| (q .| y).
Proof.
  rewrite <-!Z.lor_assoc. f_equal. rewrite !Z.lor_assoc. f_equal. apply Z.lor_comm.
Qed.

(** [zget] of a conditional digit update by [|=]. *)
Lemma cond_update_ok (c : bool) r i x :
  wf r → urange 32 x → (c = true → (i < WIDTH)%nat) →
  let r' := if c then <[i := r.[i] .| x]> r else r in
  wf r' ∧ ∀ j, r'.[j] = r.[j] .| (if c && (j =? i)%nat then x else 0).
Proof.
  intros Hr Hx Hi. destruct c; simpl.
  - split; [apply wf_insert; [done|]; apply lor_range; [lia|by apply wf_zget|done]|].
    intros j. apply zget_update_lor. rewrite (wf_length _ _ Hr). auto.
  - split; [done|]. intros j. by rewrite Z.lor_0_r.
Qed.

Lemma shiftr_range x n : 0 ≤ n → urange 32 x → urange 32 (x .>> n).
Proof.
  unfold urange. intros Hn Hx. rewrite Z.shiftr_div_pow2 by lia.
  assert (0 < 2 ^ n) by lia.
  split; [apply Z.div_pos; lia|]. apply Z.div_lt_upper_bound; nia.
Qed.

(** The two contributions to digit [j] of a left shift by [32 k + s], after
    [n] iterations of the loop. *)
Definition shl_hi (a : list Z) (k : nat) (s : Z) (n j : nat) : Z :=
  if (k + 1 <=? j)%nat && (j <? n + k + 1)%nat && negb (s =? 0)
  then a.[(j - k - 1)%nat] .>> (32 - s) else 0.
Definition shl_lo (a : list Z) (k : nat) (s : Z) (n j : nat) : Z :=
  if (k <=? j)%nat && (j <? n + k)%nat then u32 (a.[(j - k)%nat] .<< s) else 0.

Ltac split_ifs :=
  repeat match goal with
  | |- context [(?x <=? ?y)%nat] => destruct (Nat.leb_spec x y)
  | |- context [(?x <? ?y)%nat] => destruct (Nat.ltb_spec x y)
  | |- context [(?x =? ?y)%nat] => destruct (Nat.eqb_spec x y)
  | |- context [(?x =? ?y)%Z] => destruct (Z.eqb_spec x y)
  end; cbn [andb negb orb]; rewrite ?Z.lor_0_r, ?Z.lor_0_l; try done; try lia.

Lemma shl_hi_S a k s n j :
  (j < WIDTH)%nat →
  shl_hi a k s (S n) j = shl_hi a k s n j .|
    (if ((n + k + 1 <? WIDTH)%nat && negb (s =? 0)) && (j =? n + k + 1)%nat
     then a.[n] .>> (32 - s) else 0).
Proof.
  intros Hj. unfold shl_hi. split_ifs. replace (j - k - 1)%nat with n by lia. done.
Qed.
Lemma shl_lo_S a k s n j :
  (j < WIDTH)%nat →
  shl_lo a k s (S n) j = shl_lo a k s n j .|
    (if (n + k <? WIDTH)%nat && (j =? n + k)%nat then u32 (a.[n] .<< s) else 0).
Proof.
  intros Hj. unfold shl_lo. split_ifs. replace (j - k)%nat with n by lia. done.
Qed.

Lemma shl_loop_ok a k s n :
  wf a → 0 ≤ s < 32 → (n ≤ WIDTH)%nat →
  let r := foldl (shl_step WIDTH a k s) (zero WIDTH) (seq 0 n) in
  wf r ∧ ∀ j, (j < WIDTH)%nat → r.[j] = shl_hi a k s n j .| shl_lo a k s n j.
Proof.
  intros Ha Hs Hn.
  apply (foldl_seq_ind (λ n r, wf r ∧
    ∀ j, (j < WIDTH)%nat → r.[j] = shl_hi a k s n j .| shl_lo a k s n j)).
  - split; [apply wf_zero|]. intros j Hj. unfold zero, shl_hi, shl_lo.
    rewrite zget_replicate_0. split_ifs.
  - intros i r Hi [Hr Hget]. unfold shl_step.
    destruct (cond_update_ok ((i + k + 1 <? WIDTH)%nat && negb (s =? 0)) r (i + k + 1)
      (a.[i] .>> (32 - s))) as [Hr1 Hget1];
      [done|apply shiftr_range; [lia|by apply wf_zget]| |].
    { intros [H _]%andb_true_iff. by apply Nat.ltb_lt. }
    set (r1 := if _ && _ then _ else r) in *. clearbody r1.
    destruct (cond_update_ok (i + k <? WIDTH)%nat r1 (i + k) (u32 (a.[i] .<< s))) as [Hr2 Hget2];
      [done|by apply uwrap_range|by apply Nat.ltb_lt|].
    split; [done|]. intros j Hj.
    by rewrite Hget2, Hget1, Hget, shl_hi_S, shl_lo_S, lor_interchange by done.
Qed.

(** Position of bit [n - (32 k + s)], digit by digit. *)
Lemma bit_pos n k s :
  0 ≤ n → 0 ≤ s < 32 → 0 ≤ k → 32 * k + s ≤ n →
  (n - (32 * k + s)) / 32 = (if n mod 32 <? s then n / 32 - k - 1 else n / 32 - k) ∧
  (n - (32 * k + s)) mod 32 = (if n mod 32 <? s then n mod 32 - s + 32 else n mod 32 - s).
Proof. intros. destruct (Z.ltb_spec (n mod 32) s); zlia. Qed.

Lemma shl_ok a shift : wf a → 0 ≤ shift →
  wf (shl WIDTH a shift) ∧ val (shl WIDTH a shift) = (val a * 2 ^ shift) mod 2 ^ BITS.
Proof.
  intros Ha Hsh. unfold shl.
  set (k := Z.to_nat (shift / 32)). set (s := shift mod 32).
  assert (0 ≤ s < 32) as Hs by (apply Z.mod_pos_bound; lia).
  assert (shift = 32 * Z.of_nat k + s) as Eshift by (unfold k, s; zlia). clearbody k s. subst shift.
  destruct (shl_loop_ok a k s WIDTH Ha Hs (le_n _)) as [Hr Hget].
  set (r := foldl _ _ _) in *. clearbody r. split; [done|].
  apply Z.bits_inj'. intros n Hn. unfold val at 1.
  rewrite undigits_testbit by (lia || done || apply Hr).
  destruct (decide (n < BITS)) as [Hlt|Hge].
  2:{ rewrite Z.mod_pow2_bits_high by (pose proof BITS_nonneg; lia).
      unfold base_uint.BITS in Hge. rewrite zget_ge by (rewrite (wf_length _ _ Hr); zlia).
      apply Z.bits_0. }
  unfold base_uint.BITS in Hlt.
  rewrite Z.mod_pow2_bits_low by done. rewrite <-Z.shiftl_mul_pow2, Z.shiftl_spec by lia.
  rewrite Hget, Z.lor_spec by zlia. unfold shl_hi, shl_lo.
  assert (0 ≤ n mod 32 < 32) as Hm by (apply Z.mod_pos_bound; lia).

  set (j := Z.to_nat (n / 32)) in *.
  assert (Z.of_nat j = n / 32) as Hj by (unfold j; zlia).
  pose proof (Z.div_mod n 32 ltac:(lia)) as Hdm.
  destruct (decide (32 * Z.of_nat k + s ≤ n)) as [Hle|Hnle].
  - unfold val. rewrite undigits_testbit by (lia || done || apply Ha).
    destruct (bit_pos n (Z.of_nat k) s) as [-> ->]; [lia..|].
    destruct (Z.ltb_spec (n mod 32) s) as [Hrs|Hrs].
    + rewrite (proj2 (Nat.leb_le (k + 1) j)) by lia.
      rewrite (proj2 (Nat.ltb_lt j (WIDTH + k + 1))) by lia.
      destruct (Z.eqb_spec s 0); [lia|]. cbn [andb negb].
      rewrite Z.shiftr_spec by lia.
      replace (Z.testbit (if _ && _ then _ else 0) _) with false.
      2:{ destruct (_ && _); [|by rewrite Z.bits_0].
          unfold uwrap. rewrite Z.mod_pow2_bits_low by lia. by rewrite Z.shiftl_spec_low by lia. }
      rewrite orb_false_r. f_equal; [f_equal|]; lia.
    + replace (Z.testbit (if (k + 1 <=? j)%nat && _ && _ then _ else 0) _) with false.
      2:{ destruct (_ && _); [|by rewrite Z.bits_0]. rewrite Z.shiftr_spec by lia.
          symmetry. apply (testbit_high 32); [by apply wf_zget|lia]. }
      rewrite (proj2 (Nat.leb_le k j)) by lia.
      rewrite (proj2 (Nat.ltb_lt j (WIDTH + k))) by lia. cbn [andb orb].
      unfold uwrap. rewrite Z.mod_pow2_bits_low, Z.shiftl_spec by lia.
      f_equal. f_equal. lia.
  - rewrite (Z.testbit_neg_r (val a)) by lia.
    destruct (Nat.leb_spec (k + 1) j); [lia|]. cbn [andb]. rewrite Z.bits_0. cbn [orb].
    destruct (_ && _) eqn:E; [|by rewrite Z.bits_0].
    unfold uwrap. rewrite Z.mod_pow2_bits_low by lia.
    apply andb_true_iff in E as [E%Nat.leb_le _]. by rewrite Z.shiftl_spec_low by lia.
Qed.

Definition shr_hi (a : list Z) (k : nat) (s : Z) (n j : nat) : Z :=
  if (j + k + 1 <? n)%nat && negb (s =? 0) then u32 (a.[(j + k + 1)%nat] .<< (32 - s)) else 0.
Definition shr_lo (a : list Z) (k : nat) (s : Z) (n j : nat) : Z :=
  if (j + k <? n)%nat then a.[(j + k)%nat] .>> s else 0.

Lemma shr_hi_S a k s n j :
  shr_hi a k s (S n) j = shr_hi a k s n j .|
    (if ((k + 1 <=? n)%nat && negb (s =? 0)) && (j =? n - k - 1)%nat
     then u32 (a.[n] .<< (32 - s)) else 0).
Proof. unfold shr_hi. split_ifs. replace (j + k + 1)%nat with n by lia. done. Qed.
Lemma shr_lo_S a k s n j :
  shr_lo a k s (S n) j = shr_lo a k s n j .|
    (if (k <=? n)%nat && (j =? n - k)%nat then a.[n] .>> s else 0).
Proof. unfold shr_lo. split_ifs. replace (j + k)%nat with n by lia. done. Qed.

Lemma shr_loop_ok a k s n :
  wf a → 0 ≤ s < 32 → (n ≤ WIDTH)%nat →
  let r := foldl (shr_step a k s) (zero WIDTH) (seq 0 n) in
  wf r ∧ ∀ j, r.[j] = shr_hi a k s n j .| shr_lo a k s n j.
Proof.
  intros Ha Hs Hn.
  apply (foldl_seq_ind (λ n r, wf r ∧ ∀ j, r.[j] = shr_hi a k s n j .| shr_lo a k s n j)).
  - split; [apply wf_zero|]. intros j. unfold zero, shr_hi, shr_lo.
    rewrite zget_replicate_0. split_ifs.
  - intros i r Hi [Hr Hget]. unfold shr_step.
    destruct (cond_update_ok ((k + 1 <=? i)%nat && negb (s =? 0)) r (i - k - 1)
      (u32 (a.[i] .<< (32 - s)))) as [Hr1 Hget1]; [done|by apply uwrap_range|lia|].
    set (r1 := if _ && _ then _ else r) in *. clearbody r1.
    destruct (cond_update_ok (k <=? i)%nat r1 (i - k) (a.[i] .>> s)) as [Hr2 Hget2];
      [done|apply shiftr_range; [lia|by apply wf_zget]|lia|].
    split; [done|]. intros j.
    by rewrite Hget2, Hget1, Hget, shr_hi_S, shr_lo_S, lor_interchange.
Qed.

Lemma shr_ok a shift : wf a → 0 ≤ shift →
  wf (shr WIDTH a shift) ∧ val (shr WIDTH a shift) = val a / 2 ^ shift.
Proof.
  intros Ha Hsh. unfold shr.
  set (k := Z.to_nat (shift / 32)). set (s := shift mod 32).
  assert (0 ≤ s < 32) as Hs by (apply Z.mod_pos_bound; lia).
  assert (shift = 32 * Z.of_nat k + s) as Eshift by (unfold k, s; zlia). clearbody k s. subst shift.
  destruct (shr_loop_ok a k s WIDTH Ha Hs (le_n _)) as [Hr Hget].
  set (r := foldl _ _ _) in *. clearbody r. split; [done|].
  rewrite <-Z.shiftr_div_pow2 by lia.
  apply Z.bits_inj'. intros n Hn. rewrite Z.shiftr_spec by done.
  unfold val. rewrite !undigits_testbit by (lia || done || apply Hr || apply Ha).
  rewrite Hget, Z.lor_spec. unfold shr_hi, shr_lo.
  set (j := Z.to_nat (n / 32)) in *.
  assert (0 ≤ n mod 32 < 32) as Hm by (apply Z.mod_pos_bound; lia).
  assert (Z.of_nat j = n / 32) as Hj by (unfold j; zlia).
  pose proof (Z.div_mod n 32 ltac:(lia)) as Hdm.
  replace (if (j + k <? WIDTH)%nat then _ else 0) with (a.[(j + k)%nat] .>> s).
  2:{ destruct (Nat.ltb_spec (j + k) WIDTH); [done|].
      rewrite zget_ge by (rewrite (wf_length _ _ Ha); lia). apply Z.shiftr_0_l. }
  replace (if (j + k + 1 <? WIDTH)%nat && _ then _ else 0)
    with (u32 (a.[(j + k + 1)%nat] .<< (32 - s))).
  2:{ destruct (Z.eqb_spec s 0) as [->|]; cbn [negb]; rewrite ?andb_false_r, ?andb_true_r.
      - rewrite Z.sub_0_r. unfold uwrap. rewrite Z.shiftl_mul_pow2, Z.mod_mul by lia. done.
      - destruct (Nat.ltb_spec (j + k + 1) WIDTH); [done|].
        rewrite zget_ge by (rewrite (wf_length _ _ Ha); lia). by rewrite Z.shiftl_0_l. }
  unfold uwrap. rewrite Z.mod_pow2_bits_low by lia.
  rewrite Z.shiftr_spec by lia.
  destruct (decide (n mod 32 + s < 32)) as [Hlt|Hge].
  - rewrite Z.shiftl_spec_low by lia. cbn [orb]. f_equal; [f_equal|]; zlia.
  - rewrite Z.shiftl_spec by lia.
    rewrite (testbit_high 32 a.[(j + k)%nat]) by (by apply wf_zget || lia).
    rewrite orb_false_r. f_equal; [f_equal|]; zlia.
Qed.

(** *** bits, GetLow64, EqualTo and the digitwise operators *)

Lemma bits_digit_ok d pos n :
  0 < d < 2 ^ (Z.of_nat n + 1) → bits_digit d pos n = 32 * Z.of_nat pos + bitlen d.
Proof.
  induction n as [|n IH]; intros Hd.
  - cbn [bits_digit]. replace d with 1 by (simpl in Hd; lia). cbn. lia.
  - cbn [bits_digit]. rewrite land_bit_eqb by lia.
    destruct (Z.testbit d (Z.of_nat (S n))) eqn:E.
    + unfold bitlen. destruct (Z.eqb_spec d 0); [lia|].
      rewrite (Z.log2_unique d (Z.of_nat (S n))); [lia|lia|].
      split; [|unfold Z.succ; lia].
      destruct (decide (2 ^ Z.of_nat (S n) ≤ d)); [done|exfalso].
      rewrite (testbit_high (Z.of_nat (S n)) d) in E; [done|unfold urange; lia|lia].
    + apply IH. split; [lia|].
      destruct (decide (d < 2 ^ (Z.of_nat n + 1))) as [|Hge]; [done|exfalso].
      assert (Z.log2 d = Z.of_nat (S n)) as Hlog.
      { apply Z.log2_unique; [lia|]. unfold Z.succ. rewrite Nat2Z.inj_succ in *. unfold Z.succ in *. lia. }
      rewrite <-Hlog in E. rewrite Z.bit_log2 in E by lia. done.
Qed.

Lemma bits_loop_ok a n :
  wf a → (n ≤ WIDTH)%nat → bits_loop n a = bitlen (undigits 32 (take n a)).
Proof.
  intros Ha. induction n as [|n IH]; intros Hn; [done|]. cbn [bits_loop].
  rewrite undigits_take_S by (lia || rewrite (wf_length _ _ Ha); lia).
  pose proof (wf_zget a n Ha) as Hd. unfold urange in Hd.
  destruct (Z.eqb_spec a.[n] 0) as [E|]; cbn [negb].
  - rewrite E, Z.mul_0_l, Z.add_0_r. apply IH. lia.
  - rewrite bits_digit_ok by (simpl; lia). rewrite bitlen_shift; [done|lia| |lia].
    apply undigits_take_range; [lia|apply Ha|rewrite (wf_length _ _ Ha); lia].
Qed.

Lemma bits_ok a : wf a → bits WIDTH a = bitlen (val a).
Proof. intros Ha. unfold bits. rewrite bits_loop_ok, take_wf by done. done. Qed.

Lemma val_low64 a : (2 ≤ WIDTH)%nat → wf a →
  val a = a.[0%nat] + 2 ^ 32 * a.[1%nat] + 2 ^ 64 * undigits 32 (drop 2 a).
Proof.
  intros HW Ha. destruct a as [|d0 [|d1 a]]; [pose proof (wf_length _ _ Ha) as H; simpl in H; lia..|].
  unfold val. rewrite zget_cons_S, !zget_cons_0. change (drop 2 (d0 :: d1 :: a)) with a.
  cbn [undigits]. lia.
Qed.

Lemma GetLow64_ok a : (2 ≤ WIDTH)%nat → wf a → GetLow64 a = u64 (val a).
Proof.
  intros HW Ha. rewrite val_low64 by done. unfold GetLow64.
  pose proof (wf_zget a 0 Ha) as H0. pose proof (wf_zget a 1 Ha) as H1. unfold urange in *.
  rewrite Z.shiftl_mul_pow2 by lia. unfold uwrap.
  rewrite (Z.mul_comm (2 ^ 64)), Z.mod_add by lia.
  rewrite !Z.mod_small by lia. rewrite Z.lor_comm, lor_add_disjoint by lia. lia.
Qed.

Lemma EqualTo_ok a b : (2 ≤ WIDTH)%nat → wf a → urange 64 b →
  EqualTo WIDTH a b = (val a =? b).
Proof.
  intros HW Ha Hb. rewrite val_low64 by done. unfold EqualTo.
  pose proof (wf_zget a 0 Ha) as H0. pose proof (wf_zget a 1 Ha) as H1. unfold urange in *.
  assert (0 ≤ undigits 32 (drop 2 a)) as Hhi.
  { apply undigits_range; [lia|]. by apply Forall_drop, Ha. }
  change 0xffffffff with (Z.ones 32). rewrite Z.land_ones, Z.shiftr_div_pow2 by lia.
  destruct (existsb _ _) eqn:E.
  - apply existsb_exists in E as (i & Hi & Hne). rewrite <-in_rev, in_seq in Hi.
    assert (undigits 32 (drop 2 a) ≠ 0) as Hnz.
    { intros Hz. assert (drop 2 a = replicate (WIDTH - 2) 0) as Hrep.
      { apply (undigits_inj 32); [lia|by apply Forall_drop, Ha|apply digits_ok_replicate_0; lia| |].
        - by rewrite length_drop, length_replicate, (wf_length _ _ Ha).
        - by rewrite Hz, undigits_replicate_0. }
      assert (a.[i] = (drop 2 a).[(i - 2)%nat]) as Hai.
      { unfold zget. rewrite lookup_drop. do 2 f_equal. lia. }
      rewrite Hai, Hrep, zget_replicate_0 in Hne. done. }
    symmetry. apply Z.eqb_neq. lia.
  - assert (undigits 32 (drop 2 a) = 0) as ->.
    { replace (drop 2 a) with (replicate (WIDTH - 2) 0); [apply undigits_replicate_0|].
      apply list_eq_zget; [by rewrite length_drop, length_replicate, (wf_length _ _ Ha)|].
      rewrite length_replicate. intros i Hi. rewrite zget_replicate_0.
      unfold zget. rewrite lookup_drop.
      destruct (Z.eqb_spec a.[(2 + i)%nat] 0) as [E'|E']; [by symmetry|exfalso].
      rewrite <-not_true_iff_false, existsb_exists in E. apply E. exists (2 + i)%nat.
      split; [rewrite <-in_rev, in_seq; lia|]. by apply negb_true_iff, Z.eqb_neq. }
    destruct (Z.eqb_spec a.[1%nat] (b / 2 ^ 32)), (Z.eqb_spec a.[0%nat] (b mod 2 ^ 32)); cbn [negb];
      symmetry; first [apply Z.eqb_eq; zlia|apply Z.eqb_neq; zlia].
Qed.

Lemma digitwise_bits op fb a b :
  wf a → wf b →
  (∀ x y, urange 32 x → urange 32 y → urange 32 (op x y)) →
  (∀ x y n, 0 ≤ n → Z.testbit (op x y) n = fb (Z.testbit x n) (Z.testbit y n)) →
  fb false false = false →
  wf (digitwise WIDTH op a b) ∧ val (digitwise WIDTH op a b) = op (val a) (val b).
Proof.
  intros Ha Hb Hop Hbit Hfb.
  destruct (foldl_insert_zget (λ i d, op d b.[i]) a WIDTH) as [Hlen Hget];
    [by rewrite (wf_length _ _ Ha)|].
  fold (digitwise WIDTH op a b) in Hlen, Hget.
  assert (wf (digitwise WIDTH op a b)) as Hwf.
  { split; [by rewrite Hlen, (wf_length _ _ Ha)|].
    apply Forall_lookup. intros i d Hd.
    assert ((digitwise WIDTH op a b).[i] = d) as <- by (unfold zget; by rewrite Hd).
    apply lookup_lt_Some in Hd. rewrite Hlen, (wf_length _ _ Ha) in Hd.
    rewrite Hget, (proj2 (Nat.ltb_lt _ _) Hd). by apply Hop; apply wf_zget. }
  split; [done|]. apply Z.bits_inj'. intros n Hn. rewrite Hbit by done.
  unfold val. rewrite !undigits_testbit by (lia || apply Hwf || apply Ha || apply Hb).
  rewrite Hget, <-Hbit by zlia.
  destruct (Nat.ltb_spec (Z.to_nat (n / 32)) WIDTH); [done|].
  rewrite !(zget_ge _ (Z.to_nat (n / 32))) by (rewrite ?(wf_length _ _ Ha), ?(wf_length _ _ Hb); lia).
  rewrite Hbit, Z.bits_0 by zlia. done.
Qed.

Lemma xor_assign_ok a b : wf a → wf b →
  wf (xor_assign WIDTH a b) ∧ val (xor_assign WIDTH a b) = val a .^ val b.
Proof.
  intros Ha Hb. apply (digitwise_bits _ xorb); auto using Z.lxor_spec.
  intros x y Hx Hy. by apply lxor_range.
Qed.
Lemma and_assign_ok a b : wf a → wf b →
  wf (and_assign WIDTH a b) ∧ val (and_assign WIDTH a b) = val a .& val b.
Proof.
  intros Ha Hb. apply (digitwise_bits _ andb); auto using Z.land_spec.
  intros x y Hx Hy. apply land_range; [lia|apply Hx|done].
Qed.
Lemma or_assign_ok a b : wf a → wf b →
  wf (or_assign WIDTH a b) ∧ val (or_assign WIDTH a b) = val a .| val b.
Proof.
  intros Ha Hb. apply (digitwise_bits _ orb); auto using Z.lor_spec.
  intros x y Hx Hy. by apply lor_range.
Qed.

(** *** Division *)

(** Setting bit [i] of a number that is a multiple of [2^(i+1)]. *)
Lemma set_bit_ok q i :
  wf q → (Z.of_nat i < BITS) → (∃ c, val q = c * 2 ^ (Z.of_nat i + 1)) →
  let k := (i / 32)%nat in
  let q' := <[k := q.[k] .| u32 (1 .<< (Z.of_nat i .& 31))]> q in
  wf q' ∧ val q' = val q + 2 ^ Z.of_nat i.
Proof.
  intros Hq Hi [c Hc]. cbv zeta. unfold base_uint.BITS in Hi.
  change 31 with (Z.ones 5). rewrite Z.land_ones by lia. change (2 ^ 5) with 32.
  set (k := (i / 32)%nat). set (m := Z.of_nat i mod 32).
  assert (0 ≤ m < 32) as Hm by (apply Z.mod_pos_bound; lia).
  assert (Z.of_nat k = Z.of_nat i / 32) as Hk by (unfold k; by rewrite Nat2Z.inj_div).
  assert (Z.of_nat i = 32 * Z.of_nat k + m) as Hikm by (rewrite Hk; unfold m; zlia).
  assert (k < WIDTH)%nat as Hkw by lia. clearbody k m.
  assert (urange 32 (2 ^ m)) as Hpow.
  { unfold urange. split; [lia|]. apply Z.pow_lt_mono_r; lia. }
  rewrite Z.shiftl_1_l, (uwrap_small 32 (2 ^ m)) by done.
  assert (q.[k] .| 2 ^ m = q.[k] + 2 ^ m) as Hor.
  { rewrite <-Z.lxor_lor; [symmetry; apply Z.add_nocarry_lxor|].
    all: apply Z.bits_inj'; intros n Hn; rewrite Z.land_spec, Z.pow2_bits_eqb, Z.bits_0 by lia.
    all: destruct (Z.eqb_spec m n) as [<-|]; [|by rewrite andb_false_r].
    all: rewrite andb_true_r.
    all: assert (Z.testbit (val q) (Z.of_nat i) = false) as Hb
      by (rewrite Hc; apply Z.mul_pow2_bits_low; lia).
    all: unfold val in Hb; rewrite undigits_testbit in Hb by (lia || apply Hq).
    all: rewrite Hikm in Hb; rewrite (Z.mul_comm 32), Z.add_comm, Z.div_add, Z.mod_add in Hb by lia.
    all: rewrite Z.div_small, Z.mod_small, Z.add_0_l, Nat2Z.id in Hb by lia; done. }
  split.
  - apply wf_insert; [done|]. apply lor_range; [lia|by apply wf_zget|done].
  - unfold val. rewrite undigits_insert by (lia || rewrite (wf_length _ _ Hq); lia).
    rewrite Hor, Hikm, Z.pow_add_r by lia. ring.
Qed.

Lemma div_loop_ok steps q num dv b :
  wf q → wf num → wf dv → Z.of_nat steps ≤ BITS → 0 < b →
  (steps ≠ 0%nat → val dv = b * 2 ^ (Z.of_nat steps - 1)) →
  val num < b * 2 ^ Z.of_nat steps →
  (∃ c, val q = c * 2 ^ Z.of_nat steps) →
  let '(q', num') := div_loop WIDTH steps q num dv in
  wf q' ∧ wf num' ∧ val q' * b + val num' = val q * b + val num ∧ 0 ≤ val num' < b.
Proof.
  revert q num dv. induction steps as [|i IH]; intros q num dv Hq Hnum Hdv Hst Hb Hdval Hlt Hmul.
  - cbn [div_loop]. pose proof (val_range num Hnum). change (2 ^ Z.of_nat 0) with 1 in Hlt.
    split_and!; (done || lia).
  - cbn [div_loop]. rewrite geb_ok by done.
    specialize (Hdval ltac:(lia)).
    replace (Z.of_nat (S i) - 1) with (Z.of_nat i) in Hdval by lia.
    rewrite Nat2Z.inj_succ in *. unfold Z.succ in *. rewrite Z.pow_add_r, Z.pow_1_r in Hlt by lia.
    destruct (shr_ok dv 1 Hdv ltac:(lia)) as [Hdv' Hdvval].
    assert (i ≠ 0%nat → val (shr WIDTH dv 1) = b * 2 ^ (Z.of_nat i - 1)) as Hnext.
    { intros Hi. rewrite Hdvval, Hdval, Z.pow_1_r.
      replace (Z.of_nat i) with (Z.of_nat i - 1 + 1) at 1 by lia.
      rewrite Z.pow_add_r, Z.pow_1_r, Z.mul_assoc, Z.div_mul by lia. done. }
    destruct (Z.leb_spec (val dv) (val num)) as [Hge|Hlt'].
    + destruct (set_bit_ok q i Hq ltac:(lia) Hmul) as [Hq' Hqv].
      destruct (sub_ok num dv Hnum Hdv) as [Hn' Hnv].
      pose proof (val_range num Hnum). pose proof (val_range dv Hdv).
      rewrite Z.mod_small in Hnv by lia.
      specialize (IH (<[(i / 32)%nat:=q.[(i / 32)%nat] .| u32 (1 .<< (Z.of_nat i .& 31))]> q)
        (sub WIDTH num dv) (shr WIDTH dv 1) Hq' Hn' Hdv' ltac:(lia) Hb Hnext ltac:(lia)).
      destruct (div_loop _ _ _ _ _) as [q1 num1]. destruct IH as (?&?&Heq&?).
      { destruct Hmul as [c Hc]. exists (2 * c + 1). rewrite Hqv, Hc, Z.pow_add_r by lia. ring. }
      split_and!; (done || lia).
    + specialize (IH q num (shr WIDTH dv 1) Hq Hnum Hdv' ltac:(lia) Hb Hnext ltac:(lia)).
      destruct (div_loop _ _ _ _ _) as [q1 num1]. apply IH.
      destruct Hmul as [c Hc]. exists (2 * c). rewrite Hc, Z.pow_add_r by lia. ring.
Qed.

Lemma div_ok a b : wf a → wf b →
  if val b =? 0 then div WIDTH a b = None
  else ∃ q, div WIDTH a b = Some q ∧ wf q ∧ val q = val a / val b.
Proof.
  intros Ha Hb. unfold div. rewrite !bits_ok by done.
  pose proof (val_range a Ha) as HA. pose proof (val_range b Hb) as HB.
  destruct (Z.eqb_spec (val b) 0) as [E|E]; [by rewrite E|].
  pose proof (bitlen_spec (val b) ltac:(lia)) as Hbl.
  pose proof (bitlen_nonneg (val a)) as Hna. pose proof (bitlen_nonneg (val b)) as Hnb.
  assert (val a < 2 ^ bitlen (val a)) as Hal.
  { destruct (decide (val a = 0)) as [->|]; [done|apply bitlen_spec; lia]. }
  pose proof (bitlen_le (val a) BITS BITS_nonneg HA) as HaB.
  destruct (Z.eqb_spec (bitlen (val b)) 0) as [Eb|Eb]; [rewrite Eb in Hbl; simpl in Hbl; lia|].
  destruct (Z.ltb_spec (bitlen (val a)) (bitlen (val b))) as [Hlt|Hge].
  - exists (zero WIDTH). split; [done|]. split; [apply wf_zero|].
    rewrite val_zero, Z.div_small; [done|]. split; [lia|].
    pose proof (Z.pow_le_mono_r 2 (bitlen (val a)) (bitlen (val b) - 1)). lia.
  - set (shift := bitlen (val a) - bitlen (val b)) in *.
    eexists; split; [done|].
    destruct (shl_ok b shift Hb ltac:(lia)) as [Hs Hsv].
    assert (2 ^ bitlen (val a) = 2 ^ bitlen (val b) * 2 ^ shift) as Hsplit.
    { rewrite <-Z.pow_add_r by lia. f_equal. lia. }
    assert (2 ^ bitlen (val a) ≤ 2 ^ BITS) by (apply Z.pow_le_mono_r; lia).
    rewrite Z.mod_small in Hsv by nia.
    assert (2 ^ bitlen (val b) = 2 * 2 ^ (bitlen (val b) - 1)) as H2.
    { rewrite <-Z.pow_succ_r by lia. f_equal. lia. }
    pose proof (div_loop_ok (Z.to_nat (shift + 1)) (zero WIDTH) a (shl WIDTH b shift) (val b)
      wf_zero Ha Hs) as Hloop.
    rewrite Z2Nat.id in Hloop by lia. replace (shift + 1 - 1) with shift in Hloop by lia.
    specialize (Hloop ltac:(lia) ltac:(lia) ltac:(done)).
    destruct (div_loop _ _ _ _ _) as [q num]. destruct Hloop as (Hq & Hnum & Heq & Hr).
    { rewrite Z.pow_add_r, Z.pow_1_r by lia. nia. }
    { exists 0. by rewrite val_zero. }
    split; [done|]. simpl. rewrite val_zero in Heq. apply Z.div_unique_pos with (val num); lia.
Qed.
End facts.
End base_uint_facts.

(** ** arith_uint256: typeclass-driven value rewriting

    [WF a] says that [a] is a well-formed 256-bit array; instances cover every
    operator, so [val_*] rewrite a term of operators into integer arithmetic. *)

Module arith_uint256_facts.
Import base_uint arith_uint256 base_uint_facts.

Class WF (a : list Z) : Prop := is_wf : wf WIDTH a.

Lemma BITS_256 : BITS WIDTH = 256.
Proof. done. Qed.

Lemma val_range_256 a `{!WF a} : 0 ≤ val a < 2 ^ 256.
Proof. apply (val_range WIDTH a is_wf). Qed.

#[export] Instance WF_zero : WF (zero WIDTH) := wf_zero WIDTH.
#[export] Instance WF_of_u64 b : WF (of_u64 WIDTH b) := proj1 (of_u64_ok WIDTH b ltac:(unfold WIDTH; lia)).
#[export] Instance WF_bitnot a `{!WF a} : WF (bitnot WIDTH a) := proj1 (bitnot_ok WIDTH a is_wf).
#[export] Instance WF_add a b `{!WF a, !WF b} : WF (add WIDTH a b) := proj1 (add_ok WIDTH a b is_wf is_wf).
#[export] Instance WF_sub a b `{!WF a, !WF b} : WF (sub WIDTH a b) := proj1 (sub_ok WIDTH a b is_wf is_wf).
#[export] Instance WF_mul a b `{!WF a, !WF b} : WF (mul WIDTH a b) := proj1 (mul_ok WIDTH a b is_wf is_wf).

Lemma val_of_u64 b : val (of_u64 WIDTH b) = u64 b.
Proof. apply of_u64_ok. unfold WIDTH. lia. Qed.
Lemma val_bitnot a `{!WF a} : val (bitnot WIDTH a) = 2 ^ 256 - 1 - val a.
Proof. apply (bitnot_ok WIDTH a is_wf). Qed.
Lemma val_add a b `{!WF a, !WF b} : val (add WIDTH a b) = (val a + val b) mod 2 ^ 256.
Proof. apply (add_ok WIDTH a b is_wf is_wf). Qed.
Lemma val_sub a b `{!WF a, !WF b} : val (sub WIDTH a b) = (val a - val b) mod 2 ^ 256.
Proof. apply (sub_ok WIDTH a b is_wf is_wf). Qed.
Lemma val_mul a b `{!WF a, !WF b} : val (mul WIDTH a b) = (val a * val b) mod 2 ^ 256.
Proof. apply (mul_ok WIDTH a b is_wf is_wf). Qed.
Lemma WF_mul_u32 a b `{!WF a} : urange 32 b → WF (mul_u32 WIDTH a b).
Proof. intros. by apply (mul_u32_ok WIDTH a b is_wf). Qed.
Lemma val_mul_u32 a b `{!WF a} : urange 32 b → val (mul_u32 WIDTH a b) = (val a * b) mod 2 ^ 256.
Proof. intros. by apply (mul_u32_ok WIDTH a b is_wf). Qed.
Lemma WF_shl a n `{!WF a} : 0 ≤ n → WF (shl WIDTH a n).
Proof. intros. by apply (shl_ok WIDTH a n is_wf). Qed.
Lemma val_shl a n `{!WF a} : 0 ≤ n → val (shl WIDTH a n) = (val a * 2 ^ n) mod 2 ^ 256.
Proof. intros. by apply (shl_ok WIDTH a n is_wf). Qed.
Lemma WF_shr a n `{!WF a} : 0 ≤ n → WF (shr WIDTH a n).
Proof. intros. by apply (shr_ok WIDTH a n is_wf). Qed.
Lemma val_shr a n `{!WF a} : 0 ≤ n → val (shr WIDTH a n) = val a / 2 ^ n.
Proof. intros. by apply (shr_ok WIDTH a n is_wf). Qed.
Lemma val_gtb a b `{!WF a, !WF b} : gtb WIDTH a b = (val b <? val a).
Proof. apply gtb_ok; apply is_wf. Qed.
Lemma val_ltb a b `{!WF a, !WF b} : ltb WIDTH a b = (val a <? val b).
Proof. apply ltb_ok; apply is_wf. Qed.
Lemma val_EqualTo a b `{!WF a} : urange 64 b → EqualTo WIDTH a b = (val a =? b).
Proof. apply EqualTo_ok; [unfold WIDTH; lia|apply is_wf]. Qed.
Lemma val_bits a `{!WF a} : bits WIDTH a = bitlen (val a).
Proof. apply bits_ok, is_wf. Qed.
Lemma val_GetLow64 a `{!WF a} : GetLow64 a = u64 (val a).
Proof. apply (GetLow64_ok WIDTH); [unfold WIDTH; lia|apply is_wf]. Qed.
Lemma val_div a b `{!WF a, !WF b} :
  val b ≠ 0 → ∃ q, div WIDTH a b = Some q ∧ WF q ∧ val q = val a / val b.
Proof.
  intros Hb. pose proof (div_ok WIDTH a b is_wf is_wf) as H.
  by destruct (Z.eqb_spec (val b) 0).
Qed.

(** Side conditions of the [val_*] rewrites. *)
Ltac solve_wf :=
  first [typeclasses eauto | lia | unfold urange; lia | by auto with kernel
        | apply WF_shl; solve_wf | apply WF_shr; solve_wf | apply WF_mul_u32; solve_wf].

(** *** The compact format *)

(** The (unbounded) magnitude a compact number encodes. *)
Definition compact_size (c : Z) : Z := c / 2 ^ 24.
Definition compact_word (c : Z) : Z := c mod 2 ^ 23.
Definition compact_value (c : Z) : Z :=
  if compact_size c <=? 3 then compact_word c / 2 ^ (8 * (3 - compact_size c))
  else compact_word c * 2 ^ (8 * (compact_size c - 3)).

Lemma compact_range c :
  urange 32 c → 0 ≤ compact_size c < 256 ∧ 0 ≤ compact_word c < 2 ^ 23.
Proof. unfold urange, compact_size, compact_word. intros. zlia. Qed.

Lemma overflow_iff word size :
  0 < word < 2 ^ 23 → 3 < size →
  (34 <? size) || ((0xff <? word) && (33 <? size)) || ((0xffff <? word) && (32 <? size)) = true
  ↔ 2 ^ 256 ≤ word * 2 ^ (8 * (size - 3)).
Proof.
  intros Hw Hs.
  assert (34 < size ∨ size = 34 ∨ size = 33 ∨ size ≤ 32) as [H|[->|[->|H]]] by lia.
  - rewrite (proj2 (Z.ltb_lt 34 size) H). split; [intros _|done].
    pose proof (Z.pow_le_mono_r 2 256 (8 * (size - 3))). nia.
  - change (2 ^ (8 * (34 - 3))) with (2 ^ 248). lia.
  - change (2 ^ (8 * (33 - 3))) with (2 ^ 240). lia.
  - split; [lia|]. intros Hge. exfalso.
    pose proof (Z.pow_le_mono_r 2 (8 * (size - 3)) 232). nia.
Qed.

Lemma SetCompact_ok c :
  urange 32 c →
  WF (sc_value (SetCompact c)) ∧
  val (sc_value (SetCompact c)) = compact_value c mod 2 ^ 256 ∧
  (sc_overflow (SetCompact c) = true ↔ 2 ^ 256 ≤ compact_value c) ∧
  (sc_negative (SetCompact c) = true ↔ compact_value c ≠ 0 ∧ Z.testbit c 23 = true).
Proof.
  intros Hc. destruct (compact_range c Hc) as [Hs Hw]. unfold SetCompact, compact_value.
  change 0x7fffff with (Z.ones 23). change 0x800000 with (1 .<< 23).
  rewrite Z.land_ones, Z.shiftr_div_pow2 by lia. fold (compact_size c) (compact_word c).
  destruct (Z.leb_spec (compact_size c) 3) as [Hle|Hgt]; cbn [sc_value sc_negative sc_overflow].
  - rewrite Z.shiftr_div_pow2 by lia.
    set (w := compact_word c / _). rewrite land_bit_eqb by lia.
    assert (0 ≤ w < 2 ^ 23) as Hw'.
    { unfold w. assert (0 < 2 ^ (8 * (3 - compact_size c))) by lia.
      split; [apply Z.div_pos; lia|apply Z.div_lt_upper_bound; nia]. }
    clearbody w. split; [apply _|]. rewrite val_of_u64.
    rewrite uwrap_small, Z.mod_small by (unfold urange; lia). split; [done|]. split.
    + destruct (Z.eqb_spec w 0); simpl; lia.
    + rewrite andb_true_iff, negb_true_iff, Z.eqb_neq. done.
  - assert (compact_word c * 2 ^ (8 * (compact_size c - 3)) ≠ 0 ↔ compact_word c ≠ 0) as Hnz by nia.
    split; [apply WF_shl; [apply _|lia]|].
    rewrite val_shl, val_of_u64, uwrap_small by solve_wf. split; [done|]. split.
    + destruct (Z.eqb_spec (compact_word c) 0) as [->|]; [simpl; lia|].
      apply overflow_iff; lia.
    + rewrite Hnz, land_bit_eqb by lia. rewrite andb_true_iff, negb_true_iff, Z.eqb_neq. done.
Qed.

(** The bytes the compact form needs for [v], one bit kept for the sign, and the
    value that survives: the most significant three of them. *)
Definition compact_bytes (v : Z) : Z := bitlen v / 8 + 1.
Definition compact_unit (v : Z) : Z := 2 ^ (8 * Z.max 0 (compact_bytes v - 3)).
Definition compact_floor (v : Z) : Z := v / compact_unit v * compact_unit v.

Lemma compact_unit_pos v : 0 < compact_unit v.
Proof. unfold compact_unit. lia. Qed.

Lemma compact_floor_le v : compact_floor v ≤ v.
Proof.
  unfold compact_floor. pose proof (compact_unit_pos v). rewrite Z.mul_comm. by apply Z.mul_div_le.
Qed.

Lemma compact_floor_nonneg v : 0 ≤ v → 0 ≤ compact_floor v.
Proof.
  intros. pose proof (compact_unit_pos v). unfold compact_floor.
  apply Z.mul_nonneg_nonneg; [apply Z.div_pos|]; lia.
Qed.

Lemma compact_floor_small v : compact_bytes v ≤ 3 → compact_floor v = v.
Proof.
  intros. unfold compact_floor, compact_unit.
  rewrite Z.max_l, Z.mul_0_r, Z.div_1_r by lia. lia.
Qed.

(** The largest relative error of the rounding is [2^-15]. *)
Lemma compact_floor_error v : 0 ≤ v → 2 ^ 15 * (v - compact_floor v) ≤ v.
Proof.
  intros Hv. destruct (decide (compact_bytes v ≤ 3)) as [Hle|Hgt].
  - rewrite compact_floor_small by done. lia.
  - unfold compact_floor. pose proof (compact_unit_pos v) as Hu.
    pose proof (Z.mod_pos_bound v (compact_unit v) Hu).
    pose proof (Z.div_mod v (compact_unit v) ltac:(lia)).
    assert (2 ^ 15 * compact_unit v ≤ v); [|nia].
    assert (v ≠ 0) as Hnz by (intros ->; by apply Hgt).
    transitivity (2 ^ (bitlen v - 1)); [|apply bitlen_spec; lia].
    unfold compact_unit, compact_bytes in *. rewrite <-Z.pow_add_r by lia.
    apply Z.pow_le_mono_r; [lia|]. zlia.
Qed.

Lemma bitlen_mono v w : 0 ≤ v ≤ w → bitlen v ≤ bitlen w.
Proof.
  intros H. apply bitlen_le; [apply bitlen_nonneg|].
  destruct (decide (w = 0)) as [->|]; [change (2 ^ bitlen 0) with 1; lia|].
  pose proof (bitlen_spec w). lia.
Qed.

Lemma compact_floor_mono v w : 0 ≤ v ≤ w → compact_floor v ≤ compact_floor w.
Proof.
  intros Hvw. pose proof (bitlen_mono v w Hvw) as Hb.
  destruct (decide (bitlen v / 8 = bitlen w / 8)) as [E|E].
  - unfold compact_floor, compact_unit, compact_bytes. rewrite E.
    apply Z.mul_le_mono_nonneg_r; [lia|]. apply Z.div_le_mono; lia.
  - assert (bitlen v / 8 < bitlen w / 8) as Hlt by zlia.
    destruct (decide (compact_bytes w ≤ 3)) as [Hle|Hgt].
    { rewrite (compact_floor_small w) by done. pose proof (compact_floor_le v). lia. }
    pose proof (compact_floor_le v).
    set (T := 2 ^ (8 * (compact_bytes w - 1) - 1)).
    unfold compact_bytes in *.
    assert (v < T) as HvT.
    { destruct (decide (v = 0)) as [->|]; [unfold T; lia|].
      eapply Z.lt_le_trans; [apply bitlen_spec; lia|]. apply Z.pow_le_mono_r; [lia|]. unfold compact_bytes. zlia. }
    assert (T ≤ w) as HTw.
    { assert (w ≠ 0) by (intros ->; change (bitlen 0 / 8) with 0 in Hlt; pose proof (bitlen_nonneg v); zlia).
      transitivity (2 ^ (bitlen w - 1)); [|apply bitlen_spec; lia].
      apply Z.pow_le_mono_r; [lia|]. unfold compact_bytes. zlia. }
    assert (T = 2 ^ 15 * compact_unit w) as HT.
    { unfold T, compact_unit, compact_bytes. rewrite <-Z.pow_add_r by lia. f_equal. lia. }
    enough (T ≤ compact_floor w) by lia.
    unfold compact_floor. rewrite HT. pose proof (compact_unit_pos w).
    apply Z.mul_le_mono_nonneg_r; [lia|]. apply Z.div_le_lower_bound; lia.
Qed.

(** Mantissa and exponent [GetCompact] computes for a positive [v]. *)
Definition compact_mant (v : Z) : Z :=
  if compact_bytes v <=? 3 then v * 2 ^ (8 * (3 - compact_bytes v))
  else v / 2 ^ (8 * (compact_bytes v - 3)).

Lemma compact_mant_range v : 0 < v → 2 ^ 15 ≤ compact_mant v < 2 ^ 23.
Proof.
  intros Hv. pose proof (bitlen_spec v Hv) as [H1 H2]. pose proof (bitlen_nonneg v).
  unfold compact_mant. destruct (Z.leb_spec (compact_bytes v) 3) as [Hle|Hgt]; unfold compact_bytes in *.
  - split.
    + transitivity (2 ^ (bitlen v - 1) * 2 ^ (8 * (3 - (bitlen v / 8 + 1)))); [|nia].
      pose proof (bitlen_pos v Hv).
      rewrite <-Z.pow_add_r by zlia. apply Z.pow_le_mono_r; [lia|zlia].
    + apply Z.lt_le_trans with (2 ^ bitlen v * 2 ^ (8 * (3 - (bitlen v / 8 + 1)))); [nia|].
      rewrite <-Z.pow_add_r by zlia. apply Z.pow_le_mono_r; [lia|zlia].
  - split.
    + apply Z.div_le_lower_bound; [lia|]. rewrite <-Z.pow_add_r by lia.
      etransitivity; [|apply H1]. apply Z.pow_le_mono_r; [lia|zlia].
    + apply Z.div_lt_upper_bound; [lia|]. rewrite <-Z.pow_add_r by lia.
      eapply Z.lt_le_trans; [apply H2|]. apply Z.pow_le_mono_r; [lia|zlia].
Qed.

Lemma compact_mant_value v :
  0 < v → compact_value (compact_mant v + compact_bytes v * 2 ^ 24) = compact_floor v.
Proof.
  intros Hv. pose proof (compact_mant_range v Hv) as Hm. pose proof (bitlen_nonneg v).
  unfold compact_value, compact_size, compact_word.
  rewrite Z.div_add, (Z.div_small (compact_mant v)), Z.add_0_l by lia.
  replace (compact_bytes v * 2 ^ 24) with (compact_bytes v * 2 * 2 ^ 23) by lia.
  rewrite Z.mod_add, Z.mod_small by lia.
  unfold compact_floor, compact_unit, compact_mant.
  destruct (Z.leb_spec (compact_bytes v) 3).
  - rewrite Z.max_l, Z.mul_0_r, Z.div_1_r, Z.div_mul by lia. lia.
  - rewrite Z.max_r by lia. done.
Qed.

(** The mantissa before the sign bit is cleared, in 24 bits. *)
Definition raw_size (v : Z) : Z := (bitlen v + 7) / 8.
Definition raw_mant (v : Z) : Z :=
  if raw_size v <=? 3 then v * 2 ^ (8 * (3 - raw_size v)) else v / 2 ^ (8 * (raw_size v - 3)).

Lemma raw_mant_range v :
  0 < v → 2 ^ (bitlen v - 1 + 8 * (3 - raw_size v)) ≤ raw_mant v < 2 ^ (bitlen v + 8 * (3 - raw_size v)).
Proof.
  intros Hv. pose proof (bitlen_spec v Hv) as [H1 H2]. pose proof (bitlen_nonneg v).
  pose proof (bitlen_pos v Hv) as Hbl.
  unfold raw_mant. destruct (Z.leb_spec (raw_size v) 3) as [Hle|Hgt].
  - rewrite !Z.pow_add_r by (unfold raw_size in *; zlia). nia.
  - assert (8 * (3 - raw_size v) = - (8 * (raw_size v - 3))) as E by lia.
    set (k := 8 * (raw_size v - 3)) in *. rewrite E.
    assert (0 ≤ k < bitlen v) as Hk by (unfold k, raw_size in *; zlia).
    split.
    + apply Z.div_le_lower_bound; [lia|]. rewrite <-Z.pow_add_r by lia.
      replace (k + (bitlen v - 1 + - k)) with (bitlen v - 1) by lia. done.
    + apply Z.div_lt_upper_bound; [lia|]. rewrite <-Z.pow_add_r by lia.
      replace (k + (bitlen v + - k)) with (bitlen v) by lia. done.
Qed.

Lemma raw_mant_24 v : 0 < v → 0 < raw_mant v < 2 ^ 24.
Proof.
  intros Hv. pose proof (raw_mant_range v Hv) as [H1 H2]. pose proof (bitlen_nonneg v).
  pose proof (bitlen_pos v Hv) as Hbl.
  split.
  - eapply Z.lt_le_trans; [|apply H1]. apply Z.pow_pos_nonneg; [lia|unfold raw_size; zlia].
  - eapply Z.lt_le_trans; [apply H2|]. apply Z.pow_le_mono_r; [lia|unfold raw_size; zlia].
Qed.

(** Clearing the sign bit gives the normalised mantissa and byte count. *)
Lemma raw_normalise v :
  0 < v →
  (if Z.testbit (raw_mant v) 23 then (raw_mant v .>> 8, raw_size v + 1) else (raw_mant v, raw_size v))
  = (compact_mant v, compact_bytes v).
Proof.
  intros Hv. pose proof (raw_mant_range v Hv) as Hr. pose proof (raw_mant_24 v Hv) as H24.
  pose proof (bitlen_nonneg v).
  pose proof (bitlen_pos v Hv) as Hbl.
  destruct (decide (bitlen v mod 8 = 0)) as [E|E].
  - replace (bitlen v - 1 + 8 * (3 - raw_size v)) with 23 in Hr by (unfold raw_size; zlia).
    assert (Z.testbit (raw_mant v) 23 = true) as ->.
    { assert (Z.log2 (raw_mant v) = 23) as <- by (apply Z.log2_unique; lia).
      apply Z.bit_log2. lia. }
    assert (compact_bytes v = raw_size v + 1) as Eb by (unfold compact_bytes, raw_size; zlia).
    rewrite Z.shiftr_div_pow2, <-Eb by lia. f_equal.
    unfold compact_mant, raw_mant. rewrite Eb.
    destruct (Z.leb_spec (raw_size v) 3), (Z.leb_spec (raw_size v + 1) 3); try lia.
    + replace (8 * (3 - raw_size v)) with (8 * (3 - (raw_size v + 1)) + 8) by lia.
      rewrite Z.pow_add_r, Z.mul_assoc, Z.div_mul by lia. done.
    + replace (raw_size v) with 3 by lia. change (2 ^ (8 * (3 - 3))) with 1.
      rewrite Z.mul_1_r. done.
    + rewrite Z.div_div by lia. rewrite <-Z.pow_add_r by lia. do 2 f_equal. lia.
  - assert (compact_bytes v = raw_size v) as Eb by (unfold compact_bytes, raw_size; zlia).
    assert (raw_mant v < 2 ^ 23) as Hlt.
    { eapply Z.lt_le_trans; [apply Hr|]. apply Z.pow_le_mono_r; [lia|unfold raw_size; zlia]. }
    rewrite (testbit_high 23) by (unfold urange; lia).
    unfold compact_mant, raw_mant. by rewrite Eb.
Qed.

Lemma land_high_0 m : urange 23 m → m .& u32 (Z.lnot 0x7fffff) = 0.
Proof.
  intros Hm. change (u32 (Z.lnot 0x7fffff)) with (Z.ones 9 .<< 23).
  apply Z.bits_inj'. intros n Hn. rewrite Z.land_spec, Z.bits_0.
  destruct (decide (n < 23)).
  - by rewrite Z.shiftl_spec_low, andb_false_r by lia.
  - by rewrite (testbit_high 23 m) by (done || lia).
Qed.

(** [GetCompact] never fails an assertion; it encodes mantissa, size and sign. *)
Lemma GetCompact_ok a fNegative `{!WF a} :
  GetCompact a fNegative =
    Some (if val a =? 0 then 0
          else compact_mant (val a) + compact_bytes (val a) * 2 ^ 24 + (if fNegative then 2 ^ 23 else 0)).
Proof.
  pose proof (val_range_256 a) as Hr. set (v := val a) in *. unfold GetCompact.
  rewrite val_bits by solve_wf. fold v. fold (raw_size v).
  destruct (Z.eqb_spec v 0) as [E|E].
  { rewrite E. change (raw_size 0) with 0. cbn [Z.leb Z.compare]. rewrite val_GetLow64 by solve_wf.
    fold v. rewrite E.     destruct fNegative; done. }
  assert (0 < v) as Hv by lia. pose proof (raw_mant_24 v Hv) as H24.
  pose proof (bitlen_le v 256 ltac:(lia) Hr). pose proof (bitlen_nonneg v).
  assert (0 ≤ raw_size v ≤ 32) as Hrs by (unfold raw_size; zlia).
  replace (if raw_size v <=? 3 then _ else _) with (raw_mant v).
  2:{ revert H24. unfold raw_mant. destruct (Z.leb_spec (raw_size v) 3) as [Hle|Hgt]; intros H24.
      - rewrite val_GetLow64, Z.shiftl_mul_pow2 by solve_wf. fold v.
        rewrite (uwrap_small 64 v).
        2:{ split; [lia|]. pose proof (bitlen_spec v Hv).
            pose proof (Z.pow_le_mono_r 2 (bitlen v) 64). unfold raw_size in *. zlia. }
        rewrite (uwrap_small 64), (uwrap_small 32) by (unfold urange; lia). done.
      - rewrite val_GetLow64 by solve_wf.
        rewrite val_shr by solve_wf. fold v.
        rewrite (uwrap_small 64), (uwrap_small 32) by (unfold urange; lia). done. }
  change 0x800000 with (1 .<< 23). rewrite land_bit_eqb by lia.
  rewrite raw_normalise by done. pose proof (compact_mant_range v Hv) as Hm.
  assert (0 ≤ compact_bytes v < 256) as Hb by (unfold compact_bytes; zlia).
  rewrite land_high_0 by (unfold urange; lia). cbn [negb Z.eqb].
  rewrite (proj2 (Z.ltb_lt _ _)) by lia. cbn [negb]. f_equal.
  rewrite (Z.lor_comm (compact_mant v)), Z.shiftl_mul_pow2, lor_add_disjoint by lia.
  set (c := compact_bytes v * 2 ^ 24 + compact_mant v).
  replace (c .& 0x7fffff) with (compact_mant v).
  2:{ change 0x7fffff with (Z.ones 23). rewrite Z.land_ones by lia. unfold c.
      replace (compact_bytes v * 2 ^ 24) with (compact_bytes v * 2 * 2 ^ 23) by lia.
      rewrite Z.add_comm, Z.mod_add, Z.mod_small by lia. done. }
  destruct (Z.eqb_spec (compact_mant v) 0); [lia|]. rewrite andb_true_r.
  destruct fNegative; [|rewrite Z.lor_0_r; unfold c; lia].
  unfold c. rewrite <-lor_add_disjoint by lia.
  rewrite <-Z.lor_assoc, (Z.lor_comm (compact_mant v)). change (1 .<< 23) with (1 * 2 ^ 23).
  rewrite (lor_add_disjoint 23 1) by lia. rewrite lor_add_disjoint by lia. lia.
Qed.
End arith_uint256_facts.

Import base_uint arith_uint256 base_uint_facts arith_uint256_facts.

Lemma wf_of_Z W x : wf W (digits 32 W x).
Proof. split; [apply length_digits|apply digits_digits_ok; lia]. Qed.

(** ** Properties *)

(** C37: the operators [+=], [-=], [*=] (both overloads), unary [-], [++] and [--] of
    [base_uint<BITS>] keep the digit array well formed and compute exactly the
    ring operations of the integers modulo [2^BITS], for every width. *)
Theorem base_uint_ring (W : nat) (a b : list Z) (b32 : Z)
  (Ha : wf W a) (Hb : wf W b) (Hb32 : urange 32 b32) :
  (wf W (add W a b) ∧ val (add W a b) = (val a + val b) mod 2 ^ BITS W) ∧
  (wf W (sub W a b) ∧ val (sub W a b) = (val a - val b) mod 2 ^ BITS W) ∧
  (wf W (mul W a b) ∧ val (mul W a b) = (val a * val b) mod 2 ^ BITS W) ∧
  (wf W (mul_u32 W a b32) ∧ val (mul_u32 W a b32) = (val a * b32) mod 2 ^ BITS W) ∧
  (wf W (neg W a) ∧ val (neg W a) = (- val a) mod 2 ^ BITS W) ∧
  (wf W (inc W a) ∧ val (inc W a) = (val a + 1) mod 2 ^ BITS W) ∧
  (wf W (dec W a) ∧ val (dec W a) = (val a - 1) mod 2 ^ BITS W).
Proof.
  exact (conj (add_ok W a b Ha Hb) (conj (sub_ok W a b Ha Hb) (conj (mul_ok W a b Ha Hb)
    (conj (mul_u32_ok W a b32 Ha Hb32) (conj (neg_ok W a Ha)
    (conj (inc_ok W a Ha) (dec_ok W a Ha))))))).
Qed.

Lemma base_uint_ring_witness :
  val (mul 8 (digits 32 8 (2 ^ 200)) (digits 32 8 (2 ^ 60 + 1))) = (2 ^ 200 * (2 ^ 60 + 1)) mod 2 ^ 256.
Proof.
  destruct (base_uint_ring 8 (digits 32 8 (2 ^ 200)) (digits 32 8 (2 ^ 60 + 1)) 7)
    as (_ & _ & [_ H] & _); [apply wf_of_Z|apply wf_of_Z|unfold urange; lia|].
  rewrite H. vm_compute. reflexivity.
Defined.

(** Long division by shift and subtract: [a /= b] throws exactly when [b] is
    zero, and otherwise the loop ends with the integer quotient, for every width. *)
Theorem base_uint_division (W : nat) (a b : list Z) (Ha : wf W a) (Hb : wf W b) :
  (div W a b = None ↔ val b = 0) ∧
  (val b ≠ 0 → ∃ q, div W a b = Some q ∧ wf W q ∧ val q = val a / val b).
Proof.
  pose proof (div_ok W a b Ha Hb) as H. destruct (Z.eqb_spec (val b) 0) as [E|E].
  - split; [done|]. intros. done.
  - destruct H as (q & Hq & H). split; [split; [by rewrite Hq|done]|eauto].
Qed.

Lemma base_uint_division_witness :
  ∃ q, div 8 (digits 32 8 (10 ^ 70)) (digits 32 8 (7 ^ 25)) = Some q ∧ wf 8 q ∧
       val q = 10 ^ 70 / 7 ^ 25.
Proof.
  destruct (base_uint_division 8 (digits 32 8 (10 ^ 70)) (digits 32 8 (7 ^ 25))) as [_ H];
    [apply wf_of_Z|apply wf_of_Z|].
  apply H. vm_compute. discriminate.
Defined.

(** [<<=] multiplies by a power of two modulo [2^BITS], [>>=] divides by it,
    [bits()] is the position of the highest set bit plus one, [CompareTo] orders digit
    arrays as the numbers they stand for (its sign is the sign of the difference) and
    equality of arrays is equality of numbers, for every width and shift. *)
Theorem base_uint_shifts_order (W : nat) (a b : list Z) (n : Z) (Ha : wf W a) (Hb : wf W b) (Hn : 0 ≤ n) :
  val (shl W a n) = (val a * 2 ^ n) mod 2 ^ BITS W ∧
  val (shr W a n) = val a / 2 ^ n ∧
  bits W a = (if val a =? 0 then 0 else Z.log2 (val a) + 1) ∧
  CompareTo W a b = Z.sgn (val a - val b) ∧ (a = b ↔ val a = val b).
Proof.
  split_and!; [apply shl_ok; done|apply shr_ok; done|by apply bits_ok| |split; [by intros ->|by apply (val_inj W)]].
  rewrite CompareTo_ok by done. destruct (Z.compare_spec (val a) (val b)); lia.
Qed.

Lemma base_uint_shifts_order_witness :
  val (shl 8 (digits 32 8 0x123456789abcdef) 77) = (0x123456789abcdef * 2 ^ 77) mod 2 ^ 256 ∧
  CompareTo 8 (digits 32 8 0x123456789abcdef) (digits 32 8 (2 ^ 255)) = -1.
Proof.
  destruct (base_uint_shifts_order 8 (digits 32 8 0x123456789abcdef) (digits 32 8 (2 ^ 255)) 77) as (H & _ & _ & H' & _);
    [apply wf_of_Z|apply wf_of_Z|lia|].
  rewrite H, H'. vm_compute. by split.
Defined.

(** [SetCompact] decodes mantissa and exponent to [mantissa * 256^(size-3)] modulo
    [2^256]; [fOverflow] is set exactly when that number does not fit 256 bits, and
    [fNegative] exactly when the sign bit is set on a nonzero number. *)
Theorem SetCompact_decodes (c : Z) (Hc : urange 32 c) :
  val (sc_value (SetCompact c)) = compact_value c mod 2 ^ 256 ∧
  (sc_overflow (SetCompact c) = true ↔ 2 ^ 256 ≤ compact_value c) ∧
  (sc_negative (SetCompact c) = true ↔ compact_value c ≠ 0 ∧ Z.testbit c 23 = true).
Proof. apply SetCompact_ok; done. Qed.

Lemma SetCompact_decodes_witness :
  val (sc_value (SetCompact 0x1b0404cb)) = 0x0404cb * 2 ^ 192.
Proof.
  destruct (SetCompact_decodes 0x1b0404cb) as [H _]; [unfold urange; lia|].
  rewrite H. vm_compute. reflexivity.
Defined.

(** The compact encodings [GetCompact] produces: no sign bit, a normalised
    mantissa, nothing below the point, no overflow. *)
Definition compact_canonical (c : Z) : Prop :=
  urange 32 c ∧ Z.testbit c 23 = false ∧ 2 ^ 15 ≤ compact_word c ∧
  1 ≤ compact_size c ∧ compact_value c < 2 ^ 256 ∧
  (compact_size c ≤ 3 → compact_word c mod 2 ^ (8 * (3 - compact_size c)) = 0).

Lemma compact_split c :
  urange 32 c → Z.testbit c 23 = false → c = compact_word c + compact_size c * 2 ^ 24.
Proof.
  unfold urange, compact_word, compact_size. intros Hc Hb.
  assert ((c / 2 ^ 23) mod 2 = 0) as H2.
  { rewrite Z.testbit_false in Hb by lia. done. }
  replace (c / 2 ^ 24) with (c / 2 ^ 23 / 2) by (rewrite Z.div_div by lia; done). zlia.
Qed.

Lemma canonical_mant c :
  compact_canonical c →
  0 < compact_value c ∧ compact_mant (compact_value c) = compact_word c ∧
  compact_bytes (compact_value c) = compact_size c.
Proof.
  intros (Hc & _ & Hw & Hs & _ & Hdiv).
  destruct (compact_range c Hc) as [Hs' Hw'].
  assert (16 ≤ bitlen (compact_word c) ≤ 23) as Hbl.
  { split; [|apply bitlen_le; lia].
    transitivity (bitlen (2 ^ 15)); [vm_compute; discriminate|]. apply bitlen_mono. lia. }
  assert (0 < compact_value c ∧ bitlen (compact_value c) = bitlen (compact_word c) + 8 * (compact_size c - 3))
    as [Hpos Hbv].
  { unfold compact_value. destruct (Z.leb_spec (compact_size c) 3) as [Hle|Hgt].
    - specialize (Hdiv Hle). set (k := 8 * (3 - compact_size c)) in *.
      apply Z.div_exact in Hdiv; [|lia].
      assert (0 < compact_word c / 2 ^ k) as Hp by nia. split; [done|].
      rewrite Hdiv at 2. rewrite Z.mul_comm, <-(Z.add_0_l (_ * _)), bitlen_shift by lia. lia.
    - split; [nia|]. rewrite <-(Z.add_0_l (_ * _)), bitlen_shift by lia. lia. }
  split; [done|].
  assert (compact_bytes (compact_value c) = compact_size c) as Hb.
  { unfold compact_bytes. rewrite Hbv. zlia. }
  split; [|done]. unfold compact_mant. rewrite Hb. unfold compact_value.
  destruct (Z.leb_spec (compact_size c) 3) as [Hle|Hgt].
  - specialize (Hdiv Hle). apply Z.div_exact in Hdiv; lia.
  - apply Z.div_mul. lia.
Qed.

(** The sign bit changes neither the magnitude nor the size. *)
Lemma compact_value_sign v s :
  0 < v → 1 ≤ compact_bytes v →
  compact_value (compact_mant v + compact_bytes v * 2 ^ 24 + (if s : bool then 2 ^ 23 else 0)) = compact_floor v.
Proof.
  intros Hv Hb. pose proof (compact_mant_range v Hv) as Hm.
  rewrite <-(compact_mant_value v Hv). unfold compact_value, compact_size, compact_word.
  set (m := compact_mant v) in *. set (n := compact_bytes v) in *. clearbody m n.
  assert ((m + n * 2 ^ 24 + (if s then 2 ^ 23 else 0)) / 2 ^ 24 = n) as -> by (destruct s; zlia).
  assert ((m + n * 2 ^ 24) / 2 ^ 24 = n) as -> by zlia.
  assert ((m + n * 2 ^ 24 + (if s then 2 ^ 23 else 0)) mod 2 ^ 23 = m) as -> by (destruct s; zlia).
  assert ((m + n * 2 ^ 24) mod 2 ^ 23 = m) as -> by zlia. done.
Qed.

Lemma testbit_sign m n (s : bool) :
  0 ≤ m < 2 ^ 23 → 0 ≤ n → Z.testbit (m + n * 2 ^ 24 + (if s then 2 ^ 23 else 0)) 23 = s.
Proof.
  intros. destruct s; [apply Z.testbit_true|apply Z.testbit_false]; zlia.
Qed.

(** What [GetCompact] wrote, read back. *)
Lemma compact_encode a fNegative `{!WF a} :
  ∃ c', GetCompact a fNegative = Some c' ∧ urange 32 c' ∧
    val (sc_value (SetCompact c')) = compact_floor (val a) ∧
    0 ≤ val a - compact_floor (val a) ∧ 2 ^ 15 * (val a - compact_floor (val a)) ≤ val a ∧
    sc_overflow (SetCompact c') = false ∧
    sc_negative (SetCompact c') = fNegative && negb (val a =? 0).
Proof.
  pose proof (val_range_256 a) as Hr. eexists; split; [apply GetCompact_ok; apply _|].
  destruct (Z.eqb_spec (val a) 0) as [E|E].
  { rewrite E, andb_false_r. by vm_compute. }
  assert (0 < val a) as Hv by lia.
  pose proof (compact_mant_range _ Hv) as Hm. pose proof (compact_floor_nonneg (val a)) as Hf.
  pose proof (compact_floor_le (val a)) as Hfl. pose proof (compact_floor_error (val a)) as Herr.
  assert (1 ≤ compact_bytes (val a) ≤ 33) as Hb.
  { pose proof (bitlen_le (val a) 256 ltac:(lia) Hr). pose proof (bitlen_nonneg (val a)).
    unfold compact_bytes. zlia. }
  set (c' := compact_mant (val a) + compact_bytes (val a) * 2 ^ 24 + (if fNegative then 2 ^ 23 else 0)).
  assert (urange 32 c') as Hc' by (unfold urange, c'; destruct fNegative; lia).
  destruct (SetCompact_ok c' Hc') as (_ & Hval & Hov & Hneg).
  assert (compact_value c' = compact_floor (val a)) as Hcv by (apply compact_value_sign; lia).
  rewrite Hcv in Hval, Hov, Hneg. rewrite Z.mod_small in Hval by lia.
  split_and!; try (done || lia).
  - apply not_true_iff_false. rewrite Hov. lia.
  - cbn [negb]. rewrite andb_true_r. apply Bool.eq_iff_eq_true. rewrite Hneg.
    assert (compact_floor (val a) ≠ 0) as Hnz by lia.
    assert (Z.testbit c' 23 = fNegative) as ->; [|tauto].
    apply testbit_sign; lia.
Qed.

(** C38: compact round trips.  [GetCompact] never fails one of its assertions; decoding
    what it wrote gives the number rounded down to its three most significant bytes
    (an error of less than one part in [2^15]), with the sign it was given and no
    overflow; and every canonical compact number is reproduced bit for bit. *)
Theorem compact_roundtrip (a : list Z) (fNegative : bool) (c : Z)
  (Ha : wf WIDTH a) (Hc : compact_canonical c) :
  (∃ c', GetCompact a fNegative = Some c' ∧ urange 32 c' ∧
     val (sc_value (SetCompact c')) = compact_floor (val a) ∧
     0 ≤ val a - compact_floor (val a) ∧ 2 ^ 15 * (val a - compact_floor (val a)) ≤ val a ∧
     sc_overflow (SetCompact c') = false ∧
     sc_negative (SetCompact c') = fNegative && negb (val a =? 0)) ∧
  GetCompact (sc_value (SetCompact c)) false = Some c.
Proof.
  assert (WF a) as HWF by done. split; [by apply compact_encode|].
  destruct Hc as (Hc & Hsign & Hrest). pose proof (canonical_mant c ltac:(done)) as (Hpos & Hm & Hb).
  destruct (SetCompact_ok c Hc) as (HW & Hval & _). rewrite Z.mod_small in Hval by lia.
  rewrite (GetCompact_ok _ false), Hval. destruct (Z.eqb_spec (compact_value c) 0); [lia|].
  rewrite Hm, Hb, Z.add_0_r. f_equal. symmetry. by apply compact_split.
Qed.

Lemma compact_roundtrip_witness :
  compact_canonical 0x1d00ffff ∧
  GetCompact (sc_value (SetCompact 0x1d00ffff)) false = Some 0x1d00ffff.
Proof.
  assert (compact_canonical 0x1d00ffff) as Hc by (unfold compact_canonical; by vm_compute).
  split; [exact Hc|].
  apply (compact_roundtrip (digits 32 8 12345) true 0x1d00ffff); [apply wf_of_Z|exact Hc].
Defined.

