(* ===== verification/Serialize.v ===== *)
(** * Serialization formats

    Models [src/Sources/libbitcoinkernel/src/serialize.h].

    A stream being written is the list of bytes written so far; a stream being
    read is the list of bytes left, and a read that throws
    [std::ios_base::failure] is [inl] of a [ser_error].  A formatter class of the
    source (its [Ser] and [Unser] methods) is a [Formatter]; [LawfulFormatter]
    is what serializing code relies on: parsing inverts printing, and nothing
    but the printed form of a value parses to it. *)

From S2P Require Import Prelude.
From Stdlib Require Import ZArith Lia.
From stdpp Require Import base option list numbers.

Open Scope Z_scope.
Open Scope kernel_scope.

Inductive ser_error :=
  | end_of_data
  | noncanonical_compact_size
  | compact_size_too_large
  | varint_too_large
  | superfluous_witness
  | unknown_tx_optional_data.

(** ** Reading *)

Definition parser (A : Type) : Type := bytes → ser_error + A * bytes.

Definition pret {A} (x : A) : parser A := λ s, inr (x, s).
Definition pfail {A} (e : ser_error) : parser A := λ _, inl e.
Definition pbind {A B} (p : parser A) (k : A → parser B) : parser B :=
  λ s, match p s with inl e => inl e | inr (x, s) => k x s end.
Notation "x <-- p ;; k" := (pbind p (λ x, k))
  (at level 100, p at next level, right associativity) : kernel_scope.

(** [s.read(dst)] of [n] bytes: all of them or an exception. *)
Definition read (n : nat) : parser bytes :=
  λ s, if (length s <? n)%nat then inl end_of_data else inr (take n s, drop n s).

(** [s.ignore(n)]. *)
Definition ignore (n : nat) : parser unit := pbind (read n) (λ _, pret tt).

(** ** Fixed-width integers: [ser_writedata*], [ser_readdata*] *)

Definition ser_writedata8 (obj : Z) : bytes := digits 8 1 obj.
Definition ser_writedata16 (obj : Z) : bytes := digits 8 2 obj.
Definition ser_writedata32 (obj : Z) : bytes := digits 8 4 obj.
Definition ser_writedata32be (obj : Z) : bytes := rev (digits 8 4 obj).
Definition ser_writedata64 (obj : Z) : bytes := digits 8 8 obj.

Definition ser_readdata8 : parser Z := b <-- read 1 ;; pret (undigits 8 b).
Definition ser_readdata16 : parser Z := b <-- read 2 ;; pret (undigits 8 b).
Definition ser_readdata32 : parser Z := b <-- read 4 ;; pret (undigits 8 b).
Definition ser_readdata32be : parser Z := b <-- read 4 ;; pret (undigits 8 (rev b)).
Definition ser_readdata64 : parser Z := b <-- read 8 ;; pret (undigits 8 b).

(** ** CompactSize *)

Definition MAX_SIZE : Z := 0x02000000.
Definition MAX_VECTOR_ALLOCATE : Z := 5000000.

Definition GetSizeOfCompactSize (nSize : Z) : Z :=
  if nSize <? 253 then 1
  else if nSize <=? 2 ^ 16 - 1 then 1 + 2
  else if nSize <=? 2 ^ 32 - 1 then 1 + 4
  else 1 + 8.

Definition WriteCompactSize (nSize : Z) : bytes :=
  if nSize <? 253 then ser_writedata8 nSize
  else if nSize <=? 2 ^ 16 - 1 then ser_writedata8 253 ++ ser_writedata16 nSize
  else if nSize <=? 2 ^ 32 - 1 then ser_writedata8 254 ++ ser_writedata32 nSize
  else ser_writedata8 255 ++ ser_writedata64 nSize.

Definition ReadCompactSize (range_check : bool) : parser Z :=
  chSize <-- ser_readdata8 ;;
  nSizeRet <--
    (if chSize <? 253 then pret chSize
     else if chSize =? 253 then
       n <-- ser_readdata16 ;;
       if n <? 253 then pfail noncanonical_compact_size else pret n
     else if chSize =? 254 then
       n <-- ser_readdata32 ;;
       if n <? 0x10000 then pfail noncanonical_compact_size else pret n
     else
       n <-- ser_readdata64 ;;
       if n <? 0x100000000 then pfail noncanonical_compact_size else pret n) ;;
  if range_check && (MAX_SIZE <? nSizeRet) then pfail compact_size_too_large
  else pret nSizeRet.

(** ** VarInt, for an integer type of maximum [max] *)

(** [GetSizeOfVarInt]; [fuel] bounds the iterations. *)
Fixpoint GetSizeOfVarInt_loop (fuel : nat) (nRet n : Z) : Z :=
  let nRet := nRet + 1 in
  match fuel with
  | O => nRet
  | S fuel => if n <=? 0x7f then nRet else GetSizeOfVarInt_loop fuel nRet ((n .>> 7) - 1)
  end.
Definition varint_cap (w : Z) : nat := Z.to_nat ((w + 6) / 7).
Definition GetSizeOfVarInt (w n : Z) : Z := GetSizeOfVarInt_loop (varint_cap w) 0 n.

(** The first loop of [WriteVarInt] fills [tmp], here with its last entry first;
    [cap] is the room left in [tmp] ([None] is an overrun). *)
Fixpoint WriteVarInt_loop (cap : nat) (n : Z) (tmp : bytes) : option bytes :=
  match cap with
  | O => None
  | S cap =>
      let tmp := ((n .& 0x7f) .| (if decide (tmp = []) then 0 else 0x80)) :: tmp in
      if n <=? 0x7f then Some tmp
      else WriteVarInt_loop cap ((n .>> 7) - 1) tmp
  end.
Definition WriteVarInt (w n : Z) : option bytes := WriteVarInt_loop (varint_cap w) n [].

(** [ReadVarInt], [n] being the number read so far. *)
Fixpoint ReadVarInt_loop (max n : Z) (s : bytes) : ser_error + Z * bytes :=
  match s with
  | [] => inl end_of_data
  | chData :: s =>
      if (max .>> 7) <? n then inl varint_too_large
      else
        let n := (n .<< 7) .| (chData .& 0x7f) in
        if negb (chData .& 0x80 =? 0) then
          if n =? max then inl varint_too_large
          else ReadVarInt_loop max (n + 1) s
        else inr (n, s)
  end.
Definition ReadVarInt (max : Z) : parser Z := ReadVarInt_loop max 0.

(** ** Formatters *)

Record Formatter (A : Type) := { Ser : A → bytes; Unser : parser A }.
Arguments Ser {A} _ _.
Arguments Unser {A} _ _.

Definition GetSerializeSize {A} (F : Formatter A) (x : A) : Z := Z.of_nat (length (Ser F x)).

(** Integers as themselves. *)
Definition U8 : Formatter Z := {| Ser := ser_writedata8; Unser := ser_readdata8 |}.
Definition U16 : Formatter Z := {| Ser := ser_writedata16; Unser := ser_readdata16 |}.
Definition U32 : Formatter Z := {| Ser := ser_writedata32; Unser := ser_readdata32 |}.
Definition U64 : Formatter Z := {| Ser := ser_writedata64; Unser := ser_readdata64 |}.
Definition I32 : Formatter Z :=
  {| Ser a := ser_writedata32 (u32 a); Unser := a <-- ser_readdata32 ;; pret (i32 a) |}.
Definition I64 : Formatter Z :=
  {| Ser a := ser_writedata64 (u64 a); Unser := a <-- ser_readdata64 ;; pret (i64 a) |}.

(** Byte arrays of fixed size ([std::array<B, N>], [base_blob]). *)
Definition Blob (n : nat) : Formatter bytes := {| Ser a := a; Unser := read n |}.

(** Byte vectors: [Serialize(std::vector<unsigned char>)], [prevector] and strings.
    The reader takes blocks of at most 5000000 bytes. *)
Fixpoint read_blocks (fuel : nat) (nSize i : Z) (v : bytes) : parser bytes :=
  match fuel with
  | O => pret v
  | S fuel =>
      if i <? nSize then
        let blk := Z.min (nSize - i) (1 + 4999999) in
        b <-- read (Z.to_nat blk) ;;
        read_blocks fuel nSize (i + blk) (v ++ b)
      else pret v
  end.
Definition ByteVector : Formatter bytes :=
  {| Ser v := WriteCompactSize (Z.of_nat (length v)) ++ v;
     Unser := nSize <-- ReadCompactSize true ;; read_blocks (Z.to_nat nSize) nSize 0 [] |}.

(** [VectorFormatter]: elements are read in batches of [MAX_VECTOR_ALLOCATE / sizeof(T)]. *)
Fixpoint unser_many {A} (F : Formatter A) (n : nat) (v : list A) : parser (list A) :=
  match n with
  | O => pret v
  | S n => x <-- Unser F ;; unser_many F n (v ++ [x])
  end.
Fixpoint unser_batches {A} (F : Formatter A) (sizeof : Z) (fuel : nat) (size allocated : Z)
    (v : list A) : parser (list A) :=
  match fuel with
  | O => pret v
  | S fuel =>
      if allocated <? size then
        let allocated := Z.min size (allocated + MAX_VECTOR_ALLOCATE / sizeof) in
        v <-- unser_many F (Z.to_nat allocated - length v) v ;;
        unser_batches F sizeof fuel size allocated v
      else pret v
  end.
Definition VectorFormatter {A} (F : Formatter A) (sizeof : Z) : Formatter (list A) :=
  {| Ser v := WriteCompactSize (Z.of_nat (length v)) ++ concat (map (Ser F) v);
     Unser := size <-- ReadCompactSize true ;; unser_batches F sizeof (Z.to_nat size) size 0 [] |}.

(** ** The laws *)

Class LawfulFormatter {A} (F : Formatter A) (P : A → Prop) : Prop := {
  fmt_bytes x : P x → bytes_ok (Ser F x);
  fmt_roundtrip x rest : P x → Unser F (Ser F x ++ rest) = inr (x, rest);
  fmt_canonical s x rest :
    bytes_ok s → Unser F s = inr (x, rest) → P x ∧ s = Ser F x ++ rest;
}.

(** *** The parser monad *)

Lemma pbind_inr {A B} (p : parser A) (k : A → parser B) s y r :
  pbind p k s = inr (y, r) ↔ ∃ x s', p s = inr (x, s') ∧ k x s' = inr (y, r).
Proof.
  unfold pbind. destruct (p s) as [e|[x s']]; [|naive_solver].
  split; [done|]. intros (x & s' & H & _). done.
Qed.

Lemma pbind_run {A B} (p : parser A) (k : A → parser B) s x s' :
  p s = inr (x, s') → pbind p k s = k x s'.
Proof. unfold pbind. by intros ->. Qed.

Lemma pbind_assoc {A B C} (p : parser A) (f : A → parser B) (k : B → parser C) s :
  pbind (pbind p f) k s = pbind p (λ x, pbind (f x) k) s.
Proof. unfold pbind. by destruct (p s) as [|[x s']]. Qed.

Lemma read_app n (b rest : bytes) : length b = n → read n (b ++ rest) = inr (b, rest).
Proof.
  intros <-. unfold read. rewrite (proj2 (Nat.ltb_ge _ _)) by (rewrite length_app; lia).
  by rewrite take_app_length, drop_app_length.
Qed.

Lemma read_inr n s b rest : read n s = inr (b, rest) ↔ s = b ++ rest ∧ length b = n.
Proof.
  split.
  - unfold read. destruct (Nat.ltb_spec (length s) n); [done|]. intros [= <- <-].
    rewrite take_drop, length_take_le by lia. done.
  - intros [-> H]. by apply read_app.
Qed.

Lemma read_0 s : read 0 s = inr ([], s).
Proof. unfold read. by destruct (Nat.ltb_spec (length s) 0); [lia|]. Qed.

Lemma drop_bytes_ok (s b rest : bytes) : bytes_ok s → s = b ++ rest → bytes_ok b ∧ bytes_ok rest.
Proof. intros Hs ->. by apply digits_ok_app. Qed.

(** *** Fixed-width integers *)

Lemma digits_lawful (n : nat) (F : Formatter Z) :
  (∀ x, Ser F x = digits 8 n x) →
  (∀ s, Unser F s = pbind (read n) (λ b, pret (undigits 8 b)) s) →
  LawfulFormatter F (urange (8 * Z.of_nat n)).
Proof.
  intros HS HU. split.
  - intros x _. rewrite HS. by apply digits_digits_ok.
  - intros x rest Hx. rewrite HU, HS. unfold pbind.
    rewrite read_app by apply length_digits. unfold pret.
    rewrite undigits_digits by lia. rewrite Z.mod_small; [done|]. apply Hx.
  - intros s x rest Hs H. rewrite HU, pbind_inr in H.
    destruct H as (b & s' & Hr & Hx). unfold pret in Hx. simplify_eq.
    apply read_inr in Hr as [-> Hlen]. apply digits_ok_app in Hs as [Hb _].
    subst n. split.
    + pose proof (undigits_range 8 ltac:(lia) b Hb). unfold urange. lia.
    + by rewrite HS, digits_undigits by (lia || done).
Qed.

#[export] Instance U8_lawful : LawfulFormatter U8 (urange 8).
Proof. by apply (digits_lawful 1). Qed.
#[export] Instance U16_lawful : LawfulFormatter U16 (urange 16).
Proof. by apply (digits_lawful 2). Qed.
#[export] Instance U32_lawful : LawfulFormatter U32 (urange 32).
Proof. by apply (digits_lawful 4). Qed.
#[export] Instance U64_lawful : LawfulFormatter U64 (urange 64).
Proof. by apply (digits_lawful 8). Qed.

Lemma swrap_uwrap w x : 0 < w → srange w x → swrap w (uwrap w x) = x.
Proof.
  intros Hw Hx. rewrite <-(swrap_small w x) at 2 by done. unfold swrap, uwrap.
  by rewrite Zplus_mod_idemp_l.
Qed.
Lemma uwrap_swrap w x : 0 < w → urange w x → uwrap w (swrap w x) = x.
Proof.
  intros Hw Hx. rewrite <-(uwrap_small w x) at 2 by done. unfold swrap, uwrap.
  rewrite Zminus_mod_idemp_l. f_equal. lia.
Qed.

(** Signed integers travel as their two's complement. *)
Lemma signed_lawful (w : Z) (U F : Formatter Z) `{!LawfulFormatter U (urange w)} :
  0 < w →
  (∀ x, Ser F x = Ser U (uwrap w x)) →
  (∀ s, Unser F s = pbind (Unser U) (λ a, pret (swrap w a)) s) →
  LawfulFormatter F (srange w).
Proof.
  intros Hw HS HU. split.
  - intros x _. rewrite HS. apply (fmt_bytes (F := U)). apply uwrap_range. lia.
  - intros x rest Hx. rewrite HU, HS. unfold pbind.
    rewrite (fmt_roundtrip (F := U)) by (apply uwrap_range; lia). unfold pret.
    by rewrite swrap_uwrap.
  - intros s x rest Hs H. rewrite HU, pbind_inr in H.
    destruct H as (a & s' & Hr & Hx). unfold pret in Hx. simplify_eq.
    apply (fmt_canonical (F := U)) in Hr as [Ha ->]; [|done].
    split; [by apply swrap_range|]. by rewrite HS, uwrap_swrap.
Qed.

#[export] Instance I32_lawful : LawfulFormatter I32 (srange 32).
Proof. apply (signed_lawful 32 U32 I32); [lia|done|done]. Qed.
#[export] Instance I64_lawful : LawfulFormatter I64 (srange 64).
Proof. apply (signed_lawful 64 U64 I64); [lia|done|done]. Qed.

#[export] Instance Blob_lawful n : LawfulFormatter (Blob n) (λ b, length b = n ∧ bytes_ok b).
Proof.
  split; simpl.
  - by intros x [_ ?].
  - intros x rest [? _]. by apply read_app.
  - intros s x rest Hs [-> H]%read_inr. apply digits_ok_app in Hs as [? _]. done.
Qed.

(** *** CompactSize *)

Definition CompactSize (range_check : bool) : Formatter Z :=
  {| Ser := WriteCompactSize; Unser := ReadCompactSize range_check |}.

Definition compact_size_ok (range_check : bool) (n : Z) : Prop :=
  urange 64 n ∧ (range_check = true → n ≤ MAX_SIZE).

Lemma readdata8_cons b s : urange 8 b → ser_readdata8 (b :: s) = inr (b, s).
Proof.
  intros Hb. unfold ser_readdata8, pbind. change (b :: s) with ([b] ++ s).
  rewrite read_app by done. unfold pret. cbn [undigits]. do 2 f_equal. lia.
Qed.

Lemma readdata8_inr s b s' : ser_readdata8 s = inr (b, s') ↔ s = b :: s'.
Proof.
  unfold ser_readdata8. rewrite pbind_inr. split.
  - intros (l & r & [-> Hl]%read_inr & Hp). unfold pret in Hp. simplify_eq.
    destruct l as [|d [|? ?]]; simplify_eq/=. f_equal. lia.
  - intros ->. exists [b], s'. split; [by apply (read_app 1 [b])|].
    unfold pret. cbn [undigits]. do 2 f_equal. lia.
Qed.

Lemma writedata8_small b : urange 8 b → ser_writedata8 b = [b].
Proof. intros Hb. unfold ser_writedata8. cbn [digits]. by rewrite Z.mod_small. Qed.

#[export] Instance CompactSize_lawful rc : LawfulFormatter (CompactSize rc) (compact_size_ok rc).
Proof.
  split; simpl.
  - intros n _. unfold WriteCompactSize.
    repeat case_match; unfold ser_writedata8, ser_writedata16, ser_writedata32, ser_writedata64;
      rewrite ?digits_ok_app; auto using digits_digits_ok with kernel.
  - intros n rest [Hn Hmax]. unfold urange in Hn.
    assert (rc && (MAX_SIZE <? n) = false) as Hrc.
    { destruct rc; [|done]. cbn [andb]. apply Z.ltb_ge. auto. }
    unfold ReadCompactSize, WriteCompactSize.
    destruct (Z.ltb_spec n 253); [|destruct (Z.leb_spec n (2 ^ 16 - 1)); [|destruct (Z.leb_spec n (2 ^ 32 - 1))]];
      rewrite writedata8_small by (unfold urange; lia); unfold pbind at 1; cbn [app];
      rewrite readdata8_cons by (unfold urange; lia); unfold pbind at 1.
    + rewrite (proj2 (Z.ltb_lt _ _)) by lia. unfold pret at 1. by rewrite Hrc.
    + cbn [Z.ltb Z.compare Z.eqb Pos.compare Pos.compare_cont Pos.eqb]. unfold pbind at 1.
      change ser_readdata16 with (Unser U16). change (ser_writedata16 n) with (Ser U16 n).
      rewrite fmt_roundtrip by (unfold urange; lia). rewrite (proj2 (Z.ltb_ge _ _)) by lia.
      unfold pret at 1. by rewrite Hrc.
    + cbn [Z.ltb Z.compare Z.eqb Pos.compare Pos.compare_cont Pos.eqb]. unfold pbind at 1.
      change ser_readdata32 with (Unser U32). change (ser_writedata32 n) with (Ser U32 n).
      rewrite fmt_roundtrip by (unfold urange; lia). rewrite (proj2 (Z.ltb_ge _ _)) by lia.
      unfold pret at 1. by rewrite Hrc.
    + cbn [Z.ltb Z.compare Z.eqb Pos.compare Pos.compare_cont Pos.eqb]. unfold pbind at 1.
      change ser_readdata64 with (Unser U64). change (ser_writedata64 n) with (Ser U64 n).
      rewrite fmt_roundtrip by (unfold urange; lia). rewrite (proj2 (Z.ltb_ge _ _)) by lia.
      unfold pret at 1. by rewrite Hrc.
  - intros s n rest Hs H. unfold ReadCompactSize in H. rewrite pbind_inr in H.
    destruct H as (ch & s1 & ->%readdata8_inr & H). apply digits_ok_cons in Hs as [Hch Hs].
    rewrite pbind_inr in H. destruct H as (m & s2 & Hm & H).
    destruct (rc && (MAX_SIZE <? m)) eqn:Hrc; [done|]. unfold pret in H. simplify_eq.
    assert (rc = true → n ≤ MAX_SIZE) as Hmax.
    { intros ->. cbn [andb] in Hrc. by apply Z.ltb_ge. }
    unfold urange in Hch.
    enough ((urange 64 n ∧ ch :: s1 = WriteCompactSize n ++ rest)) by (unfold compact_size_ok; tauto).
    unfold WriteCompactSize.
    destruct (Z.ltb_spec ch 253); [|destruct (Z.eqb_spec ch 253) as [->|]; [|destruct (Z.eqb_spec ch 254) as [->|]]].
    + unfold pret in Hm. simplify_eq. rewrite (proj2 (Z.ltb_lt _ _)) by lia.
      rewrite writedata8_small by (unfold urange; lia). split; [unfold urange; lia|done].
    + rewrite pbind_inr in Hm. destruct Hm as (k & s3 & Hk & Hm).
      apply (fmt_canonical (F := U16)) in Hk as [Hk ->]; [|done].
      destruct (Z.ltb_spec k 253); [done|]. unfold pret in Hm. simplify_eq. unfold urange in *.
      rewrite (proj2 (Z.ltb_ge _ _)), (proj2 (Z.leb_le _ _)) by lia. split; [lia|done].
    + rewrite pbind_inr in Hm. destruct Hm as (k & s3 & Hk & Hm).
      apply (fmt_canonical (F := U32)) in Hk as [Hk ->]; [|done].
      destruct (Z.ltb_spec k 0x10000); [done|]. unfold pret in Hm. simplify_eq. unfold urange in *.
      rewrite (proj2 (Z.ltb_ge _ _)), (proj2 (Z.leb_gt _ _)), (proj2 (Z.leb_le _ _)) by lia. split; [lia|done].
    + rewrite pbind_inr in Hm. destruct Hm as (k & s3 & Hk & Hm).
      apply (fmt_canonical (F := U64)) in Hk as [Hk ->]; [|done].
      destruct (Z.ltb_spec k 0x100000000); [done|]. unfold pret in Hm. simplify_eq. unfold urange in *.
      rewrite (proj2 (Z.ltb_ge _ _)), !(proj2 (Z.leb_gt _ _)) by lia.
      replace ch with 255 by lia. split; [lia|done].
Qed.

Lemma ReadCompactSize_write rc n rest :
  compact_size_ok rc n → ReadCompactSize rc (WriteCompactSize n ++ rest) = inr (n, rest).
Proof. apply (fmt_roundtrip (F := CompactSize rc)). Qed.

(** *** VarInt

    The maximum of an integer type is all ones, so its last seven bits are. *)

Definition VarIntFormatter (w max : Z) : Formatter Z :=
  {| Ser n := default [] (WriteVarInt w n); Unser := ReadVarInt max |}.

Lemma land_127 n : n .& 0x7f = n mod 128.
Proof. apply (Z.land_ones n 7). lia. Qed.

Lemma shiftr_7 n : n .>> 7 = n / 128.
Proof. apply (Z.shiftr_div_pow2 n 7). lia. Qed.

Lemma varint_shift_in n ch : (n .<< 7) .| (ch .& 0x7f) = n * 128 + ch mod 128.
Proof.
  rewrite land_127, Z.shiftl_mul_pow2 by lia.
  apply (lor_add_disjoint 7); [lia|]. apply Z.mod_pos_bound. lia.
Qed.

Lemma varint_flagged n : (n .& 0x7f) .| 0x80 = 128 + n mod 128.
Proof.
  rewrite land_127, Z.lor_comm. apply (lor_add_disjoint 7 1); [lia|]. apply Z.mod_pos_bound. lia.
Qed.

Lemma varint_flag_eqb ch : urange 8 ch → negb (ch .& 0x80 =? 0) = (128 <=? ch).
Proof.
  intros Hch. unfold urange in Hch. change (ch .& 0x80) with (ch .& (1 .<< 7)).
  rewrite land_bit_eqb by lia. apply eq_true_iff_eq. rewrite Z.leb_le, Z.testbit_true by lia.
  change (2 ^ 7) with 128. assert (ch / 128 = 0 ∨ ch / 128 = 1) as [E|E] by zlia;
    rewrite E; split; zlia.
Qed.

Lemma mod_128_range m : 0 ≤ m mod 128 < 128.
Proof. apply Z.mod_pos_bound. lia. Qed.
Lemma varint_flag_byte m : urange 8 (128 + m mod 128).
Proof. pose proof (mod_128_range m). unfold urange. lia. Qed.
Lemma varint_last_byte m : urange 8 (m mod 128).
Proof. pose proof (mod_128_range m). unfold urange. lia. Qed.
#[local] Hint Resolve varint_flag_byte varint_last_byte : kernel.

(** The bytes before the last one, which carry the flag. *)
Fixpoint varint_prefix (cap : nat) (m : Z) : option bytes :=
  match cap with
  | O => None
  | S cap =>
      let b := 128 + m mod 128 in
      if m <=? 0x7f then Some [b]
      else e ← varint_prefix cap (m / 128 - 1); Some (e ++ [b])
  end.

Lemma WriteVarInt_loop_prefix cap m d tmp :
  WriteVarInt_loop cap m (d :: tmp) = (λ e, e ++ d :: tmp) <$> varint_prefix cap m.
Proof.
  revert m d tmp. induction cap as [|cap IH]; intros m d tmp; [done|].
  cbn [WriteVarInt_loop varint_prefix]. rewrite decide_False by done.
  rewrite varint_flagged, shiftr_7. destruct (m <=? 0x7f); [done|].
  rewrite IH. destruct (varint_prefix cap (m / 128 - 1)) as [e|]; [|done].
  simpl. by rewrite <-app_assoc.
Qed.

Lemma WriteVarInt_unfold cap n :
  WriteVarInt_loop (S cap) n [] =
    if n <=? 0x7f then Some [n mod 128]
    else e ← varint_prefix cap (n / 128 - 1); Some (e ++ [n mod 128]).
Proof.
  cbn [WriteVarInt_loop]. rewrite decide_True, Z.lor_0_r, land_127, shiftr_7 by done.
  destruct (n <=? 0x7f); [done|]. rewrite WriteVarInt_loop_prefix.
  by destruct (varint_prefix _ _).
Qed.

Lemma varint_prefix_total cap m :
  0 ≤ m < 2 ^ (7 * Z.of_nat cap) - 1 → ∃ e, varint_prefix cap m = Some e ∧ bytes_ok e.
Proof.
  revert m. induction cap as [|cap IH]; intros m Hm; [change (2 ^ _) with 1 in Hm; lia|].
  cbn [varint_prefix]. assert (urange 8 (128 + m mod 128)) by auto with kernel.
  destruct (Z.leb_spec m 0x7f); [eexists; split; [done|]; by apply digits_ok_singleton|].
  replace (7 * Z.of_nat (S cap)) with (7 * Z.of_nat cap + 7) in Hm by lia.
  rewrite Z.pow_add_r in Hm by lia. change (2 ^ 7) with 128 in Hm.
  destruct (IH (m / 128 - 1)) as (e & -> & He).
  { pose proof (Z.div_lt_upper_bound m 128 (2 ^ (7 * Z.of_nat cap))). zlia. }
  eexists. split; [done|]. apply digits_ok_app. split; [done|]. by apply digits_ok_singleton.
Qed.

(** What is written does not depend on the room in [tmp]. *)
Lemma varint_prefix_det cap cap' m e e' :
  varint_prefix cap m = Some e → varint_prefix cap' m = Some e' → e = e'.
Proof.
  revert cap' m e e'. induction cap as [|cap IH]; intros [|cap'] m e e' H H'; try done.
  cbn [varint_prefix] in H, H'. destruct (m <=? 0x7f); [by simplify_eq|].
  apply bind_Some in H as (x & Hx & [= <-]). apply bind_Some in H' as (y & Hy & [= <-]).
  f_equal. eauto.
Qed.

Lemma WriteVarInt_det cap cap' n e e' :
  WriteVarInt_loop cap n [] = Some e → WriteVarInt_loop cap' n [] = Some e' → e = e'.
Proof.
  destruct cap as [|cap], cap' as [|cap']; try done. rewrite !WriteVarInt_unfold.
  destruct (n <=? 0x7f); [congruence|].
  intros (x & Hx & [= <-])%bind_Some (y & Hy & [= <-])%bind_Some.
  f_equal. by eapply varint_prefix_det.
Qed.

Lemma varint_cap_enough w n :
  0 < w → 0 ≤ n < 2 ^ w → ∃ cap, varint_cap w = S cap ∧ n < 2 ^ (7 * Z.of_nat cap + 7).
Proof.
  intros Hw Hn. unfold varint_cap. exists (Z.to_nat ((w + 6) / 7) - 1)%nat.
  assert (1 ≤ (w + 6) / 7) by zlia. split; [lia|].
  apply Z.lt_le_trans with (2 ^ w); [lia|]. apply Z.pow_le_mono_r; [lia|]. zlia.
Qed.

Lemma WriteVarInt_total w n :
  0 < w → 0 ≤ n < 2 ^ w → ∃ e, WriteVarInt w n = Some e ∧ bytes_ok e.
Proof.
  intros Hw Hn. destruct (varint_cap_enough w n Hw Hn) as (cap & Hcap & Hn').
  unfold WriteVarInt. rewrite Hcap, WriteVarInt_unfold.
  assert (urange 8 (n mod 128)) by auto with kernel.
  destruct (Z.leb_spec n 0x7f); [eexists; split; [done|]; by apply digits_ok_singleton|].
  rewrite Z.pow_add_r in Hn' by lia. change (2 ^ 7) with 128 in Hn'.
  destruct (varint_prefix_total cap (n / 128 - 1)) as (e & -> & He).
  { pose proof (Z.div_lt_upper_bound n 128 (2 ^ (7 * Z.of_nat cap))). zlia. }
  eexists. split; [done|]. apply digits_ok_app. split; [done|]. by apply digits_ok_singleton.
Qed.

Lemma ReadVarInt_loop_cons max n ch s :
  urange 8 ch →
  ReadVarInt_loop max n (ch :: s) =
    if max / 128 <? n then inl varint_too_large
    else if 128 <=? ch then
      if n * 128 + ch mod 128 =? max then inl varint_too_large
      else ReadVarInt_loop max (n * 128 + ch mod 128 + 1) s
    else inr (n * 128 + ch mod 128, s).
Proof.
  intros Hch. cbn [ReadVarInt_loop].
  by rewrite shiftr_7, varint_shift_in, varint_flag_eqb by done.
Qed.

Lemma ReadVarInt_prefix max cap m e s :
  0 ≤ m < max → varint_prefix cap m = Some e →
  ReadVarInt_loop max 0 (e ++ s) = ReadVarInt_loop max (m + 1) s.
Proof.
  revert m e s. induction cap as [|cap IH]; intros m e s Hm He; [done|].
  cbn [varint_prefix] in He. assert (urange 8 (128 + m mod 128)) by auto with kernel.
  assert ((128 + m mod 128) mod 128 = m mod 128) as Hmod by zlia.
  assert ((128 <=? 128 + m mod 128) = true) as Hflag by (apply Z.leb_le; zlia).
  destruct (Z.leb_spec m 0x7f).
  - simplify_eq. cbn [app]. rewrite ReadVarInt_loop_cons, Hmod, Hflag by done.
    rewrite (proj2 (Z.ltb_ge _ _)), (proj2 (Z.eqb_neq _ _)) by zlia. f_equal. zlia.
  - apply bind_Some in He as (e' & He' & [= <-]). rewrite <-app_assoc.
    rewrite (IH (m / 128 - 1)) by (done || zlia). cbn [app].
    rewrite ReadVarInt_loop_cons, Hmod, Hflag by done.
    rewrite (proj2 (Z.ltb_ge _ _)), (proj2 (Z.eqb_neq _ _)) by zlia. f_equal. zlia.
Qed.

(** What has been read so far, [n] being the accumulator. *)
Definition varint_hist (max n : Z) (hist : bytes) : Prop :=
  n = 0 ∧ hist = [] ∨ 0 < n ≤ max ∧ ∃ cap, varint_prefix cap (n - 1) = Some hist.

Lemma ReadVarInt_canonical max n hist s x rest :
  max mod 128 = 127 →
  varint_hist max n hist → bytes_ok s → ReadVarInt_loop max n s = inr (x, rest) →
  0 ≤ x ≤ max ∧ ∃ cap e, WriteVarInt_loop cap x [] = Some e ∧ hist ++ s = e ++ rest.
Proof.
  intros Hmax Hh Hs. revert n hist Hh. induction s as [|ch s IH]; intros n hist Hh H; [done|].
  apply digits_ok_cons in Hs as [Hch Hs]. rewrite ReadVarInt_loop_cons in H by done.
  destruct (Z.ltb_spec (max / 128) n) as [|Hle]; [done|].
  assert (0 ≤ n) by (destruct Hh as [[-> _]|[? _]]; lia).
  set (n' := n * 128 + ch mod 128) in *. unfold urange in Hch.
  assert (n' / 128 = n ∧ n' mod 128 = ch mod 128) as [Hd Hm] by (unfold n'; zlia).
  destruct (Z.leb_spec 128 ch).
  - destruct (Z.eqb_spec n' max); [done|]. rewrite cons_middle, app_assoc.
    apply (IH Hs (n' + 1)); [|done]. right. split; [unfold n'; zlia|].
    replace (n' + 1 - 1) with n' by lia. replace ch with (128 + n' mod 128) by zlia.
    destruct Hh as [[Hn ->]|[Hn [cap Hcap]]].
    + exists 1%nat. cbn [varint_prefix]. by rewrite (proj2 (Z.leb_le _ _)) by (unfold n'; zlia).
    + exists (S cap). cbn [varint_prefix].
      rewrite (proj2 (Z.leb_gt _ _)) by (unfold n'; zlia). by rewrite Hd, Hcap.
  - injection H as <- <-. split; [unfold n'; zlia|].
    destruct Hh as [[Hn ->]|[Hn [cap Hcap]]].
    + exists 1%nat, [ch]. rewrite WriteVarInt_unfold, (proj2 (Z.leb_le _ _)) by (unfold n'; zlia).
      rewrite Hm, Z.mod_small by lia. done.
    + exists (S cap), (hist ++ [ch]). rewrite WriteVarInt_unfold.
      rewrite (proj2 (Z.leb_gt _ _)) by (unfold n'; zlia).
      rewrite Hd, Hcap, Hm, Z.mod_small by lia. by rewrite <-app_assoc.
Qed.

Lemma WriteVarInt_read w max n e rest :
  0 < w → 0 ≤ n ≤ max → max < 2 ^ w → WriteVarInt w n = Some e →
  ReadVarInt max (e ++ rest) = inr (n, rest).
Proof.
  intros Hw Hn Hmax He. destruct (varint_cap_enough w n Hw ltac:(lia)) as (cap & Hcap & _).
  unfold WriteVarInt in He. rewrite Hcap, WriteVarInt_unfold in He. unfold ReadVarInt.
  assert (urange 8 (n mod 128)) by auto with kernel.
  assert ((128 <=? n mod 128) = false) as Hlast by (apply Z.leb_gt; zlia).
  destruct (Z.leb_spec n 0x7f).
  - simplify_eq. cbn [app]. rewrite ReadVarInt_loop_cons, Hlast by done.
    rewrite (proj2 (Z.ltb_ge _ _)) by zlia. do 2 f_equal. zlia.
  - apply bind_Some in He as (e' & He' & [= <-]). rewrite <-app_assoc.
    rewrite (ReadVarInt_prefix max cap (n / 128 - 1)) by (done || zlia). cbn [app].
    rewrite ReadVarInt_loop_cons, Hlast by done.
    rewrite (proj2 (Z.ltb_ge _ _)) by zlia. do 2 f_equal. zlia.
Qed.

Lemma VarInt_lawful w max :
  0 < w → 0 ≤ max < 2 ^ w → max mod 128 = 127 →
  LawfulFormatter (VarIntFormatter w max) (λ n, 0 ≤ n ≤ max).
Proof.
  intros Hw Hmax Hones. split; simpl.
  - intros n Hn. destruct (WriteVarInt_total w n) as (e & -> & He); [done|lia|done].
  - intros n rest Hn. destruct (WriteVarInt_total w n) as (e & He & _); [done|lia|].
    rewrite He. eapply (WriteVarInt_read w); [done|done|lia|done].
  - intros s n rest Hs H.
    eapply (ReadVarInt_canonical max 0 []) in H as (Hn & cap & e & He & Heq); [|done|by left|done].
    cbn [app] in Heq. subst s.
    split; [done|]. destruct (WriteVarInt_total w n) as (e' & He' & _); [done|lia|].
    rewrite He'. by rewrite (WriteVarInt_det _ _ _ _ _ He He').
Qed.

Lemma varint_prefix_size cap m e r :
  varint_prefix cap m = Some e →
  GetSizeOfVarInt_loop cap r m = r + Z.of_nat (length e).
Proof.
  revert m e r. induction cap as [|cap IH]; intros m e r He; [done|].
  cbn [varint_prefix] in He. cbn [GetSizeOfVarInt_loop].
  destruct (m <=? 0x7f); [simplify_eq; cbn [length]; lia|].
  apply bind_Some in He as (e' & He' & [= <-]).
  rewrite shiftr_7, (IH _ _ _ He'), length_app. cbn [length]. lia.
Qed.

Lemma GetSizeOfVarInt_length w n e :
  WriteVarInt w n = Some e → GetSizeOfVarInt w n = Z.of_nat (length e).
Proof.
  unfold WriteVarInt, GetSizeOfVarInt. destruct (varint_cap w) as [|cap]; [done|].
  rewrite WriteVarInt_unfold. cbn [GetSizeOfVarInt_loop].
  destruct (n <=? 0x7f); [intros; by simplify_eq|].
  intros (e' & He' & [= <-])%bind_Some.
  rewrite shiftr_7, (varint_prefix_size _ _ _ _ He'), length_app. cbn [length]. lia.
Qed.

Lemma GetSizeOfCompactSize_length n :
  GetSizeOfCompactSize n = Z.of_nat (length (WriteCompactSize n)).
Proof.
  unfold GetSizeOfCompactSize, WriteCompactSize.
  repeat case_match; rewrite ?length_app; unfold ser_writedata8, ser_writedata16,
    ser_writedata32, ser_writedata64; by rewrite !length_digits.
Qed.

(** *** Byte vectors *)

Lemma pbind_ret_l {A B} (x : A) (k : A → parser B) s : pbind (pret x) k s = k x s.
Proof. done. Qed.

Lemma read_split a b s :
  read (a + b) s = pbind (read a) (λ x, pbind (read b) (λ y, pret (x ++ y))) s.
Proof.
  unfold pbind, read, pret. destruct (Nat.ltb_spec (length s) a).
  { by rewrite (proj2 (Nat.ltb_lt _ _)) by lia. }
  rewrite length_drop, drop_drop.
  destruct (Nat.ltb_spec (length s) (a + b)), (Nat.ltb_spec (length s - a) b); try lia; [done|].
  by rewrite <-take_take_drop.
Qed.

(** Reading in blocks is reading everything at once. *)
Lemma read_blocks_read fuel nSize i v s :
  0 ≤ i ≤ nSize → nSize - i ≤ Z.of_nat fuel →
  read_blocks fuel nSize i v s =
    pbind (read (Z.to_nat (nSize - i))) (λ b, pret (v ++ b)) s.
Proof.
  revert i v s. induction fuel as [|fuel IH]; intros i v s Hi Hf; cbn [read_blocks].
  { replace (Z.to_nat (nSize - i)) with O by lia. unfold pbind. by rewrite read_0, app_nil_r. }
  destruct (Z.ltb_spec i nSize).
  2: { replace (Z.to_nat (nSize - i)) with O by lia. unfold pbind. by rewrite read_0, app_nil_r. }
  set (blk := Z.min (nSize - i) (1 + 4999999)). assert (0 < blk ≤ nSize - i) by lia.
  replace (Z.to_nat (nSize - i)) with (Z.to_nat blk + Z.to_nat (nSize - (i + blk)))%nat by lia.
  unfold pbind at 1 2. rewrite read_split. unfold pbind.
  destruct (read (Z.to_nat blk) s) as [|[b s']]; [done|].
  rewrite IH by lia. unfold pbind, pret.
  destruct (read _ s') as [|[b' s'']]; [done|]. by rewrite app_assoc.
Qed.

Definition length_ok {A} (v : list A) : Prop := Z.of_nat (length v) ≤ MAX_SIZE.

Lemma compact_size_length {A} (v : list A) :
  length_ok v → compact_size_ok true (Z.of_nat (length v)).
Proof. unfold length_ok, compact_size_ok, urange, MAX_SIZE. lia. Qed.
#[export] Hint Resolve compact_size_length : kernel.

#[export] Instance ByteVector_lawful : LawfulFormatter ByteVector (λ v, length_ok v ∧ bytes_ok v).
Proof.
  split; simpl.
  - intros v [Hl Hv]. apply digits_ok_app. split; [|done].
    apply (fmt_bytes (F := CompactSize true)). auto with kernel.
  - intros v rest [Hl Hv]. rewrite <-app_assoc. unfold pbind.
    rewrite ReadCompactSize_write by auto with kernel.
    rewrite read_blocks_read, Z.sub_0_r by lia. unfold pbind.
    by rewrite read_app by lia.
  - intros s v rest Hs H. rewrite pbind_inr in H. destruct H as (n & s' & Hn & H).
    apply (fmt_canonical (F := CompactSize true)) in Hn as [[Hn Hmax] ->]; [|done].
    unfold urange in Hn. apply digits_ok_app in Hs as [_ Hs].
    rewrite read_blocks_read, Z.sub_0_r, pbind_inr in H by lia.
    destruct H as (b & s'' & [-> Hlen]%read_inr & Hp). unfold pret in Hp. simplify_eq/=.
    apply digits_ok_app in Hs as [Hv _]. unfold length_ok. rewrite Hlen, Z2Nat.id by lia.
    rewrite <-app_assoc. auto.
Qed.

(** *** Vectors *)

Lemma unser_many_app {A} (F : Formatter A) a b v s :
  unser_many F (a + b) v s = pbind (unser_many F a v) (unser_many F b) s.
Proof.
  revert v s. induction a as [|a IH]; intros v s; [done|]. cbn [Nat.add unser_many].
  unfold pbind at 1 3. unfold pbind at 1. destruct (Unser F s) as [|[x s']]; [done|]. apply IH.
Qed.

Lemma unser_many_length {A} (F : Formatter A) n v s v' s' :
  unser_many F n v s = inr (v', s') → length v' = (length v + n)%nat.
Proof.
  revert v s. induction n as [|n IH]; intros v s H; cbn [unser_many] in H.
  - unfold pret in H. simplify_eq. lia.
  - rewrite pbind_inr in H. destruct H as (x & s1 & _ & H).
    apply IH in H. rewrite length_app in H. cbn [length] in H. lia.
Qed.

(** Reading in batches is reading the elements one after the other. *)
Lemma unser_batches_many {A} (F : Formatter A) sizeof fuel size allocated v s :
  0 < sizeof ≤ MAX_VECTOR_ALLOCATE → 0 ≤ allocated ≤ size → size - allocated ≤ Z.of_nat fuel →
  allocated = Z.of_nat (length v) →
  unser_batches F sizeof fuel size allocated v s = unser_many F (Z.to_nat (size - allocated)) v s.
Proof.
  intros Hsz. assert (1 ≤ MAX_VECTOR_ALLOCATE / sizeof) by
    (apply Z.div_le_lower_bound; unfold MAX_VECTOR_ALLOCATE in *; lia).
  revert allocated v s. induction fuel as [|fuel IH]; intros al v s Hal Hf Hv;
    cbn [unser_batches]; [by replace (Z.to_nat (size - al)) with O by lia|].
  destruct (Z.ltb_spec al size); [|by replace (Z.to_nat (size - al)) with O by lia].
  set (al' := Z.min size (al + MAX_VECTOR_ALLOCATE / sizeof)).
  assert (al < al' ≤ size) by lia.
  replace (Z.to_nat (size - al)) with ((Z.to_nat al' - length v) + Z.to_nat (size - al'))%nat by lia.
  rewrite unser_many_app. unfold pbind.
  destruct (unser_many F _ v s) as [|[v' s']] eqn:E; [done|].
  apply unser_many_length in E. apply IH; lia.
Qed.

Section Vector.
Context {A} (F : Formatter A) (P : A → Prop) `{!LawfulFormatter F P}.

Lemma unser_many_roundtrip v acc rest :
  Forall P v →
  unser_many F (length v) acc (concat (map (Ser F) v) ++ rest) = inr (acc ++ v, rest).
Proof.
  intros Hv. revert acc. induction Hv as [|x v Hx Hv IH]; intros acc; cbn.
  - by rewrite app_nil_r.
  - unfold pbind. rewrite <-app_assoc, fmt_roundtrip by done. by rewrite IH, <-app_assoc.
Qed.

Lemma unser_many_canonical n acc s v rest :
  bytes_ok s → unser_many F n acc s = inr (v, rest) →
  ∃ v', v = acc ++ v' ∧ length v' = n ∧ Forall P v' ∧ s = concat (map (Ser F) v') ++ rest.
Proof.
  revert acc s. induction n as [|n IH]; intros acc s Hs H; cbn [unser_many] in H.
  - unfold pret in H. simplify_eq. exists []. by rewrite app_nil_r.
  - rewrite pbind_inr in H. destruct H as (x & s1 & Hx & H).
    apply fmt_canonical in Hx as [Hx ->]; [|done]. apply digits_ok_app in Hs as [_ Hs].
    destruct (IH _ _ Hs H) as (v' & -> & <- & Hv' & ->).
    exists (x :: v'). rewrite <-app_assoc. split_and!; [done|done|by constructor|].
    cbn. by rewrite <-app_assoc.
Qed.

Lemma concat_bytes_ok v : Forall P v → bytes_ok (concat (map (Ser F) v)).
Proof.
  induction 1 as [|x v Hx Hv IH]; cbn; [apply digits_ok_nil|].
  apply digits_ok_app. split; [by apply fmt_bytes|done].
Qed.

Lemma VectorFormatter_lawful sizeof :
  0 < sizeof ≤ MAX_VECTOR_ALLOCATE →
  LawfulFormatter (VectorFormatter F sizeof) (λ v, length_ok v ∧ Forall P v).
Proof.
  intros Hsz. split; cbn [VectorFormatter Ser Unser].
  - intros v [Hl Hv]. apply digits_ok_app. split; [|by apply concat_bytes_ok].
    apply (fmt_bytes (F := CompactSize true)). auto with kernel.
  - intros v rest [Hl Hv]. rewrite <-app_assoc. unfold pbind.
    rewrite ReadCompactSize_write by auto with kernel.
    rewrite unser_batches_many by (done || lia).
    replace (Z.to_nat _) with (length v) by lia. by rewrite unser_many_roundtrip.
  - intros s v rest Hs H. rewrite pbind_inr in H. destruct H as (n & s' & Hn & H).
    apply (fmt_canonical (F := CompactSize true)) in Hn as [[Hn Hmax] ->]; [|done].
    unfold urange in Hn. apply digits_ok_app in Hs as [_ Hs].
    rewrite unser_batches_many in H by (done || lia).
    destruct (unser_many_canonical _ _ _ _ _ Hs H) as (v' & -> & Hlen & Hv' & ->).
    cbn [app]. unfold length_ok. rewrite Hlen, Z2Nat.id, Z.sub_0_r by lia.
    rewrite <-app_assoc. auto.
Qed.
End Vector.

(** *** Sequences of fields

    [Pair] is the serialization of [std::pair], and more generally one
    [READWRITE] after the other; [ReadWrite] is a [SERIALIZE_METHODS] body whose
    fields are serialized by [F]. *)

Definition Pair {A B} (F : Formatter A) (G : Formatter B) : Formatter (A * B) :=
  {| Ser x := Ser F x.1 ++ Ser G x.2;
     Unser := a <-- Unser F ;; b <-- Unser G ;; pret (a, b) |}.

Definition ReadWrite {R A} (get : R → A) (make : A → R) (F : Formatter A) : Formatter R :=
  {| Ser x := Ser F (get x); Unser := a <-- Unser F ;; pret (make a) |}.

#[export] Instance Pair_lawful {A B} (F : Formatter A) (G : Formatter B) P Q
    `{!LawfulFormatter F P} `{!LawfulFormatter G Q} :
  LawfulFormatter (Pair F G) (λ x, P x.1 ∧ Q x.2).
Proof.
  split; cbn [Pair Ser Unser].
  - intros [a b] [Ha Hb]. apply digits_ok_app. split; by apply fmt_bytes.
  - intros [a b] rest [Ha Hb]. cbn [fst snd] in *. unfold pbind.
    by rewrite <-app_assoc, !fmt_roundtrip by done.
  - intros s [a b] rest Hs H. rewrite pbind_inr in H. destruct H as (a' & s1 & Ha & H).
    apply fmt_canonical in Ha as [Ha ->]; [|done]. apply digits_ok_app in Hs as [_ Hs].
    rewrite pbind_inr in H. destruct H as (b' & s2 & Hb & H).
    apply fmt_canonical in Hb as [Hb ->]; [|done]. unfold pret in H. simplify_eq/=.
    by rewrite <-app_assoc.
Qed.

Lemma ReadWrite_lawful {R A} (get : R → A) (make : A → R) (F : Formatter A) P Q
    `{!LawfulFormatter F P} :
  (∀ x, Q x → make (get x) = x ∧ P (get x)) → (∀ a, P a → get (make a) = a ∧ Q (make a)) →
  LawfulFormatter (ReadWrite get make F) Q.
Proof.
  intros HQ HP. split; cbn [ReadWrite Ser Unser].
  - intros x Hx. apply fmt_bytes. by apply HQ.
  - intros x rest Hx. destruct (HQ x Hx) as [Hmg Hp]. unfold pbind.
    rewrite fmt_roundtrip by done. unfold pret. by rewrite Hmg.
  - intros s x rest Hs H. rewrite pbind_inr in H. destruct H as (a & s1 & Ha & H).
    unfold pret in H. simplify_eq. apply fmt_canonical in Ha as [Ha ->]; [|done].
    destruct (HP a Ha) as [Hgm Hq]. by rewrite Hgm.
Qed.

(** Lengths of printed forms. *)
Lemma length_U32 n : length (Ser U32 n) = 4%nat.
Proof. apply length_digits. Qed.
Lemma length_I32 n : length (Ser I32 n) = 4%nat.
Proof. apply length_digits. Qed.
Lemma length_I64 n : length (Ser I64 n) = 8%nat.
Proof. apply length_digits. Qed.

(** ** Properties *)

(** CompactSize is a canonical code: reading back what was written gives the
    number and leaves the rest of the stream, every number has exactly one
    encoding that the reader accepts (longer ones throw), the range check is what
    bounds the accepted numbers by MAX_SIZE, and GetSizeOfCompactSize is the
    number of bytes written. *)
Theorem CompactSize_codec (range_check : bool) (n : Z) (s rest : bytes) :
  bytes_ok s → compact_size_ok range_check n →
  ReadCompactSize range_check (WriteCompactSize n ++ rest) = inr (n, rest) ∧
  (∀ m, ReadCompactSize range_check s = inr (m, rest) →
     compact_size_ok range_check m ∧ s = WriteCompactSize m ++ rest) ∧
  GetSizeOfCompactSize n = Z.of_nat (length (WriteCompactSize n)).
Proof.
  intros Hs Hn. split_and!; [by apply ReadCompactSize_write| |apply GetSizeOfCompactSize_length].
  intros m. by apply (fmt_canonical (F := CompactSize range_check)).
Qed.

Lemma CompactSize_codec_witness :
  ReadCompactSize true (WriteCompactSize 0x12345 ++ [7]) = inr (0x12345, [7]) ∧
  [254; 0x45; 0x23; 1; 0; 7] = WriteCompactSize 0x12345 ++ [7] ∧
  GetSizeOfCompactSize 0x12345 = 5.
Proof.
  destruct (CompactSize_codec true 0x12345 [254; 0x45; 0x23; 1; 0; 7] [7]) as (H1 & H2 & H3).
  - repeat constructor; unfold urange; lia.
  - unfold compact_size_ok, urange, MAX_SIZE. lia.
  - split_and!; [exact H1| |exact H3]. apply H2. vm_compute. reflexivity.
Defined.

(** VarInt is a canonical code for an integer type of [w] bits and maximum
    [max]: the writer never overruns its buffer of ceil(w/7) bytes,
    GetSizeOfVarInt is the number of bytes written, reading back gives the number,
    and every byte sequence the reader accepts is the one encoding of its result
    (the reader throws instead of overflowing). *)
Theorem VarInt_codec (w max : Z) :
  0 < w → 0 ≤ max < 2 ^ w → max mod 128 = 127 →
  (∀ n rest, 0 ≤ n ≤ max → ∃ e, WriteVarInt w n = Some e ∧
     GetSizeOfVarInt w n = Z.of_nat (length e) ∧ ReadVarInt max (e ++ rest) = inr (n, rest)) ∧
  (∀ s n rest, bytes_ok s → ReadVarInt max s = inr (n, rest) →
     0 ≤ n ≤ max ∧ ∃ e, WriteVarInt w n = Some e ∧ s = e ++ rest).
Proof.
  intros Hw Hmax Hones. pose proof (VarInt_lawful w max Hw Hmax Hones) as HL. split.
  - intros n rest Hn. destruct (WriteVarInt_total w n) as (e & He & _); [done|lia|].
    exists e. split_and!; [done|by apply GetSizeOfVarInt_length|].
    by eapply (WriteVarInt_read w); [|lia..|].
  - intros s n rest Hs H.
    apply (fmt_canonical (F := VarIntFormatter w max)) in H as [Hn Heq]; [|done].
    split; [done|]. destruct (WriteVarInt_total w n) as (e & He & _); [done|lia|].
    exists e. split; [done|]. cbn in Heq. by rewrite He in Heq.
Qed.

Lemma VarInt_codec_witness :
  (∃ e, WriteVarInt 32 (2 ^ 32 - 1) = Some e ∧ GetSizeOfVarInt 32 (2 ^ 32 - 1) = Z.of_nat (length e) ∧
        ReadVarInt (2 ^ 32 - 1) (e ++ [1; 2]) = inr (2 ^ 32 - 1, [1; 2])) ∧
  (∃ e, WriteVarInt 32 65535 = Some e ∧ [0x82; 0xfe; 0x7f] = e ++ []).
Proof.
  destruct (VarInt_codec 32 (2 ^ 32 - 1)) as [H1 H2]; [lia|lia|reflexivity|]. split.
  - apply H1. lia.
  - apply (H2 [0x82; 0xfe; 0x7f] 65535 []); [repeat constructor; unfold urange; lia|reflexivity].
Defined.

(** A vector of any lawfully serialized element type round-trips up to
    MAX_SIZE elements, its encoding is unique, and the incremental allocation of
    the reader (batches of at most MAX_VECTOR_ALLOCATE bytes) reads exactly the
    elements one after the other. *)
Theorem VectorFormatter_codec {A} (F : Formatter A) (P : A → Prop) (sizeof : Z)
    (HF : LawfulFormatter F P) (Hsz : 0 < sizeof ≤ MAX_VECTOR_ALLOCATE) :
  (∀ v rest, length_ok v → Forall P v →
     Unser (VectorFormatter F sizeof) (Ser (VectorFormatter F sizeof) v ++ rest) = inr (v, rest)) ∧
  (∀ s v rest, bytes_ok s → Unser (VectorFormatter F sizeof) s = inr (v, rest) →
     length_ok v ∧ Forall P v ∧ s = Ser (VectorFormatter F sizeof) v ++ rest) ∧
  (∀ size s, 0 ≤ size →
     unser_batches F sizeof (Z.to_nat size) size 0 [] s = unser_many F (Z.to_nat size) [] s).
Proof.
  pose proof (VectorFormatter_lawful F P sizeof Hsz) as HV. split_and!.
  - intros v rest Hl Hv. by apply fmt_roundtrip.
  - intros s v rest Hs H. apply fmt_canonical in H; tauto.
  - intros size s Hs. rewrite unser_batches_many by (done || lia). by rewrite Z.sub_0_r.
Qed.

Lemma VectorFormatter_codec_witness :
  Unser (VectorFormatter U16 2) (Ser (VectorFormatter U16 2) [1; 515] ++ [9]) = inr ([1; 515], [9]).
Proof.
  destruct (VectorFormatter_codec U16 (urange 16) 2 U16_lawful) as [H _];
    [unfold MAX_VECTOR_ALLOCATE; lia|]. apply H; [vm_compute; congruence|].
  repeat constructor; unfold urange; lia.
Defined.
