(* ===== verification/Hasher.v ===== *)
(** * Block hashers

    The classes [CSHA1], [CSHA256], [CSHA512] and [CRIPEMD160] of
    [src/Sources/libbitcoinkernel/src/crypto/] share their state (chaining words, a
    block buffer, a byte counter) and their [Write] and [Finalize] methods up to the
    block size, the compression function and the length field.  This file models the
    shared code once, over these parameters, and proves that a hasher that was fed a
    message in any pieces computes the iterated compression of the padded message. *)

From S2P Require Import Prelude Endian.
From Stdlib Require Import ZArith Lia.
From stdpp Require Import base option list numbers.

Open Scope Z_scope.
Open Scope kernel_scope.

Record hasher := Hasher { hs : list Z; hbuf : bytes; hbytes : Z }.

(** [w = e] followed by [k]: the assignment of a local variable of an unrolled
    compression function.  It is a function application, kept folded when two
    unrolled programs are compared. *)
Definition assign {A} (e : Z) (k : Z → A) : A := k e.
Notation "'set' w := e 'in' k" := (assign e (λ w, k))
  (at level 10, w name, k at level 200) : kernel_scope.

(** ** The constants of the SHA-2 standards

    FIPS 180-4 (4.2.2, 4.2.3) defines the round constants of SHA-256 and SHA-512 as the
    first 32 (64) bits of the fractional parts of the cube roots of the first 64 (80)
    prime numbers, and the initial hash values (5.3.3, 5.3.5) as those of the square roots of the
    first eight. *)
Definition is_prime (p : Z) : bool := forallb (λ d, negb (p mod d =? 0)) (seqZ 2 (p - 2)).
Definition primes (n : nat) : list Z := take n (List.filter is_prime (seqZ 2 410)).

(** The integer part of the cube root of [x], from bit [bit - 1] down. *)
Fixpoint cube_root (bit : nat) (root x : Z) : Z :=
  match bit with
  | O => root
  | S bit' =>
      let root' := root + 2 ^ Z.of_nat bit' in
      cube_root bit' (if root' ^ 3 <=? x then root' else root) x
  end.
Definition cube_root_fraction (w : nat) (p : Z) : Z :=
  cube_root (w + 3) 0 (p * 2 ^ (3 * Z.of_nat w)) mod 2 ^ Z.of_nat w.
Definition square_root_fraction (w : nat) (p : Z) : Z := Z.sqrt (p * 2 ^ (2 * Z.of_nat w)) mod 2 ^ Z.of_nat w.

Section Hasher.
Context (BLOCK : nat) (Transform : list Z → bytes → list Z).

(** [Transform(s, chunk, blocks)], or the loop over full chunks of the source. *)
Fixpoint Transform_blocks (s : list Z) (chunk : bytes) (blocks : nat) : list Z :=
  match blocks with
  | O => s
  | S blocks => Transform_blocks (Transform s (take BLOCK chunk)) (drop BLOCK chunk) blocks
  end.

Definition hasher_Write (st : hasher) (data : bytes) : hasher :=
  let bufsize := Z.to_nat (hbytes st mod Z.of_nat BLOCK) in
  let '(st, data, bufsize) :=
    if (0 <? bufsize)%nat && (BLOCK <=? bufsize + length data)%nat then
      (* Fill the buffer, and process it. *)
      let buf := memcpy (hbuf st) bufsize (take (BLOCK - bufsize) data) in
      (Hasher (Transform (hs st) buf) buf (u64 (hbytes st + Z.of_nat (BLOCK - bufsize))),
       drop (BLOCK - bufsize) data, O)
    else (st, data, bufsize) in
  let '(st, data) :=
    if (BLOCK <=? length data)%nat then
      let blocks := (length data / BLOCK)%nat in
      (Hasher (Transform_blocks (hs st) data blocks) (hbuf st)
         (u64 (hbytes st + Z.of_nat (BLOCK * blocks))),
       drop (BLOCK * blocks) data)
    else (st, data) in
  if (0 <? length data)%nat then
    (* Fill the buffer with what remains. *)
    Hasher (hs st) (memcpy (hbuf st) bufsize data) (u64 (hbytes st + Z.of_nat (length data)))
  else st.

(** [Finalize] up to the output of the words: [padc] is the constant of the padding
    length, [sizedesc] the length field for a number of bits. *)
Definition hasher_Finalize (padc : nat) (sizedesc : Z → bytes) (st : hasher) : hasher :=
  let size := sizedesc (u64 (hbytes st .<< 3)) in
  let pad := 0x80 :: replicate (BLOCK - 1) 0 in
  let n := (1 + (padc - Z.to_nat (hbytes st mod Z.of_nat BLOCK)) mod BLOCK)%nat in
  let st := hasher_Write st (take n pad) in
  hasher_Write st size.

(** ** Specification: the iterated compression of the padded message *)

Definition md_compress (init : list Z) (m : bytes) : list Z :=
  Transform_blocks init m (length m / BLOCK).

Definition md_pad (padc : nat) (sizedesc : Z → bytes) (m : bytes) : bytes :=
  m ++ 0x80 :: replicate ((padc - length m mod BLOCK) mod BLOCK) 0
    ++ sizedesc (u64 (8 * Z.of_nat (length m))).

(** ** Correctness *)

Context (HB : (0 < BLOCK)%nat) (Hdiv : (Z.of_nat BLOCK | 2 ^ 64)).

Lemma Transform_blocks_app s m1 m2 k n :
  length m1 = (BLOCK * k)%nat →
  Transform_blocks s (m1 ++ m2) (k + n) = Transform_blocks (Transform_blocks s m1 k) m2 n.
Proof.
  revert s m1. induction k as [|k IH]; intros s m1 Hl; cbn [Nat.add Transform_blocks].
  { by rewrite (nil_length_inv m1) by lia. }
  rewrite take_app_le, drop_app_le by lia. apply IH. rewrite length_drop. lia.
Qed.

Lemma Transform_blocks_take s m k :
  Transform_blocks s m k = Transform_blocks s (take (BLOCK * k) m) k.
Proof.
  revert s m. induction k as [|k IH]; intros s m; [done|]. cbn [Transform_blocks].
  rewrite take_take, Nat.min_l by lia. rewrite IH. f_equal.
  rewrite skipn_firstn_comm. f_equal. lia.
Qed.

(** [st] has been fed the message [m]. *)
Record represents (init : list Z) (st : hasher) (m : bytes) : Prop := {
  rep_buf : length (hbuf st) = BLOCK;
  rep_bytes : hbytes st = u64 (Z.of_nat (length m));
  rep_s : hs st = md_compress init m;
  rep_tail : take (length m mod BLOCK) (hbuf st) = drop (BLOCK * (length m / BLOCK)) m;
}.

Lemma u64_mod_block n : Z.to_nat (u64 (Z.of_nat n) mod Z.of_nat BLOCK) = (n mod BLOCK)%nat.
Proof.
  unfold uwrap. rewrite Z.mod_mod_divide by done.
  by rewrite <-Nat2Z.inj_mod, Nat2Z.id.
Qed.

Lemma u64_add_length (a b : Z) : u64 (u64 a + b) = u64 (a + b).
Proof. unfold uwrap. by rewrite Zplus_mod_idemp_l. Qed.

(** The number of full blocks and the rest are determined by any split of the length. *)
Lemma block_div_mod n k r : n = (BLOCK * k + r)%nat → (r < BLOCK)%nat →
  (n / BLOCK = k)%nat ∧ (n mod BLOCK = r)%nat.
Proof.
  intros -> Hr. rewrite (Nat.mul_comm BLOCK k). split.
  - rewrite Nat.div_add_l, Nat.div_small by lia. lia.
  - by rewrite Nat.add_comm, Nat.Div0.mod_add, Nat.mod_small.
Qed.

(** Feeding full blocks to a hasher whose buffer is empty. *)
Lemma represents_blocks init st m d k :
  represents init st m → (length m mod BLOCK = 0)%nat → length d = (BLOCK * k)%nat →
  represents init (Hasher (Transform_blocks (hs st) d k) (hbuf st)
    (u64 (hbytes st + Z.of_nat (length d)))) (m ++ d).
Proof.
  intros [Hb Hn Hs Ht] Hm Hd. pose proof (Nat.div_mod_eq (length m) BLOCK) as Hdm.
  destruct (block_div_mod (length (m ++ d)) (length m / BLOCK + k) 0) as [Hq Hr];
    [rewrite length_app; lia|lia|].
  split; cbn [hs hbuf hbytes]; [done| | |].
  - rewrite Hn, u64_add_length, length_app. f_equal. lia.
  - unfold md_compress. rewrite Hq, Transform_blocks_app by lia. by rewrite Hs.
  - rewrite Hr, Hq. rewrite drop_ge; [done|]. rewrite length_app. lia.
Qed.

(** Storing less than what is missing in the buffer. *)
Lemma represents_rest init st m d :
  represents init st m → (length m mod BLOCK + length d < BLOCK)%nat →
  represents init (Hasher (hs st) (memcpy (hbuf st) (length m mod BLOCK) d)
    (u64 (hbytes st + Z.of_nat (length d)))) (m ++ d).
Proof.
  intros [Hb Hn Hs Ht] Hlt. pose proof (Nat.div_mod_eq (length m) BLOCK) as Hdm.
  destruct (block_div_mod (length (m ++ d)) (length m / BLOCK) (length m mod BLOCK + length d))
    as [Hq Hr]; [rewrite length_app; lia|lia|].
  split; cbn [hs hbuf hbytes].
  - rewrite memcpy_length; lia.
  - rewrite Hn, u64_add_length, length_app. f_equal. lia.
  - unfold md_compress. rewrite Hq, Transform_blocks_take, take_app_le by lia.
    rewrite <-Transform_blocks_take. done.
  - rewrite Hr, Hq, take_memcpy by lia. rewrite Ht, drop_app_le by lia. done.
Qed.

(** Completing the block in the buffer. *)
Lemma represents_fill init st m d :
  represents init st m → length d = (BLOCK - length m mod BLOCK)%nat →
  represents init (Hasher (Transform (hs st) (memcpy (hbuf st) (length m mod BLOCK) d))
    (memcpy (hbuf st) (length m mod BLOCK) d) (u64 (hbytes st + Z.of_nat (length d)))) (m ++ d).
Proof.
  intros [Hb Hn Hs Ht] Hd. pose proof (Nat.div_mod_eq (length m) BLOCK) as Hdm.
  pose proof (Nat.mod_upper_bound (length m) BLOCK ltac:(lia)) as Hlt.
  destruct (block_div_mod (length (m ++ d)) (length m / BLOCK + 1) 0) as [Hq Hr];
    [rewrite length_app; lia|lia|].
  assert (memcpy (hbuf st) (length m mod BLOCK) d = drop (BLOCK * (length m / BLOCK)) m ++ d) as Hbuf.
  { rewrite <-Ht, <-take_memcpy by lia. rewrite take_ge; [done|]. rewrite memcpy_length; lia. }
  split; cbn [hs hbuf hbytes].
  - rewrite memcpy_length; lia.
  - rewrite Hn, u64_add_length, length_app. f_equal. lia.
  - unfold md_compress. rewrite Hq, Hbuf.
    replace (m ++ d) with (take (BLOCK * (length m / BLOCK)) m
      ++ (drop (BLOCK * (length m / BLOCK)) m ++ d)) by (by rewrite app_assoc, take_drop).
    rewrite Transform_blocks_app by (rewrite length_take; lia).
    rewrite <-Transform_blocks_take. cbn [Transform_blocks]. rewrite Hs. unfold md_compress.
    rewrite take_ge; [done|]. rewrite length_app, length_drop. lia.
  - rewrite Hr, Hq. rewrite drop_ge; [done|]. rewrite length_app. lia.
Qed.

(** Writing to a hasher appends to the message it represents. *)
Lemma hasher_Write_represents init st m data :
  represents init st m → represents init (hasher_Write st data) (m ++ data).
Proof.
  intros Hrep. pose proof (rep_bytes _ _ _ Hrep) as Hn.
  pose proof (Nat.mod_upper_bound (length m) BLOCK ltac:(lia)) as Hlt.
  unfold hasher_Write. rewrite Hn, u64_mod_block, <-Hn.
  (* the pieces of [data] that go to the three stages *)
  assert (∃ st1 m1 d1, represents init st1 m1 ∧ m1 ++ d1 = m ++ data ∧
    ((length m1 mod BLOCK = 0)%nat ∨ (length m1 mod BLOCK + length d1 < BLOCK)%nat) ∧
    (if (0 <? length m mod BLOCK)%nat && (BLOCK <=? length m mod BLOCK + length data)%nat
     then (Hasher (Transform (hs st) (memcpy (hbuf st) (length m mod BLOCK)
             (take (BLOCK - length m mod BLOCK) data)))
             (memcpy (hbuf st) (length m mod BLOCK) (take (BLOCK - length m mod BLOCK) data))
             (u64 (hbytes st + Z.of_nat (BLOCK - length m mod BLOCK))),
           drop (BLOCK - length m mod BLOCK) data, O)
     else (st, data, (length m mod BLOCK)%nat)) = (st1, d1, (length m1 mod BLOCK)%nat))
    as (st1 & m1 & d1 & Hrep1 & Hm1 & Hcase & ->).
  { destruct (Nat.ltb_spec 0 (length m mod BLOCK)) as [H0|H0];
      [destruct (Nat.leb_spec BLOCK (length m mod BLOCK + length data)) as [H1|H1]|]; cbn [andb].
    - set (k := (BLOCK - length m mod BLOCK)%nat). set (d := take k data).
      assert (length d = k) as Hd by (unfold d; rewrite length_take; lia).
      assert (length (m ++ d) mod BLOCK = 0)%nat as Hz.
      { apply (block_div_mod _ (length m / BLOCK + 1) 0); [|lia].
        pose proof (Nat.div_mod_eq (length m) BLOCK). rewrite length_app. lia. }
      exists (Hasher (Transform (hs st) (memcpy (hbuf st) (length m mod BLOCK) d))
        (memcpy (hbuf st) (length m mod BLOCK) d) (u64 (hbytes st + Z.of_nat k))), (m ++ d), (drop k data).
      rewrite Hz. split_and!; [|by rewrite <-app_assoc; unfold d; rewrite take_drop|by left|done].
      rewrite <-Hd. by apply represents_fill.
    - exists st, m, data. auto.
    - exists st, m, data. split_and!; try done. left. lia. }
  assert (∃ st2 m2 d2, represents init st2 m2 ∧ m2 ++ d2 = m ++ data ∧
    (length m2 mod BLOCK = length m1 mod BLOCK)%nat ∧ (length m2 mod BLOCK + length d2 < BLOCK)%nat ∧
    (if (BLOCK <=? length d1)%nat
     then (Hasher (Transform_blocks (hs st1) d1 (length d1 / BLOCK)) (hbuf st1)
             (u64 (hbytes st1 + Z.of_nat (BLOCK * (length d1 / BLOCK)))),
           drop (BLOCK * (length d1 / BLOCK)) d1)
     else (st1, d1)) = (st2, d2)) as (st2 & m2 & d2 & Hrep2 & Hm2 & Heq & Hlt2 & ->).
  { destruct (Nat.leb_spec BLOCK (length d1)) as [H1|H1].
    - assert (length m1 mod BLOCK = 0)%nat as Hz by lia.
      pose proof (Nat.div_mod_eq (length d1) BLOCK) as Hdm.
      pose proof (Nat.mod_upper_bound (length d1) BLOCK ltac:(lia)).
      set (k := (length d1 / BLOCK)%nat) in *. set (d := take (BLOCK * k) d1).
      assert (length d = (BLOCK * k)%nat) as Hd by (unfold d; rewrite length_take; lia).
      assert (length (m1 ++ d) mod BLOCK = 0)%nat as Hz'.
      { pose proof (Nat.div_mod_eq (length m1) BLOCK).
        apply (block_div_mod _ (length m1 / BLOCK + k) 0); [|lia]. rewrite length_app. lia. }
      exists (Hasher (Transform_blocks (hs st1) d k) (hbuf st1) (u64 (hbytes st1 + Z.of_nat (length d)))),
        (m1 ++ d), (drop (BLOCK * k) d1).
      rewrite Hz', Hz, length_drop. split_and!; [by apply represents_blocks| |done|lia|].
      + rewrite <-app_assoc. unfold d. by rewrite take_drop.
      + by rewrite (Transform_blocks_take _ d1), Hd.
    - exists st1, m1, d1. split_and!; try done. lia. }
  rewrite <-Hm2, <-Heq. destruct (Nat.ltb_spec 0 (length d2)) as [H2|H2].
  - by apply represents_rest.
  - by rewrite (nil_length_inv d2), app_nil_r by lia.
Qed.

Definition hasher_Writes (st : hasher) (pieces : list bytes) : hasher :=
  foldl hasher_Write st pieces.

Lemma hasher_Writes_represents init st m pieces :
  represents init st m → represents init (hasher_Writes st pieces) (m ++ concat pieces).
Proof.
  revert st m. induction pieces as [|d pieces IH]; intros st m H; cbn; [by rewrite app_nil_r|].
  rewrite app_assoc. by apply IH, hasher_Write_represents.
Qed.

Lemma represents_init init buf :
  length buf = BLOCK → represents init (Hasher init buf 0) [].
Proof.
  intros Hb. split; cbn [hs hbuf hbytes length]; [done|done| |].
  - unfold md_compress. cbn [length]. by rewrite Nat.Div0.div_0_l.
  - rewrite Nat.Div0.mod_0_l. by rewrite drop_nil.
Qed.

Context (padc : nat) (sizedesc : Z → bytes) (sizelen : nat).
Context (Hpadc : (padc + sizelen + 1 = 2 * BLOCK)%nat) (Hsz : (sizelen < BLOCK)%nat)
  (Hsizelen : ∀ n, length (sizedesc n) = sizelen).

Lemma md_pad_length m : (length (md_pad padc sizedesc m) mod BLOCK = 0)%nat.
Proof.
  unfold md_pad. rewrite length_app. cbn [length]. rewrite length_app, length_replicate, Hsizelen.
  pose proof (Nat.mod_upper_bound (length m) BLOCK ltac:(lia)) as Hr.
  pose proof (Nat.div_mod_eq (length m) BLOCK) as Hdm. set (r := (length m mod BLOCK)%nat) in *.
  set (k := (padc - r)%nat). pose proof (Nat.div_mod_eq k BLOCK) as Hk.
  pose proof (Nat.mod_upper_bound k BLOCK ltac:(lia)).
  assert (k / BLOCK < 2)%nat by (apply Nat.Div0.div_lt_upper_bound; lia).
  destruct (k / BLOCK)%nat as [|[|]] eqn:E; [| |lia].
  - apply (block_div_mod _ (length m / BLOCK + 2) 0); lia.
  - apply (block_div_mod _ (length m / BLOCK + 1) 0); lia.
Qed.

(** [Finalize] compresses the padded message. *)
Lemma hasher_Finalize_represents init st m :
  represents init st m →
  represents init (hasher_Finalize padc sizedesc st) (md_pad padc sizedesc m).
Proof.
  intros Hrep. pose proof (rep_bytes _ _ _ Hrep) as Hn. unfold hasher_Finalize, md_pad.
  pose proof (Nat.mod_upper_bound (padc - length m mod BLOCK) BLOCK ltac:(lia)) as Hp.
  rewrite Hn, u64_mod_block. cbn [Nat.add firstn].
  rewrite take_replicate, Nat.min_l by lia.
  replace (u64 ((u64 (Z.of_nat (length m))) .<< 3)) with (u64 (8 * Z.of_nat (length m))).
  2: { rewrite Z.shiftl_mul_pow2 by lia. unfold uwrap. rewrite Zmult_mod_idemp_l. f_equal. lia. }
  rewrite app_comm_cons, app_assoc. by do 2 apply hasher_Write_represents.
Qed.
End Hasher.

(** The block sizes divide the range of the byte counter. *)
Lemma divide_64 : (Z.of_nat 64 | 2 ^ 64).
Proof. by exists (2 ^ 58). Qed.
Lemma divide_128 : (Z.of_nat 128 | 2 ^ 64).
Proof. by exists (2 ^ 57). Qed.
