(* ===== verification/Sha256.v ===== *)
(** * SHA-256

    Models [src/Sources/libbitcoinkernel/src/crypto/sha256.cpp] (the portable
    implementation) and [crypto/sha256.h]: the compression function with its rounds
    unrolled as in the source, the double hash of 64 bytes [TransformD64] with its
    precomputed padding, the class [CSHA256] and [SHA256D64].  The reference is the
    algorithm of FIPS 180-4, written as loops. *)

From S2P Require Import Prelude Endian Hasher.
From Stdlib Require Import ZArith Lia.
From stdpp Require Import base option list numbers.

Open Scope Z_scope.
Open Scope kernel_scope.

Module sha256.
Definition Ch (x y z : Z) : Z := z .^ (x .& (y .^ z)).
Definition Maj (x y z : Z) : Z := (x .& y) .| (z .& (x .| y)).
Definition Sigma0 (x : Z) : Z :=
  ((x .>> 2) .| u32 (x .<< 30)) .^ ((x .>> 13) .| u32 (x .<< 19)) .^ ((x .>> 22) .| u32 (x .<< 10)).
Definition Sigma1 (x : Z) : Z :=
  ((x .>> 6) .| u32 (x .<< 26)) .^ ((x .>> 11) .| u32 (x .<< 21)) .^ ((x .>> 25) .| u32 (x .<< 7)).
Definition sigma0 (x : Z) : Z :=
  ((x .>> 7) .| u32 (x .<< 25)) .^ ((x .>> 18) .| u32 (x .<< 14)) .^ (x .>> 3).
Definition sigma1 (x : Z) : Z :=
  ((x .>> 17) .| u32 (x .<< 15)) .^ ((x .>> 19) .| u32 (x .<< 13)) .^ (x .>> 10).

(** [Round]: the new values of [d] and [h]. *)
Definition Round (a b c d e f g h k : Z) : Z * Z :=
  let t1 := u32 (h + Sigma1 e + Ch e f g + k) in
  let t2 := u32 (Sigma0 a + Maj a b c) in
  (u32 (d + t1), u32 (t1 + t2)).

Definition Initialize : list Z :=
  [0x6a09e667; 0xbb67ae85; 0x3c6ef372; 0xa54ff53a; 0x510e527f; 0x9b05688c; 0x1f83d9ab;
   0x5be0cd19].

(** [Transform], one block. *)
Definition Transform (s : list Z) (chunk : bytes) : list Z :=
  let a := s.[0] in let b := s.[1] in let c := s.[2] in let d := s.[3] in
  let e := s.[4] in let f := s.[5] in let g := s.[6] in let h := s.[7] in
  let w0 := ReadBE32 (drop 0 chunk) in
  let '(d, h) := Round a b c d e f g h (0x428a2f98 + w0) in
  let w1 := ReadBE32 (drop 4 chunk) in
  let '(c, g) := Round h a b c d e f g (0x71374491 + w1) in
  let w2 := ReadBE32 (drop 8 chunk) in
  let '(b, f) := Round g h a b c d e f (0xb5c0fbcf + w2) in
  let w3 := ReadBE32 (drop 12 chunk) in
  let '(a, e) := Round f g h a b c d e (0xe9b5dba5 + w3) in
  let w4 := ReadBE32 (drop 16 chunk) in
  let '(h, d) := Round e f g h a b c d (0x3956c25b + w4) in
  let w5 := ReadBE32 (drop 20 chunk) in
  let '(g, c) := Round d e f g h a b c (0x59f111f1 + w5) in
  let w6 := ReadBE32 (drop 24 chunk) in
  let '(f, b) := Round c d e f g h a b (0x923f82a4 + w6) in
  let w7 := ReadBE32 (drop 28 chunk) in
  let '(e, a) := Round b c d e f g h a (0xab1c5ed5 + w7) in
  let w8 := ReadBE32 (drop 32 chunk) in
  let '(d, h) := Round a b c d e f g h (0xd807aa98 + w8) in
  let w9 := ReadBE32 (drop 36 chunk) in
  let '(c, g) := Round h a b c d e f g (0x12835b01 + w9) in
  let w10 := ReadBE32 (drop 40 chunk) in
  let '(b, f) := Round g h a b c d e f (0x243185be + w10) in
  let w11 := ReadBE32 (drop 44 chunk) in
  let '(a, e) := Round f g h a b c d e (0x550c7dc3 + w11) in
  let w12 := ReadBE32 (drop 48 chunk) in
  let '(h, d) := Round e f g h a b c d (0x72be5d74 + w12) in
  let w13 := ReadBE32 (drop 52 chunk) in
  let '(g, c) := Round d e f g h a b c (0x80deb1fe + w13) in
  let w14 := ReadBE32 (drop 56 chunk) in
  let '(f, b) := Round c d e f g h a b (0x9bdc06a7 + w14) in
  let w15 := ReadBE32 (drop 60 chunk) in
  let '(e, a) := Round b c d e f g h a (0xc19bf174 + w15) in
  let w0 := u32 (w0 + sigma1 w14 + w9 + sigma0 w1) in
  let '(d, h) := Round a b c d e f g h (0xe49b69c1 + w0) in
  let w1 := u32 (w1 + sigma1 w15 + w10 + sigma0 w2) in
  let '(c, g) := Round h a b c d e f g (0xefbe4786 + w1) in
  let w2 := u32 (w2 + sigma1 w0 + w11 + sigma0 w3) in
  let '(b, f) := Round g h a b c d e f (0x0fc19dc6 + w2) in
  let w3 := u32 (w3 + sigma1 w1 + w12 + sigma0 w4) in
  let '(a, e) := Round f g h a b c d e (0x240ca1cc + w3) in
  let w4 := u32 (w4 + sigma1 w2 + w13 + sigma0 w5) in
  let '(h, d) := Round e f g h a b c d (0x2de92c6f + w4) in
  let w5 := u32 (w5 + sigma1 w3 + w14 + sigma0 w6) in
  let '(g, c) := Round d e f g h a b c (0x4a7484aa + w5) in
  let w6 := u32 (w6 + sigma1 w4 + w15 + sigma0 w7) in
  let '(f, b) := Round c d e f g h a b (0x5cb0a9dc + w6) in
  let w7 := u32 (w7 + sigma1 w5 + w0 + sigma0 w8) in
  let '(e, a) := Round b c d e f g h a (0x76f988da + w7) in
  let w8 := u32 (w8 + sigma1 w6 + w1 + sigma0 w9) in
  let '(d, h) := Round a b c d e f g h (0x983e5152 + w8) in
  let w9 := u32 (w9 + sigma1 w7 + w2 + sigma0 w10) in
  let '(c, g) := Round h a b c d e f g (0xa831c66d + w9) in
  let w10 := u32 (w10 + sigma1 w8 + w3 + sigma0 w11) in
  let '(b, f) := Round g h a b c d e f (0xb00327c8 + w10) in
  let w11 := u32 (w11 + sigma1 w9 + w4 + sigma0 w12) in
  let '(a, e) := Round f g h a b c d e (0xbf597fc7 + w11) in
  let w12 := u32 (w12 + sigma1 w10 + w5 + sigma0 w13) in
  let '(h, d) := Round e f g h a b c d (0xc6e00bf3 + w12) in
  let w13 := u32 (w13 + sigma1 w11 + w6 + sigma0 w14) in
  let '(g, c) := Round d e f g h a b c (0xd5a79147 + w13) in
  let w14 := u32 (w14 + sigma1 w12 + w7 + sigma0 w15) in
  let '(f, b) := Round c d e f g h a b (0x06ca6351 + w14) in
  let w15 := u32 (w15 + sigma1 w13 + w8 + sigma0 w0) in
  let '(e, a) := Round b c d e f g h a (0x14292967 + w15) in
  let w0 := u32 (w0 + sigma1 w14 + w9 + sigma0 w1) in
  let '(d, h) := Round a b c d e f g h (0x27b70a85 + w0) in
  let w1 := u32 (w1 + sigma1 w15 + w10 + sigma0 w2) in
  let '(c, g) := Round h a b c d e f g (0x2e1b2138 + w1) in
  let w2 := u32 (w2 + sigma1 w0 + w11 + sigma0 w3) in
  let '(b, f) := Round g h a b c d e f (0x4d2c6dfc + w2) in
  let w3 := u32 (w3 + sigma1 w1 + w12 + sigma0 w4) in
  let '(a, e) := Round f g h a b c d e (0x53380d13 + w3) in
  let w4 := u32 (w4 + sigma1 w2 + w13 + sigma0 w5) in
  let '(h, d) := Round e f g h a b c d (0x650a7354 + w4) in
  let w5 := u32 (w5 + sigma1 w3 + w14 + sigma0 w6) in
  let '(g, c) := Round d e f g h a b c (0x766a0abb + w5) in
  let w6 := u32 (w6 + sigma1 w4 + w15 + sigma0 w7) in
  let '(f, b) := Round c d e f g h a b (0x81c2c92e + w6) in
  let w7 := u32 (w7 + sigma1 w5 + w0 + sigma0 w8) in
  let '(e, a) := Round b c d e f g h a (0x92722c85 + w7) in
  let w8 := u32 (w8 + sigma1 w6 + w1 + sigma0 w9) in
  let '(d, h) := Round a b c d e f g h (0xa2bfe8a1 + w8) in
  let w9 := u32 (w9 + sigma1 w7 + w2 + sigma0 w10) in
  let '(c, g) := Round h a b c d e f g (0xa81a664b + w9) in
  let w10 := u32 (w10 + sigma1 w8 + w3 + sigma0 w11) in
  let '(b, f) := Round g h a b c d e f (0xc24b8b70 + w10) in
  let w11 := u32 (w11 + sigma1 w9 + w4 + sigma0 w12) in
  let '(a, e) := Round f g h a b c d e (0xc76c51a3 + w11) in
  let w12 := u32 (w12 + sigma1 w10 + w5 + sigma0 w13) in
  let '(h, d) := Round e f g h a b c d (0xd192e819 + w12) in
  let w13 := u32 (w13 + sigma1 w11 + w6 + sigma0 w14) in
  let '(g, c) := Round d e f g h a b c (0xd6990624 + w13) in
  let w14 := u32 (w14 + sigma1 w12 + w7 + sigma0 w15) in
  let '(f, b) := Round c d e f g h a b (0xf40e3585 + w14) in
  let w15 := u32 (w15 + sigma1 w13 + w8 + sigma0 w0) in
  let '(e, a) := Round b c d e f g h a (0x106aa070 + w15) in
  let w0 := u32 (w0 + sigma1 w14 + w9 + sigma0 w1) in
  let '(d, h) := Round a b c d e f g h (0x19a4c116 + w0) in
  let w1 := u32 (w1 + sigma1 w15 + w10 + sigma0 w2) in
  let '(c, g) := Round h a b c d e f g (0x1e376c08 + w1) in
  let w2 := u32 (w2 + sigma1 w0 + w11 + sigma0 w3) in
  let '(b, f) := Round g h a b c d e f (0x2748774c + w2) in
  let w3 := u32 (w3 + sigma1 w1 + w12 + sigma0 w4) in
  let '(a, e) := Round f g h a b c d e (0x34b0bcb5 + w3) in
  let w4 := u32 (w4 + sigma1 w2 + w13 + sigma0 w5) in
  let '(h, d) := Round e f g h a b c d (0x391c0cb3 + w4) in
  let w5 := u32 (w5 + sigma1 w3 + w14 + sigma0 w6) in
  let '(g, c) := Round d e f g h a b c (0x4ed8aa4a + w5) in
  let w6 := u32 (w6 + sigma1 w4 + w15 + sigma0 w7) in
  let '(f, b) := Round c d e f g h a b (0x5b9cca4f + w6) in
  let w7 := u32 (w7 + sigma1 w5 + w0 + sigma0 w8) in
  let '(e, a) := Round b c d e f g h a (0x682e6ff3 + w7) in
  let w8 := u32 (w8 + sigma1 w6 + w1 + sigma0 w9) in
  let '(d, h) := Round a b c d e f g h (0x748f82ee + w8) in
  let w9 := u32 (w9 + sigma1 w7 + w2 + sigma0 w10) in
  let '(c, g) := Round h a b c d e f g (0x78a5636f + w9) in
  let w10 := u32 (w10 + sigma1 w8 + w3 + sigma0 w11) in
  let '(b, f) := Round g h a b c d e f (0x84c87814 + w10) in
  let w11 := u32 (w11 + sigma1 w9 + w4 + sigma0 w12) in
  let '(a, e) := Round f g h a b c d e (0x8cc70208 + w11) in
  let w12 := u32 (w12 + sigma1 w10 + w5 + sigma0 w13) in
  let '(h, d) := Round e f g h a b c d (0x90befffa + w12) in
  let w13 := u32 (w13 + sigma1 w11 + w6 + sigma0 w14) in
  let '(g, c) := Round d e f g h a b c (0xa4506ceb + w13) in
  let '(f, b) := Round c d e f g h a b (0xbef9a3f7 + u32 (w14 + sigma1 w12 + w7 + sigma0 w15)) in
  let '(e, a) := Round b c d e f g h a (0xc67178f2 + u32 (w15 + sigma1 w13 + w8 + sigma0 w0)) in
  [u32 (s.[0] + a); u32 (s.[1] + b); u32 (s.[2] + c); u32 (s.[3] + d);
   u32 (s.[4] + e); u32 (s.[5] + f); u32 (s.[6] + g); u32 (s.[7] + h)].

(** [TransformD64], first part: the compression of the input block. *)
Definition D64_transform1 (input : bytes) : list Z :=
  let a := 0x6a09e667 in let b := 0xbb67ae85 in
  let c := 0x3c6ef372 in let d := 0xa54ff53a in
  let e := 0x510e527f in let f := 0x9b05688c in
  let g := 0x1f83d9ab in let h := 0x5be0cd19 in
  let w0 := ReadBE32 (drop 0 input) in
  let '(d, h) := Round a b c d e f g h (0x428a2f98 + w0) in
  let w1 := ReadBE32 (drop 4 input) in
  let '(c, g) := Round h a b c d e f g (0x71374491 + w1) in
  let w2 := ReadBE32 (drop 8 input) in
  let '(b, f) := Round g h a b c d e f (0xb5c0fbcf + w2) in
  let w3 := ReadBE32 (drop 12 input) in
  let '(a, e) := Round f g h a b c d e (0xe9b5dba5 + w3) in
  let w4 := ReadBE32 (drop 16 input) in
  let '(h, d) := Round e f g h a b c d (0x3956c25b + w4) in
  let w5 := ReadBE32 (drop 20 input) in
  let '(g, c) := Round d e f g h a b c (0x59f111f1 + w5) in
  let w6 := ReadBE32 (drop 24 input) in
  let '(f, b) := Round c d e f g h a b (0x923f82a4 + w6) in
  let w7 := ReadBE32 (drop 28 input) in
  let '(e, a) := Round b c d e f g h a (0xab1c5ed5 + w7) in
  let w8 := ReadBE32 (drop 32 input) in
  let '(d, h) := Round a b c d e f g h (0xd807aa98 + w8) in
  let w9 := ReadBE32 (drop 36 input) in
  let '(c, g) := Round h a b c d e f g (0x12835b01 + w9) in
  let w10 := ReadBE32 (drop 40 input) in
  let '(b, f) := Round g h a b c d e f (0x243185be + w10) in
  let w11 := ReadBE32 (drop 44 input) in
  let '(a, e) := Round f g h a b c d e (0x550c7dc3 + w11) in
  let w12 := ReadBE32 (drop 48 input) in
  let '(h, d) := Round e f g h a b c d (0x72be5d74 + w12) in
  let w13 := ReadBE32 (drop 52 input) in
  let '(g, c) := Round d e f g h a b c (0x80deb1fe + w13) in
  let w14 := ReadBE32 (drop 56 input) in
  let '(f, b) := Round c d e f g h a b (0x9bdc06a7 + w14) in
  let w15 := ReadBE32 (drop 60 input) in
  let '(e, a) := Round b c d e f g h a (0xc19bf174 + w15) in
  let w0 := u32 (w0 + sigma1 w14 + w9 + sigma0 w1) in
  let '(d, h) := Round a b c d e f g h (0xe49b69c1 + w0) in
  let w1 := u32 (w1 + sigma1 w15 + w10 + sigma0 w2) in
  let '(c, g) := Round h a b c d e f g (0xefbe4786 + w1) in
  let w2 := u32 (w2 + sigma1 w0 + w11 + sigma0 w3) in
  let '(b, f) := Round g h a b c d e f (0x0fc19dc6 + w2) in
  let w3 := u32 (w3 + sigma1 w1 + w12 + sigma0 w4) in
  let '(a, e) := Round f g h a b c d e (0x240ca1cc + w3) in
  let w4 := u32 (w4 + sigma1 w2 + w13 + sigma0 w5) in
  let '(h, d) := Round e f g h a b c d (0x2de92c6f + w4) in
  let w5 := u32 (w5 + sigma1 w3 + w14 + sigma0 w6) in
  let '(g, c) := Round d e f g h a b c (0x4a7484aa + w5) in
  let w6 := u32 (w6 + sigma1 w4 + w15 + sigma0 w7) in
  let '(f, b) := Round c d e f g h a b (0x5cb0a9dc + w6) in
  let w7 := u32 (w7 + sigma1 w5 + w0 + sigma0 w8) in
  let '(e, a) := Round b c d e f g h a (0x76f988da + w7) in
  let w8 := u32 (w8 + sigma1 w6 + w1 + sigma0 w9) in
  let '(d, h) := Round a b c d e f g h (0x983e5152 + w8) in
  let w9 := u32 (w9 + sigma1 w7 + w2 + sigma0 w10) in
  let '(c, g) := Round h a b c d e f g (0xa831c66d + w9) in
  let w10 := u32 (w10 + sigma1 w8 + w3 + sigma0 w11) in
  let '(b, f) := Round g h a b c d e f (0xb00327c8 + w10) in
  let w11 := u32 (w11 + sigma1 w9 + w4 + sigma0 w12) in
  let '(a, e) := Round f g h a b c d e (0xbf597fc7 + w11) in
  let w12 := u32 (w12 + sigma1 w10 + w5 + sigma0 w13) in
  let '(h, d) := Round e f g h a b c d (0xc6e00bf3 + w12) in
  let w13 := u32 (w13 + sigma1 w11 + w6 + sigma0 w14) in
  let '(g, c) := Round d e f g h a b c (0xd5a79147 + w13) in
  let w14 := u32 (w14 + sigma1 w12 + w7 + sigma0 w15) in
  let '(f, b) := Round c d e f g h a b (0x06ca6351 + w14) in
  let w15 := u32 (w15 + sigma1 w13 + w8 + sigma0 w0) in
  let '(e, a) := Round b c d e f g h a (0x14292967 + w15) in
  let w0 := u32 (w0 + sigma1 w14 + w9 + sigma0 w1) in
  let '(d, h) := Round a b c d e f g h (0x27b70a85 + w0) in
  let w1 := u32 (w1 + sigma1 w15 + w10 + sigma0 w2) in
  let '(c, g) := Round h a b c d e f g (0x2e1b2138 + w1) in
  let w2 := u32 (w2 + sigma1 w0 + w11 + sigma0 w3) in
  let '(b, f) := Round g h a b c d e f (0x4d2c6dfc + w2) in
  let w3 := u32 (w3 + sigma1 w1 + w12 + sigma0 w4) in
  let '(a, e) := Round f g h a b c d e (0x53380d13 + w3) in
  let w4 := u32 (w4 + sigma1 w2 + w13 + sigma0 w5) in
  let '(h, d) := Round e f g h a b c d (0x650a7354 + w4) in
  let w5 := u32 (w5 + sigma1 w3 + w14 + sigma0 w6) in
  let '(g, c) := Round d e f g h a b c (0x766a0abb + w5) in
  let w6 := u32 (w6 + sigma1 w4 + w15 + sigma0 w7) in
  let '(f, b) := Round c d e f g h a b (0x81c2c92e + w6) in
  let w7 := u32 (w7 + sigma1 w5 + w0 + sigma0 w8) in
  let '(e, a) := Round b c d e f g h a (0x92722c85 + w7) in
  let w8 := u32 (w8 + sigma1 w6 + w1 + sigma0 w9) in
  let '(d, h) := Round a b c d e f g h (0xa2bfe8a1 + w8) in
  let w9 := u32 (w9 + sigma1 w7 + w2 + sigma0 w10) in
  let '(c, g) := Round h a b c d e f g (0xa81a664b + w9) in
  let w10 := u32 (w10 + sigma1 w8 + w3 + sigma0 w11) in
  let '(b, f) := Round g h a b c d e f (0xc24b8b70 + w10) in
  let w11 := u32 (w11 + sigma1 w9 + w4 + sigma0 w12) in
  let '(a, e) := Round f g h a b c d e (0xc76c51a3 + w11) in
  let w12 := u32 (w12 + sigma1 w10 + w5 + sigma0 w13) in
  let '(h, d) := Round e f g h a b c d (0xd192e819 + w12) in
  let w13 := u32 (w13 + sigma1 w11 + w6 + sigma0 w14) in
  let '(g, c) := Round d e f g h a b c (0xd6990624 + w13) in
  let w14 := u32 (w14 + sigma1 w12 + w7 + sigma0 w15) in
  let '(f, b) := Round c d e f g h a b (0xf40e3585 + w14) in
  let w15 := u32 (w15 + sigma1 w13 + w8 + sigma0 w0) in
  let '(e, a) := Round b c d e f g h a (0x106aa070 + w15) in
  let w0 := u32 (w0 + sigma1 w14 + w9 + sigma0 w1) in
  let '(d, h) := Round a b c d e f g h (0x19a4c116 + w0) in
  let w1 := u32 (w1 + sigma1 w15 + w10 + sigma0 w2) in
  let '(c, g) := Round h a b c d e f g (0x1e376c08 + w1) in
  let w2 := u32 (w2 + sigma1 w0 + w11 + sigma0 w3) in
  let '(b, f) := Round g h a b c d e f (0x2748774c + w2) in
  let w3 := u32 (w3 + sigma1 w1 + w12 + sigma0 w4) in
  let '(a, e) := Round f g h a b c d e (0x34b0bcb5 + w3) in
  let w4 := u32 (w4 + sigma1 w2 + w13 + sigma0 w5) in
  let '(h, d) := Round e f g h a b c d (0x391c0cb3 + w4) in
  let w5 := u32 (w5 + sigma1 w3 + w14 + sigma0 w6) in
  let '(g, c) := Round d e f g h a b c (0x4ed8aa4a + w5) in
  let w6 := u32 (w6 + sigma1 w4 + w15 + sigma0 w7) in
  let '(f, b) := Round c d e f g h a b (0x5b9cca4f + w6) in
  let w7 := u32 (w7 + sigma1 w5 + w0 + sigma0 w8) in
  let '(e, a) := Round b c d e f g h a (0x682e6ff3 + w7) in
  let w8 := u32 (w8 + sigma1 w6 + w1 + sigma0 w9) in
  let '(d, h) := Round a b c d e f g h (0x748f82ee + w8) in
  let w9 := u32 (w9 + sigma1 w7 + w2 + sigma0 w10) in
  let '(c, g) := Round h a b c d e f g (0x78a5636f + w9) in
  let w10 := u32 (w10 + sigma1 w8 + w3 + sigma0 w11) in
  let '(b, f) := Round g h a b c d e f (0x84c87814 + w10) in
  let w11 := u32 (w11 + sigma1 w9 + w4 + sigma0 w12) in
  let '(a, e) := Round f g h a b c d e (0x8cc70208 + w11) in
  let w12 := u32 (w12 + sigma1 w10 + w5 + sigma0 w13) in
  let '(h, d) := Round e f g h a b c d (0x90befffa + w12) in
  let w13 := u32 (w13 + sigma1 w11 + w6 + sigma0 w14) in
  let '(g, c) := Round d e f g h a b c (0xa4506ceb + w13) in
  let '(f, b) := Round c d e f g h a b (0xbef9a3f7 + u32 (w14 + sigma1 w12 + w7 + sigma0 w15)) in
  let '(e, a) := Round b c d e f g h a (0xc67178f2 + u32 (w15 + sigma1 w13 + w8 + sigma0 w0)) in
  [u32 (a + 0x6a09e667); u32 (b + 0xbb67ae85); u32 (c + 0x3c6ef372); u32 (d + 0xa54ff53a);
   u32 (e + 0x510e527f); u32 (f + 0x9b05688c); u32 (g + 0x1f83d9ab); u32 (h + 0x5be0cd19)].

(** Second part: the compression of the padding block, whose schedule is constant. *)
Definition D64_transform2 (t : list Z) : list Z :=
  let a := t.[0] in let b := t.[1] in let c := t.[2] in let d := t.[3] in
  let e := t.[4] in let f := t.[5] in let g := t.[6] in let h := t.[7] in
  let '(d, h) := Round a b c d e f g h 0xc28a2f98 in
  let '(c, g) := Round h a b c d e f g 0x71374491 in
  let '(b, f) := Round g h a b c d e f 0xb5c0fbcf in
  let '(a, e) := Round f g h a b c d e 0xe9b5dba5 in
  let '(h, d) := Round e f g h a b c d 0x3956c25b in
  let '(g, c) := Round d e f g h a b c 0x59f111f1 in
  let '(f, b) := Round c d e f g h a b 0x923f82a4 in
  let '(e, a) := Round b c d e f g h a 0xab1c5ed5 in
  let '(d, h) := Round a b c d e f g h 0xd807aa98 in
  let '(c, g) := Round h a b c d e f g 0x12835b01 in
  let '(b, f) := Round g h a b c d e f 0x243185be in
  let '(a, e) := Round f g h a b c d e 0x550c7dc3 in
  let '(h, d) := Round e f g h a b c d 0x72be5d74 in
  let '(g, c) := Round d e f g h a b c 0x80deb1fe in
  let '(f, b) := Round c d e f g h a b 0x9bdc06a7 in
  let '(e, a) := Round b c d e f g h a 0xc19bf374 in
  let '(d, h) := Round a b c d e f g h 0x649b69c1 in
  let '(c, g) := Round h a b c d e f g 0xf0fe4786 in
  let '(b, f) := Round g h a b c d e f 0x0fe1edc6 in
  let '(a, e) := Round f g h a b c d e 0x240cf254 in
  let '(h, d) := Round e f g h a b c d 0x4fe9346f in
  let '(g, c) := Round d e f g h a b c 0x6cc984be in
  let '(f, b) := Round c d e f g h a b 0x61b9411e in
  let '(e, a) := Round b c d e f g h a 0x16f988fa in
  let '(d, h) := Round a b c d e f g h 0xf2c65152 in
  let '(c, g) := Round h a b c d e f g 0xa88e5a6d in
  let '(b, f) := Round g h a b c d e f 0xb019fc65 in
  let '(a, e) := Round f g h a b c d e 0xb9d99ec7 in
  let '(h, d) := Round e f g h a b c d 0x9a1231c3 in
  let '(g, c) := Round d e f g h a b c 0xe70eeaa0 in
  let '(f, b) := Round c d e f g h a b 0xfdb1232b in
  let '(e, a) := Round b c d e f g h a 0xc7353eb0 in
  let '(d, h) := Round a b c d e f g h 0x3069bad5 in
  let '(c, g) := Round h a b c d e f g 0xcb976d5f in
  let '(b, f) := Round g h a b c d e f 0x5a0f118f in
  let '(a, e) := Round f g h a b c d e 0xdc1eeefd in
  let '(h, d) := Round e f g h a b c d 0x0a35b689 in
  let '(g, c) := Round d e f g h a b c 0xde0b7a04 in
  let '(f, b) := Round c d e f g h a b 0x58f4ca9d in
  let '(e, a) := Round b c d e f g h a 0xe15d5b16 in
  let '(d, h) := Round a b c d e f g h 0x007f3e86 in
  let '(c, g) := Round h a b c d e f g 0x37088980 in
  let '(b, f) := Round g h a b c d e f 0xa507ea32 in
  let '(a, e) := Round f g h a b c d e 0x6fab9537 in
  let '(h, d) := Round e f g h a b c d 0x17406110 in
  let '(g, c) := Round d e f g h a b c 0x0d8cd6f1 in
  let '(f, b) := Round c d e f g h a b 0xcdaa3b6d in
  let '(e, a) := Round b c d e f g h a 0xc0bbbe37 in
  let '(d, h) := Round a b c d e f g h 0x83613bda in
  let '(c, g) := Round h a b c d e f g 0xdb48a363 in
  let '(b, f) := Round g h a b c d e f 0x0b02e931 in
  let '(a, e) := Round f g h a b c d e 0x6fd15ca7 in
  let '(h, d) := Round e f g h a b c d 0x521afaca in
  let '(g, c) := Round d e f g h a b c 0x31338431 in
  let '(f, b) := Round c d e f g h a b 0x6ed41a95 in
  let '(e, a) := Round b c d e f g h a 0x6d437890 in
  let '(d, h) := Round a b c d e f g h 0xc39c91f2 in
  let '(c, g) := Round h a b c d e f g 0x9eccabbd in
  let '(b, f) := Round g h a b c d e f 0xb5c9a0e6 in
  let '(a, e) := Round f g h a b c d e 0x532fb63c in
  let '(h, d) := Round e f g h a b c d 0xd2c741c6 in
  let '(g, c) := Round d e f g h a b c 0x07237ea3 in
  let '(f, b) := Round c d e f g h a b 0xa4954b68 in
  let '(e, a) := Round b c d e f g h a 0x4c191d76 in
  [u32 (t.[0] + a); u32 (t.[1] + b); u32 (t.[2] + c); u32 (t.[3] + d);
   u32 (t.[4] + e); u32 (t.[5] + f); u32 (t.[6] + g); u32 (t.[7] + h)].

(** Third part: the compression of the first digest with its padding. *)
Definition D64_transform3 (w : list Z) : list Z :=
  let w0 := w.[0] in let w1 := w.[1] in let w2 := w.[2] in let w3 := w.[3] in
  let w4 := w.[4] in let w5 := w.[5] in let w6 := w.[6] in let w7 := w.[7] in
  let a := 0x6a09e667 in let b := 0xbb67ae85 in
  let c := 0x3c6ef372 in let d := 0xa54ff53a in
  let e := 0x510e527f in let f := 0x9b05688c in
  let g := 0x1f83d9ab in let h := 0x5be0cd19 in
  let '(d, h) := Round a b c d e f g h (0x428a2f98 + w0) in
  let '(c, g) := Round h a b c d e f g (0x71374491 + w1) in
  let '(b, f) := Round g h a b c d e f (0xb5c0fbcf + w2) in
  let '(a, e) := Round f g h a b c d e (0xe9b5dba5 + w3) in
  let '(h, d) := Round e f g h a b c d (0x3956c25b + w4) in
  let '(g, c) := Round d e f g h a b c (0x59f111f1 + w5) in
  let '(f, b) := Round c d e f g h a b (0x923f82a4 + w6) in
  let '(e, a) := Round b c d e f g h a (0xab1c5ed5 + w7) in
  let '(d, h) := Round a b c d e f g h 0x5807aa98 in
  let '(c, g) := Round h a b c d e f g 0x12835b01 in
  let '(b, f) := Round g h a b c d e f 0x243185be in
  let '(a, e) := Round f g h a b c d e 0x550c7dc3 in
  let '(h, d) := Round e f g h a b c d 0x72be5d74 in
  let '(g, c) := Round d e f g h a b c 0x80deb1fe in
  let '(f, b) := Round c d e f g h a b 0x9bdc06a7 in
  let '(e, a) := Round b c d e f g h a 0xc19bf274 in
  let w0 := u32 (w0 + sigma0 w1) in
  let '(d, h) := Round a b c d e f g h (0xe49b69c1 + w0) in
  let w1 := u32 (w1 + 0xa00000 + sigma0 w2) in
  let '(c, g) := Round h a b c d e f g (0xefbe4786 + w1) in
  let w2 := u32 (w2 + sigma1 w0 + sigma0 w3) in
  let '(b, f) := Round g h a b c d e f (0x0fc19dc6 + w2) in
  let w3 := u32 (w3 + sigma1 w1 + sigma0 w4) in
  let '(a, e) := Round f g h a b c d e (0x240ca1cc + w3) in
  let w4 := u32 (w4 + sigma1 w2 + sigma0 w5) in
  let '(h, d) := Round e f g h a b c d (0x2de92c6f + w4) in
  let w5 := u32 (w5 + sigma1 w3 + sigma0 w6) in
  let '(g, c) := Round d e f g h a b c (0x4a7484aa + w5) in
  let w6 := u32 (w6 + sigma1 w4 + 0x100 + sigma0 w7) in
  let '(f, b) := Round c d e f g h a b (0x5cb0a9dc + w6) in
  let w7 := u32 (w7 + sigma1 w5 + w0 + 0x11002000) in
  let '(e, a) := Round b c d e f g h a (0x76f988da + w7) in
  let w8 := u32 (0x80000000 + sigma1 w6 + w1) in
  let '(d, h) := Round a b c d e f g h (0x983e5152 + w8) in
  let w9 := u32 (sigma1 w7 + w2) in
  let '(c, g) := Round h a b c d e f g (0xa831c66d + w9) in
  let w10 := u32 (sigma1 w8 + w3) in
  let '(b, f) := Round g h a b c d e f (0xb00327c8 + w10) in
  let w11 := u32 (sigma1 w9 + w4) in
  let '(a, e) := Round f g h a b c d e (0xbf597fc7 + w11) in
  let w12 := u32 (sigma1 w10 + w5) in
  let '(h, d) := Round e f g h a b c d (0xc6e00bf3 + w12) in
  let w13 := u32 (sigma1 w11 + w6) in
  let '(g, c) := Round d e f g h a b c (0xd5a79147 + w13) in
  let w14 := u32 (sigma1 w12 + w7 + 0x400022) in
  let '(f, b) := Round c d e f g h a b (0x06ca6351 + w14) in
  let w15 := u32 (0x100 + sigma1 w13 + w8 + sigma0 w0) in
  let '(e, a) := Round b c d e f g h a (0x14292967 + w15) in
  let w0 := u32 (w0 + sigma1 w14 + w9 + sigma0 w1) in
  let '(d, h) := Round a b c d e f g h (0x27b70a85 + w0) in
  let w1 := u32 (w1 + sigma1 w15 + w10 + sigma0 w2) in
  let '(c, g) := Round h a b c d e f g (0x2e1b2138 + w1) in
  let w2 := u32 (w2 + sigma1 w0 + w11 + sigma0 w3) in
  let '(b, f) := Round g h a b c d e f (0x4d2c6dfc + w2) in
  let w3 := u32 (w3 + sigma1 w1 + w12 + sigma0 w4) in
  let '(a, e) := Round f g h a b c d e (0x53380d13 + w3) in
  let w4 := u32 (w4 + sigma1 w2 + w13 + sigma0 w5) in
  let '(h, d) := Round e f g h a b c d (0x650a7354 + w4) in
  let w5 := u32 (w5 + sigma1 w3 + w14 + sigma0 w6) in
  let '(g, c) := Round d e f g h a b c (0x766a0abb + w5) in
  let w6 := u32 (w6 + sigma1 w4 + w15 + sigma0 w7) in
  let '(f, b) := Round c d e f g h a b (0x81c2c92e + w6) in
  let w7 := u32 (w7 + sigma1 w5 + w0 + sigma0 w8) in
  let '(e, a) := Round b c d e f g h a (0x92722c85 + w7) in
  let w8 := u32 (w8 + sigma1 w6 + w1 + sigma0 w9) in
  let '(d, h) := Round a b c d e f g h (0xa2bfe8a1 + w8) in
  let w9 := u32 (w9 + sigma1 w7 + w2 + sigma0 w10) in
  let '(c, g) := Round h a b c d e f g (0xa81a664b + w9) in
  let w10 := u32 (w10 + sigma1 w8 + w3 + sigma0 w11) in
  let '(b, f) := Round g h a b c d e f (0xc24b8b70 + w10) in
  let w11 := u32 (w11 + sigma1 w9 + w4 + sigma0 w12) in
  let '(a, e) := Round f g h a b c d e (0xc76c51a3 + w11) in
  let w12 := u32 (w12 + sigma1 w10 + w5 + sigma0 w13) in
  let '(h, d) := Round e f g h a b c d (0xd192e819 + w12) in
  let w13 := u32 (w13 + sigma1 w11 + w6 + sigma0 w14) in
  let '(g, c) := Round d e f g h a b c (0xd6990624 + w13) in
  let w14 := u32 (w14 + sigma1 w12 + w7 + sigma0 w15) in
  let '(f, b) := Round c d e f g h a b (0xf40e3585 + w14) in
  let w15 := u32 (w15 + sigma1 w13 + w8 + sigma0 w0) in
  let '(e, a) := Round b c d e f g h a (0x106aa070 + w15) in
  let w0 := u32 (w0 + sigma1 w14 + w9 + sigma0 w1) in
  let '(d, h) := Round a b c d e f g h (0x19a4c116 + w0) in
  let w1 := u32 (w1 + sigma1 w15 + w10 + sigma0 w2) in
  let '(c, g) := Round h a b c d e f g (0x1e376c08 + w1) in
  let w2 := u32 (w2 + sigma1 w0 + w11 + sigma0 w3) in
  let '(b, f) := Round g h a b c d e f (0x2748774c + w2) in
  let w3 := u32 (w3 + sigma1 w1 + w12 + sigma0 w4) in
  let '(a, e) := Round f g h a b c d e (0x34b0bcb5 + w3) in
  let w4 := u32 (w4 + sigma1 w2 + w13 + sigma0 w5) in
  let '(h, d) := Round e f g h a b c d (0x391c0cb3 + w4) in
  let w5 := u32 (w5 + sigma1 w3 + w14 + sigma0 w6) in
  let '(g, c) := Round d e f g h a b c (0x4ed8aa4a + w5) in
  let w6 := u32 (w6 + sigma1 w4 + w15 + sigma0 w7) in
  let '(f, b) := Round c d e f g h a b (0x5b9cca4f + w6) in
  let w7 := u32 (w7 + sigma1 w5 + w0 + sigma0 w8) in
  let '(e, a) := Round b c d e f g h a (0x682e6ff3 + w7) in
  let w8 := u32 (w8 + sigma1 w6 + w1 + sigma0 w9) in
  let '(d, h) := Round a b c d e f g h (0x748f82ee + w8) in
  let w9 := u32 (w9 + sigma1 w7 + w2 + sigma0 w10) in
  let '(c, g) := Round h a b c d e f g (0x78a5636f + w9) in
  let w10 := u32 (w10 + sigma1 w8 + w3 + sigma0 w11) in
  let '(b, f) := Round g h a b c d e f (0x84c87814 + w10) in
  let w11 := u32 (w11 + sigma1 w9 + w4 + sigma0 w12) in
  let '(a, e) := Round f g h a b c d e (0x8cc70208 + w11) in
  let w12 := u32 (w12 + sigma1 w10 + w5 + sigma0 w13) in
  let '(h, d) := Round e f g h a b c d (0x90befffa + w12) in
  let w13 := u32 (w13 + sigma1 w11 + w6 + sigma0 w14) in
  let '(g, c) := Round d e f g h a b c (0xa4506ceb + w13) in
  let '(f, b) := Round c d e f g h a b (0xbef9a3f7 + u32 (w14 + sigma1 w12 + w7 + sigma0 w15)) in
  let '(e, a) := Round b c d e f g h a (0xc67178f2 + u32 (w15 + sigma1 w13 + w8 + sigma0 w0)) in
  [a + 0x6a09e667; b + 0xbb67ae85; c + 0x3c6ef372; d + 0xa54ff53a;
   e + 0x510e527f; f + 0x9b05688c; g + 0x1f83d9ab; h + 0x5be0cd19].

(** The output of the words of a state. *)
Definition write_state (s : list Z) : bytes := concat (map WriteBE32 s).

Definition TransformD64 (input : bytes) : bytes :=
  write_state (D64_transform3 (D64_transform2 (D64_transform1 input))).
End sha256.

(** [TransformD64Wrapper]: the double hash from any one-block transform. *)
Definition padding1 : bytes :=
  [0x80; 0; 0; 0; 0; 0; 0; 0; 0; 0; 0; 0; 0; 0; 0; 0;
   0; 0; 0; 0; 0; 0; 0; 0; 0; 0; 0; 0; 0; 0; 0; 0;
   0; 0; 0; 0; 0; 0; 0; 0; 0; 0; 0; 0; 0; 0; 0; 0;
   0; 0; 0; 0; 0; 0; 0; 0; 0; 0; 0; 0; 0; 0; 2; 0].
Definition buffer2_tail : bytes :=
  [0x80; 0; 0; 0; 0; 0; 0; 0; 0; 0; 0; 0; 0; 0; 0; 0;
   0; 0; 0; 0; 0; 0; 0; 0; 0; 0; 0; 0; 0; 0; 1; 0].
Definition TransformD64Wrapper (tr : list Z → bytes → list Z) (input : bytes) : bytes :=
  let s := sha256.Initialize in
  let s := tr s input in
  let s := tr s padding1 in
  let buffer2 := sha256.write_state s ++ buffer2_tail in
  let s := sha256.Initialize in
  let s := tr s buffer2 in
  sha256.write_state s.

(** ** The class [CSHA256] *)

Module CSHA256.
Definition OUTPUT_SIZE : nat := 32.
Definition make (buf : bytes) : hasher := Hasher sha256.Initialize buf 0.
Definition Write : hasher → bytes → hasher := hasher_Write 64 sha256.Transform.
(** [Finalize] writes the padding to the object and outputs its words. *)
Definition finalized : hasher → hasher := hasher_Finalize 64 sha256.Transform 119 WriteBE64.
Definition Finalize (st : hasher) : bytes := sha256.write_state (hs (finalized st)).
Definition Reset (st : hasher) : hasher := Hasher sha256.Initialize (hbuf st) 0.
End CSHA256.

(** ** [SHA256D64]

    [TransformD64_8way] and its siblings are function pointers, null unless a vector
    implementation was selected at run time. *)

Fixpoint D64_loop (n : nat) (tr : bytes → bytes) (fuel : nat) (out input : bytes) (blocks : nat)
    : bytes * bytes * nat :=
  match fuel with
  | O => (out, input, blocks)
  | S fuel =>
      if (n <=? blocks)%nat then
        D64_loop n tr fuel (out ++ tr (take (64 * n) input)) (drop (64 * n) input) (blocks - n)
      else (out, input, blocks)
  end.

Definition D64_way (n : nat) (tr : option (bytes → bytes)) (st : bytes * bytes * nat)
    : bytes * bytes * nat :=
  let '(out, input, blocks) := st in
  match tr with
  | Some tr => D64_loop n tr blocks out input blocks
  | None => (out, input, blocks)
  end.

Definition SHA256D64 (TransformD64_8way TransformD64_4way TransformD64_2way : option (bytes → bytes))
    (TransformD64 : bytes → bytes) (input : bytes) (blocks : nat) : bytes :=
  let st := ([], input, blocks) in
  let st := D64_way 8 TransformD64_8way st in
  let st := D64_way 4 TransformD64_4way st in
  let st := D64_way 2 TransformD64_2way st in
  let '(out, _, _) := D64_way 1 (Some TransformD64) st in
  out.

(** ** [SelfTest] *)

Module SelfTest.
(** The test data, without the leading byte that misaligns it. *)
Definition data : bytes :=
  [76; 111; 114; 101; 109; 32; 105; 112; 115; 117; 109; 32; 100; 111; 108; 111; 114; 32; 115;
   105; 116; 32; 97; 109; 101; 116; 44; 32; 99; 111; 110; 115; 101; 99; 116; 101; 116; 117;
   114; 32; 97; 100; 105; 112; 105; 115; 99; 105; 110; 103; 32; 101; 108; 105; 116; 44; 32;
   115; 101; 100; 32; 100; 111; 32; 101; 105; 117; 115; 109; 111; 100; 32; 116; 101; 109; 112;
   111; 114; 32; 105; 110; 99; 105; 100; 105; 100; 117; 110; 116; 32; 117; 116; 32; 108; 97;
   98; 111; 114; 101; 32; 101; 116; 32; 100; 111; 108; 111; 114; 101; 32; 109; 97; 103; 110;
   97; 32; 97; 108; 105; 113; 117; 97; 46; 32; 69; 116; 32; 109; 111; 108; 101; 115; 116; 105;
   101; 32; 97; 99; 32; 102; 101; 117; 103; 105; 97; 116; 32; 115; 101; 100; 32; 108; 101; 99;
   116; 117; 115; 32; 118; 101; 115; 116; 105; 98; 117; 108; 117; 109; 32; 109; 97; 116; 116;
   105; 115; 32; 117; 108; 108; 97; 109; 99; 111; 114; 112; 101; 114; 46; 32; 77; 111; 114; 98;
   105; 32; 98; 108; 97; 110; 100; 105; 116; 32; 99; 117; 114; 115; 117; 115; 32; 114; 105;
   115; 117; 115; 32; 97; 116; 32; 117; 108; 116; 114; 105; 99; 101; 115; 32; 109; 105; 32;
   116; 101; 109; 112; 117; 115; 32; 105; 109; 112; 101; 114; 100; 105; 101; 116; 32; 110; 117;
   108; 108; 97; 46; 32; 78; 117; 110; 99; 32; 99; 111; 110; 103; 117; 101; 32; 110; 105; 115;
   105; 32; 118; 105; 116; 97; 32; 115; 117; 115; 99; 105; 112; 105; 116; 32; 116; 101; 108;
   108; 117; 115; 32; 109; 97; 117; 114; 105; 115; 46; 32; 73; 109; 112; 101; 114; 100; 105;
   101; 116; 32; 112; 114; 111; 105; 110; 32; 102; 101; 114; 109; 101; 110; 116; 117; 109; 32;
   108; 101; 111; 32; 118; 101; 108; 32; 111; 114; 99; 105; 46; 32; 77; 97; 115; 115; 97; 32;
   116; 101; 109; 112; 111; 114; 32; 110; 101; 99; 32; 102; 101; 117; 103; 105; 97; 116; 32;
   110; 105; 115; 108; 32; 112; 114; 101; 116; 105; 117; 109; 32; 102; 117; 115; 99; 101; 32;
   105; 100; 32; 118; 101; 108; 105; 116; 46; 32; 84; 101; 108; 117; 115; 32; 105; 110; 32;
   109; 101; 116; 117; 115; 32; 118; 117; 108; 112; 117; 116; 97; 116; 101; 32; 101; 117; 32;
   115; 99; 101; 108; 101; 114; 105; 115; 113; 117; 101; 32; 102; 101; 108; 105; 115; 46; 32;
   77; 105; 32; 116; 101; 109; 112; 117; 115; 32; 105; 109; 112; 101; 114; 100; 105; 101; 116;
   32; 110; 117; 108; 108; 97; 32; 109; 97; 108; 101; 115; 117; 97; 100; 97; 32; 112; 101; 108;
   108; 101; 110; 116; 101; 115; 113; 117; 101; 46; 32; 84; 114; 105; 115; 116; 105; 113; 117;
   101; 32; 109; 97; 103; 110; 97; 32; 115; 105; 116; 46].
Definition result : list (list Z) :=
  [[0x6a09e667; 0xbb67ae85; 0x3c6ef372; 0xa54ff53a; 0x510e527f; 0x9b05688c; 0x1f83d9ab; 0x5be0cd19];
   [0x91f8ec6b; 0x4da10fe3; 0x1c9c292c; 0x45e18185; 0x435cc111; 0x3ca26f09; 0xeb954cae; 0x402a7069];
   [0xcabea5ac; 0x374fb97c; 0x182ad996; 0x7bd69cbf; 0x450ff900; 0xc1d2be8a; 0x6a41d505; 0xe6212dc3];
   [0xbcff09d6; 0x3e76f36e; 0x3ecb2501; 0x78866e97; 0xe1c1e2fd; 0x32f4eaff; 0x8aa6c4e5; 0xdfc024bc];
   [0xa08c5d94; 0x0a862f93; 0x6b7f2f40; 0x8f9fae76; 0x6d40439f; 0x79dcee0c; 0x3e39ff3a; 0xdc3bdbb1];
   [0x216a0895; 0x9f1a3662; 0xe99946f9; 0x87ba4364; 0x0fb5db2c; 0x12bed3d3; 0x6689c0c7; 0x292f1b04];
   [0xca3067f8; 0xbc8c2656; 0x37cb7e0d; 0x9b6b8b0f; 0x46dc380b; 0xf1287f57; 0xc42e4b23; 0x3fefe94d];
   [0x3e4c4039; 0xbb6fca8c; 0x6f27d2f7; 0x301e44a4; 0x8352ba14; 0x5769ce37; 0x48a1155f; 0xc0e1c4c6];
   [0xfe2fa9dd; 0x69d0862b; 0x1ae0db23; 0x471f9244; 0xf55c0145; 0xc30f9c3b; 0x40a84ea0; 0x5b8a266c]].
Definition result_d64 : bytes :=
  [0x09; 0x3a; 0xc4; 0xd0; 0x0f; 0xf7; 0x57; 0xe1; 0x72; 0x85; 0x79; 0x42; 0xfe; 0xe7; 0xe0;
   0xa0; 0xfc; 0x52; 0xd7; 0xdb; 0x07; 0x63; 0x45; 0xfb; 0x53; 0x14; 0x7d; 0x17; 0x22; 0x86;
   0xf0; 0x52; 0x48; 0xb6; 0x11; 0x9e; 0x6e; 0x48; 0x81; 0x6d; 0xcc; 0x57; 0x1f; 0xb2; 0x97;
   0xa8; 0xd5; 0x25; 0x9b; 0x82; 0xaa; 0x89; 0xe2; 0xfd; 0x2d; 0x56; 0xe8; 0x28; 0x83; 0x0b;
   0xe2; 0xfa; 0x53; 0xb7; 0xd6; 0x6b; 0x07; 0x85; 0x83; 0xb0; 0x10; 0xa2; 0xf5; 0x51; 0x3c;
   0xf9; 0x60; 0x03; 0xab; 0x45; 0x6c; 0x15; 0x6e; 0xef; 0xb5; 0xac; 0x3e; 0x6c; 0xdf; 0xb4;
   0x92; 0x22; 0x2d; 0xce; 0xbf; 0x3e; 0xe9; 0xe5; 0xf6; 0x29; 0x0e; 0x01; 0x4f; 0xd2; 0xd4;
   0x45; 0x65; 0xb3; 0xbb; 0xf2; 0x4c; 0x16; 0x37; 0x50; 0x3c; 0x6e; 0x49; 0x8c; 0x5a; 0x89;
   0x2b; 0x1b; 0xab; 0xc4; 0x37; 0xd1; 0x46; 0xe9; 0x3d; 0x0e; 0x85; 0xa2; 0x50; 0x73; 0xa1;
   0x5e; 0x54; 0x37; 0xd7; 0x94; 0x17; 0x56; 0xc2; 0xd8; 0xe5; 0x9f; 0xed; 0x4e; 0xae; 0x15;
   0x42; 0x06; 0x0d; 0x74; 0x74; 0x5e; 0x24; 0x30; 0xce; 0xd1; 0x9e; 0x50; 0xa3; 0x9a; 0xb8;
   0xf0; 0x4a; 0x57; 0x69; 0x78; 0x67; 0x12; 0x84; 0x58; 0xbe; 0xc7; 0x36; 0xaa; 0xee; 0x7c;
   0x64; 0xa3; 0x76; 0xec; 0xff; 0x55; 0x41; 0x00; 0x2a; 0x44; 0x68; 0x4d; 0xb6; 0x53; 0x9e;
   0x1c; 0x95; 0xb7; 0xca; 0xdc; 0x7f; 0x7d; 0x74; 0x27; 0x5c; 0x8e; 0xa6; 0x84; 0xb5; 0xac;
   0x87; 0xa9; 0xf3; 0xff; 0x75; 0xf2; 0x34; 0xcd; 0x1a; 0x3b; 0x82; 0x2c; 0x2b; 0x4e; 0x6a;
   0x46; 0x30; 0xa6; 0x89; 0x86; 0x23; 0xac; 0xf8; 0xa5; 0x15; 0xe9; 0x0a; 0xaa; 0x1e; 0x9a;
   0xd7; 0x93; 0x6b; 0x28; 0xe4; 0x3b; 0xfd; 0x59; 0xc6; 0xed; 0x7c; 0x5f; 0xa5; 0x41; 0xcb;
   0x51].
End SelfTest.

Definition SelfTest (Transform : list Z → bytes → nat → list Z) (TransformD64 : bytes → bytes)
    (TransformD64_2way TransformD64_4way TransformD64_8way : option (bytes → bytes)) : bool :=
  let way_ok (n : nat) (tr : option (bytes → bytes)) :=
    match tr with
    | Some tr => bool_decide (tr (take (64 * n) SelfTest.data) = take (32 * n) SelfTest.result_d64)
    | None => true
    end in
  forallb (λ i, bool_decide (Some (Transform sha256.Initialize SelfTest.data i) = SelfTest.result !! i))
    (seq 0 9)
  && way_ok 1%nat (Some TransformD64)
  && way_ok 2%nat TransformD64_2way && way_ok 4%nat TransformD64_4way && way_ok 8%nat TransformD64_8way.

(** ** Reference: FIPS 180-4 *)

Module fips.
Definition rotr (n x : Z) : Z := (x .>> n) .| u32 (x .<< (32 - n)).
Definition Ch (x y z : Z) : Z := (x .& y) .^ (Z.lnot x .& z).
Definition Maj (x y z : Z) : Z := (x .& y) .^ (x .& z) .^ (y .& z).
Definition Sigma0 (x : Z) : Z := rotr 2 x .^ rotr 13 x .^ rotr 22 x.
Definition Sigma1 (x : Z) : Z := rotr 6 x .^ rotr 11 x .^ rotr 25 x.
Definition sigma0 (x : Z) : Z := rotr 7 x .^ rotr 18 x .^ (x .>> 3).
Definition sigma1 (x : Z) : Z := rotr 17 x .^ rotr 19 x .^ (x .>> 10).

Definition K : list Z := Eval vm_compute in map (cube_root_fraction 32) (primes 64).
Definition H0 : list Z := Eval vm_compute in map (square_root_fraction 32) (primes 8).

(** The message schedule: the first 16 words are the block, then
    [W_t = sigma1 W_(t-2) + W_(t-7) + sigma0 W_(t-15) + W_(t-16)]; [w] are the 16
    words from the current one on. *)
Fixpoint schedule (n : nat) (w : list Z) : list Z :=
  match n with
  | O => []
  | S n =>
      w.[0] :: schedule n (tail w ++ [u32 (w.[0] + sigma1 w.[14] + w.[9] + sigma0 w.[1])])
  end.

Definition round (st : list Z) (kw : Z * Z) : list Z :=
  match st with
  | [a; b; c; d; e; f; g; h] =>
      let t1 := u32 (h + Sigma1 e + Ch e f g + (kw.1 + kw.2)) in
      let t2 := u32 (Sigma0 a + Maj a b c) in
      [u32 (t1 + t2); a; b; c; u32 (d + t1); e; f; g]
  | _ => st
  end.

Definition words (chunk : bytes) : list Z := map (λ i, ReadBE32 (drop (4 * i) chunk)) (seq 0 16).
Definition rounds (st w : list Z) : list Z := foldl round st (zip K (schedule 64 w)).
Definition compress_words (s w : list Z) : list Z := zip_with (λ x y, u32 (x + y)) s (rounds s w).
Definition compress (s : list Z) (chunk : bytes) : list Z := compress_words s (words chunk).

(** The digest of a message. *)
Definition SHA256 (m : bytes) : bytes :=
  concat (map WriteBE32 (md_compress 64 compress H0 (md_pad 64 119 WriteBE64 m))).
End fips.

(** ** The unrolled code computes the reference *)

Lemma Ch_fips x y z : sha256.Ch x y z = fips.Ch x y z.
Proof.
  apply Z.bits_inj'. intros n Hn. unfold sha256.Ch, fips.Ch.
  rewrite !Z.lxor_spec, !Z.land_spec, !Z.lxor_spec, Z.lnot_spec by done.
  by destruct (Z.testbit x n), (Z.testbit y n), (Z.testbit z n).
Qed.

Lemma Maj_fips x y z : sha256.Maj x y z = fips.Maj x y z.
Proof.
  apply Z.bits_inj'. intros n Hn. unfold sha256.Maj, fips.Maj.
  rewrite Z.lor_spec, !Z.lxor_spec, !Z.land_spec, Z.lor_spec.
  by destruct (Z.testbit x n), (Z.testbit y n), (Z.testbit z n).
Qed.

(** [Round] only depends on its last argument modulo [2^32]. *)
Lemma Round_cong a b c d e f g h k k' :
  u32 k = u32 k' → sha256.Round a b c d e f g h k = sha256.Round a b c d e f g h k'.
Proof.
  intros Hk. unfold sha256.Round. do 2 f_equal; unfold uwrap in *; f_equal.
  all: rewrite <-(Zplus_mod_idemp_r k), <-(Zplus_mod_idemp_r k'); by rewrite Hk.
Qed.

(** One round of the reference, on the round constant plus the schedule word. *)
Definition round_k (st : list Z) (k : Z) : list Z :=
  match st with
  | [a; b; c; d; e; f; g; h] =>
      let '(d', h') := sha256.Round a b c d e f g h k in [h'; a; b; c; d'; e; f; g]
  | _ => st
  end.

Lemma round_k_fips st kw : fips.round st kw = round_k st (kw.1 + kw.2).
Proof.
  destruct st as [|a [|b [|c [|d [|e [|f [|g [|h [|]]]]]]]]]; try done.
  cbn [round_k fips.round]. unfold sha256.Round. by rewrite Ch_fips, Maj_fips.
Qed.

Definition keyed (ks w : list Z) : list Z := zip_with Z.add ks w.

Lemma rounds_keyed st w : fips.rounds st w = foldl round_k st (keyed fips.K (fips.schedule 64 w)).
Proof.
  unfold fips.rounds, keyed. generalize fips.K (fips.schedule 64 w). intros ks ws.
  revert st ws. induction ks as [|k ks IH]; intros st [|x ws]; try done.
  cbn. by rewrite round_k_fips, IH.
Qed.

(** Rounds with keys that agree modulo [2^32] agree. *)
Lemma round_k_cong st ks ks' :
  Forall2 (λ k k', u32 k = u32 k') ks ks' → foldl round_k st ks = foldl round_k st ks'.
Proof.
  intros Hks. revert st. induction Hks as [|k k' ks ks' Hk Hks IH]; intros st; [done|].
  cbn [foldl]. rewrite IH. f_equal.
  destruct st as [|a [|b [|c [|d [|e [|f [|g [|h [|]]]]]]]]]; try done.
  cbn [round_k]. by rewrite (Round_cong _ _ _ _ _ _ _ _ k k').
Qed.

(** The rounds as the code runs them: over registers and a list of keys, or over
    registers and the 16 current schedule words. *)
Definition final : Type := Z → Z → Z → Z → Z → Z → Z → Z → list Z.

Fixpoint run_keys (fin : final) (ks : list Z) (a b c d e f g h : Z) : list Z :=
  match ks with
  | k :: ks =>
      let '(d', h') := sha256.Round a b c d e f g h k in run_keys fin ks h' a b c d' e f g
  | [] => fin a b c d e f g h
  end.

Fixpoint run (fin : final) (ks : list Z)
    (a b c d e f g h x0 x1 x2 x3 x4 x5 x6 x7 x8 x9 x10 x11 x12 x13 x14 x15 : Z) : list Z :=
  match ks with
  | k :: ks =>
      let '(d', h') := sha256.Round a b c d e f g h (k + x0) in
      run fin ks h' a b c d' e f g x1 x2 x3 x4 x5 x6 x7 x8 x9 x10 x11 x12 x13 x14 x15
        (u32 (x0 + sha256.sigma1 x14 + x9 + sha256.sigma0 x1))
  | [] => fin a b c d e f g h
  end.

Lemma run_run_keys fin ks a b c d e f g h x0 x1 x2 x3 x4 x5 x6 x7 x8 x9 x10 x11 x12 x13 x14 x15 :
  run fin ks a b c d e f g h x0 x1 x2 x3 x4 x5 x6 x7 x8 x9 x10 x11 x12 x13 x14 x15 =
  run_keys fin (keyed ks (fips.schedule (length ks) [x0; x1; x2; x3; x4; x5; x6; x7; x8; x9; x10; x11; x12; x13; x14; x15])) a b c d e f g h.
Proof.
  revert a b c d e f g h x0 x1 x2 x3 x4 x5 x6 x7 x8 x9 x10 x11 x12 x13 x14 x15.
  induction ks as [|k ks IH]; intros; [done|]. unfold keyed. cbn [length run fips.schedule zip_with run_keys].
  change (zget (?x :: _) 0) with x. destruct (sha256.Round _ _ _ _ _ _ _ _ _) as [d' h'].
  by rewrite IH.
Qed.

Lemma run_keys_foldl fin (F : list Z → list Z) ks a b c d e f g h :
  (∀ a b c d e f g h, fin a b c d e f g h = F [a; b; c; d; e; f; g; h]) →
  run_keys fin ks a b c d e f g h = F (foldl round_k [a; b; c; d; e; f; g; h] ks).
Proof.
  intros Hfin. revert a b c d e f g h. induction ks as [|k ks IH]; intros; [apply Hfin|].
  cbn [run_keys foldl round_k]. destruct (sha256.Round _ _ _ _ _ _ _ _ _). apply IH.
Qed.

Lemma run_foldl fin (F : list Z → list Z) ks a b c d e f g h x0 x1 x2 x3 x4 x5 x6 x7 x8 x9 x10 x11 x12 x13 x14 x15 :
  (∀ a b c d e f g h, fin a b c d e f g h = F [a; b; c; d; e; f; g; h]) →
  run fin ks a b c d e f g h x0 x1 x2 x3 x4 x5 x6 x7 x8 x9 x10 x11 x12 x13 x14 x15 =
  F (foldl round_k [a; b; c; d; e; f; g; h] (keyed ks (fips.schedule (length ks) [x0; x1; x2; x3; x4; x5; x6; x7; x8; x9; x10; x11; x12; x13; x14; x15]))).
Proof. intros Hfin. rewrite run_run_keys. by apply run_keys_foldl. Qed.

Definition feed_forward (s r : list Z) : list Z := zip_with (λ x y, u32 (x + y)) s r.

Lemma compress_keyed s w :
  fips.compress_words s w = feed_forward s (foldl round_k s (keyed fips.K (fips.schedule 64 w))).
Proof. unfold fips.compress_words. by rewrite rounds_keyed. Qed.

(** The four unrolled blocks of code are runs of these loops.  The two sides are the
    same term after unfolding the loop, so the kernel compares them round by round
    provided that it does not unfold the arithmetic. *)
Section Unrolled.
#[local] Opaque sha256.Round sha256.sigma0 sha256.sigma1 uwrap ReadBE32 Z.add.
#[local] Strategy expand [run run_keys fips.K].

Lemma Transform_unrolled s0 s1 s2 s3 s4 s5 s6 s7 chunk :
  sha256.Transform [s0; s1; s2; s3; s4; s5; s6; s7] chunk =
  run (λ a b c d e f g h,
         [u32 (s0 + a); u32 (s1 + b); u32 (s2 + c); u32 (s3 + d);
          u32 (s4 + e); u32 (s5 + f); u32 (s6 + g); u32 (s7 + h)])
    fips.K
    s0 s1 s2 s3 s4 s5 s6 s7
    (ReadBE32 (drop 0 chunk)) (ReadBE32 (drop 4 chunk)) (ReadBE32 (drop 8 chunk)) (ReadBE32 (drop 12 chunk))
    (ReadBE32 (drop 16 chunk)) (ReadBE32 (drop 20 chunk)) (ReadBE32 (drop 24 chunk)) (ReadBE32 (drop 28 chunk))
    (ReadBE32 (drop 32 chunk)) (ReadBE32 (drop 36 chunk)) (ReadBE32 (drop 40 chunk)) (ReadBE32 (drop 44 chunk))
    (ReadBE32 (drop 48 chunk)) (ReadBE32 (drop 52 chunk)) (ReadBE32 (drop 56 chunk)) (ReadBE32 (drop 60 chunk)).
Proof. exact_no_check (eq_refl (sha256.Transform [s0; s1; s2; s3; s4; s5; s6; s7] chunk)). Qed.

Lemma D64_transform1_unrolled input :
  sha256.D64_transform1 input =
  run (λ a b c d e f g h,
         [u32 (a + 0x6a09e667); u32 (b + 0xbb67ae85); u32 (c + 0x3c6ef372); u32 (d + 0xa54ff53a);
          u32 (e + 0x510e527f); u32 (f + 0x9b05688c); u32 (g + 0x1f83d9ab); u32 (h + 0x5be0cd19)])
    fips.K
    0x6a09e667 0xbb67ae85 0x3c6ef372 0xa54ff53a 0x510e527f 0x9b05688c 0x1f83d9ab 0x5be0cd19
    (ReadBE32 (drop 0 input)) (ReadBE32 (drop 4 input)) (ReadBE32 (drop 8 input)) (ReadBE32 (drop 12 input))
    (ReadBE32 (drop 16 input)) (ReadBE32 (drop 20 input)) (ReadBE32 (drop 24 input)) (ReadBE32 (drop 28 input))
    (ReadBE32 (drop 32 input)) (ReadBE32 (drop 36 input)) (ReadBE32 (drop 40 input)) (ReadBE32 (drop 44 input))
    (ReadBE32 (drop 48 input)) (ReadBE32 (drop 52 input)) (ReadBE32 (drop 56 input)) (ReadBE32 (drop 60 input)).
Proof. exact_no_check (eq_refl (sha256.D64_transform1 input)). Qed.

(** The round keys of the padding block. *)
Definition padding_keys : list Z :=
  [0xc28a2f98; 0x71374491; 0xb5c0fbcf; 0xe9b5dba5; 0x3956c25b; 0x59f111f1; 0x923f82a4;
   0xab1c5ed5; 0xd807aa98; 0x12835b01; 0x243185be; 0x550c7dc3; 0x72be5d74; 0x80deb1fe;
   0x9bdc06a7; 0xc19bf374; 0x649b69c1; 0xf0fe4786; 0x0fe1edc6; 0x240cf254; 0x4fe9346f;
   0x6cc984be; 0x61b9411e; 0x16f988fa; 0xf2c65152; 0xa88e5a6d; 0xb019fc65; 0xb9d99ec7;
   0x9a1231c3; 0xe70eeaa0; 0xfdb1232b; 0xc7353eb0; 0x3069bad5; 0xcb976d5f; 0x5a0f118f;
   0xdc1eeefd; 0x0a35b689; 0xde0b7a04; 0x58f4ca9d; 0xe15d5b16; 0x007f3e86; 0x37088980;
   0xa507ea32; 0x6fab9537; 0x17406110; 0x0d8cd6f1; 0xcdaa3b6d; 0xc0bbbe37; 0x83613bda;
   0xdb48a363; 0x0b02e931; 0x6fd15ca7; 0x521afaca; 0x31338431; 0x6ed41a95; 0x6d437890;
   0xc39c91f2; 0x9eccabbd; 0xb5c9a0e6; 0x532fb63c; 0xd2c741c6; 0x07237ea3; 0xa4954b68;
   0x4c191d76].

#[local] Strategy expand [padding_keys].

Lemma D64_transform2_unrolled s0 s1 s2 s3 s4 s5 s6 s7 :
  sha256.D64_transform2 [s0; s1; s2; s3; s4; s5; s6; s7] =
  run_keys (λ a b c d e f g h,
         [u32 (s0 + a); u32 (s1 + b); u32 (s2 + c); u32 (s3 + d);
          u32 (s4 + e); u32 (s5 + f); u32 (s6 + g); u32 (s7 + h)])
    padding_keys
    s0 s1 s2 s3 s4 s5 s6 s7.
Proof. exact_no_check (eq_refl (sha256.D64_transform2 [s0; s1; s2; s3; s4; s5; s6; s7])). Qed.

(** The round keys of the second hash, as the code computes them. *)
Import sha256.
Definition digest_keys (w0 w1 w2 w3 w4 w5 w6 w7 : Z) : list Z :=
  0x428a2f98 + w0 ::
  0x71374491 + w1 ::
  0xb5c0fbcf + w2 ::
  0xe9b5dba5 + w3 ::
  0x3956c25b + w4 ::
  0x59f111f1 + w5 ::
  0x923f82a4 + w6 ::
  0xab1c5ed5 + w7 ::
  0x5807aa98 ::
  0x12835b01 ::
  0x243185be ::
  0x550c7dc3 ::
  0x72be5d74 ::
  0x80deb1fe ::
  0x9bdc06a7 ::
  0xc19bf274 ::
  let w0 := u32 (w0 + sigma0 w1) in
  0xe49b69c1 + w0 ::
  let w1 := u32 (w1 + 0xa00000 + sigma0 w2) in
  0xefbe4786 + w1 ::
  let w2 := u32 (w2 + sigma1 w0 + sigma0 w3) in
  0x0fc19dc6 + w2 ::
  let w3 := u32 (w3 + sigma1 w1 + sigma0 w4) in
  0x240ca1cc + w3 ::
  let w4 := u32 (w4 + sigma1 w2 + sigma0 w5) in
  0x2de92c6f + w4 ::
  let w5 := u32 (w5 + sigma1 w3 + sigma0 w6) in
  0x4a7484aa + w5 ::
  let w6 := u32 (w6 + sigma1 w4 + 0x100 + sigma0 w7) in
  0x5cb0a9dc + w6 ::
  let w7 := u32 (w7 + sigma1 w5 + w0 + 0x11002000) in
  0x76f988da + w7 ::
  let w8 := u32 (0x80000000 + sigma1 w6 + w1) in
  0x983e5152 + w8 ::
  let w9 := u32 (sigma1 w7 + w2) in
  0xa831c66d + w9 ::
  let w10 := u32 (sigma1 w8 + w3) in
  0xb00327c8 + w10 ::
  let w11 := u32 (sigma1 w9 + w4) in
  0xbf597fc7 + w11 ::
  let w12 := u32 (sigma1 w10 + w5) in
  0xc6e00bf3 + w12 ::
  let w13 := u32 (sigma1 w11 + w6) in
  0xd5a79147 + w13 ::
  let w14 := u32 (sigma1 w12 + w7 + 0x400022) in
  0x06ca6351 + w14 ::
  let w15 := u32 (0x100 + sigma1 w13 + w8 + sigma0 w0) in
  0x14292967 + w15 ::
  let w0 := u32 (w0 + sigma1 w14 + w9 + sigma0 w1) in
  0x27b70a85 + w0 ::
  let w1 := u32 (w1 + sigma1 w15 + w10 + sigma0 w2) in
  0x2e1b2138 + w1 ::
  let w2 := u32 (w2 + sigma1 w0 + w11 + sigma0 w3) in
  0x4d2c6dfc + w2 ::
  let w3 := u32 (w3 + sigma1 w1 + w12 + sigma0 w4) in
  0x53380d13 + w3 ::
  let w4 := u32 (w4 + sigma1 w2 + w13 + sigma0 w5) in
  0x650a7354 + w4 ::
  let w5 := u32 (w5 + sigma1 w3 + w14 + sigma0 w6) in
  0x766a0abb + w5 ::
  let w6 := u32 (w6 + sigma1 w4 + w15 + sigma0 w7) in
  0x81c2c92e + w6 ::
  let w7 := u32 (w7 + sigma1 w5 + w0 + sigma0 w8) in
  0x92722c85 + w7 ::
  let w8 := u32 (w8 + sigma1 w6 + w1 + sigma0 w9) in
  0xa2bfe8a1 + w8 ::
  let w9 := u32 (w9 + sigma1 w7 + w2 + sigma0 w10) in
  0xa81a664b + w9 ::
  let w10 := u32 (w10 + sigma1 w8 + w3 + sigma0 w11) in
  0xc24b8b70 + w10 ::
  let w11 := u32 (w11 + sigma1 w9 + w4 + sigma0 w12) in
  0xc76c51a3 + w11 ::
  let w12 := u32 (w12 + sigma1 w10 + w5 + sigma0 w13) in
  0xd192e819 + w12 ::
  let w13 := u32 (w13 + sigma1 w11 + w6 + sigma0 w14) in
  0xd6990624 + w13 ::
  let w14 := u32 (w14 + sigma1 w12 + w7 + sigma0 w15) in
  0xf40e3585 + w14 ::
  let w15 := u32 (w15 + sigma1 w13 + w8 + sigma0 w0) in
  0x106aa070 + w15 ::
  let w0 := u32 (w0 + sigma1 w14 + w9 + sigma0 w1) in
  0x19a4c116 + w0 ::
  let w1 := u32 (w1 + sigma1 w15 + w10 + sigma0 w2) in
  0x1e376c08 + w1 ::
  let w2 := u32 (w2 + sigma1 w0 + w11 + sigma0 w3) in
  0x2748774c + w2 ::
  let w3 := u32 (w3 + sigma1 w1 + w12 + sigma0 w4) in
  0x34b0bcb5 + w3 ::
  let w4 := u32 (w4 + sigma1 w2 + w13 + sigma0 w5) in
  0x391c0cb3 + w4 ::
  let w5 := u32 (w5 + sigma1 w3 + w14 + sigma0 w6) in
  0x4ed8aa4a + w5 ::
  let w6 := u32 (w6 + sigma1 w4 + w15 + sigma0 w7) in
  0x5b9cca4f + w6 ::
  let w7 := u32 (w7 + sigma1 w5 + w0 + sigma0 w8) in
  0x682e6ff3 + w7 ::
  let w8 := u32 (w8 + sigma1 w6 + w1 + sigma0 w9) in
  0x748f82ee + w8 ::
  let w9 := u32 (w9 + sigma1 w7 + w2 + sigma0 w10) in
  0x78a5636f + w9 ::
  let w10 := u32 (w10 + sigma1 w8 + w3 + sigma0 w11) in
  0x84c87814 + w10 ::
  let w11 := u32 (w11 + sigma1 w9 + w4 + sigma0 w12) in
  0x8cc70208 + w11 ::
  let w12 := u32 (w12 + sigma1 w10 + w5 + sigma0 w13) in
  0x90befffa + w12 ::
  let w13 := u32 (w13 + sigma1 w11 + w6 + sigma0 w14) in
  0xa4506ceb + w13 ::
  0xbef9a3f7 + u32 (w14 + sigma1 w12 + w7 + sigma0 w15) ::
  0xc67178f2 + u32 (w15 + sigma1 w13 + w8 + sigma0 w0) :: [].

Lemma D64_transform3_unrolled s0 s1 s2 s3 s4 s5 s6 s7 :
  sha256.D64_transform3 [s0; s1; s2; s3; s4; s5; s6; s7] =
  run_keys (λ a b c d e f g h,
         [a + 0x6a09e667; b + 0xbb67ae85; c + 0x3c6ef372; d + 0xa54ff53a;
          e + 0x510e527f; f + 0x9b05688c; g + 0x1f83d9ab; h + 0x5be0cd19])
    (digest_keys s0 s1 s2 s3 s4 s5 s6 s7) 0x6a09e667 0xbb67ae85 0x3c6ef372 0xa54ff53a 0x510e527f 0x9b05688c 0x1f83d9ab 0x5be0cd19.
Proof. exact_no_check (eq_refl (sha256.D64_transform3 [s0; s1; s2; s3; s4; s5; s6; s7])). Qed.
End Unrolled.

(** The compression function is that of FIPS 180-4. *)
Lemma Transform_compress s chunk :
  length s = 8%nat → sha256.Transform s chunk = fips.compress s chunk.
Proof.
  intros (s0 & s1 & s2 & s3 & s4 & s5 & s6 & s7 & ->)%list_8.
  rewrite Transform_unrolled. unfold fips.compress. rewrite compress_keyed.
  by rewrite (run_foldl _ (feed_forward [s0; s1; s2; s3; s4; s5; s6; s7])).
Qed.

Lemma round_k_length st ks : length st = 8%nat → length (foldl round_k st ks) = 8%nat.
Proof.
  revert st. induction ks as [|k ks IH]; intros st Hst; [done|]. cbn [foldl]. apply IH.
  apply list_8 in Hst as (s0 & s1 & s2 & s3 & s4 & s5 & s6 & s7 & ->).
  cbn [round_k]. by destruct (sha256.Round _ _ _ _ _ _ _ _ _).
Qed.

Lemma compress_words_length s w : length s = 8%nat → length (fips.compress_words s w) = 8%nat.
Proof.
  intros Hs. rewrite compress_keyed. unfold feed_forward.
  by rewrite length_zip_with, round_k_length, Hs.
Qed.

Lemma compress_words_range s w : digits_ok 32 (fips.compress_words s w).
Proof.
  rewrite compress_keyed. unfold feed_forward, digits_ok. generalize (foldl round_k s (keyed fips.K (fips.schedule 64 w))).
  induction s as [|x s IH]; intros [|y r]; cbn [zip_with]; constructor; auto with kernel.
Qed.

Lemma D64_transform1_compress input :
  sha256.D64_transform1 input = fips.compress sha256.Initialize input.
Proof.
  rewrite D64_transform1_unrolled. unfold fips.compress. rewrite compress_keyed.
  rewrite (run_foldl _ (feed_forward sha256.Initialize)); [done|].
  intros a b c d e f g h. unfold feed_forward, sha256.Initialize. cbn [zip_with].
  by rewrite (Z.add_comm a), (Z.add_comm b), (Z.add_comm c), (Z.add_comm d),
    (Z.add_comm e), (Z.add_comm f), (Z.add_comm g), (Z.add_comm h).
Qed.

(** Keys that agree modulo [2^32], decided by computation on constants. *)
Lemma keys_computed ks ks' :
  map (λ k, u32 k) ks = map (λ k, u32 k) ks' → Forall2 (λ k k', u32 k = u32 k') ks ks'.
Proof. revert ks'. induction ks as [|k ks IH]; intros [|k' ks'] H; simplify_eq/=; auto. Qed.

Lemma padding_keys_ok :
  Forall2 (λ k k', u32 k = u32 k') padding_keys
    (keyed fips.K (fips.schedule 64 (fips.words padding1))).
Proof. apply keys_computed. vm_compute. reflexivity. Qed.

Lemma D64_transform2_compress t :
  length t = 8%nat → sha256.D64_transform2 t = fips.compress t padding1.
Proof.
  intros (s0 & s1 & s2 & s3 & s4 & s5 & s6 & s7 & ->)%list_8.
  rewrite D64_transform2_unrolled. fold padding_keys. unfold fips.compress. rewrite compress_keyed.
  rewrite <-(round_k_cong _ _ _ padding_keys_ok).
  by rewrite (run_keys_foldl _ (feed_forward [s0; s1; s2; s3; s4; s5; s6; s7])).
Qed.

(** The second hash's keys, word by word.  A word of the reference schedule is named
    when the reference computes it and used up when the code assigns the variable. *)
Definition keys_agree (ks w cs : list Z) : Prop :=
  Forall2 (λ k k', u32 k = u32 k') cs (keyed ks (fips.schedule (length ks) w)).

Lemma keys_agree_step k ks c cs x0 x1 x2 x3 x4 x5 x6 x7 x8 x9 x10 x11 x12 x13 x14 x15 :
  u32 c = u32 (k + x0) →
  (∀ y, y = u32 (x0 + sha256.sigma1 x14 + x9 + sha256.sigma0 x1) →
   keys_agree ks [x1; x2; x3; x4; x5; x6; x7; x8; x9; x10; x11; x12; x13; x14; x15; y] cs) →
  keys_agree (k :: ks) [x0; x1; x2; x3; x4; x5; x6; x7; x8; x9; x10; x11; x12; x13; x14; x15] (c :: cs).
Proof. intros Hc Hcs. constructor; [exact Hc|]. by apply Hcs. Qed.

Ltac eval_sigmas :=
  repeat match goal with
  | |- context [sha256.sigma0 (Zpos ?p)] =>
      let v := eval vm_compute in (sha256.sigma0 (Zpos p)) in change (sha256.sigma0 (Zpos p)) with v
  | |- context [sha256.sigma1 (Zpos ?p)] =>
      let v := eval vm_compute in (sha256.sigma1 (Zpos p)) in change (sha256.sigma1 (Zpos p)) with v
  | |- context [sha256.sigma0 0] => change (sha256.sigma0 0) with 0
  | |- context [sha256.sigma1 0] => change (sha256.sigma1 0) with 0
  end.
Ltac sum_eq :=
  unfold uwrap; rewrite ?Zplus_mod_idemp_l, ?Zplus_mod_idemp_r; first [reflexivity|f_equal; eval_sigmas; lia].
Ltac code_let :=
  match goal with
  | |- keys_agree _ _ (let x := u32 ?e in _) =>
      match reverse goal with
      | H : ?y = u32 _ |- _ => replace (u32 e) with y by (rewrite H; sum_eq); clear H
      end
  end;
  match goal with |- keys_agree ?ks ?w (let x := ?e in @?b x) => change (keys_agree ks w (b e)); cbv beta end.
Ltac key_step :=
  repeat code_let; apply keys_agree_step;
  [try match goal with H : ?y = u32 _ |- context [?y] => rewrite H end; sum_eq
  |let y := fresh "y" in let Hy := fresh "Hy" in intros y Hy].

Lemma digest_keys_ok w0 w1 w2 w3 w4 w5 w6 w7 :
  keys_agree fips.K [w0; w1; w2; w3; w4; w5; w6; w7; 0x80000000; 0; 0; 0; 0; 0; 0; 0x100]
    (digest_keys w0 w1 w2 w3 w4 w5 w6 w7).
Proof.
  unfold fips.K. cbv delta [digest_keys]; cbv beta.
  do 64 key_step. constructor.
Qed.

(** ** The double hash of 64 bytes *)

Lemma Transform_blocks_compress s chunk n :
  length s = 8%nat →
  Transform_blocks 64 sha256.Transform s chunk n = Transform_blocks 64 fips.compress s chunk n.
Proof.
  revert s chunk. induction n as [|n IH]; intros s chunk Hs; [done|]. cbn [Transform_blocks].
  rewrite Transform_compress by done. apply IH. by apply compress_words_length.
Qed.

Lemma length_write_state s : length (sha256.write_state s) = (4 * length s)%nat.
Proof.
  unfold sha256.write_state. induction s as [|x s IH]; [done|].
  cbn [map concat length]. rewrite length_app, length_WriteBE32, IH. lia.
Qed.

Lemma write_state_ok s : bytes_ok (sha256.write_state s).
Proof.
  unfold sha256.write_state. induction s as [|x s IH]; cbn [map concat]; [constructor|].
  apply digits_ok_app. auto with kernel.
Qed.

Lemma ReadBE32_write_state s i r :
  (i < length s)%nat → ReadBE32 (drop (4 * i) (sha256.write_state s ++ r)) = u32 s.[i].
Proof.
  unfold sha256.write_state. revert i. induction s as [|x s IH]; intros i Hi; [cbn in Hi; lia|].
  cbn [map concat]. rewrite <-app_assoc. destruct i as [|i].
  - rewrite drop_0. apply ReadBE32_write.
  - replace (4 * S i)%nat with (length (WriteBE32 x) + 4 * i)%nat by (rewrite length_WriteBE32; lia).
    rewrite drop_app_add. apply IH. cbn in Hi. lia.
Qed.

Lemma ReadBE32_drop_tail s i r :
  ReadBE32 (drop (4 * (length s + i)) (sha256.write_state s ++ r)) = ReadBE32 (drop (4 * i) r).
Proof.
  replace (4 * (length s + i))%nat with (length (sha256.write_state s) + 4 * i)%nat
    by (rewrite length_write_state; lia).
  by rewrite drop_app_add.
Qed.

(** The block of a digest with its padding. *)
Lemma words_digest s0 s1 s2 s3 s4 s5 s6 s7 :
  let s := [s0; s1; s2; s3; s4; s5; s6; s7] in
  digits_ok 32 s →
  fips.words (sha256.write_state s ++ buffer2_tail) = s ++ [0x80000000; 0; 0; 0; 0; 0; 0; 0x100].
Proof.
  intros s Hs. unfold fips.words. change (seq 0 16) with (seq 0 8 ++ map (Nat.add 8) (seq 0 8)).
  rewrite map_app, map_map. apply f_equal2.
  - transitivity (map (λ i, u32 s.[i]) (seq 0 8)).
    + apply map_ext_in. intros i Hi%in_seq. apply ReadBE32_write_state. unfold s. cbn. lia.
    + transitivity (map (λ i, s.[i]) (seq 0 8)); [|reflexivity].
      apply map_ext. intros i. apply uwrap_small. by apply digits_ok_zget.
  - transitivity (map (λ i, ReadBE32 (drop (4 * i) buffer2_tail)) (seq 0 8)); [|reflexivity].
    apply map_ext. intros i. apply (ReadBE32_drop_tail s).
Qed.

Lemma write_state_u32 s : sha256.write_state (map (λ x, u32 x) s) = sha256.write_state s.
Proof.
  unfold sha256.write_state. rewrite map_map. f_equal. apply map_ext. intros x.
  unfold WriteBE32. f_equal. apply (undigits_inj 8 ltac:(lia));
    [by apply digits_digits_ok|by apply digits_digits_ok|by rewrite !length_digits|].
  rewrite !undigits_digits by lia. apply uwrap_uwrap.
Qed.

Lemma D64_transform3_compress w :
  length w = 8%nat → digits_ok 32 w →
  sha256.write_state (sha256.D64_transform3 w) =
  sha256.write_state (fips.compress sha256.Initialize (sha256.write_state w ++ buffer2_tail)).
Proof.
  intros (w0 & w1 & w2 & w3 & w4 & w5 & w6 & w7 & ->)%list_8 Hw.
  rewrite D64_transform3_unrolled. unfold fips.compress. rewrite words_digest by done.
  rewrite compress_keyed. cbn [app].
  rewrite <-(round_k_cong _ _ _ (digest_keys_ok w0 w1 w2 w3 w4 w5 w6 w7)).
  rewrite <-write_state_u32. f_equal.
  rewrite (run_keys_foldl _ (zip_with (λ x y, y + x) sha256.Initialize)) by done.
  unfold feed_forward. fold sha256.Initialize.
  generalize (foldl round_k sha256.Initialize (digest_keys w0 w1 w2 w3 w4 w5 w6 w7)).
  generalize sha256.Initialize. intros s.
  induction s as [|x s IH]; intros [|y r]; cbn; [done..|]. by rewrite IH, (Z.add_comm y).
Qed.

Definition sha256_hash (m : bytes) : bytes := fips.SHA256 m.

Lemma length_Initialize : length sha256.Initialize = 8%nat.
Proof. done. Qed.

Lemma Initialize_H0 : sha256.Initialize = fips.H0.
Proof. reflexivity. Qed.

Lemma SHA256_unfold m :
  fips.SHA256 m = sha256.write_state
    (md_compress 64 fips.compress sha256.Initialize (md_pad 64 119 WriteBE64 m)).
Proof. rewrite Initialize_H0. done. Qed.

(** Two-block and one-block messages. *)
Lemma SHA256_64 m :
  length m = 64%nat →
  fips.SHA256 m = sha256.write_state (fips.compress (fips.compress sha256.Initialize m) padding1).
Proof.
  intros Hm. rewrite SHA256_unfold. unfold md_compress.
  assert (md_pad 64 119 WriteBE64 m = m ++ padding1) as -> by (unfold md_pad; by rewrite Hm).
  rewrite length_app, Hm. change ((64 + length padding1) / 64)%nat with 2%nat.
  cbn [Transform_blocks]. by rewrite (take_app_length' m) , (drop_app_length' m), take_ge by done.
Qed.

Lemma SHA256_32 m :
  length m = 32%nat →
  fips.SHA256 m = sha256.write_state (fips.compress sha256.Initialize (m ++ buffer2_tail)).
Proof.
  intros Hm. rewrite SHA256_unfold. unfold md_compress.
  assert (md_pad 64 119 WriteBE64 m = m ++ buffer2_tail) as -> by (unfold md_pad; by rewrite Hm).
  rewrite length_app, Hm. change ((32 + length buffer2_tail) / 64)%nat with 1%nat.
  cbn [Transform_blocks]. by rewrite take_ge by (rewrite length_app, Hm; done).
Qed.

Lemma length_SHA256 m : length (fips.SHA256 m) = 32%nat.
Proof.
  rewrite SHA256_unfold, length_write_state. unfold md_compress.
  enough (∀ n s c, length s = 8%nat → length (Transform_blocks 64 fips.compress s c n) = 8%nat) as H
    by (by rewrite H).
  induction n as [|n IH]; intros s c Hs; [done|]. cbn. by apply IH, compress_words_length.
Qed.

Lemma SHA256_ok m : bytes_ok (fips.SHA256 m).
Proof. apply write_state_ok. Qed.
#[export] Hint Resolve SHA256_ok : kernel.

Lemma TransformD64_double input :
  length input = 64%nat → sha256.TransformD64 input = fips.SHA256 (fips.SHA256 input).
Proof.
  intros Hi. unfold sha256.TransformD64. rewrite D64_transform1_compress.
  assert (length (fips.compress sha256.Initialize input) = 8%nat) as H1
    by (by apply compress_words_length).
  rewrite D64_transform2_compress by done.
  rewrite D64_transform3_compress by (apply compress_words_range || by apply compress_words_length).
  rewrite SHA256_32 by apply length_SHA256. by rewrite SHA256_64.
Qed.

Lemma TransformD64Wrapper_double input :
  length input = 64%nat → TransformD64Wrapper sha256.Transform input = fips.SHA256 (fips.SHA256 input).
Proof.
  intros Hi. unfold TransformD64Wrapper.
  assert (length (fips.compress sha256.Initialize input) = 8%nat) as H1
    by (by apply compress_words_length).
  rewrite !(Transform_compress sha256.Initialize) by done. rewrite (Transform_compress _ padding1) by done.
  rewrite SHA256_32 by apply length_SHA256. by rewrite SHA256_64.
Qed.

(** ** The class *)

Lemma CSHA256_writes buf pieces :
  length buf = 64%nat →
  represents 64 sha256.Transform sha256.Initialize
    (foldl CSHA256.Write (CSHA256.make buf) pieces) (concat pieces).
Proof.
  intros Hb. apply (hasher_Writes_represents 64 sha256.Transform ltac:(lia) divide_64 _ _ [] pieces).
  by apply represents_init.
Qed.

Lemma CSHA256_Finalize_represents st m :
  represents 64 sha256.Transform sha256.Initialize st m → CSHA256.Finalize st = fips.SHA256 m.
Proof.
  intros Hst. unfold CSHA256.Finalize, CSHA256.finalized. rewrite SHA256_unfold. f_equal.
  erewrite rep_s; [|eapply (hasher_Finalize_represents 64 sha256.Transform) with (sizelen := 8%nat);
    [lia|apply divide_64|lia|lia|apply Hst]].
  unfold md_compress. by apply Transform_blocks_compress.
Qed.

#[local] Abbreviation sha_represents := (represents 64 sha256.Transform sha256.Initialize).

Lemma CSHA256_Write_represents st m d :
  sha_represents st m → sha_represents (CSHA256.Write st d) (m ++ d).
Proof. by apply hasher_Write_represents, divide_64; lia. Qed.

Lemma CSHA256_finalized_represents st m :
  sha_represents st m → sha_represents (CSHA256.finalized st) (md_pad 64 119 WriteBE64 m).
Proof.
  intros Hst. eapply (hasher_Finalize_represents 64 sha256.Transform) with (sizelen := 8%nat);
    [lia|apply divide_64|lia|lia|apply Hst].
Qed.

Lemma CSHA256_Reset_represents st m :
  sha_represents st m → sha_represents (CSHA256.Reset st) [].
Proof. intros Hst. apply represents_init. by destruct Hst. Qed.

(** ** Many double hashes at once *)

Fixpoint D64s (input : bytes) (n : nat) : bytes :=
  match n with
  | O => []
  | S n => fips.SHA256 (fips.SHA256 (take 64 input)) ++ D64s (drop 64 input) n
  end.

(** A vector implementation of width [n] hashes its [n] blocks independently. *)
Definition way_correct (n : nat) (tr : option (bytes → bytes)) : Prop :=
  match tr with
  | Some tr => ∀ input, length input = (64 * n)%nat → tr input = D64s input n
  | None => True
  end.

Lemma D64s_add input a b : D64s input (a + b) = D64s input a ++ D64s (drop (64 * a) input) b.
Proof.
  revert input. induction a as [|a IH]; intros input; [by rewrite Nat.mul_0_r, drop_0|].
  cbn [Nat.add D64s]. rewrite IH, <-app_assoc, drop_drop. by replace (64 + 64 * a)%nat with (64 * S a)%nat by lia.
Qed.

Lemma D64s_take input n : D64s (take (64 * n) input) n = D64s input n.
Proof.
  revert input. induction n as [|n IH]; intros input; [done|]. cbn [D64s].
  rewrite take_take, Nat.min_l by lia. rewrite skipn_firstn_comm.
  replace (64 * S n - 64)%nat with (64 * n)%nat by lia. by rewrite IH.
Qed.

(** What has been output and what is left is the whole. *)
Definition D64_inv (whole : bytes) (st : bytes * bytes * nat) : Prop :=
  let '(out, input, blocks) := st in
  (64 * blocks ≤ length input)%nat ∧ out ++ D64s input blocks = whole.

Lemma D64_loop_inv n tr fuel whole out input blocks :
  way_correct n (Some tr) → D64_inv whole (out, input, blocks) →
  D64_inv whole (D64_loop n tr fuel out input blocks).
Proof.
  intros Htr. revert out input blocks.
  induction fuel as [|fuel IH]; intros out input blocks [Hlen Hw]; [done|]. cbn [D64_loop].
  destruct (Nat.leb_spec n blocks) as [Hn|Hn]; [|done]. apply IH. split; [rewrite length_drop; lia|].
  rewrite Htr by (rewrite length_take; lia). rewrite D64s_take, <-app_assoc, <-D64s_add.
  by replace (n + (blocks - n))%nat with blocks by lia.
Qed.

Lemma D64_way_inv n tr whole st :
  way_correct n tr → D64_inv whole st → D64_inv whole (D64_way n tr st).
Proof.
  destruct st as [[out input] blocks], tr as [tr|]; [|done]. apply D64_loop_inv.
Qed.

Lemma D64_loop_1_done tr fuel out input blocks :
  (blocks ≤ fuel)%nat → (D64_loop 1 tr fuel out input blocks).2 = O.
Proof.
  revert out input blocks. induction fuel as [|fuel IH]; intros out input blocks Hf; cbn [D64_loop snd]; [lia|].
  destruct (Nat.leb_spec 1 blocks); [apply IH; lia|]. cbn. lia.
Qed.

Lemma TransformD64_way_correct : way_correct 1 (Some sha256.TransformD64).
Proof.
  intros input Hi. rewrite TransformD64_double by done. cbn [D64s].
  by rewrite app_nil_r, take_ge by lia.
Qed.

(** ** Properties *)

(** C39: The unrolled compression function of SHA-256, with its in-place register
    rotation and its reuse of sixteen schedule variables, is the compression function
    of FIPS 180-4 (64 rounds over the expanded message schedule, feed-forward), on
    every chaining state and every block. *)
Theorem sha256_Transform_is_FIPS (s : list Z) (chunk : bytes) :
  length s = 8%nat → sha256.Transform s chunk = fips.compress s chunk.
Proof. apply Transform_compress. Qed.

Lemma sha256_Transform_is_FIPS_witness :
  sha256.Transform sha256.Initialize (0x80 :: replicate 63 0) =
    fips.compress sha256.Initialize (0x80 :: replicate 63 0) ∧
  sha256.Transform sha256.Initialize (0x80 :: replicate 63 0) =
    [0xe3b0c442; 0x98fc1c14; 0x9afbf4c8; 0x996fb924; 0x27ae41e4; 0x649b934c; 0xa495991b; 0x7852b855].
Proof.
  split; [apply (sha256_Transform_is_FIPS sha256.Initialize (0x80 :: replicate 63 0)); reflexivity|].
  vm_compute. reflexivity.
Defined.

(** C40: A CSHA256 object that is fed a message in any pieces, empty ones included, and
    then finalized outputs the FIPS 180-4 digest of the concatenation, whatever the
    uninitialized buffer contained; after Reset it can be reused. *)
Theorem CSHA256_incremental (buf : bytes) (pieces pieces' : list bytes) :
  length buf = 64%nat →
  CSHA256.Finalize (foldl CSHA256.Write (CSHA256.make buf) pieces) = fips.SHA256 (concat pieces) ∧
  CSHA256.Finalize (foldl CSHA256.Write
    (CSHA256.Reset (foldl CSHA256.Write (CSHA256.make buf) pieces)) pieces') =
    fips.SHA256 (concat pieces').
Proof.
  intros Hb. pose proof (CSHA256_writes buf pieces Hb) as H.
  split; apply CSHA256_Finalize_represents; [done|].
  apply (hasher_Writes_represents 64 sha256.Transform ltac:(lia) divide_64 _ _ [] pieces').
  by eapply CSHA256_Reset_represents.
Qed.

Lemma CSHA256_incremental_witness :
  CSHA256.Finalize (foldl CSHA256.Write (CSHA256.make (replicate 64 7)) [[97]; []; [98; 99]]) =
    fips.SHA256 [97; 98; 99] ∧
  firstn 4 (fips.SHA256 [97; 98; 99]) = [0xba; 0x78; 0x16; 0xbf].
Proof.
  split; [|vm_compute; reflexivity].
  destruct (CSHA256_incremental (replicate 64 7) [[97]; []; [98; 99]] []) as [H _]; [reflexivity|exact H].
Defined.

(** SHA256D64 outputs the double SHA-256 of each of its 64-byte blocks in order,
    whichever vector implementations were selected, provided that each selected one
    hashes its own blocks correctly; for a single block, the portable double hash, whose
    second and third compressions run on precomputed padding schedules, and the generic
    wrapper around a one-block transform are the double SHA-256. *)
Theorem SHA256D64_blocks (way8 way4 way2 : option (bytes → bytes)) (input : bytes) (blocks : nat) :
  way_correct 8 way8 → way_correct 4 way4 → way_correct 2 way2 →
  length input = (64 * blocks)%nat →
  SHA256D64 way8 way4 way2 sha256.TransformD64 input blocks = D64s input blocks ∧
  (blocks = 1%nat → sha256.TransformD64 input = fips.SHA256 (fips.SHA256 input) ∧
     TransformD64Wrapper sha256.Transform input = fips.SHA256 (fips.SHA256 input)).
Proof.
  intros H8 H4 H2 Hlen. split; [|by intros ->; rewrite TransformD64Wrapper_double, TransformD64_double by done].
  unfold SHA256D64. set (st := ([], input, blocks)).
  assert (D64_inv (D64s input blocks) st) as Hst by (split; [lia|done]).
  apply (D64_way_inv 8 way8) in Hst; [|done]. apply (D64_way_inv 4 way4) in Hst; [|done].
  apply (D64_way_inv 2 way2) in Hst; [|done].
  destruct (D64_way 2 way2 _) as [[out1 input1] blocks1]. cbn [D64_way].
  apply (D64_loop_inv 1 sha256.TransformD64 blocks1) in Hst; [|apply TransformD64_way_correct].
  pose proof (D64_loop_1_done sha256.TransformD64 blocks1 out1 input1 blocks1 ltac:(lia)) as Hd.
  destruct (D64_loop 1 _ _ _ _ _) as [[out2 input2] blocks2]. cbn [snd] in Hd. subst blocks2.
  destruct Hst as [_ Hst]. cbn [D64s] in Hst. by rewrite app_nil_r in Hst.
Qed.

Lemma SHA256D64_blocks_witness :
  SHA256D64 None None (Some (λ i, D64s i 2)) sha256.TransformD64 (take 192 SelfTest.data) 3 =
    D64s (take 192 SelfTest.data) 3.
Proof.
  apply (SHA256D64_blocks None None (Some (λ i, D64s i 2)) (take 192 SelfTest.data) 3);
    [exact I|exact I|intros i _; reflexivity|reflexivity].
Defined.

(** The start-up self test passes on the portable implementation: the nine chaining
    states and the double hash of its test data are as tabulated. *)
Lemma SelfTest_passes :
  SelfTest (Transform_blocks 64 sha256.Transform) sha256.TransformD64 None None None = true.
Proof. vm_compute. reflexivity. Qed.
