(* ===== verification/Sha512.v ===== *)
(** * SHA-512

    Models [src/Sources/libbitcoinkernel/src/crypto/sha512.cpp] and
    [crypto/sha512.h]: the unrolled compression function and the class [CSHA512],
    against the algorithm of FIPS 180-4. *)

From S2P Require Import Prelude Endian Hasher.
From Stdlib Require Import ZArith Lia.
From stdpp Require Import base option list numbers.

Open Scope Z_scope.
Open Scope kernel_scope.

Module sha512.
Definition Ch (x y z : Z) : Z := z .^ (x .& (y .^ z)).
Definition Maj (x y z : Z) : Z := (x .& y) .| (z .& (x .| y)).
Definition Sigma0 (x : Z) : Z :=
  ((x .>> 28) .| u64 (x .<< 36)) .^ ((x .>> 34) .| u64 (x .<< 30)) .^ ((x .>> 39) .| u64 (x .<< 25)).
Definition Sigma1 (x : Z) : Z :=
  ((x .>> 14) .| u64 (x .<< 50)) .^ ((x .>> 18) .| u64 (x .<< 46)) .^ ((x .>> 41) .| u64 (x .<< 23)).
Definition sigma0 (x : Z) : Z :=
  ((x .>> 1) .| u64 (x .<< 63)) .^ ((x .>> 8) .| u64 (x .<< 56)) .^ (x .>> 7).
Definition sigma1 (x : Z) : Z :=
  ((x .>> 19) .| u64 (x .<< 45)) .^ ((x .>> 61) .| u64 (x .<< 3)) .^ (x .>> 6).

(** [Round]: the new values of [d] and [h]. *)
Definition Round (a b c d e f g h k w : Z) : Z * Z :=
  let t1 := u64 (h + Sigma1 e + Ch e f g + k + w) in
  let t2 := u64 (Sigma0 a + Maj a b c) in
  (u64 (d + t1), u64 (t1 + t2)).

Definition Initialize : list Z :=
  [0x6a09e667f3bcc908; 0xbb67ae8584caa73b; 0x3c6ef372fe94f82b; 0xa54ff53a5f1d36f1;
   0x510e527fade682d1; 0x9b05688c2b3e6c1f; 0x1f83d9abfb41bd6b; 0x5be0cd19137e2179].

Definition Transform (s : list Z) (chunk : bytes) : list Z :=
  let a := s.[0] in let b := s.[1] in let c := s.[2] in let d := s.[3] in
  let e := s.[4] in let f := s.[5] in let g := s.[6] in let h := s.[7] in
  set w0 := ReadBE64 (drop 0 chunk) in
  let '(d, h) := Round a b c d e f g h 0x428a2f98d728ae22 w0 in
  set w1 := ReadBE64 (drop 8 chunk) in
  let '(c, g) := Round h a b c d e f g 0x7137449123ef65cd w1 in
  set w2 := ReadBE64 (drop 16 chunk) in
  let '(b, f) := Round g h a b c d e f 0xb5c0fbcfec4d3b2f w2 in
  set w3 := ReadBE64 (drop 24 chunk) in
  let '(a, e) := Round f g h a b c d e 0xe9b5dba58189dbbc w3 in
  set w4 := ReadBE64 (drop 32 chunk) in
  let '(h, d) := Round e f g h a b c d 0x3956c25bf348b538 w4 in
  set w5 := ReadBE64 (drop 40 chunk) in
  let '(g, c) := Round d e f g h a b c 0x59f111f1b605d019 w5 in
  set w6 := ReadBE64 (drop 48 chunk) in
  let '(f, b) := Round c d e f g h a b 0x923f82a4af194f9b w6 in
  set w7 := ReadBE64 (drop 56 chunk) in
  let '(e, a) := Round b c d e f g h a 0xab1c5ed5da6d8118 w7 in
  set w8 := ReadBE64 (drop 64 chunk) in
  let '(d, h) := Round a b c d e f g h 0xd807aa98a3030242 w8 in
  set w9 := ReadBE64 (drop 72 chunk) in
  let '(c, g) := Round h a b c d e f g 0x12835b0145706fbe w9 in
  set w10 := ReadBE64 (drop 80 chunk) in
  let '(b, f) := Round g h a b c d e f 0x243185be4ee4b28c w10 in
  set w11 := ReadBE64 (drop 88 chunk) in
  let '(a, e) := Round f g h a b c d e 0x550c7dc3d5ffb4e2 w11 in
  set w12 := ReadBE64 (drop 96 chunk) in
  let '(h, d) := Round e f g h a b c d 0x72be5d74f27b896f w12 in
  set w13 := ReadBE64 (drop 104 chunk) in
  let '(g, c) := Round d e f g h a b c 0x80deb1fe3b1696b1 w13 in
  set w14 := ReadBE64 (drop 112 chunk) in
  let '(f, b) := Round c d e f g h a b 0x9bdc06a725c71235 w14 in
  set w15 := ReadBE64 (drop 120 chunk) in
  let '(e, a) := Round b c d e f g h a 0xc19bf174cf692694 w15 in
  set w0 := u64 (w0 + sigma1 w14 + w9 + sigma0 w1) in
  let '(d, h) := Round a b c d e f g h 0xe49b69c19ef14ad2 w0 in
  set w1 := u64 (w1 + sigma1 w15 + w10 + sigma0 w2) in
  let '(c, g) := Round h a b c d e f g 0xefbe4786384f25e3 w1 in
  set w2 := u64 (w2 + sigma1 w0 + w11 + sigma0 w3) in
  let '(b, f) := Round g h a b c d e f 0x0fc19dc68b8cd5b5 w2 in
  set w3 := u64 (w3 + sigma1 w1 + w12 + sigma0 w4) in
  let '(a, e) := Round f g h a b c d e 0x240ca1cc77ac9c65 w3 in
  set w4 := u64 (w4 + sigma1 w2 + w13 + sigma0 w5) in
  let '(h, d) := Round e f g h a b c d 0x2de92c6f592b0275 w4 in
  set w5 := u64 (w5 + sigma1 w3 + w14 + sigma0 w6) in
  let '(g, c) := Round d e f g h a b c 0x4a7484aa6ea6e483 w5 in
  set w6 := u64 (w6 + sigma1 w4 + w15 + sigma0 w7) in
  let '(f, b) := Round c d e f g h a b 0x5cb0a9dcbd41fbd4 w6 in
  set w7 := u64 (w7 + sigma1 w5 + w0 + sigma0 w8) in
  let '(e, a) := Round b c d e f g h a 0x76f988da831153b5 w7 in
  set w8 := u64 (w8 + sigma1 w6 + w1 + sigma0 w9) in
  let '(d, h) := Round a b c d e f g h 0x983e5152ee66dfab w8 in
  set w9 := u64 (w9 + sigma1 w7 + w2 + sigma0 w10) in
  let '(c, g) := Round h a b c d e f g 0xa831c66d2db43210 w9 in
  set w10 := u64 (w10 + sigma1 w8 + w3 + sigma0 w11) in
  let '(b, f) := Round g h a b c d e f 0xb00327c898fb213f w10 in
  set w11 := u64 (w11 + sigma1 w9 + w4 + sigma0 w12) in
  let '(a, e) := Round f g h a b c d e 0xbf597fc7beef0ee4 w11 in
  set w12 := u64 (w12 + sigma1 w10 + w5 + sigma0 w13) in
  let '(h, d) := Round e f g h a b c d 0xc6e00bf33da88fc2 w12 in
  set w13 := u64 (w13 + sigma1 w11 + w6 + sigma0 w14) in
  let '(g, c) := Round d e f g h a b c 0xd5a79147930aa725 w13 in
  set w14 := u64 (w14 + sigma1 w12 + w7 + sigma0 w15) in
  let '(f, b) := Round c d e f g h a b 0x06ca6351e003826f w14 in
  set w15 := u64 (w15 + sigma1 w13 + w8 + sigma0 w0) in
  let '(e, a) := Round b c d e f g h a 0x142929670a0e6e70 w15 in
  set w0 := u64 (w0 + sigma1 w14 + w9 + sigma0 w1) in
  let '(d, h) := Round a b c d e f g h 0x27b70a8546d22ffc w0 in
  set w1 := u64 (w1 + sigma1 w15 + w10 + sigma0 w2) in
  let '(c, g) := Round h a b c d e f g 0x2e1b21385c26c926 w1 in
  set w2 := u64 (w2 + sigma1 w0 + w11 + sigma0 w3) in
  let '(b, f) := Round g h a b c d e f 0x4d2c6dfc5ac42aed w2 in
  set w3 := u64 (w3 + sigma1 w1 + w12 + sigma0 w4) in
  let '(a, e) := Round f g h a b c d e 0x53380d139d95b3df w3 in
  set w4 := u64 (w4 + sigma1 w2 + w13 + sigma0 w5) in
  let '(h, d) := Round e f g h a b c d 0x650a73548baf63de w4 in
  set w5 := u64 (w5 + sigma1 w3 + w14 + sigma0 w6) in
  let '(g, c) := Round d e f g h a b c 0x766a0abb3c77b2a8 w5 in
  set w6 := u64 (w6 + sigma1 w4 + w15 + sigma0 w7) in
  let '(f, b) := Round c d e f g h a b 0x81c2c92e47edaee6 w6 in
  set w7 := u64 (w7 + sigma1 w5 + w0 + sigma0 w8) in
  let '(e, a) := Round b c d e f g h a 0x92722c851482353b w7 in
  set w8 := u64 (w8 + sigma1 w6 + w1 + sigma0 w9) in
  let '(d, h) := Round a b c d e f g h 0xa2bfe8a14cf10364 w8 in
  set w9 := u64 (w9 + sigma1 w7 + w2 + sigma0 w10) in
  let '(c, g) := Round h a b c d e f g 0xa81a664bbc423001 w9 in
  set w10 := u64 (w10 + sigma1 w8 + w3 + sigma0 w11) in
  let '(b, f) := Round g h a b c d e f 0xc24b8b70d0f89791 w10 in
  set w11 := u64 (w11 + sigma1 w9 + w4 + sigma0 w12) in
  let '(a, e) := Round f g h a b c d e 0xc76c51a30654be30 w11 in
  set w12 := u64 (w12 + sigma1 w10 + w5 + sigma0 w13) in
  let '(h, d) := Round e f g h a b c d 0xd192e819d6ef5218 w12 in
  set w13 := u64 (w13 + sigma1 w11 + w6 + sigma0 w14) in
  let '(g, c) := Round d e f g h a b c 0xd69906245565a910 w13 in
  set w14 := u64 (w14 + sigma1 w12 + w7 + sigma0 w15) in
  let '(f, b) := Round c d e f g h a b 0xf40e35855771202a w14 in
  set w15 := u64 (w15 + sigma1 w13 + w8 + sigma0 w0) in
  let '(e, a) := Round b c d e f g h a 0x106aa07032bbd1b8 w15 in
  set w0 := u64 (w0 + sigma1 w14 + w9 + sigma0 w1) in
  let '(d, h) := Round a b c d e f g h 0x19a4c116b8d2d0c8 w0 in
  set w1 := u64 (w1 + sigma1 w15 + w10 + sigma0 w2) in
  let '(c, g) := Round h a b c d e f g 0x1e376c085141ab53 w1 in
  set w2 := u64 (w2 + sigma1 w0 + w11 + sigma0 w3) in
  let '(b, f) := Round g h a b c d e f 0x2748774cdf8eeb99 w2 in
  set w3 := u64 (w3 + sigma1 w1 + w12 + sigma0 w4) in
  let '(a, e) := Round f g h a b c d e 0x34b0bcb5e19b48a8 w3 in
  set w4 := u64 (w4 + sigma1 w2 + w13 + sigma0 w5) in
  let '(h, d) := Round e f g h a b c d 0x391c0cb3c5c95a63 w4 in
  set w5 := u64 (w5 + sigma1 w3 + w14 + sigma0 w6) in
  let '(g, c) := Round d e f g h a b c 0x4ed8aa4ae3418acb w5 in
  set w6 := u64 (w6 + sigma1 w4 + w15 + sigma0 w7) in
  let '(f, b) := Round c d e f g h a b 0x5b9cca4f7763e373 w6 in
  set w7 := u64 (w7 + sigma1 w5 + w0 + sigma0 w8) in
  let '(e, a) := Round b c d e f g h a 0x682e6ff3d6b2b8a3 w7 in
  set w8 := u64 (w8 + sigma1 w6 + w1 + sigma0 w9) in
  let '(d, h) := Round a b c d e f g h 0x748f82ee5defb2fc w8 in
  set w9 := u64 (w9 + sigma1 w7 + w2 + sigma0 w10) in
  let '(c, g) := Round h a b c d e f g 0x78a5636f43172f60 w9 in
  set w10 := u64 (w10 + sigma1 w8 + w3 + sigma0 w11) in
  let '(b, f) := Round g h a b c d e f 0x84c87814a1f0ab72 w10 in
  set w11 := u64 (w11 + sigma1 w9 + w4 + sigma0 w12) in
  let '(a, e) := Round f g h a b c d e 0x8cc702081a6439ec w11 in
  set w12 := u64 (w12 + sigma1 w10 + w5 + sigma0 w13) in
  let '(h, d) := Round e f g h a b c d 0x90befffa23631e28 w12 in
  set w13 := u64 (w13 + sigma1 w11 + w6 + sigma0 w14) in
  let '(g, c) := Round d e f g h a b c 0xa4506cebde82bde9 w13 in
  set w14 := u64 (w14 + sigma1 w12 + w7 + sigma0 w15) in
  let '(f, b) := Round c d e f g h a b 0xbef9a3f7b2c67915 w14 in
  set w15 := u64 (w15 + sigma1 w13 + w8 + sigma0 w0) in
  let '(e, a) := Round b c d e f g h a 0xc67178f2e372532b w15 in
  set w0 := u64 (w0 + sigma1 w14 + w9 + sigma0 w1) in
  let '(d, h) := Round a b c d e f g h 0xca273eceea26619c w0 in
  set w1 := u64 (w1 + sigma1 w15 + w10 + sigma0 w2) in
  let '(c, g) := Round h a b c d e f g 0xd186b8c721c0c207 w1 in
  set w2 := u64 (w2 + sigma1 w0 + w11 + sigma0 w3) in
  let '(b, f) := Round g h a b c d e f 0xeada7dd6cde0eb1e w2 in
  set w3 := u64 (w3 + sigma1 w1 + w12 + sigma0 w4) in
  let '(a, e) := Round f g h a b c d e 0xf57d4f7fee6ed178 w3 in
  set w4 := u64 (w4 + sigma1 w2 + w13 + sigma0 w5) in
  let '(h, d) := Round e f g h a b c d 0x06f067aa72176fba w4 in
  set w5 := u64 (w5 + sigma1 w3 + w14 + sigma0 w6) in
  let '(g, c) := Round d e f g h a b c 0x0a637dc5a2c898a6 w5 in
  set w6 := u64 (w6 + sigma1 w4 + w15 + sigma0 w7) in
  let '(f, b) := Round c d e f g h a b 0x113f9804bef90dae w6 in
  set w7 := u64 (w7 + sigma1 w5 + w0 + sigma0 w8) in
  let '(e, a) := Round b c d e f g h a 0x1b710b35131c471b w7 in
  set w8 := u64 (w8 + sigma1 w6 + w1 + sigma0 w9) in
  let '(d, h) := Round a b c d e f g h 0x28db77f523047d84 w8 in
  set w9 := u64 (w9 + sigma1 w7 + w2 + sigma0 w10) in
  let '(c, g) := Round h a b c d e f g 0x32caab7b40c72493 w9 in
  set w10 := u64 (w10 + sigma1 w8 + w3 + sigma0 w11) in
  let '(b, f) := Round g h a b c d e f 0x3c9ebe0a15c9bebc w10 in
  set w11 := u64 (w11 + sigma1 w9 + w4 + sigma0 w12) in
  let '(a, e) := Round f g h a b c d e 0x431d67c49c100d4c w11 in
  set w12 := u64 (w12 + sigma1 w10 + w5 + sigma0 w13) in
  let '(h, d) := Round e f g h a b c d 0x4cc5d4becb3e42b6 w12 in
  set w13 := u64 (w13 + sigma1 w11 + w6 + sigma0 w14) in
  let '(g, c) := Round d e f g h a b c 0x597f299cfc657e2a w13 in
  let '(f, b) := Round c d e f g h a b 0x5fcb6fab3ad6faec (u64 (w14 + sigma1 w12 + w7 + sigma0 w15)) in
  let '(e, a) := Round b c d e f g h a 0x6c44198c4a475817 (u64 (w15 + sigma1 w13 + w8 + sigma0 w0)) in
  [u64 (s.[0] + a); u64 (s.[1] + b); u64 (s.[2] + c); u64 (s.[3] + d);
   u64 (s.[4] + e); u64 (s.[5] + f); u64 (s.[6] + g); u64 (s.[7] + h)].
End sha512.

Module CSHA512.
Definition OUTPUT_SIZE : nat := 64.
Definition make (buf : bytes) : hasher := Hasher sha512.Initialize buf 0.
Definition Write : hasher → bytes → hasher := hasher_Write 128 sha512.Transform.
(** The length field has 16 bytes, of which the first eight stay zero. *)
Definition sizedesc (bits : Z) : bytes := replicate 8 0 ++ WriteBE64 bits.
Definition Finalize (st : hasher) : bytes :=
  concat (map WriteBE64 (hs (hasher_Finalize 128 sha512.Transform 239 sizedesc st))).
Definition Reset (st : hasher) : hasher := Hasher sha512.Initialize (hbuf st) 0.
End CSHA512.

(** ** Reference: FIPS 180-4 *)

Module fips512.
Definition rotr (n x : Z) : Z := (x .>> n) .| u64 (x .<< (64 - n)).
Definition Ch (x y z : Z) : Z := (x .& y) .^ (Z.lnot x .& z).
Definition Maj (x y z : Z) : Z := (x .& y) .^ (x .& z) .^ (y .& z).
Definition Sigma0 (x : Z) : Z := rotr 28 x .^ rotr 34 x .^ rotr 39 x.
Definition Sigma1 (x : Z) : Z := rotr 14 x .^ rotr 18 x .^ rotr 41 x.
Definition sigma0 (x : Z) : Z := rotr 1 x .^ rotr 8 x .^ (x .>> 7).
Definition sigma1 (x : Z) : Z := rotr 19 x .^ rotr 61 x .^ (x .>> 6).

Definition H0 : list Z := Eval vm_compute in map (square_root_fraction 64) (primes 8).
Definition K_head : list Z := Eval vm_compute in take 16 (map (cube_root_fraction 64) (primes 80)).
Definition K_tail : list Z := Eval vm_compute in drop 16 (map (cube_root_fraction 64) (primes 80)).
Definition K : list Z := Eval cbv delta [K_head] in K_head ++ K_tail.

(** The message schedule after the words of the block,
    [W_t = sigma1 W_(t-2) + W_(t-7) + sigma0 W_(t-15) + W_(t-16)]; [w] are the last 16
    words. *)
Fixpoint extend (n : nat) (w : list Z) : list Z :=
  match n with
  | O => []
  | S n =>
      let y := u64 (w.[0] + sigma1 w.[14] + w.[9] + sigma0 w.[1]) in
      y :: extend n (tail w ++ [y])
  end.

Definition round (st : list Z) (kw : Z * Z) : list Z :=
  match st with
  | [a; b; c; d; e; f; g; h] =>
      let t1 := u64 (h + Sigma1 e + Ch e f g + kw.1 + kw.2) in
      let t2 := u64 (Sigma0 a + Maj a b c) in
      [u64 (t1 + t2); a; b; c; u64 (d + t1); e; f; g]
  | _ => st
  end.

Definition words (chunk : bytes) : list Z := map (λ i, ReadBE64 (drop (8 * i) chunk)) (seq 0 16).
Definition rounds (st w : list Z) : list Z := foldl round st (zip K (w ++ extend 64 w)).
Definition compress (s : list Z) (chunk : bytes) : list Z :=
  zip_with (λ x y, u64 (x + y)) s (rounds s (words chunk)).

Definition SHA512 (m : bytes) : bytes :=
  concat (map WriteBE64
    (md_compress 128 compress H0 (md_pad 128 239 CSHA512.sizedesc m))).
End fips512.

(** ** The unrolled code computes the reference *)

Lemma Ch_fips512 x y z : sha512.Ch x y z = fips512.Ch x y z.
Proof.
  apply Z.bits_inj'. intros n Hn. unfold sha512.Ch, fips512.Ch.
  rewrite !Z.lxor_spec, !Z.land_spec, !Z.lxor_spec, Z.lnot_spec by done.
  by destruct (Z.testbit x n), (Z.testbit y n), (Z.testbit z n).
Qed.

Lemma Maj_fips512 x y z : sha512.Maj x y z = fips512.Maj x y z.
Proof.
  apply Z.bits_inj'. intros n Hn. unfold sha512.Maj, fips512.Maj.
  rewrite Z.lor_spec, !Z.lxor_spec, !Z.land_spec, Z.lor_spec.
  by destruct (Z.testbit x n), (Z.testbit y n), (Z.testbit z n).
Qed.

(** The rounds as the code runs them, over registers and the last 16 words: those
    that load a word, and those that compute one (the last two words are not stored). *)
Definition load512 {A} (fin : Z → Z → Z → Z → Z → Z → Z → Z → Z → A) (k w a b c d e f g h : Z) : A :=
  set x := w in
  let '(d', h') := sha512.Round a b c d e f g h k x in fin h' a b c d' e f g x.

Fixpoint run512 (fin : Z → Z → Z → Z → Z → Z → Z → Z → list Z) (ks : list Z)
    (a b c d e f g h x0 x1 x2 x3 x4 x5 x6 x7 x8 x9 x10 x11 x12 x13 x14 x15 : Z) : list Z :=
  match ks with
  | [] => fin a b c d e f g h
  | k :: ks =>
      match ks with
      | [k'] =>
          let '(d', h') := sha512.Round a b c d e f g h k
            (u64 (x0 + sha512.sigma1 x14 + x9 + sha512.sigma0 x1)) in
          let '(c', g') := sha512.Round h' a b c d' e f g k'
            (u64 (x1 + sha512.sigma1 x15 + x10 + sha512.sigma0 x2)) in
          fin g' h' a b c' d' e f
      | _ =>
          set y := u64 (x0 + sha512.sigma1 x14 + x9 + sha512.sigma0 x1) in
          let '(d', h') := sha512.Round a b c d e f g h k y in
          run512 fin ks h' a b c d' e f g x1 x2 x3 x4 x5 x6 x7 x8 x9 x10 x11 x12 x13 x14 x15 y
      end
  end.

Lemma round512_Round a b c d e f g h k w :
  fips512.round [a; b; c; d; e; f; g; h] (k, w) =
  let '(d', h') := sha512.Round a b c d e f g h k w in [h'; a; b; c; d'; e; f; g].
Proof. unfold sha512.Round. rewrite Ch_fips512, Maj_fips512. done. Qed.

Lemma load512_foldl {A} (fin : Z → Z → Z → Z → Z → Z → Z → Z → Z → A) (F : list Z → A) k w a b c d e f g h :
  (∀ a b c d e f g h, fin a b c d e f g h w = F [a; b; c; d; e; f; g; h]) →
  load512 fin k w a b c d e f g h = F (fips512.round [a; b; c; d; e; f; g; h] (k, w)).
Proof.
  intros Hfin. rewrite round512_Round. unfold load512, assign.
  destruct (sha512.Round _ _ _ _ _ _ _ _ _ _). apply Hfin.
Qed.

Lemma run512_foldl fin (F : list Z → list Z) ks a b c d e f g h x0 x1 x2 x3 x4 x5 x6 x7 x8 x9 x10 x11 x12 x13 x14 x15 :
  (∀ a b c d e f g h, fin a b c d e f g h = F [a; b; c; d; e; f; g; h]) →
  run512 fin ks a b c d e f g h x0 x1 x2 x3 x4 x5 x6 x7 x8 x9 x10 x11 x12 x13 x14 x15 =
  F (foldl fips512.round [a; b; c; d; e; f; g; h]
       (zip ks (fips512.extend (length ks) [x0; x1; x2; x3; x4; x5; x6; x7; x8; x9; x10; x11; x12; x13; x14; x15]))).
Proof.
  intros Hfin. revert a b c d e f g h x0 x1 x2 x3 x4 x5 x6 x7 x8 x9 x10 x11 x12 x13 x14 x15.
  induction ks as [|k ks IH]; intros; [apply Hfin|].
  cbn [length run512]. cbn [fips512.extend zip zip_with foldl].
  change (zget [x0; x1; x2; x3; x4; x5; x6; x7; x8; x9; x10; x11; x12; x13; x14; x15] ?i) with (nth i [x0; x1; x2; x3; x4; x5; x6; x7; x8; x9; x10; x11; x12; x13; x14; x15] 0). cbn [nth].
  destruct ks as [|k' [|k'' ks]].
  - (* one key left *)
    unfold assign. rewrite round512_Round. destruct (sha512.Round _ _ _ _ _ _ _ _ _ _). apply Hfin.
  - cbn [length fips512.extend zip zip_with foldl tail app].
    rewrite round512_Round. destruct (sha512.Round _ _ _ _ _ _ _ _ _ _).
    rewrite round512_Round. destruct (sha512.Round _ _ _ _ _ _ _ _ _ _). apply Hfin.
  - unfold assign. rewrite round512_Round. destruct (sha512.Round _ _ _ _ _ _ _ _ _ _). apply IH.
Qed.

Section Unrolled512.
#[local] Opaque assign sha512.Round sha512.sigma0 sha512.sigma1 uwrap ReadBE64 Z.add.
#[local] Strategy expand [run512 load512 fips512.K_tail].

Lemma Transform512_unrolled s0 s1 s2 s3 s4 s5 s6 s7 chunk :
  sha512.Transform [s0; s1; s2; s3; s4; s5; s6; s7] chunk =
  load512 (λ a b c d e f g h w0,
  load512 (λ a b c d e f g h w1,
  load512 (λ a b c d e f g h w2,
  load512 (λ a b c d e f g h w3,
  load512 (λ a b c d e f g h w4,
  load512 (λ a b c d e f g h w5,
  load512 (λ a b c d e f g h w6,
  load512 (λ a b c d e f g h w7,
  load512 (λ a b c d e f g h w8,
  load512 (λ a b c d e f g h w9,
  load512 (λ a b c d e f g h w10,
  load512 (λ a b c d e f g h w11,
  load512 (λ a b c d e f g h w12,
  load512 (λ a b c d e f g h w13,
  load512 (λ a b c d e f g h w14,
  load512 (λ a b c d e f g h w15,
  run512 (λ a b c d e f g h,
         [u64 (s0 + a); u64 (s1 + b); u64 (s2 + c); u64 (s3 + d);
          u64 (s4 + e); u64 (s5 + f); u64 (s6 + g); u64 (s7 + h)])
    fips512.K_tail a b c d e f g h w0 w1 w2 w3 w4 w5 w6 w7 w8 w9 w10 w11 w12 w13 w14 w15)
    0xc19bf174cf692694 (ReadBE64 (drop 120 chunk)) a b c d e f g h)
    0x9bdc06a725c71235 (ReadBE64 (drop 112 chunk)) a b c d e f g h)
    0x80deb1fe3b1696b1 (ReadBE64 (drop 104 chunk)) a b c d e f g h)
    0x72be5d74f27b896f (ReadBE64 (drop 96 chunk)) a b c d e f g h)
    0x550c7dc3d5ffb4e2 (ReadBE64 (drop 88 chunk)) a b c d e f g h)
    0x243185be4ee4b28c (ReadBE64 (drop 80 chunk)) a b c d e f g h)
    0x12835b0145706fbe (ReadBE64 (drop 72 chunk)) a b c d e f g h)
    0xd807aa98a3030242 (ReadBE64 (drop 64 chunk)) a b c d e f g h)
    0xab1c5ed5da6d8118 (ReadBE64 (drop 56 chunk)) a b c d e f g h)
    0x923f82a4af194f9b (ReadBE64 (drop 48 chunk)) a b c d e f g h)
    0x59f111f1b605d019 (ReadBE64 (drop 40 chunk)) a b c d e f g h)
    0x3956c25bf348b538 (ReadBE64 (drop 32 chunk)) a b c d e f g h)
    0xe9b5dba58189dbbc (ReadBE64 (drop 24 chunk)) a b c d e f g h)
    0xb5c0fbcfec4d3b2f (ReadBE64 (drop 16 chunk)) a b c d e f g h)
    0x7137449123ef65cd (ReadBE64 (drop 8 chunk)) a b c d e f g h)
    0x428a2f98d728ae22 (ReadBE64 (drop 0 chunk)) s0 s1 s2 s3 s4 s5 s6 s7.
Proof. exact_no_check (eq_refl (sha512.Transform [s0; s1; s2; s3; s4; s5; s6; s7] chunk)). Qed.
End Unrolled512.

Lemma words512_unfold chunk :
  fips512.words chunk =
    [ReadBE64 (drop 0 chunk); ReadBE64 (drop 8 chunk); ReadBE64 (drop 16 chunk); ReadBE64 (drop 24 chunk); ReadBE64 (drop 32 chunk); ReadBE64 (drop 40 chunk); ReadBE64 (drop 48 chunk); ReadBE64 (drop 56 chunk); ReadBE64 (drop 64 chunk); ReadBE64 (drop 72 chunk); ReadBE64 (drop 80 chunk); ReadBE64 (drop 88 chunk); ReadBE64 (drop 96 chunk); ReadBE64 (drop 104 chunk); ReadBE64 (drop 112 chunk); ReadBE64 (drop 120 chunk)].
Proof. reflexivity. Qed.

Lemma zip_16 (ks ws : list Z) (k0 k1 k2 k3 k4 k5 k6 k7 k8 k9 k10 k11 k12 k13 k14 k15
    x0 x1 x2 x3 x4 x5 x6 x7 x8 x9 x10 x11 x12 x13 x14 x15 : Z) :
  zip ([k0; k1; k2; k3; k4; k5; k6; k7; k8; k9; k10; k11; k12; k13; k14; k15] ++ ks)
    ([x0; x1; x2; x3; x4; x5; x6; x7; x8; x9; x10; x11; x12; x13; x14; x15] ++ ws) =
  (k0, x0) :: (k1, x1) :: (k2, x2) :: (k3, x3) :: (k4, x4) :: (k5, x5) :: (k6, x6) :: (k7, x7) ::
  (k8, x8) :: (k9, x9) :: (k10, x10) :: (k11, x11) :: (k12, x12) :: (k13, x13) :: (k14, x14) ::
  (k15, x15) :: zip ks ws.
Proof. reflexivity. Qed.

Lemma load512_cons fin (F : list Z → list Z) k w rest a b c d e f g h :
  (∀ a b c d e f g h, fin a b c d e f g h w = F (foldl fips512.round [a; b; c; d; e; f; g; h] rest)) →
  load512 fin k w a b c d e f g h = F (foldl fips512.round [a; b; c; d; e; f; g; h] ((k, w) :: rest)).
Proof. apply (load512_foldl fin (λ st, F (foldl fips512.round st rest))). Qed.

Lemma Transform512_compress s chunk :
  length s = 8%nat → sha512.Transform s chunk = fips512.compress s chunk.
Proof.
  intros (s0 & s1 & s2 & s3 & s4 & s5 & s6 & s7 & ->)%list_8.
  rewrite Transform512_unrolled. unfold fips512.compress, fips512.rounds.
  rewrite words512_unfold. unfold fips512.K. rewrite !zip_16.
  set (F := zip_with (λ x y, u64 (x + y)) [s0; s1; s2; s3; s4; s5; s6; s7]).
  do 16 (apply load512_cons; intros). by apply run512_foldl.
Qed.

Lemma rounds512_length st kws : length st = 8%nat → length (foldl fips512.round st kws) = 8%nat.
Proof.
  revert st. induction kws as [|kw kws IH]; intros st Hst; [done|]. cbn [foldl]. apply IH.
  by apply list_8 in Hst as (s0 & s1 & s2 & s3 & s4 & s5 & s6 & s7 & ->).
Qed.

Lemma compress512_length s chunk : length s = 8%nat → length (fips512.compress s chunk) = 8%nat.
Proof.
  intros Hs. unfold fips512.compress, fips512.rounds.
  by rewrite length_zip_with, rounds512_length, Hs.
Qed.

Lemma Transform_blocks512_compress s chunk n :
  length s = 8%nat →
  Transform_blocks 128 sha512.Transform s chunk n = Transform_blocks 128 fips512.compress s chunk n.
Proof.
  revert s chunk. induction n as [|n IH]; intros s chunk Hs; [done|]. cbn [Transform_blocks].
  rewrite Transform512_compress by done. apply IH. by apply compress512_length.
Qed.

Lemma length_SHA512 m : length (fips512.SHA512 m) = 64%nat.
Proof.
  unfold fips512.SHA512. assert (∀ s, length (concat (map WriteBE64 s)) = (8 * length s)%nat) as Hc.
  { induction s as [|x s IH]; [done|]. cbn [map concat length].
    rewrite length_app, length_WriteBE64, IH. lia. }
  rewrite Hc. unfold md_compress.
  enough (∀ n s c, length s = 8%nat → length (Transform_blocks 128 fips512.compress s c n) = 8%nat) as H
    by (by rewrite H).
  induction n as [|n IH]; intros s c Hs; [done|]. cbn. by apply IH, compress512_length.
Qed.

(** ** The class *)

Lemma CSHA512_writes buf pieces :
  length buf = 128%nat →
  represents 128 sha512.Transform sha512.Initialize
    (foldl CSHA512.Write (CSHA512.make buf) pieces) (concat pieces).
Proof.
  intros Hb. apply (hasher_Writes_represents 128 sha512.Transform ltac:(lia) divide_128 _ _ [] pieces).
  by apply represents_init.
Qed.

Lemma CSHA512_Finalize_represents st m :
  represents 128 sha512.Transform sha512.Initialize st m → CSHA512.Finalize st = fips512.SHA512 m.
Proof.
  intros Hst. unfold CSHA512.Finalize, fips512.SHA512. do 2 f_equal.
  erewrite rep_s; [|eapply (hasher_Finalize_represents 128 sha512.Transform) with (sizelen := 16%nat);
    [lia|apply divide_128|lia|lia|apply Hst]].
  unfold md_compress. by apply Transform_blocks512_compress.
Qed.
