(* ===== verification/Sha1.v ===== *)
(** * SHA-1

    Models [src/Sources/libbitcoinkernel/src/crypto/sha1.cpp] and [crypto/sha1.h]:
    the unrolled compression function and the class [CSHA1], against the algorithm of
    FIPS 180-4. *)

From S2P Require Import Prelude Endian Hasher.
From Stdlib Require Import ZArith Lia.
From stdpp Require Import base option list numbers.

Open Scope Z_scope.
Open Scope kernel_scope.

Module sha1.
(** [Round]: the new values of [b] and [e]. *)
Definition Round (a b c d e f k w : Z) : Z * Z :=
  (u32 (b .<< 30) .| (b .>> 2),
   u32 (e + ((u32 (a .<< 5) .| (a .>> 27)) + f + k + w))).

Definition f1 (b c d : Z) : Z := d .^ (b .& (c .^ d)).
Definition f2 (b c d : Z) : Z := b .^ c .^ d.
Definition f3 (b c d : Z) : Z := (b .& c) .| (d .& (b .| c)).

Definition left (x : Z) : Z := u32 (x .<< 1) .| (x .>> 31).

Definition Initialize : list Z := [0x67452301; 0xEFCDAB89; 0x98BADCFE; 0x10325476; 0xC3D2E1F0].

Definition k1 : Z := 0x5A827999.
Definition k2 : Z := 0x6ED9EBA1.
Definition k3 : Z := 0x8F1BBCDC.
Definition k4 : Z := 0xCA62C1D6.

Definition Transform (s : list Z) (chunk : bytes) : list Z :=
  let a := s.[0] in let b := s.[1] in let c := s.[2] in let d := s.[3] in let e := s.[4] in
  set w0 := ReadBE32 (drop 0 chunk) in
  let '(b, e) := Round a b c d e (f1 b c d) k1 w0 in
  set w1 := ReadBE32 (drop 4 chunk) in
  let '(a, d) := Round e a b c d (f1 a b c) k1 w1 in
  set w2 := ReadBE32 (drop 8 chunk) in
  let '(e, c) := Round d e a b c (f1 e a b) k1 w2 in
  set w3 := ReadBE32 (drop 12 chunk) in
  let '(d, b) := Round c d e a b (f1 d e a) k1 w3 in
  set w4 := ReadBE32 (drop 16 chunk) in
  let '(c, a) := Round b c d e a (f1 c d e) k1 w4 in
  set w5 := ReadBE32 (drop 20 chunk) in
  let '(b, e) := Round a b c d e (f1 b c d) k1 w5 in
  set w6 := ReadBE32 (drop 24 chunk) in
  let '(a, d) := Round e a b c d (f1 a b c) k1 w6 in
  set w7 := ReadBE32 (drop 28 chunk) in
  let '(e, c) := Round d e a b c (f1 e a b) k1 w7 in
  set w8 := ReadBE32 (drop 32 chunk) in
  let '(d, b) := Round c d e a b (f1 d e a) k1 w8 in
  set w9 := ReadBE32 (drop 36 chunk) in
  let '(c, a) := Round b c d e a (f1 c d e) k1 w9 in
  set w10 := ReadBE32 (drop 40 chunk) in
  let '(b, e) := Round a b c d e (f1 b c d) k1 w10 in
  set w11 := ReadBE32 (drop 44 chunk) in
  let '(a, d) := Round e a b c d (f1 a b c) k1 w11 in
  set w12 := ReadBE32 (drop 48 chunk) in
  let '(e, c) := Round d e a b c (f1 e a b) k1 w12 in
  set w13 := ReadBE32 (drop 52 chunk) in
  let '(d, b) := Round c d e a b (f1 d e a) k1 w13 in
  set w14 := ReadBE32 (drop 56 chunk) in
  let '(c, a) := Round b c d e a (f1 c d e) k1 w14 in
  set w15 := ReadBE32 (drop 60 chunk) in
  let '(b, e) := Round a b c d e (f1 b c d) k1 w15 in
  set w0 := left (w0 .^ w13 .^ w8 .^ w2) in
  let '(a, d) := Round e a b c d (f1 a b c) k1 w0 in
  set w1 := left (w1 .^ w14 .^ w9 .^ w3) in
  let '(e, c) := Round d e a b c (f1 e a b) k1 w1 in
  set w2 := left (w2 .^ w15 .^ w10 .^ w4) in
  let '(d, b) := Round c d e a b (f1 d e a) k1 w2 in
  set w3 := left (w3 .^ w0 .^ w11 .^ w5) in
  let '(c, a) := Round b c d e a (f1 c d e) k1 w3 in
  set w4 := left (w4 .^ w1 .^ w12 .^ w6) in
  let '(b, e) := Round a b c d e (f2 b c d) k2 w4 in
  set w5 := left (w5 .^ w2 .^ w13 .^ w7) in
  let '(a, d) := Round e a b c d (f2 a b c) k2 w5 in
  set w6 := left (w6 .^ w3 .^ w14 .^ w8) in
  let '(e, c) := Round d e a b c (f2 e a b) k2 w6 in
  set w7 := left (w7 .^ w4 .^ w15 .^ w9) in
  let '(d, b) := Round c d e a b (f2 d e a) k2 w7 in
  set w8 := left (w8 .^ w5 .^ w0 .^ w10) in
  let '(c, a) := Round b c d e a (f2 c d e) k2 w8 in
  set w9 := left (w9 .^ w6 .^ w1 .^ w11) in
  let '(b, e) := Round a b c d e (f2 b c d) k2 w9 in
  set w10 := left (w10 .^ w7 .^ w2 .^ w12) in
  let '(a, d) := Round e a b c d (f2 a b c) k2 w10 in
  set w11 := left (w11 .^ w8 .^ w3 .^ w13) in
  let '(e, c) := Round d e a b c (f2 e a b) k2 w11 in
  set w12 := left (w12 .^ w9 .^ w4 .^ w14) in
  let '(d, b) := Round c d e a b (f2 d e a) k2 w12 in
  set w13 := left (w13 .^ w10 .^ w5 .^ w15) in
  let '(c, a) := Round b c d e a (f2 c d e) k2 w13 in
  set w14 := left (w14 .^ w11 .^ w6 .^ w0) in
  let '(b, e) := Round a b c d e (f2 b c d) k2 w14 in
  set w15 := left (w15 .^ w12 .^ w7 .^ w1) in
  let '(a, d) := Round e a b c d (f2 a b c) k2 w15 in
  set w0 := left (w0 .^ w13 .^ w8 .^ w2) in
  let '(e, c) := Round d e a b c (f2 e a b) k2 w0 in
  set w1 := left (w1 .^ w14 .^ w9 .^ w3) in
  let '(d, b) := Round c d e a b (f2 d e a) k2 w1 in
  set w2 := left (w2 .^ w15 .^ w10 .^ w4) in
  let '(c, a) := Round b c d e a (f2 c d e) k2 w2 in
  set w3 := left (w3 .^ w0 .^ w11 .^ w5) in
  let '(b, e) := Round a b c d e (f2 b c d) k2 w3 in
  set w4 := left (w4 .^ w1 .^ w12 .^ w6) in
  let '(a, d) := Round e a b c d (f2 a b c) k2 w4 in
  set w5 := left (w5 .^ w2 .^ w13 .^ w7) in
  let '(e, c) := Round d e a b c (f2 e a b) k2 w5 in
  set w6 := left (w6 .^ w3 .^ w14 .^ w8) in
  let '(d, b) := Round c d e a b (f2 d e a) k2 w6 in
  set w7 := left (w7 .^ w4 .^ w15 .^ w9) in
  let '(c, a) := Round b c d e a (f2 c d e) k2 w7 in
  set w8 := left (w8 .^ w5 .^ w0 .^ w10) in
  let '(b, e) := Round a b c d e (f3 b c d) k3 w8 in
  set w9 := left (w9 .^ w6 .^ w1 .^ w11) in
  let '(a, d) := Round e a b c d (f3 a b c) k3 w9 in
  set w10 := left (w10 .^ w7 .^ w2 .^ w12) in
  let '(e, c) := Round d e a b c (f3 e a b) k3 w10 in
  set w11 := left (w11 .^ w8 .^ w3 .^ w13) in
  let '(d, b) := Round c d e a b (f3 d e a) k3 w11 in
  set w12 := left (w12 .^ w9 .^ w4 .^ w14) in
  let '(c, a) := Round b c d e a (f3 c d e) k3 w12 in
  set w13 := left (w13 .^ w10 .^ w5 .^ w15) in
  let '(b, e) := Round a b c d e (f3 b c d) k3 w13 in
  set w14 := left (w14 .^ w11 .^ w6 .^ w0) in
  let '(a, d) := Round e a b c d (f3 a b c) k3 w14 in
  set w15 := left (w15 .^ w12 .^ w7 .^ w1) in
  let '(e, c) := Round d e a b c (f3 e a b) k3 w15 in
  set w0 := left (w0 .^ w13 .^ w8 .^ w2) in
  let '(d, b) := Round c d e a b (f3 d e a) k3 w0 in
  set w1 := left (w1 .^ w14 .^ w9 .^ w3) in
  let '(c, a) := Round b c d e a (f3 c d e) k3 w1 in
  set w2 := left (w2 .^ w15 .^ w10 .^ w4) in
  let '(b, e) := Round a b c d e (f3 b c d) k3 w2 in
  set w3 := left (w3 .^ w0 .^ w11 .^ w5) in
  let '(a, d) := Round e a b c d (f3 a b c) k3 w3 in
  set w4 := left (w4 .^ w1 .^ w12 .^ w6) in
  let '(e, c) := Round d e a b c (f3 e a b) k3 w4 in
  set w5 := left (w5 .^ w2 .^ w13 .^ w7) in
  let '(d, b) := Round c d e a b (f3 d e a) k3 w5 in
  set w6 := left (w6 .^ w3 .^ w14 .^ w8) in
  let '(c, a) := Round b c d e a (f3 c d e) k3 w6 in
  set w7 := left (w7 .^ w4 .^ w15 .^ w9) in
  let '(b, e) := Round a b c d e (f3 b c d) k3 w7 in
  set w8 := left (w8 .^ w5 .^ w0 .^ w10) in
  let '(a, d) := Round e a b c d (f3 a b c) k3 w8 in
  set w9 := left (w9 .^ w6 .^ w1 .^ w11) in
  let '(e, c) := Round d e a b c (f3 e a b) k3 w9 in
  set w10 := left (w10 .^ w7 .^ w2 .^ w12) in
  let '(d, b) := Round c d e a b (f3 d e a) k3 w10 in
  set w11 := left (w11 .^ w8 .^ w3 .^ w13) in
  let '(c, a) := Round b c d e a (f3 c d e) k3 w11 in
  set w12 := left (w12 .^ w9 .^ w4 .^ w14) in
  let '(b, e) := Round a b c d e (f2 b c d) k4 w12 in
  set w13 := left (w13 .^ w10 .^ w5 .^ w15) in
  let '(a, d) := Round e a b c d (f2 a b c) k4 w13 in
  set w14 := left (w14 .^ w11 .^ w6 .^ w0) in
  let '(e, c) := Round d e a b c (f2 e a b) k4 w14 in
  set w15 := left (w15 .^ w12 .^ w7 .^ w1) in
  let '(d, b) := Round c d e a b (f2 d e a) k4 w15 in
  set w0 := left (w0 .^ w13 .^ w8 .^ w2) in
  let '(c, a) := Round b c d e a (f2 c d e) k4 w0 in
  set w1 := left (w1 .^ w14 .^ w9 .^ w3) in
  let '(b, e) := Round a b c d e (f2 b c d) k4 w1 in
  set w2 := left (w2 .^ w15 .^ w10 .^ w4) in
  let '(a, d) := Round e a b c d (f2 a b c) k4 w2 in
  set w3 := left (w3 .^ w0 .^ w11 .^ w5) in
  let '(e, c) := Round d e a b c (f2 e a b) k4 w3 in
  set w4 := left (w4 .^ w1 .^ w12 .^ w6) in
  let '(d, b) := Round c d e a b (f2 d e a) k4 w4 in
  set w5 := left (w5 .^ w2 .^ w13 .^ w7) in
  let '(c, a) := Round b c d e a (f2 c d e) k4 w5 in
  set w6 := left (w6 .^ w3 .^ w14 .^ w8) in
  let '(b, e) := Round a b c d e (f2 b c d) k4 w6 in
  set w7 := left (w7 .^ w4 .^ w15 .^ w9) in
  let '(a, d) := Round e a b c d (f2 a b c) k4 w7 in
  set w8 := left (w8 .^ w5 .^ w0 .^ w10) in
  let '(e, c) := Round d e a b c (f2 e a b) k4 w8 in
  set w9 := left (w9 .^ w6 .^ w1 .^ w11) in
  let '(d, b) := Round c d e a b (f2 d e a) k4 w9 in
  set w10 := left (w10 .^ w7 .^ w2 .^ w12) in
  let '(c, a) := Round b c d e a (f2 c d e) k4 w10 in
  set w11 := left (w11 .^ w8 .^ w3 .^ w13) in
  let '(b, e) := Round a b c d e (f2 b c d) k4 w11 in
  set w12 := left (w12 .^ w9 .^ w4 .^ w14) in
  let '(a, d) := Round e a b c d (f2 a b c) k4 w12 in
  let '(e, c) := Round d e a b c (f2 e a b) k4 (left (w13 .^ w10 .^ w5 .^ w15)) in
  let '(d, b) := Round c d e a b (f2 d e a) k4 (left (w14 .^ w11 .^ w6 .^ w0)) in
  let '(c, a) := Round b c d e a (f2 c d e) k4 (left (w15 .^ w12 .^ w7 .^ w1)) in
  [u32 (s.[0] + a); u32 (s.[1] + b); u32 (s.[2] + c); u32 (s.[3] + d); u32 (s.[4] + e)].
End sha1.

Module CSHA1.
Definition OUTPUT_SIZE : nat := 20.
Definition make (buf : bytes) : hasher := Hasher sha1.Initialize buf 0.
Definition Write : hasher → bytes → hasher := hasher_Write 64 sha1.Transform.
Definition Finalize (st : hasher) : bytes :=
  concat (map WriteBE32 (hs (hasher_Finalize 64 sha1.Transform 119 WriteBE64 st))).
Definition Reset (st : hasher) : hasher := Hasher sha1.Initialize (hbuf st) 0.
End CSHA1.

(** ** Reference: FIPS 180-4 *)

Module fips1.
Definition rotl (n x : Z) : Z := u32 (x .<< n) .| (x .>> (32 - n)).
Definition Ch (x y z : Z) : Z := (x .& y) .^ (Z.lnot x .& z).
Definition Parity (x y z : Z) : Z := x .^ y .^ z.
Definition Maj (x y z : Z) : Z := (x .& y) .^ (x .& z) .^ (y .& z).

(** The function and the constant of round [t]. *)
Definition f (t : nat) : Z → Z → Z → Z :=
  if (t <? 20)%nat then Ch else if (t <? 40)%nat then Parity else if (t <? 60)%nat then Maj else Parity.
Definition K (t : nat) : Z :=
  if (t <? 20)%nat then 0x5a827999 else if (t <? 40)%nat then 0x6ed9eba1
  else if (t <? 60)%nat then 0x8f1bbcdc else 0xca62c1d6.

(** [W_t = rotl 1 (W_(t-3) xor W_(t-8) xor W_(t-14) xor W_(t-16))]; [w] are the last 16
    words. *)
Fixpoint extend (n : nat) (w : list Z) : list Z :=
  match n with
  | O => []
  | S n =>
      let y := rotl 1 (w.[13] .^ w.[8] .^ w.[2] .^ w.[0]) in
      y :: extend n (tail w ++ [y])
  end.

Definition round (st : list Z) (tw : nat * Z) : list Z :=
  match st with
  | [a; b; c; d; e] =>
      [u32 (rotl 5 a + f tw.1 b c d + e + K tw.1 + tw.2); a; rotl 30 b; c; d]
  | _ => st
  end.

Definition words (chunk : bytes) : list Z := map (λ i, ReadBE32 (drop (4 * i) chunk)) (seq 0 16).
Definition rounds (st w : list Z) : list Z := foldl round st (zip (seq 0 80) (w ++ extend 64 w)).
Definition compress (s : list Z) (chunk : bytes) : list Z :=
  zip_with (λ x y, u32 (x + y)) s (rounds s (words chunk)).

Definition SHA1 (m : bytes) : bytes :=
  concat (map WriteBE32 (md_compress 64 compress sha1.Initialize (md_pad 64 119 WriteBE64 m))).
End fips1.

(** ** The unrolled code computes the reference *)

(** One round on the function and the constant that the code passes. *)
Definition round1 (st : list Z) (fkw : (Z → Z → Z → Z) * Z * Z) : list Z :=
  match st with
  | [a; b; c; d; e] =>
      let '(b', e') := sha1.Round a b c d e (fkw.1.1 b c d) fkw.1.2 fkw.2 in [e'; a; b'; c; d]
  | _ => st
  end.

(** The functions and constants of the rounds that load a word, and of the others. *)
Definition sha1_head : list ((Z → Z → Z → Z) * Z) :=
  [(sha1.f1, sha1.k1); (sha1.f1, sha1.k1); (sha1.f1, sha1.k1); (sha1.f1, sha1.k1);
   (sha1.f1, sha1.k1); (sha1.f1, sha1.k1); (sha1.f1, sha1.k1); (sha1.f1, sha1.k1);
   (sha1.f1, sha1.k1); (sha1.f1, sha1.k1); (sha1.f1, sha1.k1); (sha1.f1, sha1.k1);
   (sha1.f1, sha1.k1); (sha1.f1, sha1.k1); (sha1.f1, sha1.k1); (sha1.f1, sha1.k1)].
Definition sha1_tail : list ((Z → Z → Z → Z) * Z) :=
  [(sha1.f1, sha1.k1); (sha1.f1, sha1.k1); (sha1.f1, sha1.k1); (sha1.f1, sha1.k1);
   (sha1.f2, sha1.k2); (sha1.f2, sha1.k2); (sha1.f2, sha1.k2); (sha1.f2, sha1.k2);
   (sha1.f2, sha1.k2); (sha1.f2, sha1.k2); (sha1.f2, sha1.k2); (sha1.f2, sha1.k2);
   (sha1.f2, sha1.k2); (sha1.f2, sha1.k2); (sha1.f2, sha1.k2); (sha1.f2, sha1.k2);
   (sha1.f2, sha1.k2); (sha1.f2, sha1.k2); (sha1.f2, sha1.k2); (sha1.f2, sha1.k2);
   (sha1.f2, sha1.k2); (sha1.f2, sha1.k2); (sha1.f2, sha1.k2); (sha1.f2, sha1.k2);
   (sha1.f3, sha1.k3); (sha1.f3, sha1.k3); (sha1.f3, sha1.k3); (sha1.f3, sha1.k3);
   (sha1.f3, sha1.k3); (sha1.f3, sha1.k3); (sha1.f3, sha1.k3); (sha1.f3, sha1.k3);
   (sha1.f3, sha1.k3); (sha1.f3, sha1.k3); (sha1.f3, sha1.k3); (sha1.f3, sha1.k3);
   (sha1.f3, sha1.k3); (sha1.f3, sha1.k3); (sha1.f3, sha1.k3); (sha1.f3, sha1.k3);
   (sha1.f3, sha1.k3); (sha1.f3, sha1.k3); (sha1.f3, sha1.k3); (sha1.f3, sha1.k3);
   (sha1.f2, sha1.k4); (sha1.f2, sha1.k4); (sha1.f2, sha1.k4); (sha1.f2, sha1.k4);
   (sha1.f2, sha1.k4); (sha1.f2, sha1.k4); (sha1.f2, sha1.k4); (sha1.f2, sha1.k4);
   (sha1.f2, sha1.k4); (sha1.f2, sha1.k4); (sha1.f2, sha1.k4); (sha1.f2, sha1.k4);
   (sha1.f2, sha1.k4); (sha1.f2, sha1.k4); (sha1.f2, sha1.k4); (sha1.f2, sha1.k4);
   (sha1.f2, sha1.k4); (sha1.f2, sha1.k4); (sha1.f2, sha1.k4); (sha1.f2, sha1.k4)].

(** The rounds as the code runs them, over registers and the last 16 words: those that
    load a word, and those that compute one (the last three words are not stored). *)
Definition load1 {A} (fin : Z → Z → Z → Z → Z → Z → A) (f : Z → Z → Z → Z) (k w a b c d e : Z) : A :=
  set x := w in
  let '(b', e') := sha1.Round a b c d e (f b c d) k x in fin e' a b' c d x.

Definition next1 (x0 x2 x8 x13 : Z) : Z := sha1.left (x0 .^ x13 .^ x8 .^ x2).

Fixpoint run1 (fin : Z → Z → Z → Z → Z → list Z) (fks : list ((Z → Z → Z → Z) * Z))
    (a b c d e x0 x1 x2 x3 x4 x5 x6 x7 x8 x9 x10 x11 x12 x13 x14 x15 : Z) : list Z :=
  match fks with
  | [] => fin a b c d e
  | (f, k) :: fks =>
      match fks with
      | [(f', k'); (f'', k'')] =>
          let '(b', e') := sha1.Round a b c d e (f b c d) k (next1 x0 x2 x8 x13) in
          let '(a', d') := sha1.Round e' a b' c d (f' a b' c) k' (next1 x1 x3 x9 x14) in
          let '(e'', c') := sha1.Round d' e' a' b' c (f'' e' a' b') k'' (next1 x2 x4 x10 x15) in
          fin c' d' e'' a' b'
      | _ =>
          set y := next1 x0 x2 x8 x13 in
          let '(b', e') := sha1.Round a b c d e (f b c d) k y in
          run1 fin fks e' a b' c d x1 x2 x3 x4 x5 x6 x7 x8 x9 x10 x11 x12 x13 x14 x15 y
      end
  end.

Section Unrolled1.
#[local] Opaque assign sha1.Round sha1.left sha1.f1 sha1.f2 sha1.f3 sha1.k1 sha1.k2 sha1.k3 sha1.k4
  uwrap ReadBE32 Z.lxor.
#[local] Strategy expand [run1 load1 next1 sha1_tail].

Lemma Transform1_unrolled s0 s1 s2 s3 s4 chunk :
  sha1.Transform [s0; s1; s2; s3; s4] chunk =
  load1 (λ a b c d e w0,
  load1 (λ a b c d e w1,
  load1 (λ a b c d e w2,
  load1 (λ a b c d e w3,
  load1 (λ a b c d e w4,
  load1 (λ a b c d e w5,
  load1 (λ a b c d e w6,
  load1 (λ a b c d e w7,
  load1 (λ a b c d e w8,
  load1 (λ a b c d e w9,
  load1 (λ a b c d e w10,
  load1 (λ a b c d e w11,
  load1 (λ a b c d e w12,
  load1 (λ a b c d e w13,
  load1 (λ a b c d e w14,
  load1 (λ a b c d e w15,
  run1 (λ a b c d e, [u32 (s0 + a); u32 (s1 + b); u32 (s2 + c); u32 (s3 + d); u32 (s4 + e)])
    sha1_tail a b c d e w0 w1 w2 w3 w4 w5 w6 w7 w8 w9 w10 w11 w12 w13 w14 w15)
    sha1.f1 sha1.k1 (ReadBE32 (drop 60 chunk)) a b c d e)
    sha1.f1 sha1.k1 (ReadBE32 (drop 56 chunk)) a b c d e)
    sha1.f1 sha1.k1 (ReadBE32 (drop 52 chunk)) a b c d e)
    sha1.f1 sha1.k1 (ReadBE32 (drop 48 chunk)) a b c d e)
    sha1.f1 sha1.k1 (ReadBE32 (drop 44 chunk)) a b c d e)
    sha1.f1 sha1.k1 (ReadBE32 (drop 40 chunk)) a b c d e)
    sha1.f1 sha1.k1 (ReadBE32 (drop 36 chunk)) a b c d e)
    sha1.f1 sha1.k1 (ReadBE32 (drop 32 chunk)) a b c d e)
    sha1.f1 sha1.k1 (ReadBE32 (drop 28 chunk)) a b c d e)
    sha1.f1 sha1.k1 (ReadBE32 (drop 24 chunk)) a b c d e)
    sha1.f1 sha1.k1 (ReadBE32 (drop 20 chunk)) a b c d e)
    sha1.f1 sha1.k1 (ReadBE32 (drop 16 chunk)) a b c d e)
    sha1.f1 sha1.k1 (ReadBE32 (drop 12 chunk)) a b c d e)
    sha1.f1 sha1.k1 (ReadBE32 (drop 8 chunk)) a b c d e)
    sha1.f1 sha1.k1 (ReadBE32 (drop 4 chunk)) a b c d e)
    sha1.f1 sha1.k1 (ReadBE32 (drop 0 chunk)) s0 s1 s2 s3 s4.
Proof. exact_no_check (eq_refl (sha1.Transform [s0; s1; s2; s3; s4] chunk)). Qed.
End Unrolled1.

Lemma round1_Round a b c d e f k w :
  round1 [a; b; c; d; e] (f, k, w) =
  let '(b', e') := sha1.Round a b c d e (f b c d) k w in [e'; a; b'; c; d].
Proof. reflexivity. Qed.

Lemma load1_cons fin (F : list Z → list Z) f k w rest a b c d e :
  (∀ a b c d e, fin a b c d e w = F (foldl round1 [a; b; c; d; e] rest)) →
  load1 fin f k w a b c d e = F (foldl round1 [a; b; c; d; e] ((f, k, w) :: rest)).
Proof.
  intros Hfin. cbn [foldl]. rewrite round1_Round. unfold load1, assign.
  destruct (sha1.Round _ _ _ _ _ _ _ _). apply Hfin.
Qed.

Lemma next1_fips x0 x2 x8 x13 : next1 x0 x2 x8 x13 = fips1.rotl 1 (x13 .^ x8 .^ x2 .^ x0).
Proof.
  unfold next1. replace (x13 .^ x8 .^ x2 .^ x0) with (x0 .^ x13 .^ x8 .^ x2); [done|].
  by rewrite (Z.lxor_comm _ x0), !Z.lxor_assoc.
Qed.

Lemma run1_foldl fin (F : list Z → list Z) fks a b c d e x0 x1 x2 x3 x4 x5 x6 x7 x8 x9 x10 x11 x12 x13 x14 x15 :
  (∀ a b c d e, fin a b c d e = F [a; b; c; d; e]) →
  run1 fin fks a b c d e x0 x1 x2 x3 x4 x5 x6 x7 x8 x9 x10 x11 x12 x13 x14 x15 =
  F (foldl round1 [a; b; c; d; e] (zip fks (fips1.extend (length fks) [x0; x1; x2; x3; x4; x5; x6; x7; x8; x9; x10; x11; x12; x13; x14; x15]))).
Proof.
  intros Hfin. revert a b c d e x0 x1 x2 x3 x4 x5 x6 x7 x8 x9 x10 x11 x12 x13 x14 x15.
  induction fks as [|[f k] fks IH]; intros; [apply Hfin|].
  cbn [length run1]. cbn [fips1.extend zip zip_with foldl].
  change (zget [x0; x1; x2; x3; x4; x5; x6; x7; x8; x9; x10; x11; x12; x13; x14; x15] ?i) with (nth i [x0; x1; x2; x3; x4; x5; x6; x7; x8; x9; x10; x11; x12; x13; x14; x15] 0). cbn [nth].
  rewrite <-next1_fips, round1_Round.
  destruct fks as [|[f' k'] [|[f'' k''] [|fk fks]]];
    unfold assign; destruct (sha1.Round _ _ _ _ _ _ _ _); apply IH.
Qed.

Lemma f1_Ch b c d : sha1.f1 b c d = fips1.Ch b c d.
Proof.
  apply Z.bits_inj'. intros n Hn. unfold sha1.f1, fips1.Ch.
  rewrite !Z.lxor_spec, !Z.land_spec, !Z.lxor_spec, Z.lnot_spec by done.
  by destruct (Z.testbit b n), (Z.testbit c n), (Z.testbit d n).
Qed.

Lemma f3_Maj b c d : sha1.f3 b c d = fips1.Maj b c d.
Proof.
  apply Z.bits_inj'. intros n Hn. unfold sha1.f3, fips1.Maj.
  rewrite Z.lor_spec, !Z.lxor_spec, !Z.land_spec, Z.lor_spec.
  by destruct (Z.testbit b n), (Z.testbit c n), (Z.testbit d n).
Qed.

(** The code's function and constant of each round are those of the standard. *)
Definition same_round (t : nat) (fk : (Z → Z → Z → Z) * Z) : Prop :=
  (∀ b c d, fips1.f t b c d = fk.1 b c d) ∧ fips1.K t = fk.2.

Lemma same_rounds : Forall2 same_round (seq 0 80) (sha1_head ++ sha1_tail).
Proof.
  unfold sha1_head, sha1_tail. cbn [seq app].
  repeat constructor; intros; symmetry; first [apply f1_Ch|apply f3_Maj].
Qed.

Lemma round_round1 st t fk w : same_round t fk → fips1.round st (t, w) = round1 st (fk, w).
Proof.
  intros [Hf Hk]. destruct st as [|a [|b [|c [|d [|e [|]]]]]]; try done.
  cbn [fips1.round round1 fst snd]. unfold sha1.Round. rewrite Hf, Hk.
  change (fips1.rotl 5 a) with (u32 (a .<< 5) .| (a .>> 27)). f_equal.
  apply (f_equal (uwrap 32)). lia.
Qed.

Lemma rounds_round1 st ts fks ws :
  Forall2 same_round ts fks → foldl fips1.round st (zip ts ws) = foldl round1 st (zip fks ws).
Proof.
  intros H. revert st ws. induction H as [|t fk ts fks Ht H IH]; intros st [|w ws]; try done.
  cbn [zip zip_with foldl]. by rewrite IH, (round_round1 _ _ fk).
Qed.

Lemma words1_unfold chunk :
  fips1.words chunk =
    [ReadBE32 (drop 0 chunk); ReadBE32 (drop 4 chunk); ReadBE32 (drop 8 chunk); ReadBE32 (drop 12 chunk); ReadBE32 (drop 16 chunk); ReadBE32 (drop 20 chunk); ReadBE32 (drop 24 chunk); ReadBE32 (drop 28 chunk); ReadBE32 (drop 32 chunk); ReadBE32 (drop 36 chunk); ReadBE32 (drop 40 chunk); ReadBE32 (drop 44 chunk); ReadBE32 (drop 48 chunk); ReadBE32 (drop 52 chunk); ReadBE32 (drop 56 chunk); ReadBE32 (drop 60 chunk)].
Proof. reflexivity. Qed.

Lemma zip_head (ws : list Z) (x0 x1 x2 x3 x4 x5 x6 x7 x8 x9 x10 x11 x12 x13 x14 x15 : Z) :
  zip (sha1_head ++ sha1_tail) ([x0; x1; x2; x3; x4; x5; x6; x7; x8; x9; x10; x11; x12; x13; x14; x15] ++ ws) =
  (sha1.f1, sha1.k1, x0) ::
  (sha1.f1, sha1.k1, x1) ::
  (sha1.f1, sha1.k1, x2) ::
  (sha1.f1, sha1.k1, x3) ::
  (sha1.f1, sha1.k1, x4) ::
  (sha1.f1, sha1.k1, x5) ::
  (sha1.f1, sha1.k1, x6) ::
  (sha1.f1, sha1.k1, x7) ::
  (sha1.f1, sha1.k1, x8) ::
  (sha1.f1, sha1.k1, x9) ::
  (sha1.f1, sha1.k1, x10) ::
  (sha1.f1, sha1.k1, x11) ::
  (sha1.f1, sha1.k1, x12) ::
  (sha1.f1, sha1.k1, x13) ::
  (sha1.f1, sha1.k1, x14) ::
  (sha1.f1, sha1.k1, x15) :: zip sha1_tail ws.
Proof. reflexivity. Qed.

Lemma Transform1_compress s chunk :
  length s = 5%nat → sha1.Transform s chunk = fips1.compress s chunk.
Proof.
  intros (s0 & s1 & s2 & s3 & s4 & ->)%list_5.
  rewrite Transform1_unrolled. unfold fips1.compress, fips1.rounds.
  rewrite words1_unfold, (rounds_round1 _ _ _ _ same_rounds), zip_head.
  set (F := zip_with (λ x y, u32 (x + y)) [s0; s1; s2; s3; s4]).
  do 16 (apply load1_cons; intros). by apply run1_foldl.
Qed.

Lemma rounds1_length st tws : length st = 5%nat → length (foldl fips1.round st tws) = 5%nat.
Proof.
  revert st. induction tws as [|tw tws IH]; intros st Hst; [done|]. cbn [foldl]. apply IH.
  by apply list_5 in Hst as (s0 & s1 & s2 & s3 & s4 & ->).
Qed.

Lemma compress1_length s chunk : length s = 5%nat → length (fips1.compress s chunk) = 5%nat.
Proof.
  intros Hs. unfold fips1.compress, fips1.rounds. by rewrite length_zip_with, rounds1_length, Hs.
Qed.

Lemma Transform_blocks1_compress s chunk n :
  length s = 5%nat →
  Transform_blocks 64 sha1.Transform s chunk n = Transform_blocks 64 fips1.compress s chunk n.
Proof.
  revert s chunk. induction n as [|n IH]; intros s chunk Hs; [done|]. cbn [Transform_blocks].
  rewrite Transform1_compress by done. apply IH. by apply compress1_length.
Qed.

(** ** The class *)

Lemma CSHA1_writes buf pieces :
  length buf = 64%nat →
  represents 64 sha1.Transform sha1.Initialize
    (foldl CSHA1.Write (CSHA1.make buf) pieces) (concat pieces).
Proof.
  intros Hb. apply (hasher_Writes_represents 64 sha1.Transform ltac:(lia) divide_64 _ _ [] pieces).
  by apply represents_init.
Qed.

Lemma CSHA1_Finalize_represents st m :
  represents 64 sha1.Transform sha1.Initialize st m → CSHA1.Finalize st = fips1.SHA1 m.
Proof.
  intros Hst. unfold CSHA1.Finalize, fips1.SHA1. do 2 f_equal.
  erewrite rep_s; [|eapply (hasher_Finalize_represents 64 sha1.Transform) with (sizelen := 8%nat);
    [lia|apply divide_64|lia|lia|apply Hst]].
  unfold md_compress. by apply Transform_blocks1_compress.
Qed.
