(* ===== verification/Ripemd160.v ===== *)
(** * RIPEMD-160

    Models [src/Sources/libbitcoinkernel/src/crypto/ripemd160.cpp] and
    [crypto/ripemd160.h]: the two interleaved lines of the unrolled compression
    function and the class [CRIPEMD160], against the definition of RIPEMD-160 by its
    tables. *)

From S2P Require Import Prelude Endian Hasher.
From Stdlib Require Import ZArith Lia.
From stdpp Require Import base option list numbers.

Open Scope Z_scope.
Open Scope kernel_scope.

Module ripemd160.
(** [~x] on 32 bits. *)
Definition not32 (x : Z) : Z := u32 (Z.lnot x).
Definition f1 (x y z : Z) : Z := x .^ y .^ z.
Definition f2 (x y z : Z) : Z := (x .& y) .| (not32 x .& z).
Definition f3 (x y z : Z) : Z := (x .| not32 y) .^ z.
Definition f4 (x y z : Z) : Z := (x .& z) .| (y .& not32 z).
Definition f5 (x y z : Z) : Z := x .^ (y .| not32 z).

Definition Initialize : list Z := [0x67452301; 0xEFCDAB89; 0x98BADCFE; 0x10325476; 0xC3D2E1F0].

Definition rol (x i : Z) : Z := u32 (x .<< i) .| (x .>> (32 - i)).

(** [Round] and its instances: the new values of [a] and [c]. *)
Definition Round (a b c d e f x k r : Z) : Z * Z :=
  (u32 (rol (u32 (a + f + x + k)) r + e), rol c 10).
Definition R11 (a b c d e x r : Z) : Z * Z := Round a b c d e (f1 b c d) x 0 r.
Definition R21 (a b c d e x r : Z) : Z * Z := Round a b c d e (f2 b c d) x 0x5A827999 r.
Definition R31 (a b c d e x r : Z) : Z * Z := Round a b c d e (f3 b c d) x 0x6ED9EBA1 r.
Definition R41 (a b c d e x r : Z) : Z * Z := Round a b c d e (f4 b c d) x 0x8F1BBCDC r.
Definition R51 (a b c d e x r : Z) : Z * Z := Round a b c d e (f5 b c d) x 0xA953FD4E r.
Definition R12 (a b c d e x r : Z) : Z * Z := Round a b c d e (f5 b c d) x 0x50A28BE6 r.
Definition R22 (a b c d e x r : Z) : Z * Z := Round a b c d e (f4 b c d) x 0x5C4DD124 r.
Definition R32 (a b c d e x r : Z) : Z * Z := Round a b c d e (f3 b c d) x 0x6D703EF3 r.
Definition R42 (a b c d e x r : Z) : Z * Z := Round a b c d e (f2 b c d) x 0x7A6D76E9 r.
Definition R52 (a b c d e x r : Z) : Z * Z := Round a b c d e (f1 b c d) x 0 r.

Definition Transform (s : list Z) (chunk : bytes) : list Z :=
  let a1 := s.[0] in let b1 := s.[1] in let c1 := s.[2] in let d1 := s.[3] in let e1 := s.[4] in
  let a2 := a1 in let b2 := b1 in let c2 := c1 in let d2 := d1 in let e2 := e1 in
  let w0 := ReadLE32 (drop 0 chunk) in let w1 := ReadLE32 (drop 4 chunk) in
  let w2 := ReadLE32 (drop 8 chunk) in let w3 := ReadLE32 (drop 12 chunk) in
  let w4 := ReadLE32 (drop 16 chunk) in let w5 := ReadLE32 (drop 20 chunk) in
  let w6 := ReadLE32 (drop 24 chunk) in let w7 := ReadLE32 (drop 28 chunk) in
  let w8 := ReadLE32 (drop 32 chunk) in let w9 := ReadLE32 (drop 36 chunk) in
  let w10 := ReadLE32 (drop 40 chunk) in let w11 := ReadLE32 (drop 44 chunk) in
  let w12 := ReadLE32 (drop 48 chunk) in let w13 := ReadLE32 (drop 52 chunk) in
  let w14 := ReadLE32 (drop 56 chunk) in let w15 := ReadLE32 (drop 60 chunk) in
  let '(a1, c1) := R11 a1 b1 c1 d1 e1 w0 11 in
  let '(a2, c2) := R12 a2 b2 c2 d2 e2 w5 8 in
  let '(e1, b1) := R11 e1 a1 b1 c1 d1 w1 14 in
  let '(e2, b2) := R12 e2 a2 b2 c2 d2 w14 9 in
  let '(d1, a1) := R11 d1 e1 a1 b1 c1 w2 15 in
  let '(d2, a2) := R12 d2 e2 a2 b2 c2 w7 9 in
  let '(c1, e1) := R11 c1 d1 e1 a1 b1 w3 12 in
  let '(c2, e2) := R12 c2 d2 e2 a2 b2 w0 11 in
  let '(b1, d1) := R11 b1 c1 d1 e1 a1 w4 5 in
  let '(b2, d2) := R12 b2 c2 d2 e2 a2 w9 13 in
  let '(a1, c1) := R11 a1 b1 c1 d1 e1 w5 8 in
  let '(a2, c2) := R12 a2 b2 c2 d2 e2 w2 15 in
  let '(e1, b1) := R11 e1 a1 b1 c1 d1 w6 7 in
  let '(e2, b2) := R12 e2 a2 b2 c2 d2 w11 15 in
  let '(d1, a1) := R11 d1 e1 a1 b1 c1 w7 9 in
  let '(d2, a2) := R12 d2 e2 a2 b2 c2 w4 5 in
  let '(c1, e1) := R11 c1 d1 e1 a1 b1 w8 11 in
  let '(c2, e2) := R12 c2 d2 e2 a2 b2 w13 7 in
  let '(b1, d1) := R11 b1 c1 d1 e1 a1 w9 13 in
  let '(b2, d2) := R12 b2 c2 d2 e2 a2 w6 7 in
  let '(a1, c1) := R11 a1 b1 c1 d1 e1 w10 14 in
  let '(a2, c2) := R12 a2 b2 c2 d2 e2 w15 8 in
  let '(e1, b1) := R11 e1 a1 b1 c1 d1 w11 15 in
  let '(e2, b2) := R12 e2 a2 b2 c2 d2 w8 11 in
  let '(d1, a1) := R11 d1 e1 a1 b1 c1 w12 6 in
  let '(d2, a2) := R12 d2 e2 a2 b2 c2 w1 14 in
  let '(c1, e1) := R11 c1 d1 e1 a1 b1 w13 7 in
  let '(c2, e2) := R12 c2 d2 e2 a2 b2 w10 14 in
  let '(b1, d1) := R11 b1 c1 d1 e1 a1 w14 9 in
  let '(b2, d2) := R12 b2 c2 d2 e2 a2 w3 12 in
  let '(a1, c1) := R11 a1 b1 c1 d1 e1 w15 8 in
  let '(a2, c2) := R12 a2 b2 c2 d2 e2 w12 6 in
  let '(e1, b1) := R21 e1 a1 b1 c1 d1 w7 7 in
  let '(e2, b2) := R22 e2 a2 b2 c2 d2 w6 9 in
  let '(d1, a1) := R21 d1 e1 a1 b1 c1 w4 6 in
  let '(d2, a2) := R22 d2 e2 a2 b2 c2 w11 13 in
  let '(c1, e1) := R21 c1 d1 e1 a1 b1 w13 8 in
  let '(c2, e2) := R22 c2 d2 e2 a2 b2 w3 15 in
  let '(b1, d1) := R21 b1 c1 d1 e1 a1 w1 13 in
  let '(b2, d2) := R22 b2 c2 d2 e2 a2 w7 7 in
  let '(a1, c1) := R21 a1 b1 c1 d1 e1 w10 11 in
  let '(a2, c2) := R22 a2 b2 c2 d2 e2 w0 12 in
  let '(e1, b1) := R21 e1 a1 b1 c1 d1 w6 9 in
  let '(e2, b2) := R22 e2 a2 b2 c2 d2 w13 8 in
  let '(d1, a1) := R21 d1 e1 a1 b1 c1 w15 7 in
  let '(d2, a2) := R22 d2 e2 a2 b2 c2 w5 9 in
  let '(c1, e1) := R21 c1 d1 e1 a1 b1 w3 15 in
  let '(c2, e2) := R22 c2 d2 e2 a2 b2 w10 11 in
  let '(b1, d1) := R21 b1 c1 d1 e1 a1 w12 7 in
  let '(b2, d2) := R22 b2 c2 d2 e2 a2 w14 7 in
  let '(a1, c1) := R21 a1 b1 c1 d1 e1 w0 12 in
  let '(a2, c2) := R22 a2 b2 c2 d2 e2 w15 7 in
  let '(e1, b1) := R21 e1 a1 b1 c1 d1 w9 15 in
  let '(e2, b2) := R22 e2 a2 b2 c2 d2 w8 12 in
  let '(d1, a1) := R21 d1 e1 a1 b1 c1 w5 9 in
  let '(d2, a2) := R22 d2 e2 a2 b2 c2 w12 7 in
  let '(c1, e1) := R21 c1 d1 e1 a1 b1 w2 11 in
  let '(c2, e2) := R22 c2 d2 e2 a2 b2 w4 6 in
  let '(b1, d1) := R21 b1 c1 d1 e1 a1 w14 7 in
  let '(b2, d2) := R22 b2 c2 d2 e2 a2 w9 15 in
  let '(a1, c1) := R21 a1 b1 c1 d1 e1 w11 13 in
  let '(a2, c2) := R22 a2 b2 c2 d2 e2 w1 13 in
  let '(e1, b1) := R21 e1 a1 b1 c1 d1 w8 12 in
  let '(e2, b2) := R22 e2 a2 b2 c2 d2 w2 11 in
  let '(d1, a1) := R31 d1 e1 a1 b1 c1 w3 11 in
  let '(d2, a2) := R32 d2 e2 a2 b2 c2 w15 9 in
  let '(c1, e1) := R31 c1 d1 e1 a1 b1 w10 13 in
  let '(c2, e2) := R32 c2 d2 e2 a2 b2 w5 7 in
  let '(b1, d1) := R31 b1 c1 d1 e1 a1 w14 6 in
  let '(b2, d2) := R32 b2 c2 d2 e2 a2 w1 15 in
  let '(a1, c1) := R31 a1 b1 c1 d1 e1 w4 7 in
  let '(a2, c2) := R32 a2 b2 c2 d2 e2 w3 11 in
  let '(e1, b1) := R31 e1 a1 b1 c1 d1 w9 14 in
  let '(e2, b2) := R32 e2 a2 b2 c2 d2 w7 8 in
  let '(d1, a1) := R31 d1 e1 a1 b1 c1 w15 9 in
  let '(d2, a2) := R32 d2 e2 a2 b2 c2 w14 6 in
  let '(c1, e1) := R31 c1 d1 e1 a1 b1 w8 13 in
  let '(c2, e2) := R32 c2 d2 e2 a2 b2 w6 6 in
  let '(b1, d1) := R31 b1 c1 d1 e1 a1 w1 15 in
  let '(b2, d2) := R32 b2 c2 d2 e2 a2 w9 14 in
  let '(a1, c1) := R31 a1 b1 c1 d1 e1 w2 14 in
  let '(a2, c2) := R32 a2 b2 c2 d2 e2 w11 12 in
  let '(e1, b1) := R31 e1 a1 b1 c1 d1 w7 8 in
  let '(e2, b2) := R32 e2 a2 b2 c2 d2 w8 13 in
  let '(d1, a1) := R31 d1 e1 a1 b1 c1 w0 13 in
  let '(d2, a2) := R32 d2 e2 a2 b2 c2 w12 5 in
  let '(c1, e1) := R31 c1 d1 e1 a1 b1 w6 6 in
  let '(c2, e2) := R32 c2 d2 e2 a2 b2 w2 14 in
  let '(b1, d1) := R31 b1 c1 d1 e1 a1 w13 5 in
  let '(b2, d2) := R32 b2 c2 d2 e2 a2 w10 13 in
  let '(a1, c1) := R31 a1 b1 c1 d1 e1 w11 12 in
  let '(a2, c2) := R32 a2 b2 c2 d2 e2 w0 13 in
  let '(e1, b1) := R31 e1 a1 b1 c1 d1 w5 7 in
  let '(e2, b2) := R32 e2 a2 b2 c2 d2 w4 7 in
  let '(d1, a1) := R31 d1 e1 a1 b1 c1 w12 5 in
  let '(d2, a2) := R32 d2 e2 a2 b2 c2 w13 5 in
  let '(c1, e1) := R41 c1 d1 e1 a1 b1 w1 11 in
  let '(c2, e2) := R42 c2 d2 e2 a2 b2 w8 15 in
  let '(b1, d1) := R41 b1 c1 d1 e1 a1 w9 12 in
  let '(b2, d2) := R42 b2 c2 d2 e2 a2 w6 5 in
  let '(a1, c1) := R41 a1 b1 c1 d1 e1 w11 14 in
  let '(a2, c2) := R42 a2 b2 c2 d2 e2 w4 8 in
  let '(e1, b1) := R41 e1 a1 b1 c1 d1 w10 15 in
  let '(e2, b2) := R42 e2 a2 b2 c2 d2 w1 11 in
  let '(d1, a1) := R41 d1 e1 a1 b1 c1 w0 14 in
  let '(d2, a2) := R42 d2 e2 a2 b2 c2 w3 14 in
  let '(c1, e1) := R41 c1 d1 e1 a1 b1 w8 15 in
  let '(c2, e2) := R42 c2 d2 e2 a2 b2 w11 14 in
  let '(b1, d1) := R41 b1 c1 d1 e1 a1 w12 9 in
  let '(b2, d2) := R42 b2 c2 d2 e2 a2 w15 6 in
  let '(a1, c1) := R41 a1 b1 c1 d1 e1 w4 8 in
  let '(a2, c2) := R42 a2 b2 c2 d2 e2 w0 14 in
  let '(e1, b1) := R41 e1 a1 b1 c1 d1 w13 9 in
  let '(e2, b2) := R42 e2 a2 b2 c2 d2 w5 6 in
  let '(d1, a1) := R41 d1 e1 a1 b1 c1 w3 14 in
  let '(d2, a2) := R42 d2 e2 a2 b2 c2 w12 9 in
  let '(c1, e1) := R41 c1 d1 e1 a1 b1 w7 5 in
  let '(c2, e2) := R42 c2 d2 e2 a2 b2 w2 12 in
  let '(b1, d1) := R41 b1 c1 d1 e1 a1 w15 6 in
  let '(b2, d2) := R42 b2 c2 d2 e2 a2 w13 9 in
  let '(a1, c1) := R41 a1 b1 c1 d1 e1 w14 8 in
  let '(a2, c2) := R42 a2 b2 c2 d2 e2 w9 12 in
  let '(e1, b1) := R41 e1 a1 b1 c1 d1 w5 6 in
  let '(e2, b2) := R42 e2 a2 b2 c2 d2 w7 5 in
  let '(d1, a1) := R41 d1 e1 a1 b1 c1 w6 5 in
  let '(d2, a2) := R42 d2 e2 a2 b2 c2 w10 15 in
  let '(c1, e1) := R41 c1 d1 e1 a1 b1 w2 12 in
  let '(c2, e2) := R42 c2 d2 e2 a2 b2 w14 8 in
  let '(b1, d1) := R51 b1 c1 d1 e1 a1 w4 9 in
  let '(b2, d2) := R52 b2 c2 d2 e2 a2 w12 8 in
  let '(a1, c1) := R51 a1 b1 c1 d1 e1 w0 15 in
  let '(a2, c2) := R52 a2 b2 c2 d2 e2 w15 5 in
  let '(e1, b1) := R51 e1 a1 b1 c1 d1 w5 5 in
  let '(e2, b2) := R52 e2 a2 b2 c2 d2 w10 12 in
  let '(d1, a1) := R51 d1 e1 a1 b1 c1 w9 11 in
  let '(d2, a2) := R52 d2 e2 a2 b2 c2 w4 9 in
  let '(c1, e1) := R51 c1 d1 e1 a1 b1 w7 6 in
  let '(c2, e2) := R52 c2 d2 e2 a2 b2 w1 12 in
  let '(b1, d1) := R51 b1 c1 d1 e1 a1 w12 8 in
  let '(b2, d2) := R52 b2 c2 d2 e2 a2 w5 5 in
  let '(a1, c1) := R51 a1 b1 c1 d1 e1 w2 13 in
  let '(a2, c2) := R52 a2 b2 c2 d2 e2 w8 14 in
  let '(e1, b1) := R51 e1 a1 b1 c1 d1 w10 12 in
  let '(e2, b2) := R52 e2 a2 b2 c2 d2 w7 6 in
  let '(d1, a1) := R51 d1 e1 a1 b1 c1 w14 5 in
  let '(d2, a2) := R52 d2 e2 a2 b2 c2 w6 8 in
  let '(c1, e1) := R51 c1 d1 e1 a1 b1 w1 12 in
  let '(c2, e2) := R52 c2 d2 e2 a2 b2 w2 13 in
  let '(b1, d1) := R51 b1 c1 d1 e1 a1 w3 13 in
  let '(b2, d2) := R52 b2 c2 d2 e2 a2 w13 6 in
  let '(a1, c1) := R51 a1 b1 c1 d1 e1 w8 14 in
  let '(a2, c2) := R52 a2 b2 c2 d2 e2 w14 5 in
  let '(e1, b1) := R51 e1 a1 b1 c1 d1 w11 11 in
  let '(e2, b2) := R52 e2 a2 b2 c2 d2 w0 15 in
  let '(d1, a1) := R51 d1 e1 a1 b1 c1 w6 8 in
  let '(d2, a2) := R52 d2 e2 a2 b2 c2 w3 13 in
  let '(c1, e1) := R51 c1 d1 e1 a1 b1 w15 5 in
  let '(c2, e2) := R52 c2 d2 e2 a2 b2 w9 11 in
  let '(b1, d1) := R51 b1 c1 d1 e1 a1 w13 6 in
  let '(b2, d2) := R52 b2 c2 d2 e2 a2 w11 11 in
  let t := s.[0] in
  [u32 (s.[1] + c1 + d2); u32 (s.[2] + d1 + e2); u32 (s.[3] + e1 + a2); u32 (s.[4] + a1 + b2);
   u32 (t + b1 + c2)].
End ripemd160.

Module CRIPEMD160.
Definition OUTPUT_SIZE : nat := 20.
Definition make (buf : bytes) : hasher := Hasher ripemd160.Initialize buf 0.
Definition Write : hasher → bytes → hasher := hasher_Write 64 ripemd160.Transform.
Definition Finalize (st : hasher) : bytes :=
  concat (map WriteLE32 (hs (hasher_Finalize 64 ripemd160.Transform 119 WriteLE64 st))).
Definition Reset (st : hasher) : hasher := Hasher ripemd160.Initialize (hbuf st) 0.
End CRIPEMD160.

(** ** Reference *)

Module rmd.
(** The functions, constants, word selections and rotations of step [j] of the two
    lines. *)
Definition f (j : nat) (x y z : Z) : Z :=
  match (j / 16)%nat with
  | 0%nat => x .^ y .^ z
  | 1%nat => (x .& y) .| (ripemd160.not32 x .& z)
  | 2%nat => (x .| ripemd160.not32 y) .^ z
  | 3%nat => (x .& z) .| (y .& ripemd160.not32 z)
  | _ => x .^ (y .| ripemd160.not32 z)
  end.
Definition K (j : nat) : Z :=
  nth (j / 16) [0x00000000; 0x5a827999; 0x6ed9eba1; 0x8f1bbcdc; 0xa953fd4e] 0.
Definition K' (j : nat) : Z :=
  nth (j / 16) [0x50a28be6; 0x5c4dd124; 0x6d703ef3; 0x7a6d76e9; 0x00000000] 0.
Definition r : list nat :=
  [0; 1; 2; 3; 4; 5; 6; 7; 8; 9; 10; 11; 12; 13; 14; 15;
   7; 4; 13; 1; 10; 6; 15; 3; 12; 0; 9; 5; 2; 14; 11; 8;
   3; 10; 14; 4; 9; 15; 8; 1; 2; 7; 0; 6; 13; 11; 5; 12;
   1; 9; 11; 10; 0; 8; 12; 4; 13; 3; 7; 15; 14; 5; 6; 2;
   4; 0; 5; 9; 7; 12; 2; 10; 14; 1; 3; 8; 11; 6; 15; 13]%nat.
Definition r' : list nat :=
  [5; 14; 7; 0; 9; 2; 11; 4; 13; 6; 15; 8; 1; 10; 3; 12;
   6; 11; 3; 7; 0; 13; 5; 10; 14; 15; 8; 12; 4; 9; 1; 2;
   15; 5; 1; 3; 7; 14; 6; 9; 11; 8; 12; 2; 10; 0; 4; 13;
   8; 6; 4; 1; 3; 11; 15; 0; 5; 12; 2; 13; 9; 7; 10; 14;
   12; 15; 10; 4; 1; 5; 8; 7; 6; 2; 13; 14; 0; 3; 9; 11]%nat.
Definition s : list Z :=
  [11; 14; 15; 12; 5; 8; 7; 9; 11; 13; 14; 15; 6; 7; 9; 8;
   7; 6; 8; 13; 11; 9; 7; 15; 7; 12; 15; 9; 11; 7; 13; 12;
   11; 13; 6; 7; 14; 9; 13; 15; 14; 8; 13; 6; 5; 12; 7; 5;
   11; 12; 14; 15; 14; 15; 9; 8; 9; 14; 5; 6; 8; 6; 5; 12;
   9; 15; 5; 11; 6; 8; 13; 12; 5; 12; 13; 14; 11; 8; 5; 6].
Definition s' : list Z :=
  [8; 9; 9; 11; 13; 15; 15; 5; 7; 7; 8; 11; 14; 14; 12; 6;
   9; 13; 15; 7; 12; 8; 9; 11; 7; 7; 12; 7; 6; 15; 13; 11;
   9; 7; 15; 11; 8; 6; 6; 14; 12; 13; 5; 14; 13; 13; 7; 5;
   15; 5; 8; 11; 14; 14; 6; 14; 6; 9; 12; 9; 12; 5; 15; 8;
   8; 5; 12; 9; 12; 5; 14; 6; 8; 13; 6; 5; 15; 13; 11; 11].

Definition step (fn : Z → Z → Z → Z) (x k rot : Z) (st : list Z) : list Z :=
  match st with
  | [a; b; c; d; e] =>
      [e; u32 (ripemd160.rol (u32 (a + fn b c d + x + k)) rot + e); b; ripemd160.rol c 10; d]
  | _ => st
  end.

Definition line (w : list Z) (st : list Z) (j : nat) : list Z :=
  step (f j) w.[nth j r 0%nat] (K j) (nth j s 0) st.
Definition line' (w : list Z) (st : list Z) (j : nat) : list Z :=
  step (f (79 - j)) w.[nth j r' 0%nat] (K' j) (nth j s' 0) st.

Definition words (chunk : bytes) : list Z := map (λ i, ReadLE32 (drop (4 * i) chunk)) (seq 0 16).

Definition combine (h st st' : list Z) : list Z :=
  match h, st, st' with
  | [h0; h1; h2; h3; h4], [a; b; c; d; e], [a'; b'; c'; d'; e'] =>
      [u32 (h1 + c + d'); u32 (h2 + d + e'); u32 (h3 + e + a'); u32 (h4 + a + b'); u32 (h0 + b + c')]
  | _, _, _ => h
  end.

Definition compress (h : list Z) (chunk : bytes) : list Z :=
  combine h (foldl (line (words chunk)) h (seq 0 80)) (foldl (line' (words chunk)) h (seq 0 80)).

Definition RIPEMD160 (m : bytes) : bytes :=
  concat (map WriteLE32 (md_compress 64 compress ripemd160.Initialize (md_pad 64 119 WriteLE64 m))).
End rmd.

(** ** The unrolled code computes the reference *)

(** One step of a line: the [Round] instance, the message word and the rotation. *)
Definition cmd : Type := (Z → Z → Z → Z → Z → Z → Z → Z * Z) * Z * Z.

Fixpoint run_rmd (fin : Z → Z → Z → Z → Z → Z → Z → Z → Z → Z → list Z) (cmds : list (cmd * cmd))
    (a1 b1 c1 d1 e1 a2 b2 c2 d2 e2 : Z) : list Z :=
  match cmds with
  | [] => fin a1 b1 c1 d1 e1 a2 b2 c2 d2 e2
  | (R1, x1, r1, (R2, x2, r2)) :: cmds =>
      let '(a1', c1') := R1 a1 b1 c1 d1 e1 x1 r1 in
      let '(a2', c2') := R2 a2 b2 c2 d2 e2 x2 r2 in
      run_rmd fin cmds e1 a1' b1 c1' d1 e2 a2' b2 c2' d2
  end.

Definition rmd_cmds (w0 w1 w2 w3 w4 w5 w6 w7 w8 w9 w10 w11 w12 w13 w14 w15 : Z) : list (cmd * cmd) :=
  [(ripemd160.R11, w0, 11, (ripemd160.R12, w5, 8));
   (ripemd160.R11, w1, 14, (ripemd160.R12, w14, 9));
   (ripemd160.R11, w2, 15, (ripemd160.R12, w7, 9));
   (ripemd160.R11, w3, 12, (ripemd160.R12, w0, 11));
   (ripemd160.R11, w4, 5, (ripemd160.R12, w9, 13));
   (ripemd160.R11, w5, 8, (ripemd160.R12, w2, 15));
   (ripemd160.R11, w6, 7, (ripemd160.R12, w11, 15));
   (ripemd160.R11, w7, 9, (ripemd160.R12, w4, 5));
   (ripemd160.R11, w8, 11, (ripemd160.R12, w13, 7));
   (ripemd160.R11, w9, 13, (ripemd160.R12, w6, 7));
   (ripemd160.R11, w10, 14, (ripemd160.R12, w15, 8));
   (ripemd160.R11, w11, 15, (ripemd160.R12, w8, 11));
   (ripemd160.R11, w12, 6, (ripemd160.R12, w1, 14));
   (ripemd160.R11, w13, 7, (ripemd160.R12, w10, 14));
   (ripemd160.R11, w14, 9, (ripemd160.R12, w3, 12));
   (ripemd160.R11, w15, 8, (ripemd160.R12, w12, 6));
   (ripemd160.R21, w7, 7, (ripemd160.R22, w6, 9));
   (ripemd160.R21, w4, 6, (ripemd160.R22, w11, 13));
   (ripemd160.R21, w13, 8, (ripemd160.R22, w3, 15));
   (ripemd160.R21, w1, 13, (ripemd160.R22, w7, 7));
   (ripemd160.R21, w10, 11, (ripemd160.R22, w0, 12));
   (ripemd160.R21, w6, 9, (ripemd160.R22, w13, 8));
   (ripemd160.R21, w15, 7, (ripemd160.R22, w5, 9));
   (ripemd160.R21, w3, 15, (ripemd160.R22, w10, 11));
   (ripemd160.R21, w12, 7, (ripemd160.R22, w14, 7));
   (ripemd160.R21, w0, 12, (ripemd160.R22, w15, 7));
   (ripemd160.R21, w9, 15, (ripemd160.R22, w8, 12));
   (ripemd160.R21, w5, 9, (ripemd160.R22, w12, 7));
   (ripemd160.R21, w2, 11, (ripemd160.R22, w4, 6));
   (ripemd160.R21, w14, 7, (ripemd160.R22, w9, 15));
   (ripemd160.R21, w11, 13, (ripemd160.R22, w1, 13));
   (ripemd160.R21, w8, 12, (ripemd160.R22, w2, 11));
   (ripemd160.R31, w3, 11, (ripemd160.R32, w15, 9));
   (ripemd160.R31, w10, 13, (ripemd160.R32, w5, 7));
   (ripemd160.R31, w14, 6, (ripemd160.R32, w1, 15));
   (ripemd160.R31, w4, 7, (ripemd160.R32, w3, 11));
   (ripemd160.R31, w9, 14, (ripemd160.R32, w7, 8));
   (ripemd160.R31, w15, 9, (ripemd160.R32, w14, 6));
   (ripemd160.R31, w8, 13, (ripemd160.R32, w6, 6));
   (ripemd160.R31, w1, 15, (ripemd160.R32, w9, 14));
   (ripemd160.R31, w2, 14, (ripemd160.R32, w11, 12));
   (ripemd160.R31, w7, 8, (ripemd160.R32, w8, 13));
   (ripemd160.R31, w0, 13, (ripemd160.R32, w12, 5));
   (ripemd160.R31, w6, 6, (ripemd160.R32, w2, 14));
   (ripemd160.R31, w13, 5, (ripemd160.R32, w10, 13));
   (ripemd160.R31, w11, 12, (ripemd160.R32, w0, 13));
   (ripemd160.R31, w5, 7, (ripemd160.R32, w4, 7));
   (ripemd160.R31, w12, 5, (ripemd160.R32, w13, 5));
   (ripemd160.R41, w1, 11, (ripemd160.R42, w8, 15));
   (ripemd160.R41, w9, 12, (ripemd160.R42, w6, 5));
   (ripemd160.R41, w11, 14, (ripemd160.R42, w4, 8));
   (ripemd160.R41, w10, 15, (ripemd160.R42, w1, 11));
   (ripemd160.R41, w0, 14, (ripemd160.R42, w3, 14));
   (ripemd160.R41, w8, 15, (ripemd160.R42, w11, 14));
   (ripemd160.R41, w12, 9, (ripemd160.R42, w15, 6));
   (ripemd160.R41, w4, 8, (ripemd160.R42, w0, 14));
   (ripemd160.R41, w13, 9, (ripemd160.R42, w5, 6));
   (ripemd160.R41, w3, 14, (ripemd160.R42, w12, 9));
   (ripemd160.R41, w7, 5, (ripemd160.R42, w2, 12));
   (ripemd160.R41, w15, 6, (ripemd160.R42, w13, 9));
   (ripemd160.R41, w14, 8, (ripemd160.R42, w9, 12));
   (ripemd160.R41, w5, 6, (ripemd160.R42, w7, 5));
   (ripemd160.R41, w6, 5, (ripemd160.R42, w10, 15));
   (ripemd160.R41, w2, 12, (ripemd160.R42, w14, 8));
   (ripemd160.R51, w4, 9, (ripemd160.R52, w12, 8));
   (ripemd160.R51, w0, 15, (ripemd160.R52, w15, 5));
   (ripemd160.R51, w5, 5, (ripemd160.R52, w10, 12));
   (ripemd160.R51, w9, 11, (ripemd160.R52, w4, 9));
   (ripemd160.R51, w7, 6, (ripemd160.R52, w1, 12));
   (ripemd160.R51, w12, 8, (ripemd160.R52, w5, 5));
   (ripemd160.R51, w2, 13, (ripemd160.R52, w8, 14));
   (ripemd160.R51, w10, 12, (ripemd160.R52, w7, 6));
   (ripemd160.R51, w14, 5, (ripemd160.R52, w6, 8));
   (ripemd160.R51, w1, 12, (ripemd160.R52, w2, 13));
   (ripemd160.R51, w3, 13, (ripemd160.R52, w13, 6));
   (ripemd160.R51, w8, 14, (ripemd160.R52, w14, 5));
   (ripemd160.R51, w11, 11, (ripemd160.R52, w0, 15));
   (ripemd160.R51, w6, 8, (ripemd160.R52, w3, 13));
   (ripemd160.R51, w15, 5, (ripemd160.R52, w9, 11));
   (ripemd160.R51, w13, 6, (ripemd160.R52, w11, 11))].

Section UnrolledRmd.
#[local] Opaque ripemd160.R11 ripemd160.R21 ripemd160.R31 ripemd160.R41 ripemd160.R51
  ripemd160.R12 ripemd160.R22 ripemd160.R32 ripemd160.R42 ripemd160.R52 uwrap ReadLE32 Z.add.
#[local] Strategy expand [run_rmd rmd_cmds].

Lemma TransformRmd_unrolled s0 s1 s2 s3 s4 chunk :
  ripemd160.Transform [s0; s1; s2; s3; s4] chunk =
  run_rmd (λ a1 b1 c1 d1 e1 a2 b2 c2 d2 e2,
      [u32 (s1 + c1 + d2); u32 (s2 + d1 + e2); u32 (s3 + e1 + a2); u32 (s4 + a1 + b2);
       u32 (s0 + b1 + c2)])
    (rmd_cmds
      (ReadLE32 (drop 0 chunk)) (ReadLE32 (drop 4 chunk)) (ReadLE32 (drop 8 chunk)) (ReadLE32 (drop 12 chunk))
      (ReadLE32 (drop 16 chunk)) (ReadLE32 (drop 20 chunk)) (ReadLE32 (drop 24 chunk)) (ReadLE32 (drop 28 chunk))
      (ReadLE32 (drop 32 chunk)) (ReadLE32 (drop 36 chunk)) (ReadLE32 (drop 40 chunk)) (ReadLE32 (drop 44 chunk))
      (ReadLE32 (drop 48 chunk)) (ReadLE32 (drop 52 chunk)) (ReadLE32 (drop 56 chunk)) (ReadLE32 (drop 60 chunk)))
    s0 s1 s2 s3 s4 s0 s1 s2 s3 s4.
Proof. exact_no_check (eq_refl (ripemd160.Transform [s0; s1; s2; s3; s4] chunk)). Qed.
End UnrolledRmd.

Definition step_cmd (st : list Z) (c : cmd) : list Z :=
  match st with
  | [a; b; c'; d; e] => let '(a', c'') := c.1.1 a b c' d e c.1.2 c.2 in [e; a'; b; c''; d]
  | _ => st
  end.

(** The two lines do not interact until the end. *)
Lemma run_rmd_foldl fin F cmds a1 b1 c1 d1 e1 a2 b2 c2 d2 e2 :
  (∀ a1 b1 c1 d1 e1 a2 b2 c2 d2 e2,
     fin a1 b1 c1 d1 e1 a2 b2 c2 d2 e2 = F [a1; b1; c1; d1; e1] [a2; b2; c2; d2; e2]) →
  run_rmd fin cmds a1 b1 c1 d1 e1 a2 b2 c2 d2 e2 =
  F (foldl step_cmd [a1; b1; c1; d1; e1] (map fst cmds))
    (foldl step_cmd [a2; b2; c2; d2; e2] (map snd cmds)).
Proof.
  intros Hfin. revert a1 b1 c1 d1 e1 a2 b2 c2 d2 e2.
  induction cmds as [|[[[R1 x1] r1] [[R2 x2] r2]] cmds IH]; intros; [apply Hfin|].
  cbn [run_rmd map foldl step_cmd fst snd].
  destruct (R1 _ _ _ _ _ _ _), (R2 _ _ _ _ _ _ _). apply IH.
Qed.

(** A command of the code is the step of the reference's line. *)
Definition cmd_line (step : list Z → nat → list Z) (c : cmd) (j : nat) : Prop :=
  ∀ st, step_cmd st c = step st j.

Lemma foldl_cmds step st cs js :
  Forall2 (cmd_line step) cs js → foldl step_cmd st cs = foldl step st js.
Proof.
  intros H. revert st. induction H as [|c j cs js Hc H IH]; intros st; [done|].
  cbn [foldl]. by rewrite Hc, IH.
Qed.

Ltac five_cases st :=
  destruct st as [|? [|? [|? [|? [|? [|? ?]]]]]]; reflexivity.

Lemma rmd_lines chunk :
  let cmds := rmd_cmds
      (ReadLE32 (drop 0 chunk)) (ReadLE32 (drop 4 chunk)) (ReadLE32 (drop 8 chunk)) (ReadLE32 (drop 12 chunk))
      (ReadLE32 (drop 16 chunk)) (ReadLE32 (drop 20 chunk)) (ReadLE32 (drop 24 chunk)) (ReadLE32 (drop 28 chunk))
      (ReadLE32 (drop 32 chunk)) (ReadLE32 (drop 36 chunk)) (ReadLE32 (drop 40 chunk)) (ReadLE32 (drop 44 chunk))
      (ReadLE32 (drop 48 chunk)) (ReadLE32 (drop 52 chunk)) (ReadLE32 (drop 56 chunk)) (ReadLE32 (drop 60 chunk)) in
  Forall2 (cmd_line (rmd.line (rmd.words chunk))) (map fst cmds) (seq 0 80) ∧
  Forall2 (cmd_line (rmd.line' (rmd.words chunk))) (map snd cmds) (seq 0 80).
Proof.
  intros cmds. unfold cmds, rmd_cmds. cbn [map fst snd seq]. split.
  all: repeat (constructor; [intros st; five_cases st|]); constructor.
Qed.

Lemma TransformRmd_compress s chunk :
  length s = 5%nat → ripemd160.Transform s chunk = rmd.compress s chunk.
Proof.
  intros (s0 & s1 & s2 & s3 & s4 & ->)%list_5.
  rewrite TransformRmd_unrolled. unfold rmd.compress. destruct (rmd_lines chunk) as [H1 H2].
  rewrite <-(foldl_cmds _ _ _ _ H1), <-(foldl_cmds _ _ _ _ H2).
  by rewrite (run_rmd_foldl _ (rmd.combine [s0; s1; s2; s3; s4])).
Qed.

Lemma line_length w st js :
  length st = 5%nat → length (foldl (rmd.line w) st js) = 5%nat ∧ length (foldl (rmd.line' w) st js) = 5%nat.
Proof.
  revert st. assert (∀ fn x k rot st, length st = 5%nat → length (rmd.step fn x k rot st) = 5%nat) as Hs.
  { intros fn x k rot st (s0 & s1 & s2 & s3 & s4 & ->)%list_5. done. }
  intros st Hst. split; revert st Hst; induction js as [|j js IH]; intros st Hst; try done;
    cbn [foldl]; by apply IH, Hs.
Qed.

Lemma compressRmd_length s chunk : length s = 5%nat → length (rmd.compress s chunk) = 5%nat.
Proof.
  intros Hs. unfold rmd.compress. destruct (line_length (rmd.words chunk) s (seq 0 80) Hs) as [H1 H2].
  apply list_5 in H1 as (a & b & c & d & e & ->). apply list_5 in H2 as (a' & b' & c' & d' & e' & ->).
  by apply list_5 in Hs as (s0 & s1 & s2 & s3 & s4 & ->).
Qed.

Lemma Transform_blocksRmd_compress s chunk n :
  length s = 5%nat →
  Transform_blocks 64 ripemd160.Transform s chunk n = Transform_blocks 64 rmd.compress s chunk n.
Proof.
  revert s chunk. induction n as [|n IH]; intros s chunk Hs; [done|]. cbn [Transform_blocks].
  rewrite TransformRmd_compress by done. apply IH. by apply compressRmd_length.
Qed.

(** ** The class *)

Lemma CRIPEMD160_writes buf pieces :
  length buf = 64%nat →
  represents 64 ripemd160.Transform ripemd160.Initialize
    (foldl CRIPEMD160.Write (CRIPEMD160.make buf) pieces) (concat pieces).
Proof.
  intros Hb. apply (hasher_Writes_represents 64 ripemd160.Transform ltac:(lia) divide_64 _ _ [] pieces).
  by apply represents_init.
Qed.

Lemma CRIPEMD160_Finalize_represents st m :
  represents 64 ripemd160.Transform ripemd160.Initialize st m →
  CRIPEMD160.Finalize st = rmd.RIPEMD160 m.
Proof.
  intros Hst. unfold CRIPEMD160.Finalize, rmd.RIPEMD160. do 2 f_equal.
  erewrite rep_s; [|eapply (hasher_Finalize_represents 64 ripemd160.Transform) with (sizelen := 8%nat);
    [lia|apply divide_64|lia|lia|apply Hst]].
  unfold md_compress. by apply Transform_blocksRmd_compress.
Qed.
