(* ===== verification/Hash.v ===== *)
(** * Hash functions over the hashers

    Models [src/Sources/libbitcoinkernel/src/hash.h] and [hash.cpp] ([CHash256],
    [CHash160], [Hash], [Hash160], [HashWriter], [TaggedHash], [SHA256Uint256],
    [RIPEMD160], [BIP32Hash]), [crypto/hmac_sha256.cpp], [crypto/hmac_sha512.cpp] and
    [crypto/hkdf_sha256_32.cpp].  The buffer of a fresh hasher is not initialized by
    the source; it is taken to be zero here, which the theorems of the hashers show to
    be irrelevant. *)

From S2P Require Import Prelude Endian Serialize Hasher Sha256 Sha512 Sha1 Ripemd160.
From Stdlib Require Import ZArith Lia.
From stdpp Require Import base option list numbers.

Open Scope Z_scope.
Open Scope kernel_scope.

Definition CSHA256_new : hasher := CSHA256.make (replicate 64 0).
Definition CSHA512_new : hasher := CSHA512.make (replicate 128 0).
Definition CRIPEMD160_new : hasher := CRIPEMD160.make (replicate 64 0).

(** ** [CHash256], [CHash160] *)

Module CHash256.
Definition Write : hasher → bytes → hasher := CSHA256.Write.
Definition Finalize (sha : hasher) : bytes :=
  let buf := CSHA256.Finalize sha in
  CSHA256.Finalize (CSHA256.Write (CSHA256.Reset (CSHA256.finalized sha)) buf).
Definition Reset : hasher → hasher := CSHA256.Reset.
End CHash256.

Module CHash160.
Definition Write : hasher → bytes → hasher := CSHA256.Write.
Definition Finalize (sha : hasher) : bytes :=
  let buf := CSHA256.Finalize sha in
  CRIPEMD160.Finalize (CRIPEMD160.Write CRIPEMD160_new buf).
Definition Reset : hasher → hasher := CSHA256.Reset.
End CHash160.

Definition Hash (in1 : bytes) : uint256 := CHash256.Finalize (CHash256.Write CSHA256_new in1).
Definition Hash2 (in1 in2 : bytes) : uint256 :=
  CHash256.Finalize (CHash256.Write (CHash256.Write CSHA256_new in1) in2).
Definition Hash160 (in1 : bytes) : bytes := CHash160.Finalize (CHash160.Write CSHA256_new in1).
Definition RIPEMD160 (data : bytes) : bytes := CRIPEMD160.Finalize (CRIPEMD160.Write CRIPEMD160_new data).
Definition SHA256Uint256 (input : uint256) : uint256 := CSHA256.Finalize (CSHA256.Write CSHA256_new input).

(** ** [HashWriter] *)

Module HashWriter.
Definition new : hasher := CSHA256_new.
Definition write : hasher → bytes → hasher := CSHA256.Write.
Definition GetHash (ctx : hasher) : uint256 :=
  let result := CSHA256.Finalize ctx in
  CSHA256.Finalize (CSHA256.Write (CSHA256.Reset (CSHA256.finalized ctx)) result).
Definition GetSHA256 (ctx : hasher) : uint256 := CSHA256.Finalize ctx.
Definition GetCheapHash (ctx : hasher) : Z := ReadLE64 (GetHash ctx).
(** [operator<<]. *)
Definition put {A} (F : Formatter A) (ctx : hasher) (obj : A) : hasher := write ctx (Ser F obj).
End HashWriter.

Definition TaggedHash (tag : bytes) : hasher :=
  let taghash := CSHA256.Finalize (CSHA256.Write CSHA256_new tag) in
  HashWriter.put (Blob 32) (HashWriter.put (Blob 32) HashWriter.new taghash) taghash.

(** ** HMAC

    The two classes are the same code over [CSHA256] and [CSHA512]. *)

Section HMAC.
Context (BLOCK OUTPUT : nat) (new : hasher) (hWrite : hasher → bytes → hasher)
  (hFinalize : hasher → bytes).

(** The members [outer] and [inner]. *)
Record hmac := { outer : hasher; inner : hasher }.

Definition hmac_make (key : bytes) : hmac :=
  let rkey :=
    if (length key <=? BLOCK)%nat then key ++ replicate (BLOCK - length key) 0
    else hFinalize (hWrite new key) ++ replicate (BLOCK - OUTPUT) 0 in
  let rkey := map (λ b, b .^ 0x5c) rkey in
  let outer := hWrite new rkey in
  let rkey := map (λ b, b .^ (0x5c .^ 0x36)) rkey in
  let inner := hWrite new rkey in
  {| outer := outer; inner := inner |}.
Definition hmac_Write (h : hmac) (data : bytes) : hmac :=
  {| outer := outer h; inner := hWrite (inner h) data |}.
Definition hmac_Finalize (h : hmac) : bytes :=
  let temp := hFinalize (inner h) in
  hFinalize (hWrite (outer h) temp).

(** RFC 2104. *)
Context (H : bytes → bytes).
Definition hmac_key (key : bytes) : bytes :=
  let k := if (length key <=? BLOCK)%nat then key else H key in
  k ++ replicate (BLOCK - length k) 0.
Definition HMAC (key m : bytes) : bytes :=
  H (map (λ b, b .^ 0x5c) (hmac_key key) ++ H (map (λ b, b .^ 0x36) (hmac_key key) ++ m)).

(** What HMAC relies on: the hasher computes [H], and [H] has the output length. *)
Context (R : hasher → bytes → Prop)
  (R_new : R new []) (R_write : ∀ st m d, R st m → R (hWrite st d) (m ++ d))
  (R_final : ∀ st m, R st m → hFinalize st = H m) (H_length : ∀ m, length (H m) = OUTPUT).

Lemma hmac_rkey key :
  (if (length key <=? BLOCK)%nat then key ++ replicate (BLOCK - length key) 0
   else hFinalize (hWrite new key) ++ replicate (BLOCK - OUTPUT) 0) = hmac_key key.
Proof.
  unfold hmac_key. destruct (length key <=? BLOCK)%nat; [done|].
  by rewrite (R_final _ _ (R_write _ _ key R_new)), H_length.
Qed.

Lemma xor_pads l : map (λ b, b .^ (0x5c .^ 0x36)) (map (λ b, b .^ 0x5c) l) = map (λ b, b .^ 0x36) l.
Proof.
  rewrite map_map. apply map_ext. intros b. rewrite Z.lxor_assoc. f_equal.
Qed.

Lemma R_writes st m pieces : R st m → R (foldl hWrite st pieces) (m ++ concat pieces).
Proof.
  revert st m. induction pieces as [|d pieces IH]; intros st m Hst; cbn; [by rewrite app_nil_r|].
  rewrite app_assoc. by apply IH, R_write.
Qed.

Lemma hmac_inner_writes h pieces :
  foldl hmac_Write h pieces = {| outer := outer h; inner := foldl hWrite (inner h) pieces |}.
Proof. revert h. induction pieces as [|d pieces IH]; intros [o i]; [done|]. cbn [foldl]. by rewrite IH. Qed.

Lemma hmac_correct key pieces :
  hmac_Finalize (foldl hmac_Write (hmac_make key) pieces) = HMAC key (concat pieces).
Proof.
  unfold hmac_Finalize. rewrite hmac_inner_writes. cbn [outer inner]. unfold hmac_make. cbn [outer inner].
  rewrite hmac_rkey, xor_pads. unfold HMAC.
  rewrite (R_final (foldl _ _ _) _ (R_writes _ _ pieces (R_write _ [] _ R_new))).
  apply R_final, R_write, (R_write _ [] _ R_new).
Qed.
End HMAC.

Module CHMAC_SHA256.
Definition make : bytes → hmac := hmac_make 64 32 CSHA256_new CSHA256.Write CSHA256.Finalize.
Definition Write : hmac → bytes → hmac := hmac_Write CSHA256.Write.
Definition Finalize : hmac → bytes := hmac_Finalize CSHA256.Write CSHA256.Finalize.
End CHMAC_SHA256.

Module CHMAC_SHA512.
Definition make : bytes → hmac := hmac_make 128 64 CSHA512_new CSHA512.Write CSHA512.Finalize.
Definition Write : hmac → bytes → hmac := hmac_Write CSHA512.Write.
Definition Finalize : hmac → bytes := hmac_Finalize CSHA512.Write CSHA512.Finalize.
End CHMAC_SHA512.

Definition BIP32Hash (chainCode : uint256) (nChild header : Z) (data : bytes) : bytes :=
  let num := WriteBE32 nChild in
  CHMAC_SHA512.Finalize (CHMAC_SHA512.Write (CHMAC_SHA512.Write (CHMAC_SHA512.Write
    (CHMAC_SHA512.make chainCode) [header]) (take 32 data)) num).

(** [CHKDF_HMAC_SHA256_L32]: the pseudorandom key and its expansion to 32 bytes; [None] is
    the failing assertion on the length of [info]. *)
Module CHKDF_HMAC_SHA256_L32.
Definition make (ikm salt : bytes) : bytes :=
  CHMAC_SHA256.Finalize (CHMAC_SHA256.Write (CHMAC_SHA256.make salt) ikm).
Definition Expand32 (m_prk info : bytes) : option bytes :=
  if (length info <=? 128)%nat then
    Some (CHMAC_SHA256.Finalize (CHMAC_SHA256.Write (CHMAC_SHA256.Write
      (CHMAC_SHA256.make (take 32 m_prk)) info) [1]))
  else None.
End CHKDF_HMAC_SHA256_L32.

(** ** Correctness *)

#[local] Opaque CSHA256.Write CSHA256.Finalize CSHA256.finalized CSHA256.Reset CSHA512.Write
  CSHA512.Finalize CRIPEMD160.Write CRIPEMD160.Finalize fips.SHA256 fips512.SHA512 rmd.RIPEMD160.

#[local] Abbreviation sha_represents := (represents 64 sha256.Transform sha256.Initialize).

Lemma CSHA256_new_represents : sha_represents CSHA256_new [].
Proof. by apply represents_init. Qed.

(** A hasher of the double SHA-256 that was fed [m]. *)
Lemma CHash256_Finalize_represents st m :
  sha_represents st m → CHash256.Finalize st = fips.SHA256 (fips.SHA256 m).
Proof.
  intros Hst. unfold CHash256.Finalize. apply CSHA256_Finalize_represents.
  rewrite (CSHA256_Finalize_represents st m) by done.
  apply (CSHA256_Write_represents _ []). eapply CSHA256_Reset_represents.
  by apply CSHA256_finalized_represents.
Qed.

Lemma HashWriter_GetHash_represents st m :
  sha_represents st m → HashWriter.GetHash st = fips.SHA256 (fips.SHA256 m).
Proof. exact (CHash256_Finalize_represents st m). Qed.

Lemma Hash_double m : Hash m = fips.SHA256 (fips.SHA256 m).
Proof.
  apply CHash256_Finalize_represents, (CSHA256_Write_represents _ []), CSHA256_new_represents.
Qed.

Lemma Hash2_double m1 m2 : Hash2 m1 m2 = fips.SHA256 (fips.SHA256 (m1 ++ m2)).
Proof.
  apply CHash256_Finalize_represents, CSHA256_Write_represents, (CSHA256_Write_represents _ []),
    CSHA256_new_represents.
Qed.

Lemma Hash2_app m1 m2 : Hash2 m1 m2 = Hash (m1 ++ m2).
Proof. by rewrite Hash2_double, Hash_double. Qed.

Lemma RIPEMD160_spec m : RIPEMD160 m = rmd.RIPEMD160 m.
Proof.
  apply CRIPEMD160_Finalize_represents.
  apply (hasher_Write_represents 64 ripemd160.Transform ltac:(lia) divide_64 _ _ []).
  by apply represents_init.
Qed.

Lemma Hash160_spec m : Hash160 m = rmd.RIPEMD160 (fips.SHA256 m).
Proof.
  unfold Hash160, CHash160.Finalize.
  rewrite (CSHA256_Finalize_represents _ m); [apply RIPEMD160_spec|].
  apply (CSHA256_Write_represents _ []), CSHA256_new_represents.
Qed.

Lemma HashWriter_put_Hash {A} (F : Formatter A) (x : A) :
  HashWriter.GetHash (HashWriter.put F HashWriter.new x) = Hash (Ser F x).
Proof.
  rewrite Hash_double. apply HashWriter_GetHash_represents.
  apply (CSHA256_Write_represents _ []), CSHA256_new_represents.
Qed.

Lemma length_Hash m : length (Hash m) = 32%nat.
Proof. rewrite Hash_double. apply length_SHA256. Qed.
Lemma Hash_ok m : uint256_ok (Hash m).
Proof. split; [apply length_Hash|]. rewrite Hash_double. auto with kernel. Qed.
#[export] Hint Resolve Hash_ok : kernel.

(** [SHA256D64] is [Hash] of the blocks. *)
Lemma D64s_Hash input n :
  D64s input n = concat (map (λ i, Hash (take 64 (drop (64 * i) input))) (seq 0 n)).
Proof.
  revert input. induction n as [|n IH]; intros input; [done|]. cbn [D64s seq map concat].
  rewrite Hash_double, Nat.mul_0_r, drop_0. f_equal. rewrite IH, <-seq_shift, map_map. f_equal.
  apply map_ext. intros i. rewrite drop_drop.
  by replace (64 + 64 * i)%nat with (64 * S i)%nat by lia.
Qed.

Lemma CHMAC_SHA256_correct key pieces :
  CHMAC_SHA256.Finalize (foldl CHMAC_SHA256.Write (CHMAC_SHA256.make key) pieces) =
  HMAC 64 fips.SHA256 key (concat pieces).
Proof.
  apply (hmac_correct 64 32 CSHA256_new CSHA256.Write CSHA256.Finalize fips.SHA256 sha_represents).
  - apply CSHA256_new_represents.
  - intros st m d. apply CSHA256_Write_represents.
  - intros st m. apply CSHA256_Finalize_represents.
  - intros m. apply length_SHA256.
Qed.

Lemma CHMAC_SHA512_correct key pieces :
  CHMAC_SHA512.Finalize (foldl CHMAC_SHA512.Write (CHMAC_SHA512.make key) pieces) =
  HMAC 128 fips512.SHA512 key (concat pieces).
Proof.
  apply (hmac_correct 128 64 CSHA512_new CSHA512.Write CSHA512.Finalize fips512.SHA512
    (represents 128 sha512.Transform sha512.Initialize)).
  - by apply represents_init.
  - intros st m d. apply (hasher_Write_represents 128 sha512.Transform ltac:(lia) divide_128).
  - intros st m. apply CSHA512_Finalize_represents.
  - intros m. apply length_SHA512.
Qed.

(** Reasoning about hashes goes through the lemmas above. *)
#[global] Opaque Hash Hash2 Hash160 RIPEMD160 SHA256Uint256 HashWriter.GetHash HashWriter.GetSHA256.

(** A tagged hash (BIP 340) of a message written in any pieces is SHA-256 of the
    digest of the tag, twice, followed by the message. *)
Lemma TaggedHash_writes (tag : bytes) (pieces : list bytes) :
  HashWriter.GetSHA256 (foldl HashWriter.write (TaggedHash tag) pieces) =
  fips.SHA256 (fips.SHA256 tag ++ fips.SHA256 tag ++ concat pieces).
Proof.
  apply CSHA256_Finalize_represents. rewrite app_assoc.
  apply (hasher_Writes_represents 64 sha256.Transform ltac:(lia) divide_64).
  unfold TaggedHash. rewrite (CSHA256_Finalize_represents _ tag)
    by apply (CSHA256_Write_represents _ []), CSHA256_new_represents.
  apply CSHA256_Write_represents, (CSHA256_Write_represents _ []), CSHA256_new_represents.
Qed.

(** ** Properties *)

(** The hash functions of the node: Hash is the double SHA-256, also of two objects
    one after the other, Hash160 is RIPEMD-160 of SHA-256, and a HashWriter into which
    objects are serialized piece by piece yields the double (or single) SHA-256 of the
    bytes written so far; a tagged hash (BIP 340) of a message written in any pieces is
    SHA-256 of the digest of the tag, twice, followed by the message. *)
Theorem hash_functions (m m' tag : bytes) (pieces : list bytes) :
  Hash m = fips.SHA256 (fips.SHA256 m) ∧
  Hash2 m m' = Hash (m ++ m') ∧
  Hash160 m = rmd.RIPEMD160 (fips.SHA256 m) ∧
  HashWriter.GetHash (foldl HashWriter.write HashWriter.new pieces) = Hash (concat pieces) ∧
  HashWriter.GetSHA256 (foldl HashWriter.write HashWriter.new pieces) = fips.SHA256 (concat pieces) ∧
  HashWriter.GetSHA256 (foldl HashWriter.write (TaggedHash tag) pieces) =
    fips.SHA256 (fips.SHA256 tag ++ fips.SHA256 tag ++ concat pieces).
Proof.
  pose proof (CSHA256_writes (replicate 64 0) pieces eq_refl) as Hw.
  split_and!; [apply Hash_double|apply Hash2_app|apply Hash160_spec| | |apply TaggedHash_writes].
  - rewrite Hash_double. by apply HashWriter_GetHash_represents.
  - exact (CSHA256_Finalize_represents _ _ Hw).
Qed.

(** The other hashers: the unrolled compression functions of SHA-512 and SHA-1 are the ones of
    FIPS 180-4, the interleaved one of RIPEMD-160 is the one given by the tables of the
    algorithm, and an object of each class fed a message in any pieces, whatever its buffer held
    before, outputs the digest of their concatenation. *)
Theorem other_hashers_incremental (buf buf' : bytes) (pieces : list bytes) (s s' : list Z) (chunk : bytes)
    (Hbuf : length buf = 64%nat) (Hbuf' : length buf' = 128%nat) (Hs : length s = 5%nat) (Hs' : length s' = 8%nat) :
  sha512.Transform s' chunk = fips512.compress s' chunk ∧
  sha1.Transform s chunk = fips1.compress s chunk ∧
  ripemd160.Transform s chunk = rmd.compress s chunk ∧
  CSHA512.Finalize (foldl CSHA512.Write (CSHA512.make buf') pieces) = fips512.SHA512 (concat pieces) ∧
  CSHA1.Finalize (foldl CSHA1.Write (CSHA1.make buf) pieces) = fips1.SHA1 (concat pieces) ∧
  CRIPEMD160.Finalize (foldl CRIPEMD160.Write (CRIPEMD160.make buf) pieces) = rmd.RIPEMD160 (concat pieces).
Proof.
  split_and!.
  - by apply Transform512_compress.
  - by apply Transform1_compress.
  - by apply TransformRmd_compress.
  - by apply CSHA512_Finalize_represents, CSHA512_writes.
  - by apply CSHA1_Finalize_represents, CSHA1_writes.
  - by apply CRIPEMD160_Finalize_represents, CRIPEMD160_writes.
Qed.

Lemma other_hashers_incremental_witness :
  CSHA512.Finalize (foldl CSHA512.Write (CSHA512.make (replicate 128 1)) [[97; 98]; [99]]) = fips512.SHA512 [97; 98; 99] ∧
  CSHA1.Finalize (foldl CSHA1.Write (CSHA1.make (replicate 64 1)) [[97; 98]; [99]]) = fips1.SHA1 [97; 98; 99] ∧
  CRIPEMD160.Finalize (foldl CRIPEMD160.Write (CRIPEMD160.make (replicate 64 1)) [[97; 98]; [99]]) =
    rmd.RIPEMD160 [97; 98; 99] ∧
  firstn 4 (fips512.SHA512 [97; 98; 99]) = [0xdd; 0xaf; 0x35; 0xa1] ∧
  firstn 4 (fips1.SHA1 [97; 98; 99]) = [0xa9; 0x99; 0x3e; 0x36] ∧
  firstn 4 (rmd.RIPEMD160 [97; 98; 99]) = [0x8e; 0xb2; 0x08; 0xf7].
Proof.
  destruct (other_hashers_incremental (replicate 64 1) (replicate 128 1) [[97; 98]; [99]] sha1.Initialize sha512.Initialize [])
    as (_ & _ & _ & H1 & H2 & H3); [reflexivity..|].
  split; [exact H1|]. split; [exact H2|]. split; [exact H3|]. vm_compute. repeat split; reflexivity.
Defined.

(** The HMAC classes compute HMAC (RFC 2104) of the concatenation of what was
    written, for keys shorter and longer than a block; the BIP 32 derivation hash and the
    HKDF expansion are the HMACs they are documented to be, and the expansion fails
    exactly on an info string of more than 128 bytes. *)
Theorem HMAC_classes (key m salt info prk : bytes) (pieces : list bytes) (chain data : bytes)
    (nChild header : Z) :
  length prk = 32%nat → length data = 32%nat →
  CHMAC_SHA256.Finalize (foldl CHMAC_SHA256.Write (CHMAC_SHA256.make key) pieces) =
    HMAC 64 fips.SHA256 key (concat pieces) ∧
  CHMAC_SHA512.Finalize (foldl CHMAC_SHA512.Write (CHMAC_SHA512.make key) pieces) =
    HMAC 128 fips512.SHA512 key (concat pieces) ∧
  BIP32Hash chain nChild header data =
    HMAC 128 fips512.SHA512 chain (header :: data ++ WriteBE32 nChild) ∧
  CHKDF_HMAC_SHA256_L32.make m salt = HMAC 64 fips.SHA256 salt m ∧
  CHKDF_HMAC_SHA256_L32.Expand32 prk info =
    (if (length info <=? 128)%nat then Some (HMAC 64 fips.SHA256 prk (info ++ [1])) else None).
Proof.
  intros Hprk Hdata. split_and!; [apply CHMAC_SHA256_correct|apply CHMAC_SHA512_correct| | |].
  - unfold BIP32Hash. rewrite take_ge by lia.
    etransitivity; [apply (CHMAC_SHA512_correct chain [[header]; data; WriteBE32 nChild])|].
    cbn [concat]. by rewrite app_nil_r.
  - etransitivity; [apply (CHMAC_SHA256_correct salt [m])|]. cbn. by rewrite app_nil_r.
  - unfold CHKDF_HMAC_SHA256_L32.Expand32. destruct (_ <=? _)%nat; [|done]. f_equal.
    rewrite take_ge by lia. etransitivity; [apply (CHMAC_SHA256_correct prk [info; [1]])|].
    cbn [concat]. by rewrite app_nil_r.
Qed.

Lemma HMAC_classes_witness :
  BIP32Hash [1; 2] 7 0 (replicate 32 9) =
    HMAC 128 fips512.SHA512 [1; 2] (0 :: replicate 32 9 ++ WriteBE32 7).
Proof.
  apply (HMAC_classes [] [] [] [] (replicate 32 0) [] [1; 2] (replicate 32 9) 7 0); reflexivity.
Defined.
