(* ===== verification/SipHash.v ===== *)
(** * SipHash-2-4

    Models [src/Sources/libbitcoinkernel/src/crypto/siphash.h] and
    [crypto/siphash.cpp]: the general hasher [CSipHasher], which takes bytes or whole
    words, and the specialised [PresaltedSipHasher] for a [uint256] with or without a
    32-bit extra word. *)

From S2P Require Import Prelude Endian.
From Stdlib Require Import ZArith Lia.
From stdpp Require Import base option list numbers.

Open Scope Z_scope.
Open Scope kernel_scope.

Record SipHashState := { v0 : Z; v1 : Z; v2 : Z; v3 : Z }.

Definition C0 : Z := 0x736f6d6570736575.
Definition C1 : Z := 0x646f72616e646f6d.
Definition C2 : Z := 0x6c7967656e657261.
Definition C3 : Z := 0x7465646279746573.
Definition SipHashState_make (k0 k1 : Z) : SipHashState :=
  {| v0 := C0 .^ k0; v1 := C1 .^ k1; v2 := C2 .^ k0; v3 := C3 .^ k1 |}.

(** [std::rotl] on 64 bits. *)
Definition rotl (x n : Z) : Z := u64 (x .<< n) .| (x .>> (64 - n)).

Definition SIPROUND (v : SipHashState) : SipHashState :=
  let '{| v0 := v0; v1 := v1; v2 := v2; v3 := v3 |} := v in
  let v0 := u64 (v0 + v1) in let v1 := rotl v1 13 in let v1 := v1 .^ v0 in
  let v0 := rotl v0 32 in
  let v2 := u64 (v2 + v3) in let v3 := rotl v3 16 in let v3 := v3 .^ v2 in
  let v0 := u64 (v0 + v3) in let v3 := rotl v3 21 in let v3 := v3 .^ v0 in
  let v2 := u64 (v2 + v1) in let v1 := rotl v1 17 in let v1 := v1 .^ v2 in
  let v2 := rotl v2 32 in
  {| v0 := v0; v1 := v1; v2 := v2; v3 := v3 |}.

Definition xor_v0 (v : SipHashState) (d : Z) : SipHashState :=
  {| v0 := v0 v .^ d; v1 := v1 v; v2 := v2 v; v3 := v3 v |}.
Definition xor_v2 (v : SipHashState) (d : Z) : SipHashState :=
  {| v0 := v0 v; v1 := v1 v; v2 := v2 v .^ d; v3 := v3 v |}.
Definition xor_v3 (v : SipHashState) (d : Z) : SipHashState :=
  {| v0 := v0 v; v1 := v1 v; v2 := v2 v; v3 := v3 v .^ d |}.

(** The compression of one word: [v3 ^= d; SIPROUND; SIPROUND; v0 ^= d]. *)
Definition absorb (v : SipHashState) (d : Z) : SipHashState :=
  xor_v0 (SIPROUND (SIPROUND (xor_v3 v d))) d.

(** The end of [Finalize]: [v2 ^= 0xFF], four rounds, and the sum of the state. *)
Definition squeeze (v : SipHashState) : Z :=
  let v := SIPROUND (SIPROUND (SIPROUND (SIPROUND (xor_v2 v 0xff)))) in
  v0 v .^ v1 v .^ v2 v .^ v3 v.

Record CSipHasher := { m_state : SipHashState; m_tmp : Z; m_count : Z }.

Definition CSipHasher_make (k0 k1 : Z) : CSipHasher :=
  {| m_state := SipHashState_make k0 k1; m_tmp := 0; m_count := 0 |}.

(** [Write(uint64_t)]; [None] is the failing assertion. *)
Definition Write64 (h : CSipHasher) (data : Z) : option CSipHasher :=
  if m_count h mod 8 =? 0 then
    Some {| m_state := absorb (m_state h) data; m_tmp := m_tmp h; m_count := u8 (m_count h + 8) |}
  else None.

(** One iteration of the loop of [Write(std::span)]. *)
Definition Write_byte (h : CSipHasher) (b : Z) : CSipHasher :=
  let t := m_tmp h .| u64 (b .<< (8 * (m_count h mod 8))) in
  let c := u8 (m_count h + 1) in
  if c .& 7 =? 0 then {| m_state := absorb (m_state h) t; m_tmp := 0; m_count := c |}
  else {| m_state := m_state h; m_tmp := t; m_count := c |}.
Definition Write (h : CSipHasher) (data : bytes) : CSipHasher := foldl Write_byte h data.

Definition Finalize (h : CSipHasher) : Z :=
  let t := m_tmp h .| u64 (m_count h .<< 56) in
  squeeze (absorb (m_state h) t).

(** [uint256::GetUint64]. *)
Definition GetUint64 (val : uint256) (pos : nat) : Z := ReadLE64 (drop (8 * pos) val).

(** [PresaltedSipHasher]: the object is its salted state. *)
Definition Presalted (v : SipHashState) (val : uint256) : Z :=
  let v := absorb v (GetUint64 val 0) in
  let v := absorb v (GetUint64 val 1) in
  let v := absorb v (GetUint64 val 2) in
  let v := absorb v (GetUint64 val 3) in
  let v := absorb v (u64 (4 .<< 59)) in
  squeeze v.

Definition Presalted_extra (v : SipHashState) (val : uint256) (extra : Z) : Z :=
  let v := absorb v (GetUint64 val 0) in
  let v := absorb v (GetUint64 val 1) in
  let v := absorb v (GetUint64 val 2) in
  let v := absorb v (GetUint64 val 3) in
  let v := absorb v (u64 (36 .<< 56) .| extra) in
  squeeze v.

(** ** Correctness *)

#[local] Opaque absorb squeeze.

Lemma land_7 n : n .& 7 = n mod 8.
Proof. apply (Z.land_ones n 3). lia. Qed.

(** The bytes of an incomplete word, [n] of them so far. *)
Lemma tmp_byte (l : bytes) b :
  bytes_ok l → urange 8 b → (length l < 8)%nat →
  undigits 8 l .| u64 (b .<< (8 * Z.of_nat (length l))) = undigits 8 (l ++ [b]).
Proof.
  intros Hl Hb Hn. rewrite (undigits_app 8 ltac:(lia)). cbn [undigits].
  pose proof (undigits_range 8 ltac:(lia) l Hl) as Hr. unfold urange in Hb.
  rewrite Z.shiftl_mul_pow2 by lia. rewrite uwrap_small.
  - rewrite Z.lor_comm, lor_add_disjoint by lia. lia.
  - assert (2 ^ (8 * Z.of_nat (length l)) ≤ 2 ^ 56) by (apply Z.pow_le_mono_r; lia).
    unfold urange. nia.
Qed.

Lemma Write_app h m1 m2 : Write h (m1 ++ m2) = Write (Write h m1) m2.
Proof. apply foldl_app. Qed.

(** A hasher in the middle of a word: the first [length l] bytes are in [m_tmp]. *)
Lemma Write_partial v c l m :
  0 ≤ c < 256 → c mod 8 = Z.of_nat (length l) → bytes_ok (l ++ m) → (length (l ++ m) < 8)%nat →
  Write {| m_state := v; m_tmp := undigits 8 l; m_count := c |} m =
  {| m_state := v; m_tmp := undigits 8 (l ++ m); m_count := u8 (c + Z.of_nat (length m)) |}.
Proof.
  revert c l. induction m as [|b m IH]; intros c l Hc Hcl Hok Hlen.
  { cbn. by rewrite app_nil_r, Z.add_0_r, uwrap_small. }
  rewrite length_app in Hlen. cbn [length] in Hlen.
  assert (bytes_ok l ∧ urange 8 b ∧ bytes_ok m) as (Hl & Hb & Hm).
  { apply digits_ok_app in Hok as [? Hok]. apply digits_ok_cons in Hok. tauto. }
  cbn [Write foldl]. unfold Write_byte at 2. cbn [m_state m_tmp m_count].
  rewrite Hcl, tmp_byte by (done || lia).
  assert (u8 (c + 1) = c + 1) as Hc1 by (apply uwrap_small; unfold urange; zlia).
  rewrite land_7, Hc1.
  rewrite (proj2 (Z.eqb_neq _ _)) by zlia.
  change (cons b m) with ([b] ++ m). rewrite app_assoc.
  etransitivity; [apply IH|].
  - zlia.
  - rewrite length_app. cbn [length]. zlia.
  - by rewrite <-app_assoc.
  - rewrite !length_app. cbn [length]. lia.
  - f_equal. unfold uwrap. f_equal. cbn [length app]. lia.
Qed.

(** Eight bytes at a word boundary are one word. *)
Lemma Write_word v c m :
  0 ≤ c < 256 → c mod 8 = 0 → bytes_ok m → length m = 8%nat →
  Write {| m_state := v; m_tmp := 0; m_count := c |} m =
  {| m_state := absorb v (ReadLE64 m); m_tmp := 0; m_count := u8 (c + 8) |}.
Proof.
  intros Hc Hc8 Hm Hlen. destruct (exists_last (l := m)) as (l & b & ->); [by destruct m|].
  apply digits_ok_app in Hm as [Hl Hb]. apply digits_ok_singleton in Hb.
  rewrite length_app in Hlen. cbn [length] in Hlen.
  rewrite Write_app. change 0 with (undigits 8 []) at 1.
  rewrite (Write_partial v c [] l) by (done || cbn; lia). cbn [app Write foldl].
  unfold Write_byte. cbn [m_state m_tmp m_count].
  replace (u8 (c + Z.of_nat (length l))) with (c + 7)
    by (symmetry; rewrite uwrap_small; [lia|unfold urange; zlia]).
  replace ((c + 7) mod 8) with (Z.of_nat (length l)) by zlia.
  rewrite tmp_byte by (done || lia).
  rewrite land_7.
  assert (u8 (c + 7 + 1) mod 8 = 0) as ->.
  { unfold uwrap. rewrite (Z.mod_mod_divide _ _ 8) by (by exists 32). zlia. }
  cbn [Z.eqb]. unfold ReadLE64. rewrite take_ge by (rewrite length_app; cbn; lia).
  f_equal. f_equal. lia.
Qed.

(** A whole [uint256] from a fresh hasher. *)
Lemma Write_uint256 v val :
  uint256_ok val →
  Write {| m_state := v; m_tmp := 0; m_count := 0 |} val =
  {| m_state := absorb (absorb (absorb (absorb v (GetUint64 val 0)) (GetUint64 val 1))
       (GetUint64 val 2)) (GetUint64 val 3); m_tmp := 0; m_count := 32 |}.
Proof.
  intros [Hlen Hok].
  assert (∀ i, (i < 4)%nat → bytes_ok (take 8 (drop (8 * i) val)) ∧ length (take 8 (drop (8 * i) val)) = 8%nat ∧
    ReadLE64 (take 8 (drop (8 * i) val)) = GetUint64 val i) as Hw.
  { intros i Hi. split_and!; [auto with kernel|rewrite length_take, length_drop; lia|].
    unfold ReadLE64, GetUint64, ReadLE64. by rewrite take_take. }
  assert (val = take 8 (drop (8 * 0) val) ++ take 8 (drop (8 * 1) val) ++ take 8 (drop (8 * 2) val)
    ++ take 8 (drop (8 * 3) val)) as Hv.
  { rewrite (take_ge (drop (8 * 3) val)) by (rewrite length_drop; lia).
    rewrite <-(drop_drop val 8 16 : drop 8 (drop (8 * 2) val) = drop (8 * 3) val), take_drop.
    rewrite <-(drop_drop val 8 8 : drop 8 (drop (8 * 1) val) = drop (8 * 2) val), take_drop.
    rewrite <-(drop_drop val 8 0 : drop 8 (drop (8 * 0) val) = drop (8 * 1) val), take_drop. done. }
  destruct (Hw 0%nat ltac:(lia)) as (? & ? & <-), (Hw 1%nat ltac:(lia)) as (? & ? & <-), (Hw 2%nat ltac:(lia)) as (? & ? & <-),
    (Hw 3%nat ltac:(lia)) as (? & ? & <-).
  rewrite Hv at 1. rewrite !Write_app. rewrite !Write_word by (done || lia). done.
Qed.

Lemma extra_word extra :
  urange 32 extra → undigits 8 (WriteLE32 extra) .| u64 (36 .<< 56) = u64 (36 .<< 56) .| extra.
Proof.
  intros He. rewrite Z.lor_comm. f_equal. unfold WriteLE32.
  rewrite undigits_digits by lia. by apply Z.mod_small.
Qed.

(** ** Properties *)

(** The specialised hashers of a uint256, with and without an extra 32-bit word, agree
    with the general hasher fed the same bytes, as their documentation says; and the
    general hasher fed a whole word at a word boundary agrees with the one fed its eight
    little-endian bytes. *)
Theorem PresaltedSipHasher_equivalent (k0 k1 : Z) (val : uint256) (extra data : Z) (h : CSipHasher) :
  uint256_ok val → urange 32 extra → urange 64 data →
  0 ≤ m_count h < 256 → m_count h mod 8 = 0 → m_tmp h = 0 →
  Presalted (SipHashState_make k0 k1) val = Finalize (Write (CSipHasher_make k0 k1) val) ∧
  Presalted_extra (SipHashState_make k0 k1) val extra =
    Finalize (Write (Write (CSipHasher_make k0 k1) val) (WriteLE32 extra)) ∧
  Write64 h data = Some (Write h (WriteLE64 data)).
Proof.
  intros Hval Hextra Hdata Hc Hc8 Htmp. unfold CSipHasher_make. rewrite Write_uint256 by done.
  split_and!.
  - unfold Presalted, Finalize. cbn [m_state m_tmp m_count].
    by change (0 .| u64 (32 .<< 56)) with (u64 (4 .<< 59)).
  - rewrite (Write_partial _ 32 [] (WriteLE32 extra));
      [|lia|done|apply WriteLE32_ok|by cbn [app]; rewrite length_WriteLE32; lia].
    unfold Presalted_extra, Finalize. cbn [m_state m_tmp m_count app].
    rewrite length_WriteLE32. change (u8 (32 + Z.of_nat 4)) with 36. by rewrite extra_word.
  - destruct h as [v t c]. cbn [m_count m_tmp] in *. subst t. unfold Write64. cbn [m_count m_state m_tmp].
    rewrite Hc8. cbn [Z.eqb]. rewrite Write_word by (done || apply WriteLE64_ok || apply length_WriteLE64).
    rewrite <-(app_nil_r (WriteLE64 data)), ReadLE64_write, (uwrap_small 64 data) by done. done.
Qed.

Lemma PresaltedSipHasher_equivalent_witness :
  Presalted_extra (SipHashState_make 1 2) (replicate 32 5) 77 =
    Finalize (Write (Write (CSipHasher_make 1 2) (replicate 32 5)) (WriteLE32 77)).
Proof.
  destruct (PresaltedSipHasher_equivalent 1 2 (replicate 32 5) 77 9 (CSipHasher_make 1 2))
    as (_ & H & _); [|unfold urange; lia|unfold urange; lia|cbn; lia|reflexivity|reflexivity|exact H].
  split; [reflexivity|]. repeat constructor; unfold urange; lia.
Defined.
