(* ===== verification/Primitives.v ===== *)
(** * Transactions and blocks

    Models [src/Sources/libbitcoinkernel/src/primitives/transaction.h],
    [primitives/transaction.cpp], [primitives/block.h], [primitives/block.cpp],
    [consensus/amount.h], [consensus/consensus.h] and the weights of
    [consensus/validation.h].  A [CTransaction] caches its hashes; here they are
    functions of its fields.  The sizes of the C++ types, which the vector reader uses
    for its batches, are the members of the class [ABI]. *)

From S2P Require Import Prelude Endian Serialize Hasher Sha256 Hash.
From Stdlib Require Import ZArith Lia.
From stdpp Require Import base option list numbers countable.

Open Scope Z_scope.
Open Scope kernel_scope.

(** ** Constants *)

Definition COIN : Z := 100000000.
Definition MAX_MONEY : Z := 21000000 * COIN.
Definition MoneyRange (nValue : Z) : bool := (0 <=? nValue) && (nValue <=? MAX_MONEY).

Definition MAX_BLOCK_WEIGHT : Z := 4000000.
Definition MAX_BLOCK_SIGOPS_COST : Z := 80000.
Definition COINBASE_MATURITY : Z := 100.
Definition WITNESS_SCALE_FACTOR : Z := 4.
Definition LOCKTIME_VERIFY_SEQUENCE : Z := 1 .<< 0.
Definition MAX_TIMEWARP : Z := 600.

(** ** Data *)

Definition NULL_INDEX : Z := 0xffffffff.
Record COutPoint := { op_hash : uint256; op_n : Z }.
#[export] Instance COutPoint_eq_dec : EqDecision COutPoint.
Proof. solve_decision. Defined.
#[export] Instance COutPoint_countable : Countable COutPoint.
Proof.
  apply (inj_countable' (λ o, (op_hash o, op_n o)) (λ p, {| op_hash := p.1; op_n := p.2 |})).
  by intros [].
Defined.

(** [base_blob::IsNull]. *)
Definition uint256_IsNull (h : uint256) : bool := forallb (λ b, b =? 0) h.
Definition COutPoint_null : COutPoint := {| op_hash := uint256_zero; op_n := NULL_INDEX |}.
Definition COutPoint_IsNull (o : COutPoint) : bool := uint256_IsNull (op_hash o) && (op_n o =? NULL_INDEX).

Definition SEQUENCE_FINAL : Z := 0xffffffff.
Definition MAX_SEQUENCE_NONFINAL : Z := SEQUENCE_FINAL - 1.
Definition SEQUENCE_LOCKTIME_DISABLE_FLAG : Z := 1 .<< 31.
Definition SEQUENCE_LOCKTIME_TYPE_FLAG : Z := 1 .<< 22.
Definition SEQUENCE_LOCKTIME_MASK : Z := 0x0000ffff.
Definition SEQUENCE_LOCKTIME_GRANULARITY : Z := 9.

Record CTxIn := {
  prevout : COutPoint;
  scriptSig : bytes;
  nSequence : Z;
  scriptWitness : list bytes;   (** only serialized through the transaction *)
}.
Record CTxOut := { nValue : Z; scriptPubKey : bytes }.
Definition CTxOut_null : CTxOut := {| nValue := -1; scriptPubKey := [] |}.
Definition CTxOut_IsNull (o : CTxOut) : bool := nValue o =? -1.

Record CTransaction := { vin : list CTxIn; vout : list CTxOut; version : Z; nLockTime : Z }.

#[export] Instance CTxIn_eq_dec : EqDecision CTxIn.
Proof. solve_decision. Defined.
#[export] Instance CTxOut_eq_dec : EqDecision CTxOut.
Proof. solve_decision. Defined.
#[export] Instance CTransaction_eq_dec : EqDecision CTransaction.
Proof. solve_decision. Defined.

Definition CTransaction_IsNull (tx : CTransaction) : bool :=
  match vin tx, vout tx with [], [] => true | _, _ => false end.
Definition IsCoinBase (tx : CTransaction) : bool :=
  match vin tx with [i] => COutPoint_IsNull (prevout i) | _ => false end.

(** [CScriptWitness::IsNull], [HasWitness]. *)
Definition witness_IsNull (stack : list bytes) : bool := match stack with [] => true | _ => false end.
Definition HasWitness (ins : list CTxIn) : bool :=
  existsb (λ i, negb (witness_IsNull (scriptWitness i))) ins.

Record CBlockHeader := {
  nVersion : Z; hashPrevBlock : uint256; hashMerkleRoot : uint256;
  nTime : Z; nBits : Z; nNonce : Z;
}.
Definition CBlockHeader_null : CBlockHeader :=
  {| nVersion := 0; hashPrevBlock := uint256_zero; hashMerkleRoot := uint256_zero;
     nTime := 0; nBits := 0; nNonce := 0 |}.
Definition CBlockHeader_IsNull (h : CBlockHeader) : bool := nBits h =? 0.
Record CBlock := { header : CBlockHeader; vtx : list CTransaction }.

(** ** Serialization *)

Class ABI := {
  sizeof_CTxIn : Z; sizeof_CTxOut : Z; sizeof_vector : Z; sizeof_CTransactionRef : Z;
  sizeof_CTxIn_ok : 0 < sizeof_CTxIn ≤ MAX_VECTOR_ALLOCATE;
  sizeof_CTxOut_ok : 0 < sizeof_CTxOut ≤ MAX_VECTOR_ALLOCATE;
  sizeof_vector_ok : 0 < sizeof_vector ≤ MAX_VECTOR_ALLOCATE;
  sizeof_CTransactionRef_ok : 0 < sizeof_CTransactionRef ≤ MAX_VECTOR_ALLOCATE;
}.

Definition COutPointF : Formatter COutPoint :=
  ReadWrite (λ o, (op_hash o, op_n o)) (λ '(h, n), {| op_hash := h; op_n := n |}) (Pair (Blob 32) U32).
Definition CTxInF : Formatter CTxIn :=
  ReadWrite (λ i, (prevout i, (scriptSig i, nSequence i)))
    (λ '(p, (s, q)), {| prevout := p; scriptSig := s; nSequence := q; scriptWitness := [] |})
    (Pair COutPointF (Pair ByteVector U32)).
Definition CTxOutF : Formatter CTxOut :=
  ReadWrite (λ o, (nValue o, scriptPubKey o)) (λ '(v, s), {| nValue := v; scriptPubKey := s |})
    (Pair I64 ByteVector).

Definition with_witness (i : CTxIn) (stack : list bytes) : CTxIn :=
  {| prevout := prevout i; scriptSig := scriptSig i; nSequence := nSequence i; scriptWitness := stack |}.

Section Serialization.
Context `{ABI}.

Definition StackF : Formatter (list bytes) := VectorFormatter ByteVector sizeof_vector.
Definition VinF : Formatter (list CTxIn) := VectorFormatter CTxInF sizeof_CTxIn.
Definition VoutF : Formatter (list CTxOut) := VectorFormatter CTxOutF sizeof_CTxOut.

Definition SerializeTransaction (fAllowWitness : bool) (tx : CTransaction) : bytes :=
  let flags := if fAllowWitness && HasWitness (vin tx) then 1 else 0 in
  Ser U32 (version tx) ++
  (if negb (flags =? 0) then Ser VinF [] ++ Ser U8 flags else []) ++
  Ser VinF (vin tx) ++
  Ser VoutF (vout tx) ++
  (if negb (flags .& 1 =? 0) then concat (map (λ i, Ser StackF (scriptWitness i)) (vin tx)) else []) ++
  Ser U32 (nLockTime tx).

(** The loop that reads the witness stacks into the inputs. *)
Fixpoint unser_witnesses (ins : list CTxIn) : parser (list CTxIn) :=
  match ins with
  | [] => pret []
  | i :: ins =>
      stack <-- Unser StackF ;;
      ins <-- unser_witnesses ins ;;
      pret (with_witness i stack :: ins)
  end.

Definition UnserializeTransaction (fAllowWitness : bool) : parser CTransaction :=
  version <-- Unser U32 ;;
  vin <-- Unser VinF ;;
  pbind
    (if bool_decide (length vin = 0%nat) && fAllowWitness then
       flags <-- Unser U8 ;;
       if negb (flags =? 0) then
         vin <-- Unser VinF ;; vout <-- Unser VoutF ;; pret (vin, vout, flags)
       else pret (vin, [], flags)
     else
       vout <-- Unser VoutF ;; pret (vin, vout, 0)) (λ '(vin, vout, flags),
  pbind
    (if negb (flags .& 1 =? 0) && fAllowWitness then
       let flags := flags .^ 1 in
       vin <-- unser_witnesses vin ;;
       if negb (HasWitness vin) then pfail superfluous_witness else pret (vin, flags)
     else pret (vin, flags)) (λ '(vin, flags),
  if negb (flags =? 0) then pfail unknown_tx_optional_data
  else
    nLockTime <-- Unser U32 ;;
    pret {| vin := vin; vout := vout; version := version; nLockTime := nLockTime |})).

Definition TransactionF (fAllowWitness : bool) : Formatter CTransaction :=
  {| Ser := SerializeTransaction fAllowWitness; Unser := UnserializeTransaction fAllowWitness |}.

Definition CBlockHeaderF : Formatter CBlockHeader :=
  ReadWrite
    (λ h, (nVersion h, (hashPrevBlock h, (hashMerkleRoot h, (nTime h, (nBits h, nNonce h))))))
    (λ '(v, (p, (m, (t, (b, n))))),
       {| nVersion := v; hashPrevBlock := p; hashMerkleRoot := m; nTime := t; nBits := b; nNonce := n |})
    (Pair I32 (Pair (Blob 32) (Pair (Blob 32) (Pair U32 (Pair U32 U32))))).
Definition CBlockF (fAllowWitness : bool) : Formatter CBlock :=
  ReadWrite (λ b, (header b, vtx b)) (λ '(h, v), {| header := h; vtx := v |})
    (Pair CBlockHeaderF (VectorFormatter (TransactionF fAllowWitness) sizeof_CTransactionRef)).

(** ** Hashes, sizes and values *)

Definition ComputeHash (tx : CTransaction) : uint256 :=
  HashWriter.GetHash (HashWriter.put (TransactionF false) HashWriter.new tx).
Definition ComputeWitnessHash (tx : CTransaction) : uint256 :=
  if negb (HasWitness (vin tx)) then ComputeHash tx
  else HashWriter.GetHash (HashWriter.put (TransactionF true) HashWriter.new tx).
Definition CBlockHeader_GetHash (h : CBlockHeader) : uint256 :=
  HashWriter.GetHash (HashWriter.put CBlockHeaderF HashWriter.new h).

Definition ComputeTotalSize (tx : CTransaction) : Z := u32 (GetSerializeSize (TransactionF true) tx).

Definition GetTransactionWeight (tx : CTransaction) : Z :=
  i32 (GetSerializeSize (TransactionF false) tx * (WITNESS_SCALE_FACTOR - 1)
       + GetSerializeSize (TransactionF true) tx).
Definition GetBlockWeight (block : CBlock) : Z :=
  i64 (GetSerializeSize (CBlockF false) block * (WITNESS_SCALE_FACTOR - 1)
       + GetSerializeSize (CBlockF true) block).
Definition GetTransactionInputWeight (txin : CTxIn) : Z :=
  i64 (GetSerializeSize CTxInF txin * (WITNESS_SCALE_FACTOR - 1)
       + GetSerializeSize CTxInF txin + GetSerializeSize StackF (scriptWitness txin)).
End Serialization.

(** [CTransaction::GetValueOut]: [None] is the exception, or the failing assertion. *)
Fixpoint GetValueOut_loop (nValueOut : Z) (outs : list CTxOut) : option Z :=
  match outs with
  | [] => Some nValueOut
  | o :: outs =>
      if negb (MoneyRange (nValue o)) || negb (MoneyRange (i64 (nValueOut + nValue o))) then None
      else GetValueOut_loop (nValueOut + nValue o) outs
  end.
Definition GetValueOut (tx : CTransaction) : option Z :=
  nValueOut ← GetValueOut_loop 0 (vout tx);
  if MoneyRange nValueOut then Some nValueOut else None.   (* assert *)

(** [GetWitnessCommitmentIndex]. *)
Definition NO_WITNESS_COMMITMENT : Z := -1.
Definition MINIMUM_WITNESS_COMMITMENT : Z := 38.
Definition OP_RETURN : Z := 0x6a.
Definition is_witness_commitment (script : bytes) : bool :=
  (MINIMUM_WITNESS_COMMITMENT <=? Z.of_nat (length script)) &&
  (script.[0] =? OP_RETURN) && (script.[1] =? 0x24) && (script.[2] =? 0xaa) &&
  (script.[3] =? 0x21) && (script.[4] =? 0xa9) && (script.[5] =? 0xed).
Definition GetWitnessCommitmentIndex (block : CBlock) : Z :=
  match vtx block with
  | [] => NO_WITNESS_COMMITMENT
  | coinbase :: _ =>
      foldl (λ commitpos o,
          match vout coinbase !! o with
          | Some out => if is_witness_commitment (scriptPubKey out) then Z.of_nat o else commitpos
          | None => commitpos
          end) NO_WITNESS_COMMITMENT (seq 0 (length (vout coinbase)))
  end.

(** ** Well-formed values: what the fields of the C++ types can hold, with vectors that
    the reader accepts *)

Definition script_ok (s : bytes) : Prop := length_ok s ∧ bytes_ok s.
Definition outpoint_ok (o : COutPoint) : Prop := uint256_ok (op_hash o) ∧ urange 32 (op_n o).
Definition txin_base_ok (i : CTxIn) : Prop :=
  outpoint_ok (prevout i) ∧ script_ok (scriptSig i) ∧ urange 32 (nSequence i).
Definition stack_ok (stack : list bytes) : Prop := length_ok stack ∧ Forall script_ok stack.
Definition txin_ok (i : CTxIn) : Prop := txin_base_ok i ∧ stack_ok (scriptWitness i).
Definition txout_ok (o : CTxOut) : Prop := srange 64 (nValue o) ∧ script_ok (scriptPubKey o).
Definition tx_ok (tx : CTransaction) : Prop :=
  (length_ok (vin tx) ∧ Forall txin_ok (vin tx)) ∧
  (length_ok (vout tx) ∧ Forall txout_ok (vout tx)) ∧
  urange 32 (version tx) ∧ urange 32 (nLockTime tx).
Definition header_ok (h : CBlockHeader) : Prop :=
  srange 32 (nVersion h) ∧ uint256_ok (hashPrevBlock h) ∧ uint256_ok (hashMerkleRoot h) ∧
  urange 32 (nTime h) ∧ urange 32 (nBits h) ∧ urange 32 (nNonce h).

(** The transaction without its witnesses. *)
Definition strip_in (i : CTxIn) : CTxIn := with_witness i [].
Definition strip (tx : CTransaction) : CTransaction :=
  {| vin := map strip_in (vin tx); vout := vout tx; version := version tx; nLockTime := nLockTime tx |}.

#[export] Instance COutPointF_lawful : LawfulFormatter COutPointF outpoint_ok.
Proof. eapply ReadWrite_lawful; [apply _| |]; [by intros []|by intros []]. Qed.

#[export] Instance CTxInF_lawful : LawfulFormatter CTxInF (λ i, txin_base_ok i ∧ scriptWitness i = []).
Proof.
  eapply ReadWrite_lawful; [apply _| |].
  - intros [p s q w] [(Hp & Hs & Hq) Hw]. simpl in *. by subst.
  - intros [p [s q]] (Hp & Hs & Hq). simpl in *. split; [done|]. by split_and!.
Qed.

#[export] Instance CTxOutF_lawful : LawfulFormatter CTxOutF txout_ok.
Proof. eapply ReadWrite_lawful; [apply _| |]; [by intros []|by intros []]. Qed.

#[export] Instance CBlockHeaderF_lawful : LawfulFormatter CBlockHeaderF header_ok.
Proof.
  eapply ReadWrite_lawful; [apply _| |].
  - by intros [].
  - by intros [? [? [? [? [? ?]]]]].
Qed.

Section Laws.
Context `{ABI}.

#[export] Instance StackF_lawful : LawfulFormatter StackF stack_ok.
Proof. apply (VectorFormatter_lawful ByteVector _ _ sizeof_vector_ok). Qed.
#[export] Instance VinF_lawful :
  LawfulFormatter VinF (λ v, length_ok v ∧ Forall (λ i, txin_base_ok i ∧ scriptWitness i = []) v).
Proof. apply (VectorFormatter_lawful CTxInF _ _ sizeof_CTxIn_ok). Qed.
#[export] Instance VoutF_lawful : LawfulFormatter VoutF (λ v, length_ok v ∧ Forall txout_ok v).
Proof. apply (VectorFormatter_lawful CTxOutF _ _ sizeof_CTxOut_ok). Qed.

(** The inputs are printed without their witnesses. *)
Lemma Ser_VinF_strip ins : Ser VinF ins = Ser VinF (map strip_in ins).
Proof. cbn [VinF VectorFormatter Ser]. by rewrite length_map, map_map. Qed.

Lemma strip_ins_ok ins :
  length_ok ins → Forall txin_ok ins →
  length_ok (map strip_in ins) ∧ Forall (λ i, txin_base_ok i ∧ scriptWitness i = []) (map strip_in ins).
Proof.
  intros Hl Hi. split; [unfold length_ok; by rewrite length_map|]. apply Forall_map.
  eapply Forall_impl; [|apply Hi]. intros i [Hb _]. done.
Qed.

Lemma Unser_VinF_strip ins rest :
  length_ok ins → Forall txin_ok ins → Unser VinF (Ser VinF ins ++ rest) = inr (map strip_in ins, rest).
Proof.
  intros Hl Hi. rewrite Ser_VinF_strip. apply fmt_roundtrip. by apply strip_ins_ok.
Qed.

Definition Ser_stacks (ins : list CTxIn) : bytes := concat (map (λ i, Ser StackF (scriptWitness i)) ins).

Lemma unser_witnesses_roundtrip ins rest :
  Forall txin_ok ins → unser_witnesses (map strip_in ins) (Ser_stacks ins ++ rest) = inr (ins, rest).
Proof.
  unfold Ser_stacks. induction 1 as [|i ins [Hb Hw] Hi IH]; [done|]. cbn [map unser_witnesses concat].
  unfold pbind at 1. rewrite <-app_assoc, fmt_roundtrip by done. unfold pbind. rewrite IH.
  destruct i as [p s q w]. done.
Qed.

Lemma unser_witnesses_canonical ins s ins' rest :
  bytes_ok s → Forall (λ i, txin_base_ok i ∧ scriptWitness i = []) ins →
  unser_witnesses ins s = inr (ins', rest) →
  Forall txin_ok ins' ∧ map strip_in ins' = ins ∧ s = Ser_stacks ins' ++ rest.
Proof.
  unfold Ser_stacks. intros Hs Hi. revert s ins' Hs. induction Hi as [|i ins [Hb Hw] Hi IH]; intros s ins' Hs Hu.
  { cbn in Hu. unfold pret in Hu. by simplify_eq. }
  cbn [unser_witnesses] in Hu. rewrite pbind_inr in Hu. destruct Hu as (st & s1 & Hst & Hu).
  apply fmt_canonical in Hst as [Hst ->]; [|done]. apply digits_ok_app in Hs as [_ Hs].
  rewrite pbind_inr in Hu. destruct Hu as (ins1 & s2 & Hins & Hu). unfold pret in Hu. simplify_eq.
  destruct (IH _ _ Hs Hins) as (Hok & Hstrip & ->). split_and!.
  - constructor; [|done]. destruct i. by split.
  - cbn [map]. f_equal; [|done]. destruct i as [p s q w]. simpl in Hw. by subst w.
  - cbn [map concat]. rewrite <-app_assoc. by destruct i.
Qed.

Lemma HasWitness_strip ins : HasWitness (map strip_in ins) = false.
Proof. induction ins as [|i ins IH]; [done|]. cbn. done. Qed.

Lemma HasWitness_false ins : HasWitness ins = false → map strip_in ins = ins.
Proof.
  induction ins as [|i ins IH]; [done|]. cbn [HasWitness existsb map].
  intros [Hi Hins]%orb_false_iff. f_equal; [|by apply IH].
  destruct i as [p s q [|w ws]]; [done|]. done.
Qed.

Lemma HasWitness_nonempty ins : HasWitness ins = true → ins ≠ [].
Proof. by destruct ins. Qed.

(** The parts of a printed transaction. *)
Lemma SerializeTransaction_basic allow tx :
  allow && HasWitness (vin tx) = false →
  SerializeTransaction allow tx =
  Ser U32 (version tx) ++ Ser VinF (vin tx) ++ Ser VoutF (vout tx) ++ Ser U32 (nLockTime tx).
Proof. unfold SerializeTransaction. by intros ->. Qed.

Lemma SerializeTransaction_extended tx :
  HasWitness (vin tx) = true →
  SerializeTransaction true tx =
  Ser U32 (version tx) ++ (0 :: 1 :: Ser VinF (vin tx) ++ Ser VoutF (vout tx) ++
    Ser_stacks (vin tx) ++ Ser U32 (nLockTime tx)).
Proof. unfold SerializeTransaction. by intros ->. Qed.

(** The transactions that have a parsable printed form: with the extended format
    allowed, one without inputs but with outputs does not. *)
Definition serializable (allow : bool) (tx : CTransaction) : Prop :=
  tx_ok tx ∧ (if allow then vin tx ≠ [] ∨ vout tx = [] else HasWitness (vin tx) = false).

Lemma TransactionF_bytes allow tx : tx_ok tx → bytes_ok (SerializeTransaction allow tx).
Proof.
  intros ([Hl Hi] & Ho & Hv & Ht).
  assert (bytes_ok (Ser VinF (vin tx))) as Hvin
    by (rewrite Ser_VinF_strip; by apply fmt_bytes, strip_ins_ok).
  assert (bytes_ok (Ser_stacks (vin tx))) as Hst.
  { unfold Ser_stacks. clear -Hi. induction Hi as [|i ins [_ Hw] Hi IH]; cbn [map concat]; [auto with kernel|].
    apply digits_ok_app. split; [by apply fmt_bytes|done]. }
  assert (bytes_ok (Ser U32 (version tx)) ∧ bytes_ok (Ser VoutF (vout tx)) ∧
    bytes_ok (Ser U32 (nLockTime tx))) as (? & ? & ?) by (split_and!; by apply fmt_bytes).
  destruct (allow && HasWitness (vin tx)) eqn:E.
  - apply andb_true_iff in E as [-> E]. rewrite SerializeTransaction_extended by done.
    change (0 :: 1 :: ?l) with ([0; 1] ++ l). rewrite !digits_ok_app. split_and!; try done.
    repeat constructor; unfold urange; lia.
  - rewrite SerializeTransaction_basic by done. by rewrite !digits_ok_app.
Qed.

Lemma Unser_VinF_nil rest : Unser VinF (0 :: rest) = inr ([], rest).
Proof. apply (fmt_roundtrip (F := VinF) []). split; [unfold length_ok, MAX_SIZE; cbn; lia|done]. Qed.

Lemma Unser_U8_cons b rest : urange 8 b → Unser U8 (b :: rest) = inr (b, rest).
Proof. apply readdata8_cons. Qed.

(** Run the first action of a reader on the printed form it reads. *)
Ltac run_read :=
  rewrite ?pbind_assoc; erewrite pbind_run; [|first [by apply fmt_roundtrip|reflexivity]];
  cbv beta iota.

Lemma Transaction_roundtrip_basic allow tx rest :
  tx_ok tx → HasWitness (vin tx) = false → allow = false ∨ vin tx ≠ [] →
  UnserializeTransaction allow (SerializeTransaction allow tx ++ rest) = inr (tx, rest).
Proof.
  intros ([Hl Hi] & Ho & Hv & Ht) Hw Hcase.
  rewrite SerializeTransaction_basic by (by rewrite Hw, andb_false_r).
  unfold UnserializeTransaction. rewrite <-!app_assoc. run_read.
  erewrite pbind_run by (by apply Unser_VinF_strip). rewrite HasWitness_false by done.
  assert (bool_decide (length (vin tx) = 0%nat) && allow = false) as ->.
  { destruct Hcase as [->|Hne]; [by rewrite andb_false_r|].
    rewrite bool_decide_eq_false_2; [done|]. by destruct (vin tx). }
  run_read. do 2 run_read. cbn [negb Z.eqb]. run_read. by destruct tx.
Qed.

Lemma Transaction_roundtrip_empty tx rest :
  tx_ok tx → vin tx = [] → vout tx = [] →
  UnserializeTransaction true (SerializeTransaction true tx ++ rest) = inr (tx, rest).
Proof.
  intros ([Hl Hi] & Ho & Hv & Ht) Hvin Hvout.
  rewrite SerializeTransaction_basic by (by rewrite Hvin). rewrite Hvin, Hvout.
  unfold UnserializeTransaction. rewrite <-!app_assoc. run_read.
  change (Ser VinF [] ++ Ser VoutF [] ++ ?l) with (0 :: 0 :: l).
  erewrite pbind_run by apply Unser_VinF_nil. cbn [length]. rewrite bool_decide_eq_true_2 by done.
  cbn [andb]. rewrite pbind_assoc. erewrite pbind_run by (apply Unser_U8_cons; unfold urange; lia).
  cbn [negb Z.eqb]. do 2 run_read. cbn [negb Z.eqb]. run_read.
  unfold pret. destruct tx. simpl in *. by subst.
Qed.

Lemma Transaction_roundtrip_extended tx rest :
  tx_ok tx → HasWitness (vin tx) = true →
  UnserializeTransaction true (SerializeTransaction true tx ++ rest) = inr (tx, rest).
Proof.
  intros ([Hl Hi] & Ho & Hv & Ht) Hw. rewrite SerializeTransaction_extended by done.
  unfold UnserializeTransaction. rewrite <-!app_assoc. run_read. cbn [app].
  erewrite pbind_run by apply Unser_VinF_nil. cbn [length]. rewrite bool_decide_eq_true_2 by done.
  cbn [andb]. rewrite pbind_assoc. erewrite pbind_run by (apply Unser_U8_cons; unfold urange; lia).
  cbn [negb Z.eqb]. rewrite pbind_assoc, <-!app_assoc. erewrite pbind_run by (by apply Unser_VinF_strip).
  run_read. run_read. change (1 .& 1) with 1. change (1 .^ 1) with 0. cbn [Z.eqb negb andb]. rewrite pbind_assoc.
  erewrite pbind_run by (by apply unser_witnesses_roundtrip).
  rewrite Hw. cbn [negb]. run_read. cbn [negb Z.eqb]. run_read. by destruct tx.
Qed.

(** The end of the reader, from the flags on. *)
Lemma Transaction_canonical_tail ver ins outs tail s tx rest :
  tail = (nLockTime <-- Unser U32 ;;
          pret {| vin := ins; vout := outs; version := ver; nLockTime := nLockTime |}) →
  bytes_ok s → tail s = inr (tx, rest) →
  vin tx = ins ∧ vout tx = outs ∧ version tx = ver ∧ urange 32 (nLockTime tx) ∧
  s = Ser U32 (nLockTime tx) ++ rest.
Proof.
  intros -> Hs Hu. rewrite pbind_inr in Hu. destruct Hu as (lt & s1 & Hlt & Hu).
  apply (fmt_canonical (F := U32)) in Hlt as [Hlt ->]; [|done]. unfold pret in Hu. by simplify_eq.
Qed.

Lemma base_ins_ok ins :
  Forall (λ i, txin_base_ok i ∧ scriptWitness i = []) ins →
  Forall txin_ok ins ∧ HasWitness ins = false.
Proof.
  induction 1 as [|i ins [Hb Hw] Hi [IH1 IH2]]; [done|]. split.
  - constructor; [|done]. split; [done|]. rewrite Hw. split; [unfold length_ok, MAX_SIZE; cbn; lia|done].
  - cbn [HasWitness existsb]. rewrite Hw. done.
Qed.

Lemma map_strip_ok ins ins' :
  map strip_in ins' = ins → length_ok ins → length_ok ins'.
Proof. intros <-. unfold length_ok. by rewrite length_map. Qed.

Lemma Transaction_canonical_basic allow ver ins s tx rest :
  urange 32 ver → length_ok ins → Forall (λ i, txin_base_ok i ∧ scriptWitness i = []) ins →
  allow = false ∨ ins ≠ [] → bytes_ok s →
  (outs <-- Unser VoutF ;; nLockTime <-- Unser U32 ;;
   pret {| vin := ins; vout := outs; version := ver; nLockTime := nLockTime |}) s = inr (tx, rest) →
  serializable allow tx ∧ Ser U32 ver ++ Ser VinF ins ++ s = SerializeTransaction allow tx ++ rest.
Proof.
  intros Hver Hl Hi Hcase Hs Hu. rewrite pbind_inr in Hu. destruct Hu as (outs & s1 & Ho & Hu).
  apply (fmt_canonical (F := VoutF)) in Ho as [Ho ->]; [|done]. apply digits_ok_app in Hs as [_ Hs].
  eapply Transaction_canonical_tail in Hu as (Hvin & Hvout & Hv & Hlt & ->); [|done|done].
  destruct (base_ins_ok ins Hi) as [Hiok Hnw].
  rewrite SerializeTransaction_basic by (by rewrite Hvin, Hnw, andb_false_r).
  rewrite Hvin, Hvout, Hv, <-!app_assoc. split; [|done]. unfold serializable, tx_ok.
  rewrite Hvin, Hvout, Hv. split; [done|]. destruct allow; [|done]. left. by destruct Hcase.
Qed.

Lemma Transaction_canonical allow s tx rest :
  bytes_ok s → UnserializeTransaction allow s = inr (tx, rest) →
  serializable allow tx ∧ s = SerializeTransaction allow tx ++ rest.
Proof.
  intros Hs Hu. unfold UnserializeTransaction in Hu.
  rewrite pbind_inr in Hu. destruct Hu as (ver & s1 & Hver & Hu).
  apply (fmt_canonical (F := U32)) in Hver as [Hver ->]; [|done]. apply digits_ok_app in Hs as [_ Hs].
  rewrite pbind_inr in Hu. destruct Hu as (ins & s2 & Hins & Hu).
  apply (fmt_canonical (F := VinF)) in Hins as [[Hl Hi] ->]; [|done]. apply digits_ok_app in Hs as [_ Hs].
  destruct (bool_decide (length ins = 0%nat) && allow) eqn:Hd.
  2: { (* the basic format *)
    apply Transaction_canonical_basic; try done.
    { destruct allow; [right|by left]. rewrite andb_true_r in Hd. apply bool_decide_eq_false in Hd.
      by intros ->. }
    rewrite pbind_inr in Hu. destruct Hu as ([[ins' outs] fl] & s3 & Ho & Hu).
    rewrite pbind_inr in Ho. destruct Ho as (outs' & s4 & Ho & Hp). unfold pret in Hp. simplify_eq.
    rewrite pbind_inr. exists outs, s3. split; [done|]. exact Hu. }
  apply andb_true_iff in Hd as [Hd ->]. apply bool_decide_eq_true, nil_length_inv in Hd as ->.
  rewrite pbind_inr in Hu. destruct Hu as ([[ins outs] fl] & s3 & Hf & Hu).
  rewrite pbind_inr in Hf. destruct Hf as (flags & s4 & ->%readdata8_inr & Hf).
  apply digits_ok_cons in Hs as [Hfl Hs]. destruct (Z.eqb_spec flags 0) as [->|Hne]; cbn [negb] in Hf.
  - (* neither inputs nor outputs *)
    unfold pret in Hf. simplify_eq. rewrite pbind_inr in Hu. destruct Hu as ([i f] & s5 & Hp & Hu).
    change (0 .& 1) with 0 in Hp. cbn [Z.eqb negb andb] in Hp. unfold pret in Hp. simplify_eq.
    cbn [negb Z.eqb] in Hu.
    eapply Transaction_canonical_tail in Hu as (Hvin & Hvout & Hv & Hlt & ->); [|done|done].
    rewrite SerializeTransaction_basic by (by rewrite Hvin). rewrite Hvin, Hvout, Hv, <-!app_assoc.
    split; [|done]. unfold serializable, tx_ok. rewrite Hvin, Hvout, Hv. split; [|by right].
    split_and!; try done; unfold length_ok, MAX_SIZE; cbn; lia.
  - (* the extended format *)
    rewrite pbind_inr in Hf. destruct Hf as (ins1 & s5 & Hins & Hf).
    apply (fmt_canonical (F := VinF)) in Hins as [[Hl1 Hi1] ->]; [|done].
    apply digits_ok_app in Hs as [_ Hs]. rewrite pbind_inr in Hf. destruct Hf as (outs1 & s6 & Ho & Hf).
    apply (fmt_canonical (F := VoutF)) in Ho as [Ho ->]; [|done]. apply digits_ok_app in Hs as [_ Hs].
    unfold pret in Hf. injection Hf as <- <- <- <-. rewrite pbind_inr in Hu.
    destruct Hu as ([ins2 fl2] & s7 & Hw & Hu).
    destruct (negb (flags .& 1 =? 0)) eqn:Hbit; cbn [andb] in Hw.
    2: { unfold pret in Hw. injection Hw as <- <- <-. by rewrite (proj2 (Z.eqb_neq _ _)) in Hu. }
    rewrite pbind_inr in Hw. destruct Hw as (ins3 & s8 & Hw & Hp).
    destruct (HasWitness ins3) eqn:Hhw; [|done]. cbn [negb] in Hp. unfold pret in Hp.
    injection Hp as <- <- <-. destruct (Z.eqb_spec (flags .^ 1) 0) as [->%Z.lxor_eq|]; [|done].
    eapply unser_witnesses_canonical in Hw as (Hok & Hstrip & ->); [|done|done].
    apply digits_ok_app in Hs as [_ Hs]. cbn [negb] in Hu.
    eapply Transaction_canonical_tail in Hu as (Hvin & Hvout & Hv & Hlt & ->); [|done|done].
    rewrite SerializeTransaction_extended by (by rewrite Hvin).
    rewrite Hvin, Hvout, Hv, (Ser_VinF_strip ins3), Hstrip, <-!app_assoc. cbn [app]. rewrite <-!app_assoc.
    split; [|done]. unfold serializable, tx_ok. rewrite Hvin, Hvout, Hv. split.
    + split_and!; try done; [by eapply map_strip_ok|apply Ho..].
    + left. by apply HasWitness_nonempty.
Qed.

#[export] Instance TransactionF_lawful allow : LawfulFormatter (TransactionF allow) (serializable allow).
Proof.
  split; cbn [TransactionF Ser Unser].
  - intros tx [Htx _]. by apply TransactionF_bytes.
  - intros tx rest [Htx Hs]. destruct (HasWitness (vin tx)) eqn:Hw.
    + destruct allow; [|congruence]. by apply Transaction_roundtrip_extended.
    + destruct allow; [|apply Transaction_roundtrip_basic; auto].
      destruct (decide (vin tx = [])); [|apply Transaction_roundtrip_basic; auto].
      apply Transaction_roundtrip_empty; [done|done|]. by destruct Hs.
  - intros s tx rest. apply Transaction_canonical.
Qed.

Definition block_ok (allow : bool) (b : CBlock) : Prop :=
  header_ok (header b) ∧ length_ok (vtx b) ∧ Forall (serializable allow) (vtx b).

#[export] Instance CBlockF_lawful allow : LawfulFormatter (CBlockF allow) (block_ok allow).
Proof.
  pose proof (VectorFormatter_lawful (TransactionF allow) _ _ sizeof_CTransactionRef_ok).
  eapply ReadWrite_lawful; [apply _| |]; [by intros []|by intros []].
Qed.

(** *** Hashes and sizes *)

Lemma SerializeTransaction_strip tx :
  SerializeTransaction false (strip tx) = SerializeTransaction false tx.
Proof.
  rewrite !SerializeTransaction_basic by done. by rewrite (Ser_VinF_strip (vin tx)).
Qed.

Lemma SerializeTransaction_no_witness tx :
  HasWitness (vin tx) = false → SerializeTransaction true tx = SerializeTransaction false tx.
Proof. intros Hw. by rewrite !SerializeTransaction_basic by (by rewrite ?Hw). Qed.

Lemma strip_serializable tx : tx_ok tx → serializable false (strip tx).
Proof.
  intros ([Hl Hi] & Ho & Hv & Ht). split; [|apply HasWitness_strip].
  destruct (strip_ins_ok (vin tx) Hl Hi) as [Hl' Hi']. apply base_ins_ok in Hi' as [Hi' _].
  split_and!; done || apply Ho.
Qed.

(** The bytes that only the extended format has. *)
Definition witness_size (tx : CTransaction) : Z :=
  if HasWitness (vin tx) then 2 + Z.of_nat (length (Ser_stacks (vin tx))) else 0.

Lemma total_size tx :
  GetSerializeSize (TransactionF true) tx = GetSerializeSize (TransactionF false) tx + witness_size tx.
Proof.
  unfold GetSerializeSize, witness_size. cbn [TransactionF Ser].
  destruct (HasWitness (vin tx)) eqn:Hw; [|rewrite SerializeTransaction_no_witness by done; lia].
  rewrite SerializeTransaction_extended, SerializeTransaction_basic by done.
  rewrite !length_app. cbn [length]. rewrite !length_app. lia.
Qed.
End Laws.

(** Two different messages of [M] with the same hash.  The statements below name in [M] the
    messages that were actually hashed, so that a violation of a commitment yields a concrete
    collision of double SHA-256. *)
Definition hash_collision (M : list bytes) : Prop := ∃ m m', m ∈ M ∧ m' ∈ M ∧ m ≠ m' ∧ Hash m = Hash m'.

Lemma hash_collision_mono (M M' : list bytes) : M ⊆ M' → hash_collision M → hash_collision M'.
Proof. intros HM (m & m' & H1 & H2 & ?). exists m, m'. auto. Qed.

Lemma Hash_inj (m m' : bytes) : Hash m = Hash m' → m = m' ∨ hash_collision [m; m'].
Proof. intros Heq. destruct (decide (m = m')); [by left|right]. exists m, m'. split_and!; [left|right; left|done|done]. Qed.

(** A printed form determines the value. *)
Lemma Ser_inj {A} (F : Formatter A) P `{!LawfulFormatter F P} x y :
  P x → P y → Ser F x = Ser F y → x = y.
Proof.
  intros Hx Hy Heq. pose proof (fmt_roundtrip (F := F) x [] Hx) as H1.
  pose proof (fmt_roundtrip (F := F) y [] Hy) as H2. rewrite Heq in H1. congruence.
Qed.

Lemma MoneyRange_spec v : MoneyRange v = true ↔ 0 ≤ v ≤ MAX_MONEY.
Proof. unfold MoneyRange. rewrite andb_true_iff, !Z.leb_le. done. Qed.

Definition sum_values (outs : list CTxOut) : Z := foldr (λ o acc, nValue o + acc) 0 outs.

Lemma sum_values_nonneg outs :
  Forall (λ o, 0 ≤ nValue o ≤ MAX_MONEY) outs → 0 ≤ sum_values outs.
Proof. unfold sum_values. induction 1; cbn [foldr]; lia. Qed.

Lemma GetValueOut_loop_spec acc outs v :
  0 ≤ acc ≤ MAX_MONEY →
  GetValueOut_loop acc outs = Some v ↔
  v = acc + sum_values outs ∧ Forall (λ o, 0 ≤ nValue o ≤ MAX_MONEY) outs ∧ v ≤ MAX_MONEY.
Proof.
  revert acc. induction outs as [|o outs IH]; intros acc Hacc; cbn [GetValueOut_loop sum_values foldr].
  { split; [intros [= <-]; split_and!; try done; lia|intros (-> & _ & _); f_equal; lia]. }
  destruct (MoneyRange (nValue o)) eqn:Ho; cbn [negb orb].
  2: { split; [done|]. intros (_ & Hf & _). inversion_clear Hf as [|? ? Ho' ?].
       apply MoneyRange_spec in Ho'. congruence. }
  apply MoneyRange_spec in Ho.
  assert (i64 (acc + nValue o) = acc + nValue o) as ->.
  { apply swrap_small; [lia|]. unfold srange, MAX_MONEY, COIN in *. lia. }
  destruct (MoneyRange (acc + nValue o)) eqn:Hs; cbn [negb].
  - apply MoneyRange_spec in Hs. rewrite IH by done. unfold sum_values. split.
    + intros (-> & Hf & Hle). split_and!; [lia|by constructor|done].
    + intros (-> & Hf & Hle). inversion_clear Hf. split_and!; [lia|done|done].
  - split; [done|]. intros (-> & Hf & Hle). inversion_clear Hf as [|? ? ? Hf'].
    apply sum_values_nonneg in Hf'. unfold sum_values in *.
    assert (MoneyRange (acc + nValue o) = true) by (apply MoneyRange_spec; lia). congruence.
Qed.

(** A concrete layout of the C++ types. *)
Definition x86_64 : ABI :=
  {| sizeof_CTxIn := 104; sizeof_CTxOut := 48; sizeof_vector := 24; sizeof_CTransactionRef := 16;
     sizeof_CTxIn_ok := conj eq_refl (ltac:(discriminate) : 104 ≤ MAX_VECTOR_ALLOCATE);
     sizeof_CTxOut_ok := conj eq_refl (ltac:(discriminate) : 48 ≤ MAX_VECTOR_ALLOCATE);
     sizeof_vector_ok := conj eq_refl (ltac:(discriminate) : 24 ≤ MAX_VECTOR_ALLOCATE);
     sizeof_CTransactionRef_ok := conj eq_refl (ltac:(discriminate) : 16 ≤ MAX_VECTOR_ALLOCATE) |}.

Definition example_tx : CTransaction :=
  {| vin := [{| prevout := {| op_hash := replicate 32 7; op_n := 1 |}; scriptSig := [0x51];
                nSequence := 0xfffffffe; scriptWitness := [[1; 2]; []] |}];
     vout := [{| nValue := 5000; scriptPubKey := [0x51] |}]; version := 2; nLockTime := 9 |}.

Ltac solve_ok :=
  repeat first
    [ progress split_and!
    | match goal with
      | |- serializable _ _ => split
      | |- tx_ok _ => unfold tx_ok
      | |- txin_ok _ => unfold txin_ok, txin_base_ok, outpoint_ok, stack_ok
      | |- txout_ok _ => unfold txout_ok
      | |- script_ok _ => split
      | |- length _ = _ => reflexivity
      | |- length_ok _ => unfold length_ok, MAX_SIZE; vm_compute; discriminate
      | |- digits_ok _ _ => unfold digits_ok, uint256_zero; cbn [replicate]
      | |- Forall _ ?l => let l' := eval hnf in l in change l with l'; constructor
      | |- _ ≤ _ => vm_compute; discriminate
      | |- _ < _ => reflexivity
      end ].

Lemma example_tx_ok : tx_ok example_tx.
Proof. solve_ok. Qed.

Lemma uint256_zero_ok : uint256_ok uint256_zero.
Proof. split; [done|]. unfold digits_ok, uint256_zero. apply Forall_replicate. unfold urange. lia. Qed.

Lemma ComputeHash_ok `{ABI} tx : uint256_ok (ComputeHash tx).
Proof. unfold ComputeHash. rewrite HashWriter_put_Hash. apply Hash_ok. Qed.
Lemma length_ComputeHash `{ABI} tx : length (ComputeHash tx) = 32%nat.
Proof. apply ComputeHash_ok. Qed.

Lemma ComputeHash_inj `{ABI} tx tx' :
  tx_ok tx → tx_ok tx' → ComputeHash tx = ComputeHash tx' →
  strip tx = strip tx' ∨ hash_collision [SerializeTransaction false tx; SerializeTransaction false tx'].
Proof.
  intros Htx Htx'. unfold ComputeHash. rewrite !HashWriter_put_Hash. cbn [TransactionF Ser].
  intros [Heq|Hc]%Hash_inj; [left|by right].
  apply (Ser_inj (TransactionF false) (serializable false)); [by apply strip_serializable..|].
  cbn [TransactionF Ser]. by rewrite !SerializeTransaction_strip.
Qed.

Lemma ComputeWitnessHash_inj `{ABI} tx tx' :
  serializable true tx → serializable true tx' → ComputeWitnessHash tx = ComputeWitnessHash tx' →
  tx = tx' ∨ hash_collision [SerializeTransaction true tx; SerializeTransaction true tx'].
Proof.
  intros Htx Htx'. unfold ComputeWitnessHash, ComputeHash. rewrite !HashWriter_put_Hash. cbn [TransactionF Ser].
  assert (∀ t, (if negb (HasWitness (vin t)) then Hash (SerializeTransaction false t)
                else Hash (SerializeTransaction true t)) = Hash (SerializeTransaction true t)) as Hw.
  { intros t. destruct (HasWitness (vin t)) eqn:E; [done|]. by rewrite SerializeTransaction_no_witness. }
  rewrite !Hw. intros [Heq|Hc]%Hash_inj; [left|by right].
  by apply (Ser_inj (TransactionF true) (serializable true)).
Qed.

Lemma GetHash_inj h h' :
  header_ok h → header_ok h' → CBlockHeader_GetHash h = CBlockHeader_GetHash h' →
  h = h' ∨ hash_collision [Ser CBlockHeaderF h; Ser CBlockHeaderF h'].
Proof.
  intros Hh Hh'. unfold CBlockHeader_GetHash. rewrite !HashWriter_put_Hash.
  intros [Heq|Hc]%Hash_inj; [left|by right]. by apply (Ser_inj CBlockHeaderF header_ok).
Qed.

(** ** Properties *)

(** C34: Transaction serialization is a canonical code in both formats: a transaction that
    has a printed form (with witnesses allowed: it has inputs, or neither inputs nor
    outputs) is read back exactly, and whatever the reader accepts is the printed form of
    the transaction it returns, so no two byte strings encode the same transaction;
    without witnesses allowed the reader returns the stripped transaction. *)
Theorem transaction_codec `{ABI} (allow : bool) (tx : CTransaction) (s rest : bytes) :
  bytes_ok s → tx_ok tx → vin tx ≠ [] ∨ vout tx = [] →
  UnserializeTransaction true (SerializeTransaction true tx ++ rest) = inr (tx, rest) ∧
  UnserializeTransaction false (SerializeTransaction false tx ++ rest) = inr (strip tx, rest) ∧
  (∀ tx', UnserializeTransaction allow s = inr (tx', rest) →
     tx_ok tx' ∧ s = SerializeTransaction allow tx' ++ rest).
Proof.
  intros Hs Htx Hshape. split_and!.
  - by apply (fmt_roundtrip (F := TransactionF true)).
  - rewrite <-SerializeTransaction_strip.
    by apply (fmt_roundtrip (F := TransactionF false)), strip_serializable.
  - intros tx' Hu. apply Transaction_canonical in Hu as [[Hok _] ->]; done.
Qed.

Lemma transaction_codec_witness :
  let H := x86_64 in
  UnserializeTransaction true (SerializeTransaction true example_tx ++ [1]) = inr (example_tx, [1]).
Proof.
  intros H. apply (@transaction_codec H true example_tx [] [1]); [constructor|apply example_tx_ok|].
  left. discriminate.
Defined.

(** Blocks and headers round-trip, what is accepted is the unique printed form, and a
    header is always 80 bytes. *)
Theorem block_codec `{ABI} (allow : bool) (b : CBlock) (s rest : bytes) :
  bytes_ok s → block_ok allow b →
  Unser (CBlockF allow) (Ser (CBlockF allow) b ++ rest) = inr (b, rest) ∧
  (∀ b', Unser (CBlockF allow) s = inr (b', rest) →
     block_ok allow b' ∧ s = Ser (CBlockF allow) b' ++ rest) ∧
  Unser CBlockHeaderF (Ser CBlockHeaderF (header b) ++ rest) = inr (header b, rest) ∧
  length (Ser CBlockHeaderF (header b)) = 80%nat.
Proof.
  intros Hs Hb. destruct Hb as (Hh & Hl & Ht). split_and!.
  - by apply fmt_roundtrip.
  - intros b'. by apply fmt_canonical.
  - by apply fmt_roundtrip.
  - destruct Hh as (_ & [Hp _] & [Hm _] & _). cbn [CBlockHeaderF ReadWrite Pair Ser fst snd Blob].
    rewrite !length_app, Hp, Hm. done.
Qed.

Lemma block_codec_witness :
  let H := x86_64 in
  Unser CBlockHeaderF (Ser CBlockHeaderF CBlockHeader_null ++ [5]) = inr (CBlockHeader_null, [5]).
Proof.
  intros H. destruct (@block_codec H true {| header := CBlockHeader_null; vtx := [example_tx] |} [] [5])
    as (_ & _ & E & _); [constructor| |exact E].
  split_and!; [split_and!; solve_ok|solve_ok|].
  constructor; [|constructor]. split; [apply example_tx_ok|]. left. discriminate.
Defined.

(** The transaction id commits to exactly the stripped transaction: it does not depend
    on the witnesses, and two transactions with the same id are the same up to
    witnesses unless their two serializations are a collision of double SHA-256; the witness
    id commits to the whole transaction in the same sense. *)
Theorem txid_commits `{ABI} (tx tx' : CTransaction) :
  tx_ok tx → tx_ok tx' → vin tx ≠ [] → vin tx' ≠ [] →
  ComputeHash (strip tx) = ComputeHash tx ∧
  (ComputeHash tx = ComputeHash tx' →
     strip tx = strip tx' ∨ hash_collision [SerializeTransaction false tx; SerializeTransaction false tx']) ∧
  (ComputeWitnessHash tx = ComputeWitnessHash tx' →
     tx = tx' ∨ hash_collision [SerializeTransaction true tx; SerializeTransaction true tx']).
Proof.
  intros Htx Htx' Hin Hin'. split_and!; [|by apply ComputeHash_inj|by apply ComputeWitnessHash_inj; split; auto].
  unfold ComputeHash. rewrite !HashWriter_put_Hash. cbn [TransactionF Ser]. by rewrite SerializeTransaction_strip.
Qed.

Lemma txid_commits_witness :
  let H := x86_64 in ComputeHash (strip example_tx) = ComputeHash example_tx.
Proof.
  intros H. apply (@txid_commits H example_tx example_tx);
    [apply example_tx_ok|apply example_tx_ok|discriminate|discriminate].
Defined.

(** The weight of a transaction is four times its stripped size plus the bytes that only
    the extended format has (marker, flag and stacks), whenever that fits in the int32_t
    result; so a transaction without witnesses weighs four times its size. *)
Theorem transaction_weight `{ABI} (tx : CTransaction) :
  GetSerializeSize (TransactionF false) tx * 4 + witness_size tx < 2 ^ 31 →
  GetTransactionWeight tx = GetSerializeSize (TransactionF false) tx * 4 + witness_size tx ∧
  GetSerializeSize (TransactionF true) tx = GetSerializeSize (TransactionF false) tx + witness_size tx ∧
  (HasWitness (vin tx) = false → GetTransactionWeight tx = 4 * ComputeTotalSize tx).
Proof.
  intros Hb. assert (0 ≤ GetSerializeSize (TransactionF false) tx) by (unfold GetSerializeSize; lia).
  assert (0 ≤ witness_size tx) by (unfold witness_size; destruct (HasWitness _); lia).
  assert (GetTransactionWeight tx = GetSerializeSize (TransactionF false) tx * 4 + witness_size tx) as Hw.
  { unfold GetTransactionWeight, WITNESS_SCALE_FACTOR. rewrite total_size, swrap_small; [lia|lia|].
    unfold srange. cbn in *. lia. }
  split_and!; [done|apply total_size|]. intros Hn. rewrite Hw. unfold ComputeTotalSize.
  rewrite total_size. unfold witness_size in *. rewrite Hn in *. rewrite uwrap_small; [lia|].
  unfold urange. lia.
Qed.

Lemma transaction_weight_witness :
  let H := x86_64 in GetTransactionWeight example_tx = 4 * 62 + 7.
Proof.
  intros H. destruct (@transaction_weight H example_tx) as [E _]; [vm_compute; reflexivity|].
  rewrite E. vm_compute. reflexivity.
Defined.

(** The value of a transaction's outputs is computed without overflow: GetValueOut
    returns the exact sum when every output and the sum are in the money range, and throws
    otherwise; its final assertion never fails. *)
Theorem GetValueOut_exact (tx : CTransaction) (v : Z) :
  (GetValueOut tx = Some v ↔
   v = sum_values (vout tx) ∧ Forall (λ o, 0 ≤ nValue o ≤ MAX_MONEY) (vout tx) ∧ v ≤ MAX_MONEY) ∧
  GetValueOut tx = GetValueOut_loop 0 (vout tx).
Proof.
  assert (0 ≤ 0 ≤ MAX_MONEY) as H0 by (unfold MAX_MONEY, COIN; lia).
  assert (GetValueOut tx = GetValueOut_loop 0 (vout tx)) as E.
  { unfold GetValueOut. destruct (GetValueOut_loop 0 (vout tx)) as [u|] eqn:E; [|done]. cbn.
    apply GetValueOut_loop_spec in E as (-> & Hf & Hle); [|done].
    rewrite (proj2 (MoneyRange_spec _)); [done|]. apply sum_values_nonneg in Hf. lia. }
  split; [|done]. rewrite E, GetValueOut_loop_spec by done. by rewrite Z.add_0_l.
Qed.
