(* ===== verification/Script.v ===== *)
(** * Scripts: script/script.h, script/script.cpp

    A script is its byte string; an iterator into it is the list of the bytes from it to the
    end.  [GetScriptOp] leaves its iterator advanced also when it fails, so it returns the new
    one in every case.  A loop over the instructions of a script has the length of the script as
    fuel, which suffices because every instruction consumes a byte. *)

From S2P Require Import Prelude Endian Primitives.
From Stdlib Require Import ZArith Lia.
From stdpp Require Import base option list numbers gmap.

Open Scope Z_scope.
Open Scope kernel_scope.

Abbreviation zlen l := (Z.of_nat (length l)).

(** ** Limits *)

Definition MAX_SCRIPT_ELEMENT_SIZE : Z := 520.
Definition MAX_OPS_PER_SCRIPT : Z := 201.
Definition MAX_PUBKEYS_PER_MULTISIG : Z := 20.
Definition MAX_SCRIPT_SIZE : Z := 10000.
Definition MAX_STACK_SIZE : Z := 1000.
Definition LOCKTIME_THRESHOLD : Z := 500000000.
Definition ANNEX_TAG : Z := 0x50.
Definition VALIDATION_WEIGHT_PER_SIGOP_PASSED : Z := 50.
Definition VALIDATION_WEIGHT_OFFSET : Z := 50.

(** ** Opcodes *)

Definition OP_0 : Z := 0x00.
Definition OP_PUSHDATA1 : Z := 0x4c.
Definition OP_PUSHDATA2 : Z := 0x4d.
Definition OP_PUSHDATA4 : Z := 0x4e.
Definition OP_1NEGATE : Z := 0x4f.
Definition OP_RESERVED : Z := 0x50.
Definition OP_1 : Z := 0x51.
Definition OP_16 : Z := 0x60.
Definition OP_NOP : Z := 0x61.
Definition OP_VER : Z := 0x62.
Definition OP_IF : Z := 0x63.
Definition OP_NOTIF : Z := 0x64.
Definition OP_VERIF : Z := 0x65.
Definition OP_VERNOTIF : Z := 0x66.
Definition OP_ELSE : Z := 0x67.
Definition OP_ENDIF : Z := 0x68.
Definition OP_VERIFY : Z := 0x69.
Definition OP_TOALTSTACK : Z := 0x6b.
Definition OP_FROMALTSTACK : Z := 0x6c.
Definition OP_2DROP : Z := 0x6d.
Definition OP_2DUP : Z := 0x6e.
Definition OP_3DUP : Z := 0x6f.
Definition OP_2OVER : Z := 0x70.
Definition OP_2ROT : Z := 0x71.
Definition OP_2SWAP : Z := 0x72.
Definition OP_IFDUP : Z := 0x73.
Definition OP_DEPTH : Z := 0x74.
Definition OP_DROP : Z := 0x75.
Definition OP_DUP : Z := 0x76.
Definition OP_NIP : Z := 0x77.
Definition OP_OVER : Z := 0x78.
Definition OP_PICK : Z := 0x79.
Definition OP_ROLL : Z := 0x7a.
Definition OP_ROT : Z := 0x7b.
Definition OP_SWAP : Z := 0x7c.
Definition OP_TUCK : Z := 0x7d.
Definition OP_CAT : Z := 0x7e.
Definition OP_SUBSTR : Z := 0x7f.
Definition OP_LEFT : Z := 0x80.
Definition OP_RIGHT : Z := 0x81.
Definition OP_SIZE : Z := 0x82.
Definition OP_INVERT : Z := 0x83.
Definition OP_AND : Z := 0x84.
Definition OP_OR : Z := 0x85.
Definition OP_XOR : Z := 0x86.
Definition OP_EQUAL : Z := 0x87.
Definition OP_EQUALVERIFY : Z := 0x88.
Definition OP_RESERVED1 : Z := 0x89.
Definition OP_RESERVED2 : Z := 0x8a.
Definition OP_1ADD : Z := 0x8b.
Definition OP_1SUB : Z := 0x8c.
Definition OP_2MUL : Z := 0x8d.
Definition OP_2DIV : Z := 0x8e.
Definition OP_NEGATE : Z := 0x8f.
Definition OP_ABS : Z := 0x90.
Definition OP_NOT : Z := 0x91.
Definition OP_0NOTEQUAL : Z := 0x92.
Definition OP_ADD : Z := 0x93.
Definition OP_SUB : Z := 0x94.
Definition OP_MUL : Z := 0x95.
Definition OP_DIV : Z := 0x96.
Definition OP_MOD : Z := 0x97.
Definition OP_LSHIFT : Z := 0x98.
Definition OP_RSHIFT : Z := 0x99.
Definition OP_BOOLAND : Z := 0x9a.
Definition OP_BOOLOR : Z := 0x9b.
Definition OP_NUMEQUAL : Z := 0x9c.
Definition OP_NUMEQUALVERIFY : Z := 0x9d.
Definition OP_NUMNOTEQUAL : Z := 0x9e.
Definition OP_LESSTHAN : Z := 0x9f.
Definition OP_GREATERTHAN : Z := 0xa0.
Definition OP_LESSTHANOREQUAL : Z := 0xa1.
Definition OP_GREATERTHANOREQUAL : Z := 0xa2.
Definition OP_MIN : Z := 0xa3.
Definition OP_MAX : Z := 0xa4.
Definition OP_WITHIN : Z := 0xa5.
Definition OP_RIPEMD160 : Z := 0xa6.
Definition OP_SHA1 : Z := 0xa7.
Definition OP_SHA256 : Z := 0xa8.
Definition OP_HASH160 : Z := 0xa9.
Definition OP_HASH256 : Z := 0xaa.
Definition OP_CODESEPARATOR : Z := 0xab.
Definition OP_CHECKSIG : Z := 0xac.
Definition OP_CHECKSIGVERIFY : Z := 0xad.
Definition OP_CHECKMULTISIG : Z := 0xae.
Definition OP_CHECKMULTISIGVERIFY : Z := 0xaf.
Definition OP_NOP1 : Z := 0xb0.
Definition OP_CHECKLOCKTIMEVERIFY : Z := 0xb1.
Definition OP_CHECKSEQUENCEVERIFY : Z := 0xb2.
Definition OP_NOP4 : Z := 0xb3.
Definition OP_NOP10 : Z := 0xb9.
Definition OP_CHECKSIGADD : Z := 0xba.
Definition OP_INVALIDOPCODE : Z := 0xff.
Definition MAX_OPCODE : Z := OP_NOP10.

(** ** Script numbers *)

Inductive scriptnum_error := script_number_overflow | non_minimally_encoded.

(** [while (absvalue)]: a 64-bit value has at most eight bytes. *)
Fixpoint serialize_loop (fuel : nat) (absvalue : Z) : bytes :=
  match fuel with
  | O => []
  | S fuel => if absvalue =? 0 then [] else absvalue .& 0xff :: serialize_loop fuel (absvalue .>> 8)
  end.

Definition back (v : bytes) : Z := v.[length v - 1].
Definition set_back (v : bytes) (b : Z) : bytes := take (length v - 1) v ++ [b].

Definition serialize (value : Z) : bytes :=
  if value =? 0 then [] else
  let neg := value <? 0 in
  let absvalue := if neg then u64 (Z.lnot value + 1) else u64 value in
  let result := serialize_loop 8 absvalue in
  if negb (back result .& 0x80 =? 0) then result ++ [if neg then 0x80 else 0]
  else if neg then set_back result (back result .| 0x80)
  else result.

Definition set_vch (vch : bytes) : Z :=
  if (length vch =? 0)%nat then 0 else
  let result := foldl (λ result i, result .| i64 (vch.[i] .<< (8 * Z.of_nat i))) 0 (seq 0 (length vch)) in
  if negb (back vch .& 0x80 =? 0)
  then i64 (- i64 (u64 result .& u64 (Z.lnot (0x80 .<< (8 * (zlen vch - 1))))))
  else result.

Definition nDefaultMaxNumSize : Z := 4.

Definition CScriptNum (vch : bytes) (fRequireMinimal : bool) (nMaxNumSize : Z) : scriptnum_error + Z :=
  if nMaxNumSize <? zlen vch then throw script_number_overflow else
  if fRequireMinimal && (0 <? zlen vch) && (back vch .& 0x7f =? 0)
     && ((zlen vch <=? 1) || (vch.[length vch - 2] .& 0x80 =? 0))
  then throw non_minimally_encoded
  else mret (set_vch vch).

(** The compound assignments and the negation carry assertions against overflow. *)
Definition num_add (m_value rhs : Z) : Z := i64 (m_value + rhs).
Definition num_sub (m_value rhs : Z) : Z := i64 (m_value - rhs).
Definition INT64_MAX : Z := 2 ^ 63 - 1.
Definition INT64_MIN : Z := - 2 ^ 63.
Definition num_add_assign (m_value rhs : Z) : option Z :=
  if (rhs =? 0) || ((0 <? rhs) && (m_value <=? INT64_MAX - rhs)) || ((rhs <? 0) && (INT64_MIN - rhs <=? m_value))
  then Some (i64 (m_value + rhs)) else None.
Definition num_sub_assign (m_value rhs : Z) : option Z :=
  if (rhs =? 0) || ((0 <? rhs) && (INT64_MIN + rhs <=? m_value)) || ((rhs <? 0) && (m_value <=? INT64_MAX + rhs))
  then Some (i64 (m_value - rhs)) else None.
Definition num_neg (m_value : Z) : option Z :=
  if m_value =? INT64_MIN then None else Some (- m_value).
Definition getint (m_value : Z) : Z :=
  if 2 ^ 31 - 1 <? m_value then 2 ^ 31 - 1 else if m_value <? - 2 ^ 31 then - 2 ^ 31 else m_value.

(** ** Building scripts *)

Definition AppendDataSize (size : Z) : bytes :=
  if size <? OP_PUSHDATA1 then [u8 size]
  else if size <=? 0xff then [OP_PUSHDATA1; u8 size]
  else if size <=? 0xffff then OP_PUSHDATA2 :: WriteLE16 (u16 size)
  else OP_PUSHDATA4 :: WriteLE32 (u32 size).

(** [script << data], [script << n]: the bytes appended to the script. *)
Definition push_data (b : bytes) : bytes := AppendDataSize (u32 (zlen b)) ++ b.
Definition push_int64 (n : Z) : bytes :=
  if (n =? -1) || ((1 <=? n) && (n <=? 16)) then [u8 (n + (OP_1 - 1))]
  else if n =? 0 then [OP_0]
  else push_data (serialize n).

(** ** Reading scripts *)

(** The result, [opcodeRet], [*pvchRet] and [pc]; [immediate] is the end of the branch that
    reads an immediate operand. *)
Definition GetScriptOp_fail (pc : bytes) : bool * Z * bytes * bytes := (false, OP_INVALIDOPCODE, [], pc).
Definition immediate (opcode nSize : Z) (pc : bytes) : bool * Z * bytes * bytes :=
  if zlen pc <? nSize then GetScriptOp_fail pc
  else (true, opcode, take (Z.to_nat nSize) pc, drop (Z.to_nat nSize) pc).

Definition GetScriptOp (pc : bytes) : bool * Z * bytes * bytes :=
  match pc with
  | [] => GetScriptOp_fail pc
  | opcode :: pc =>
      if opcode <=? OP_PUSHDATA4 then
        if opcode <? OP_PUSHDATA1 then immediate opcode opcode pc
        else if opcode =? OP_PUSHDATA1 then
          match pc with [] => GetScriptOp_fail pc | nSize :: pc => immediate opcode nSize pc end
        else if opcode =? OP_PUSHDATA2 then
          if zlen pc <? 2 then GetScriptOp_fail pc else immediate opcode (ReadLE16 pc) (drop 2 pc)
        else
          if zlen pc <? 4 then GetScriptOp_fail pc else immediate opcode (ReadLE32 pc) (drop 4 pc)
      else (true, opcode, [], pc)
  end.

Definition DecodeOP_N (opcode : Z) : option Z :=
  if opcode =? OP_0 then Some 0
  else if (OP_1 <=? opcode) && (opcode <=? OP_16) then Some (opcode - (OP_1 - 1)) else None.

Definition IsOpSuccess (opcode : Z) : bool :=
  (opcode =? 80) || (opcode =? 98) || ((126 <=? opcode) && (opcode <=? 129))
  || ((131 <=? opcode) && (opcode <=? 134)) || ((137 <=? opcode) && (opcode <=? 138))
  || ((141 <=? opcode) && (opcode <=? 142)) || ((149 <=? opcode) && (opcode <=? 153))
  || ((187 <=? opcode) && (opcode <=? 254)).

(** [None] where the assertion on the opcode fails. *)
Definition CheckMinimalPush (data : bytes) (opcode : Z) : option bool :=
  if negb ((0 <=? opcode) && (opcode <=? OP_PUSHDATA4)) then None
  else if (length data =? 0)%nat then Some (opcode =? OP_0)
  else if (zlen data =? 1) && (1 <=? data.[0]) && (data.[0] <=? 16) then Some false
  else if (zlen data =? 1) && (data.[0] =? 0x81) then Some false
  else if zlen data <=? 75 then Some (opcode =? zlen data)
  else if zlen data <=? 255 then Some (opcode =? OP_PUSHDATA1)
  else if zlen data <=? 65535 then Some (opcode =? OP_PUSHDATA2)
  else Some true.

Lemma CheckMinimalPush_total data opcode :
  0 ≤ opcode ≤ OP_PUSHDATA4 → ∃ b, CheckMinimalPush data opcode = Some b.
Proof.
  intros [H1%Z.leb_le H2%Z.leb_le]. unfold CheckMinimalPush. rewrite H1, H2. cbn [negb andb].
  repeat case_match; by eexists.
Qed.

Fixpoint GetSigOpCount_loop (fuel : nat) (fAccurate : bool) (pc : bytes) (lastOpcode n : Z) : Z :=
  match fuel with
  | O => n
  | S fuel =>
      match GetScriptOp pc with
      | (false, _, _, _) => n
      | (true, opcode, _, pc) =>
          let n :=
            if (opcode =? OP_CHECKSIG) || (opcode =? OP_CHECKSIGVERIFY) then u32 (n + 1)
            else if (opcode =? OP_CHECKMULTISIG) || (opcode =? OP_CHECKMULTISIGVERIFY) then
              if fAccurate && (OP_1 <=? lastOpcode) && (lastOpcode <=? OP_16)
              then u32 (n + default 0 (DecodeOP_N lastOpcode))
              else u32 (n + MAX_PUBKEYS_PER_MULTISIG)
            else n in
          GetSigOpCount_loop fuel fAccurate pc opcode n
      end
  end.
Definition GetSigOpCount (script : bytes) (fAccurate : bool) : Z :=
  GetSigOpCount_loop (length script) fAccurate script OP_INVALIDOPCODE 0.

Definition IsPayToAnchor (script : bytes) : bool :=
  (zlen script =? 4) && (script.[0] =? OP_1) && (script.[1] =? 0x02) && (script.[2] =? 0x4e) && (script.[3] =? 0x73).
Definition IsPayToAnchor_program (version : Z) (program : bytes) : bool :=
  (version =? 1) && (zlen program =? 2) && (program.[0] =? 0x4e) && (program.[1] =? 0x73).
Definition IsPayToScriptHash (script : bytes) : bool :=
  (zlen script =? 23) && (script.[0] =? OP_HASH160) && (script.[1] =? 0x14) && (script.[22] =? OP_EQUAL).
Definition IsPayToWitnessScriptHash (script : bytes) : bool :=
  (zlen script =? 34) && (script.[0] =? OP_0) && (script.[1] =? 0x20).
Definition IsPayToTaproot (script : bytes) : bool :=
  (zlen script =? 34) && (script.[0] =? OP_1) && (script.[1] =? 0x20).

(** The version is decoded from an opcode that was just checked to be [OP_0], [OP_1] ... [OP_16]. *)
Definition IsWitnessProgram (script : bytes) : option (Z * bytes) :=
  if (zlen script <? 4) || (42 <? zlen script) then None
  else if negb (script.[0] =? OP_0) && ((script.[0] <? OP_1) || (OP_16 <? script.[0])) then None
  else if script.[1] + 2 =? zlen script
  then version ← DecodeOP_N (script.[0]); Some (version, drop 2 script)
  else None.

Fixpoint IsPushOnly_loop (fuel : nat) (pc : bytes) : bool :=
  match fuel, pc with
  | _, [] => true
  | O, _ => true
  | S fuel, _ =>
      match GetScriptOp pc with
      | (false, _, _, _) => false
      | (true, opcode, _, pc) => if OP_16 <? opcode then false else IsPushOnly_loop fuel pc
      end
  end.
Definition IsPushOnly (script : bytes) : bool := IsPushOnly_loop (length script) script.

Fixpoint HasValidOps_loop (fuel : nat) (it : bytes) : bool :=
  match fuel, it with
  | _, [] => true
  | O, _ => true
  | S fuel, _ =>
      match GetScriptOp it with
      | (ok, opcode, item, it) =>
          if negb ok || (MAX_OPCODE <? opcode) || (MAX_SCRIPT_ELEMENT_SIZE <? zlen item) then false
          else HasValidOps_loop fuel it
      end
  end.
Definition HasValidOps (script : bytes) : bool := HasValidOps_loop (length script) script.

(** The last item that a script sig pushes; [None] when the count is already settled as 0. *)
Fixpoint last_push (fuel : nat) (pc vData : bytes) : option bytes :=
  match fuel, pc with
  | _, [] => Some vData
  | O, _ => Some vData
  | S fuel, _ =>
      match GetScriptOp pc with
      | (false, _, _, _) => None
      | (true, opcode, vData, pc) => if OP_16 <? opcode then None else last_push fuel pc vData
      end
  end.
Definition GetSigOpCount_p2sh (script scriptSig : bytes) : Z :=
  if negb (IsPayToScriptHash script) then GetSigOpCount script true else
  match last_push (length scriptSig) scriptSig [] with
  | None => 0
  | Some subscript => GetSigOpCount subscript true
  end.

Definition IsUnspendable (script : bytes) : bool :=
  match script with [] => false | op :: _ => op =? OP_RETURN end
  || (MAX_SCRIPT_SIZE <? Z.of_nat (length script)).

(** [FindAndDelete]: [result] grows by the bytes between [pc2] and [pc], instruction by
    instruction; [skip_matches] is the inner loop. *)
Fixpoint skip_matches (fuel : nat) (b pc : bytes) (nFound : Z) : bytes * Z :=
  match fuel with
  | O => (pc, nFound)
  | S fuel =>
      if (zlen b <=? zlen pc) && bool_decide (take (length b) pc = b)
      then skip_matches fuel b (drop (length b) pc) (nFound + 1)
      else (pc, nFound)
  end.

Fixpoint FindAndDelete_loop (fuel : nat) (b pc result : bytes) (nFound : Z) : bytes * bytes * Z :=
  let '(pc, nFound) := skip_matches (length pc) b pc nFound in
  let pc2 := pc in
  match fuel with
  | O => (result, pc2, nFound)
  | S fuel =>
      match GetScriptOp pc with
      | (false, _, _, _) => (result, pc2, nFound)
      | (true, _, _, pc) => FindAndDelete_loop fuel b pc (result ++ take (length pc2 - length pc) pc2) nFound
      end
  end.

Definition FindAndDelete (script b : bytes) : bytes * Z :=
  if (length b =? 0)%nat then (script, 0) else
  let '(result, pc2, nFound) := FindAndDelete_loop (length script) b script [] 0 in
  if 0 <? nFound then (result ++ pc2, nFound) else (script, nFound).

(** ** Script numbers: theory *)

Lemma byte_sign b : urange 8 b → negb (b .& 0x80 =? 0) = (128 <=? b).
Proof.
  intros [Hb1 Hb2]. change (b .& 0x80) with (b .& (1 .<< 7)). rewrite land_bit_eqb by lia.
  destruct (Z.leb_spec 128 b); [apply Z.testbit_true|apply Z.testbit_false]; try lia;
    change (2 ^ 7) with 128 in *; change (2 ^ 8) with 256 in *; zlia.
Qed.
Lemma byte_sign' b : urange 8 b → (b .& 0x80 =? 0) = (b <? 128).
Proof.
  intros Hb. pose proof (byte_sign b Hb) as H.
  destruct (b .& 0x80 =? 0), (Z.leb_spec 128 b), (Z.ltb_spec b 128); try done; lia.
Qed.
Lemma byte_low b : b .& 0x7f = b mod 128.
Proof. change 0x7f with (Z.ones 7). by rewrite Z.land_ones. Qed.
Lemma byte_set_sign b : 0 ≤ b < 128 → b .| 0x80 = b + 128.
Proof.
  intros Hb. rewrite Z.lor_comm. change 0x80 with (1 * 2 ^ 7). rewrite lor_add_disjoint by lia. lia.
Qed.

Lemma swrap_eq w x y q : 0 < w → srange w y → x = y + q * 2 ^ w → swrap w x = y.
Proof.
  intros Hw Hy ->. unfold swrap.
  replace (y + q * 2 ^ w + 2 ^ (w - 1)) with (y + 2 ^ (w - 1) + q * 2 ^ w) by lia.
  rewrite Z.mod_add by lia. by apply swrap_small.
Qed.

Lemma u64_i64 x : u64 (i64 x) = u64 x.
Proof. unfold uwrap, swrap. rewrite Zminus_mod_idemp_l. f_equal. lia. Qed.

(** Sign and magnitude, the sign in the top bit of the last byte. *)
Definition num_value (v : bytes) : Z :=
  if 128 <=? back v then - (undigits 8 v - 2 ^ (8 * zlen v - 1)) else undigits 8 v.

Lemma back_app v b : back (v ++ [b]) = b.
Proof.
  unfold back, zget. rewrite length_app. simpl. replace (length v + 1 - 1)%nat with (length v) by lia.
  by rewrite list_lookup_middle.
Qed.
Lemma back_cons d v : v ≠ [] → back (d :: v) = back v.
Proof.
  intros Hv. unfold back. destruct v as [|e v]; [done|].
  cbn [length]. replace (S (S (length v)) - 1)%nat with (S (S (length v) - 1)) by lia. by rewrite zget_cons_S.
Qed.
Lemma snoc_back v : v ≠ [] → ∃ lo, v = lo ++ [back v].
Proof.
  intros Hv. destruct (exists_last Hv) as (lo & b & ->). exists lo. by rewrite back_app.
Qed.
Lemma undigits_snoc lo b : undigits 8 (lo ++ [b]) = undigits 8 lo + 2 ^ (8 * zlen lo) * b.
Proof. rewrite undigits_app by lia. cbn [undigits]. lia. Qed.
Lemma zlen_snoc (lo : bytes) b : zlen (lo ++ [b]) = zlen lo + 1.
Proof. rewrite length_app. simpl. lia. Qed.

(** The loop of [set_vch] assembles the bytes. *)
Lemma set_vch_loop v :
  bytes_ok v → (length v ≤ 8)%nat →
  foldl (λ result i, result .| i64 (v.[i] .<< (8 * Z.of_nat i))) 0 (seq 0 (length v))
  = i64 (undigits 8 v).
Proof.
  intros Hv Hlen. replace (undigits 8 v) with (undigits 8 (take (length v) v)) by (by rewrite take_ge).
  apply (foldl_seq_ind (λ k r, r = i64 (undigits 8 (take k v))) _ 0 (length v)); [done|].
  intros k r Hk ->. rewrite undigits_take_S by lia.
  pose proof (undigits_take_range 8 ltac:(lia) v k Hv ltac:(lia)) as Hr.
  pose proof (digits_ok_zget 8 ltac:(lia) v k Hv) as [Hb1 Hb2]. change (2 ^ 8) with 256 in Hb2.
  set (r := undigits 8 (take k v)) in *. set (b := v.[k]) in *. set (n := 8 * Z.of_nat k) in *.
  rewrite Z.shiftl_mul_pow2 by lia.
  assert (0 < 2 ^ n) by lia.
  assert (2 ^ n ≤ 2 ^ 56) by (apply Z.pow_le_mono_r; lia).
  rewrite (swrap_small 64 r) by (unfold srange; lia).
  destruct (decide (b < 128 ∨ (k < 7)%nat)) as [Hsmall|Hbig].
  - assert (b * 2 ^ n < 2 ^ 63 ∧ r + b * 2 ^ n < 2 ^ 63) as [Hs1 Hs2].
    { destruct (decide (k < 7)%nat).
      - assert (2 ^ n ≤ 2 ^ 48) by (apply Z.pow_le_mono_r; lia). nia.
      - assert (b < 128) by lia. nia. }
    rewrite !(swrap_small 64) by (unfold srange; nia).
    rewrite Z.lor_comm, lor_add_disjoint by lia. lia.
  - assert (k = 7%nat) as Hk7 by lia. assert (n = 56) as Hn by lia. rewrite Hn in *.
    rewrite (swrap_eq 64 _ ((b - 256) * 2 ^ 56) 1) by (unfold srange; lia).
    rewrite Z.lor_comm, lor_add_disjoint by lia. symmetry.
    apply (swrap_eq 64 _ _ 1); unfold srange; lia.
Qed.

Lemma clear_bit x k : 0 ≤ k → Z.testbit x k = true → x .& Z.lnot (2 ^ k) = x - 2 ^ k.
Proof.
  intros Hk Hb. rewrite Z.sub_nocarry_ldiff; [by rewrite Z.ldiff_land|].
  apply Z.bits_inj'. intros n Hn. rewrite Z.ldiff_spec, Z.pow2_bits_eqb, Z.bits_0 by lia.
  destruct (Z.eqb_spec k n) as [<-|]; [by rewrite Hb|done].
Qed.

Lemma set_vch_value v : bytes_ok v → (length v ≤ 8)%nat → v ≠ [] → set_vch v = num_value v.
Proof.
  intros Hv Hlen Hne. unfold set_vch, num_value.
  destruct (Nat.eqb_spec (length v) 0) as [H0|_]; [by apply nil_length_inv in H0|].
  rewrite set_vch_loop by done.
  assert (urange 8 (back v)) as Hbk by (by apply digits_ok_zget).
  rewrite byte_sign by done.
  destruct (snoc_back v Hne) as [lo Hlo]. set (b := back v) in *. clearbody b. subst v.
  apply digits_ok_app in Hv as [Hok _].
  pose proof (undigits_range 8 ltac:(lia) lo Hok) as Hr.
  rewrite length_app in Hlen. simpl in Hlen.
  rewrite undigits_snoc, zlen_snoc. set (n := zlen lo) in *. set (r := undigits 8 lo) in *.
  destruct Hbk as [Hb1 Hb2]. change (2 ^ 8) with 256 in Hb2.
  replace (8 * (n + 1) - 1) with (8 * n + 7) by lia. rewrite Z.pow_add_r by lia.
  assert (0 < 2 ^ (8 * n)) by lia.
  assert (2 ^ (8 * n) ≤ 2 ^ 56) by (apply Z.pow_le_mono_r; lia).
  destruct (Z.leb_spec 128 b).
  - replace (u64 (i64 (r + 2 ^ (8 * n) * b))) with (r + 2 ^ (8 * n) * b).
    2:{ rewrite u64_i64, uwrap_small by (unfold urange; nia). done. }
    replace (0x80 .<< (8 * (n + 1 - 1))) with (2 ^ (8 * n + 7)).
    2:{ rewrite Z.shiftl_mul_pow2, Z.pow_add_r by lia. replace (8 * (n + 1 - 1)) with (8 * n) by lia. lia. }
    rewrite <-land_ones_uwrap, (Z.land_comm (Z.lnot _)), Z.land_assoc, land_ones_uwrap by lia.
    rewrite uwrap_small by (unfold urange; nia).
    rewrite clear_bit; [|lia|].
    + rewrite Z.pow_add_r by lia. change (2 ^ 7) with 128.
      assert (0 ≤ 2 ^ (8 * n) * (b - 128) ≤ 2 ^ (8 * n) * 127) by nia.
      rewrite (swrap_small 64 (r + _ - _)) by (unfold srange; lia).
      rewrite swrap_small by (unfold srange; lia). lia.
    + apply Z.testbit_true; [lia|].
      rewrite Z.pow_add_r, <-Z.div_div by lia.
      rewrite (Z.mul_comm (2 ^ (8 * n)) b), Z.div_add, (Z.div_small r) by lia. change (2 ^ 7) with 128. zlia.
  - apply swrap_small; [lia|]. unfold srange. nia.
Qed.

(** The loop of [serialize] writes the digits of the magnitude. *)
Lemma serialize_loop_digits l fuel :
  bytes_ok l → back l ≠ 0 → (length l ≤ fuel)%nat → serialize_loop fuel (undigits 8 l) = l.
Proof.
  revert fuel. induction l as [|d l IH]; intros fuel Hok Hb Hf; [by destruct fuel|].
  destruct fuel as [|fuel]; [simpl in Hf; lia|]. apply digits_ok_cons in Hok as [Hd Hok].
  pose proof (undigits_range 8 ltac:(lia) l Hok) as Hr. unfold urange in Hd.
  assert (l ≠ [] → undigits 8 l ≠ 0) as Hnz.
  { intros Hl H0. destruct (snoc_back l Hl) as [lo Hlo]. rewrite Hlo in H0, Hok.
    apply digits_ok_app in Hok as [Hok [Hbk _]%digits_ok_cons].
    rewrite undigits_snoc in H0. pose proof (undigits_range 8 ltac:(lia) lo Hok).
    rewrite back_cons in Hb by done. unfold urange in Hbk. nia. }
  cbn [serialize_loop undigits].
  assert (d + 2 ^ 8 * undigits 8 l ≠ 0) as Hne.
  { destruct l as [|e l]; [unfold back in Hb; simpl in Hb; cbn [undigits]; unfold zget in Hb; simpl in Hb; lia|].
    specialize (Hnz ltac:(done)). lia. }
  apply Z.eqb_neq in Hne. rewrite Hne. change 0xff with (Z.ones 8).
  rewrite Z.land_ones, Z.shiftr_div_pow2 by lia.
  rewrite (Z.mul_comm (2 ^ 8)), Z.mod_add, Z.div_add, Z.mod_small, Z.div_small, Z.add_0_l by lia.
  f_equal. destruct l as [|e l]; [by destruct fuel|]. apply IH; [done| |simpl in *; lia].
  by rewrite back_cons in Hb.
Qed.

Lemma serialize_loop_spec fuel a :
  0 < a < 2 ^ (8 * Z.of_nat fuel) →
  let l := serialize_loop fuel a in
  undigits 8 l = a ∧ bytes_ok l ∧ back l ≠ 0 ∧ l ≠ [] ∧ (length l ≤ fuel)%nat.
Proof.
  revert a. induction fuel as [|fuel IH]; intros a Ha; [simpl in Ha; lia|].
  cbn [serialize_loop]. destruct (Z.eqb_spec a 0); [lia|]. change 0xff with (Z.ones 8).
  rewrite Z.land_ones, Z.shiftr_div_pow2 by lia. cbv zeta.
  replace (8 * Z.of_nat (S fuel)) with (8 + 8 * Z.of_nat fuel) in Ha by lia.
  rewrite Z.pow_add_r in Ha by lia. pose proof (Z.mod_pos_bound a (2 ^ 8) ltac:(lia)).
  pose proof (Z.div_mod a (2 ^ 8) ltac:(lia)).
  destruct (decide (a / 2 ^ 8 = 0)) as [Hq|Hq].
  - rewrite Hq. assert (serialize_loop fuel 0 = []) as -> by (by destruct fuel).
    cbn [undigits length]. split_and!; try done; [lia| |unfold back, zget; simpl; lia|lia].
    by apply digits_ok_singleton.
  - destruct (IH (a / 2 ^ 8)) as (Hu & Hok & Hb & Hne & Hlen); [zlia|].
    cbn [undigits length]. rewrite Hu. split_and!; [lia| |by rewrite back_cons|done|lia].
    by apply digits_ok_cons.
Qed.

(** The strings that [CScriptNum] takes when it requires minimality. *)
Definition minimal (v : bytes) : bool :=
  match v with
  | [] => true
  | _ => negb ((back v .& 0x7f =? 0) && ((zlen v <=? 1) || (v.[length v - 2] .& 0x80 =? 0)))
  end.

Lemma minimal_snoc lo b :
  bytes_ok lo → minimal (lo ++ [b]) = negb (b mod 128 =? 0) || (negb (length lo =? 0)%nat && (128 <=? back lo)).
Proof.
  intros Hok. unfold minimal. destruct (lo ++ [b]) as [|c v] eqn:E; [by destruct lo|]. rewrite <-E; clear c v E.
  rewrite back_app, byte_low, negb_andb, negb_orb, zlen_snoc, length_app. cbn [length].
  f_equal. destruct lo as [|e lo]; [done|]. replace (zlen (e :: lo) + 1 <=? 1) with false by (symmetry; apply Z.leb_gt; simpl; lia).
  cbn [negb andb length Nat.eqb]. rewrite <-byte_sign by (by apply digits_ok_zget). unfold back.
  cbn [length]. replace (S (length lo) + 1 - 2)%nat with (S (length lo) - 1)%nat by lia.
  unfold zget. by rewrite lookup_app_l by (simpl; lia).
Qed.

Lemma CScriptNum_spec v m n :
  bytes_ok v → n ≤ 8 →
  CScriptNum v m n =
    if n <? zlen v then inl script_number_overflow
    else if m && negb (minimal v) then inl non_minimally_encoded
    else inr (match v with [] => 0 | _ => num_value v end).
Proof.
  intros Hok Hn. unfold CScriptNum. destruct (Z.ltb_spec n (zlen v)) as [|Hle]; [done|].
  destruct v as [|b v]; [by destruct m|].
  replace (0 <? zlen (b :: v)) with true by (symmetry; apply Z.ltb_lt; simpl; lia).
  unfold minimal. rewrite negb_involutive, andb_true_r, <-andb_assoc.
  rewrite set_vch_value by (done || lia). done.
Qed.

(** The value that a string of at most eight bytes stands for. *)
Definition num_decode (v : bytes) : Z := match v with [] => 0 | _ => num_value v end.

Lemma num_decode_snoc lo b :
  num_decode (lo ++ [b]) =
    if 128 <=? b then - (undigits 8 lo + 2 ^ (8 * zlen lo) * (b - 128))
    else undigits 8 lo + 2 ^ (8 * zlen lo) * b.
Proof.
  unfold num_decode. destruct (lo ++ [b]) as [|c v] eqn:E; [by destruct lo|]. rewrite <-E; clear c v E.
  unfold num_value. rewrite back_app, undigits_snoc, zlen_snoc.
  destruct (128 <=? b); [|done]. replace (8 * (zlen lo + 1) - 1) with (8 * zlen lo + 7) by lia.
  rewrite Z.pow_add_r by lia. change (2 ^ 7) with 128. lia.
Qed.

Lemma num_decode_range v n : bytes_ok v → zlen v ≤ n → 1 ≤ n → Z.abs (num_decode v) < 2 ^ (8 * n - 1).
Proof.
  intros Hok Hlen Hn. destruct (decide (v = [])) as [->|Hne]; [simpl; lia|].
  destruct (snoc_back v Hne) as [lo Hlo]. set (b := back v) in *. clearbody b. subst v.
  apply digits_ok_app in Hok as [Hok [Hb1 Hb2]%digits_ok_singleton]. change (2 ^ 8) with 256 in Hb2.
  rewrite zlen_snoc in Hlen. pose proof (undigits_range 8 ltac:(lia) lo Hok).
  assert (2 ^ (8 * zlen lo) * 128 ≤ 2 ^ (8 * n - 1)).
  { change 128 with (2 ^ 7). rewrite <-Z.pow_add_r by lia. apply Z.pow_le_mono_r; lia. }
  rewrite num_decode_snoc. destruct (Z.leb_spec 128 b); nia.
Qed.

(** The two forms that [serialize] gives to a magnitude with digits [lo ++ [c]]. *)
Lemma serialize_digits (neg : bool) lo c :
  bytes_ok (lo ++ [c]) → c ≠ 0 → (length lo < 8)%nat →
  let m := undigits 8 (lo ++ [c]) in
  m ≤ 2 ^ 63 →
  serialize (if neg then - m else m) =
    if 128 <=? c then lo ++ [c; if neg then 0x80 else 0]
    else lo ++ [if neg then c + 128 else c].
Proof.
  intros Hok Hc Hlen m Hm. unfold serialize.
  pose proof (undigits_range 8 ltac:(lia) _ Hok) as [Hm0 _]. fold m in Hm0.
  assert (0 < m) as Hpos.
  { unfold m in *. rewrite undigits_snoc in *. apply digits_ok_app in Hok as [Hok [Hc1 _]%digits_ok_singleton].
    pose proof (undigits_range 8 ltac:(lia) lo Hok). nia. }
  assert (serialize_loop 8 m = lo ++ [c]) as Hl.
  { apply serialize_loop_digits; [done|by rewrite back_app|rewrite length_app; simpl; lia]. }
  assert (u64 m = m) as Hu by (apply uwrap_small; unfold urange; lia).
  assert (urange 8 c) as Hcr by (by apply digits_ok_app in Hok as [_ ?%digits_ok_singleton]).
  destruct (Z.eqb_spec (if neg then - m else m) 0); [destruct neg; lia|].
  replace ((if neg then - m else m) <? 0) with neg by (destruct neg; symmetry; [apply Z.ltb_lt|apply Z.ltb_ge]; lia).
  replace (if neg then u64 (Z.lnot (if neg then - m else m) + 1) else u64 (if neg then - m else m)) with m
    by (destruct neg; [unfold Z.lnot; rewrite <-Hu at 1; f_equal; lia|done]).
  cbv zeta. rewrite Hl, back_app, byte_sign by done.
  destruct (Z.leb_spec 128 c); [by rewrite <-app_assoc|].
  destruct neg; [|done]. unfold set_back. rewrite length_app, byte_set_sign by (destruct Hcr; lia).
  simpl. replace (length lo + 1 - 1)%nat with (length lo) by lia. by rewrite take_app_length.
Qed.

Lemma serialize_unique v : bytes_ok v → (length v ≤ 8)%nat → minimal v = true → serialize (num_decode v) = v.
Proof.
  intros Hok Hlen Hmin. destruct (decide (v = [])) as [->|Hne]; [done|].
  destruct (snoc_back v Hne) as [lo Hlo]. set (b := back v) in *. clearbody b. subst v.
  apply digits_ok_app in Hok as [Hok Hb]. apply digits_ok_singleton in Hb as Hbr.
  rewrite length_app in Hlen. simpl in Hlen. rewrite minimal_snoc in Hmin by done.
  pose proof (num_decode_range (lo ++ [b]) 8 ltac:(by apply digits_ok_app) ltac:(rewrite zlen_snoc; lia) ltac:(lia)) as Hrange.
  change (2 ^ (8 * 8 - 1)) with (2 ^ 63) in Hrange.
  rewrite num_decode_snoc in *. destruct Hbr as [Hb1 Hb2]. change (2 ^ 8) with 256 in Hb2.
  destruct (Z.eqb_spec (b mod 128) 0) as [H0|H0].
  - cbn [negb orb] in Hmin. apply andb_true_iff in Hmin as [Hl Hbk%Z.leb_le].
    assert (lo ≠ []) as Hlne by (by destruct lo).
    destruct (snoc_back lo Hlne) as [lo' Hlo']. set (c := back lo) in *. clearbody c. subst lo.
    rewrite length_app in Hlen. simpl in Hlen.
    pose proof (undigits_range 8 ltac:(lia) _ Hok).
    assert (b = 0 ∨ b = 128) as [-> | ->] by zlia; simpl in *;
      [pose proof (serialize_digits false lo' c) as Hs|pose proof (serialize_digits true lo' c) as Hs];
      cbv zeta iota in Hs; rewrite ?Z.mul_0_r, ?Z.add_0_r in *;
      rewrite Hs by (done || lia);
      destruct (Z.leb_spec 128 c); try lia; by rewrite <-app_assoc.
  - destruct (Z.leb_spec 128 b).
    + pose proof (serialize_digits true lo (b - 128)) as Hs. cbv zeta iota in Hs.
      rewrite undigits_snoc in Hs. rewrite Hs.
      * destruct (Z.leb_spec 128 (b - 128)); [lia|]. do 2 f_equal. lia.
      * apply digits_ok_app; split; [done|]. apply digits_ok_singleton. unfold urange. lia.
      * zlia.
      * lia.
      * pose proof (undigits_range 8 ltac:(lia) lo Hok). nia.
    + pose proof (serialize_digits false lo b) as Hs. cbv zeta iota in Hs.
      rewrite undigits_snoc in Hs. rewrite Hs.
      * destruct (Z.leb_spec 128 b); [lia|done].
      * by apply digits_ok_app.
      * zlia.
      * lia.
      * lia.
Qed.

Lemma serialize_num_decode v :
  - 2 ^ 63 < v < 2 ^ 63 →
  bytes_ok (serialize v) ∧ minimal (serialize v) = true ∧ num_decode (serialize v) = v ∧
  ∀ n, 1 ≤ n → Z.abs v < 2 ^ (8 * n - 1) → zlen (serialize v) ≤ n.
Proof.
  intros Hv. destruct (decide (v = 0)) as [->|Hv0].
  { split_and!; try done; [apply digits_ok_nil|]. intros. simpl. lia. }
  set (m := Z.abs v). destruct (serialize_loop_spec 8 m) as (Hu & Hok & Hb & Hne & Hlen).
  { change (8 * Z.of_nat 8) with 64. lia. }
  set (l := serialize_loop 8 m) in *. clearbody l.
  destruct (snoc_back l Hne) as [lo Hlo]. set (c := back l) in *. clearbody c. subst l.
  rewrite length_app in Hlen. simpl in Hlen.
  pose proof (serialize_digits (v <? 0) lo c Hok Hb ltac:(lia)) as Hs. cbv zeta in Hs.
  rewrite Hu in Hs. replace (if v <? 0 then - m else m) with v in Hs
    by (unfold m; destruct (Z.ltb_spec v 0); lia).
  specialize (Hs ltac:(lia)). rewrite Hs. clear Hs.
  apply digits_ok_app in Hok as [Hok Hc%digits_ok_singleton]. rewrite undigits_snoc in Hu.
  pose proof Hc as [Hc1 Hc2]. change (2 ^ 8) with 256 in Hc2.
  pose proof (undigits_range 8 ltac:(lia) _ Hok) as Hr.
  destruct (Z.leb_spec 128 c) as [Hge|Hlt].
  - rewrite (cons_middle c lo), app_assoc.
    assert (bytes_ok (lo ++ [c])) as Hokc by (apply digits_ok_app; split; [done|by apply digits_ok_singleton]).
    split_and!.
    + apply digits_ok_app; split; [done|]. apply digits_ok_singleton. destruct (v <? 0); unfold urange; lia.
    + rewrite minimal_snoc, back_app, length_app by done. simpl. rewrite Nat.add_1_r. simpl.
      by rewrite (proj2 (Z.leb_le 128 c) Hge), orb_true_r.
    + rewrite num_decode_snoc, undigits_snoc.
      unfold m in *. destruct (Z.ltb_spec v 0); simpl; rewrite ?Z.mul_0_r; lia.
    + intros n Hn Hm. rewrite !zlen_snoc.
      assert (2 ^ (8 * zlen lo + 7) < 2 ^ (8 * n - 1)) as Hlt%Z.pow_lt_mono_r_iff; [|lia..].
      rewrite Z.pow_add_r by lia. change (2 ^ 7) with 128. fold m in Hm. nia.
  - split_and!.
    + apply digits_ok_app; split; [done|]. apply digits_ok_singleton. destruct (v <? 0); unfold urange; lia.
    + rewrite minimal_snoc by done. apply orb_true_iff; left. apply negb_true_iff, Z.eqb_neq.
      destruct (v <? 0); zlia.
    + rewrite num_decode_snoc. unfold m in *.
      destruct (Z.ltb_spec v 0); [destruct (Z.leb_spec 128 (c + 128))|destruct (Z.leb_spec 128 c)]; nia.
    + intros n Hn Hm. rewrite zlen_snoc.
      assert (2 ^ (8 * zlen lo) < 2 ^ (8 * n - 1)) as Hlt'%Z.pow_lt_mono_r_iff; [|lia..].
      fold m in Hm. nia.
Qed.

(** Script numbers are a codec.  [serialize] turns every 64-bit integer but the smallest
    into a minimal string that decodes to it, of at most [n] bytes when the integer fits in
    [n] bytes with a sign bit.  Reading a string of at most [n] bytes gives an integer that
    fits in [n] bytes with a sign bit; when minimality is required the string is the one that
    [serialize] writes for that integer, and what is rejected is only too long or not minimal.
    So the operands of arithmetic (4 bytes) are below 2^31 and cannot overflow. *)
Theorem script_num_codec :
  (∀ v n, 1 ≤ n ≤ 8 → Z.abs v < 2 ^ (8 * n - 1) →
    bytes_ok (serialize v) ∧ ∀ m, CScriptNum (serialize v) m n = inr v) ∧
  (∀ vch m n v, bytes_ok vch → 1 ≤ n ≤ 8 → CScriptNum vch m n = inr v →
    Z.abs v < 2 ^ (8 * n - 1) ∧ zlen vch ≤ n ∧ (m = true → serialize v = vch)) ∧
  (∀ vch m n e, bytes_ok vch → 1 ≤ n ≤ 8 → CScriptNum vch m n = inl e →
    (e = script_number_overflow ∧ n < zlen vch) ∨
    (e = non_minimally_encoded ∧ m = true ∧ ∀ v, Z.abs v < 2 ^ 63 → serialize v ≠ vch)).
Proof.
  split_and!.
  - intros v n Hn Hv.
    assert (2 ^ (8 * n - 1) ≤ 2 ^ 63) by (apply Z.pow_le_mono_r; lia).
    destruct (serialize_num_decode v ltac:(lia)) as (Hok & Hmin & Hd & Hlen). split; [done|].
    intros m. rewrite CScriptNum_spec by (done || lia). fold (num_decode (serialize v)).
    specialize (Hlen n ltac:(lia) Hv). destruct (Z.ltb_spec n (zlen (serialize v))); [lia|].
    by rewrite Hmin, Hd, andb_false_r.
  - intros vch m n v Hok Hn. rewrite CScriptNum_spec by (done || lia). fold (num_decode vch).
    destruct (Z.ltb_spec n (zlen vch)) as [|Hle]; [done|].
    destruct m, (minimal vch) eqn:Hmin; simpl; try done; intros [= <-];
      (split; [apply num_decode_range; (done || lia)|]); (split; [done|]); try done.
    intros _. apply serialize_unique; [done|lia|done].
  - intros vch m n e Hok Hn. rewrite CScriptNum_spec by (done || lia).
    destruct (Z.ltb_spec n (zlen vch)) as [|Hle]; [intros [= <-]; by left|].
    destruct m, (minimal vch) eqn:Hmin; simpl; try done. intros [= <-]. right. split_and!; [done..|].
    intros v Hv <-. destruct (serialize_num_decode v ltac:(lia)) as (_ & Hm & _). congruence.
Qed.

(** ** Instructions *)

Lemma GetScriptOp_progress pc ok opcode data rest :
  GetScriptOp pc = (ok, opcode, data, rest) → pc ≠ [] → (length rest < length pc)%nat.
Proof.
  unfold GetScriptOp, immediate, GetScriptOp_fail. destruct pc as [|b pc]; [done|]. intros H _.
  repeat case_match; simplify_eq; simpl; rewrite ?length_drop; simpl in *; lia.
Qed.

Lemma immediate_app opcode (data rest : bytes) :
  immediate opcode (zlen data) (data ++ rest) = (true, opcode, data, rest).
Proof.
  unfold immediate. rewrite length_app. destruct (Z.ltb_spec (Z.of_nat (length data + length rest)) (zlen data)); [lia|].
  by rewrite Nat2Z.id, take_app_length, drop_app_length.
Qed.
Lemma immediate_inv opcode n q opcode' data rest :
  immediate opcode n q = (true, opcode', data, rest) → 0 ≤ n →
  opcode' = opcode ∧ q = data ++ rest ∧ zlen data = n.
Proof.
  unfold immediate. destruct (Z.ltb_spec (zlen q) n); [done|]. intros [= <- <- <-] Hn.
  split_and!; [done|by rewrite take_drop|]. rewrite length_take. lia.
Qed.

(** What precedes the operand of a push: the opcode and the bytes of the size. *)
Definition push_header (i : bytes) (opcode n : Z) : Prop :=
  (i = [opcode] ∧ n = opcode ∧ opcode < OP_PUSHDATA1) ∨
  (i = OP_PUSHDATA1 :: digits 8 1 n ∧ opcode = OP_PUSHDATA1 ∧ urange 8 n) ∨
  (i = OP_PUSHDATA2 :: digits 8 2 n ∧ opcode = OP_PUSHDATA2 ∧ urange 16 n) ∨
  (i = OP_PUSHDATA4 :: digits 8 4 n ∧ opcode = OP_PUSHDATA4 ∧ urange 32 n).

Lemma take_digits n x (rest : bytes) : take n (digits 8 n x ++ rest) = digits 8 n x.
Proof. apply take_app_length'. by rewrite length_digits. Qed.
Lemma drop_digits n x (rest : bytes) : drop n (digits 8 n x ++ rest) = rest.
Proof. apply drop_app_length'. by rewrite length_digits. Qed.

Lemma GetScriptOp_push i opcode data rest :
  push_header i opcode (zlen data) → GetScriptOp (i ++ data ++ rest) = (true, opcode, data, rest).
Proof.
  intros [(-> & Hn & Hlt)|[(-> & -> & Hn)|[(-> & -> & Hn)|(-> & -> & Hn)]]]; unfold GetScriptOp; cbn [app].
  - destruct (Z.leb_spec opcode OP_PUSHDATA4) as [_|?]; [|unfold OP_PUSHDATA4, OP_PUSHDATA1 in *; lia].
    destruct (Z.ltb_spec opcode OP_PUSHDATA1); [|lia]. rewrite <-Hn at 2. apply immediate_app.
  - cbn [digits app Z.leb Z.ltb Z.eqb Z.compare]. rewrite Z.mod_small by done. apply immediate_app.
  - assert (ReadLE16 (digits 8 2 (zlen data) ++ data ++ rest) = zlen data) as HR.
    { unfold ReadLE16. rewrite take_digits, undigits_digits by lia. by apply Z.mod_small. }
    rewrite HR, drop_digits. rewrite length_app, length_digits.
    cbn [Z.leb Z.ltb Z.eqb Z.compare]. destruct (Z.ltb_spec (Z.of_nat (2 + length (data ++ rest))) 2); [lia|].
    apply immediate_app.
  - assert (ReadLE32 (digits 8 4 (zlen data) ++ data ++ rest) = zlen data) as HR.
    { unfold ReadLE32. rewrite take_digits, undigits_digits by lia. by apply Z.mod_small. }
    rewrite HR, drop_digits. rewrite length_app, length_digits.
    cbn [Z.leb Z.ltb Z.eqb Z.compare]. destruct (Z.ltb_spec (Z.of_nat (4 + length (data ++ rest))) 4); [lia|].
    apply immediate_app.
Qed.

(** An instruction is a header followed by its data; other opcodes have no data. *)
Definition instruction (i : bytes) (opcode : Z) (data : bytes) : Prop :=
  push_header i opcode (zlen data) ∨ (i = [opcode] ∧ data = [] ∧ OP_PUSHDATA4 < opcode).

Lemma GetScriptOp_instruction i opcode data rest :
  instruction i opcode data → GetScriptOp (i ++ data ++ rest) = (true, opcode, data, rest).
Proof.
  intros [H|(-> & -> & H)]; [by apply GetScriptOp_push|]. simpl.
  by destruct (Z.leb_spec opcode OP_PUSHDATA4); [lia|].
Qed.

Lemma read_size n (pc : bytes) :
  bytes_ok pc → ¬ zlen pc < Z.of_nat n →
  pc = digits 8 n (undigits 8 (take n pc)) ++ drop n pc ∧ urange (8 * Z.of_nat n) (undigits 8 (take n pc)).
Proof.
  intros Hok Hn. assert (length (take n pc) = n) as Hl by (rewrite length_take; lia).
  assert (bytes_ok (take n pc)) as Ht by (by apply digits_ok_take).
  pose proof (undigits_range 8 ltac:(lia) _ Ht) as Hr. pose proof (digits_undigits 8 ltac:(lia) _ Ht) as Hd.
  rewrite Hl in Hr, Hd. by rewrite Hd, take_drop.
Qed.

Lemma GetScriptOp_inv pc opcode data rest :
  bytes_ok pc → GetScriptOp pc = (true, opcode, data, rest) →
  ∃ i, pc = i ++ data ++ rest ∧ instruction i opcode data ∧ urange 8 opcode.
Proof.
  destruct pc as [|b pc]; [done|]. intros [Hb Hok]%digits_ok_cons. unfold GetScriptOp.
  destruct (Z.leb_spec b OP_PUSHDATA4) as [Hle|Hgt]; [|intros [= <- <- <-]; by exists [b]; split_and!; [|right|]].
  destruct (Z.ltb_spec b OP_PUSHDATA1) as [Hlt1|Hge1]; [|destruct (Z.eqb_spec b OP_PUSHDATA1) as [->|Hne1];
    [destruct pc as [|sz pc]; [done|]|destruct (Z.eqb_spec b OP_PUSHDATA2) as [->|Hne2]; (case_match eqn:Hsz; [done|apply Z.ltb_ge in Hsz])]].
  - intros (-> & -> & Hn)%immediate_inv; [|apply Hb]. exists [b]. split_and!; [done| |done]. left. left. by rewrite Hn.
  - apply digits_ok_cons in Hok as [Hsz Hok].
    intros (-> & -> & Hn)%immediate_inv; [|apply Hsz]. exists [OP_PUSHDATA1; sz]. split_and!; [done| |done].
    left. right. left. rewrite Hn. cbn [digits]. by rewrite Z.mod_small.
  - destruct (read_size 2 pc Hok ltac:(lia)) as [Hpc Hr].
    intros (-> & Hd & Hn)%immediate_inv; [|apply Hr]. exists (OP_PUSHDATA2 :: digits 8 2 (zlen data)). split_and!; [|left|done].
    + rewrite Hpc at 1. by rewrite Hd, Hn.
    + right. right. left. split_and!; [done..|]. by rewrite Hn.
  - assert (b = OP_PUSHDATA4) as -> by (unfold OP_PUSHDATA1, OP_PUSHDATA2, OP_PUSHDATA4 in *; lia).
    destruct (read_size 4 pc Hok ltac:(lia)) as [Hpc Hr].
    intros (-> & Hd & Hn)%immediate_inv; [|apply Hr]. exists (OP_PUSHDATA4 :: digits 8 4 (zlen data)). split_and!; [|left|done].
    + rewrite Hpc at 1. by rewrite Hd, Hn.
    + right. right. right. split_and!; [done..|]. by rewrite Hn.
Qed.

Lemma AppendDataSize_header n :
  0 ≤ n < 2 ^ 32 →
  push_header (AppendDataSize (u32 n))
    (if n <? OP_PUSHDATA1 then n else if n <=? 0xff then OP_PUSHDATA1 else if n <=? 0xffff then OP_PUSHDATA2 else OP_PUSHDATA4) n.
Proof.
  intros Hn. rewrite uwrap_small by done. unfold AppendDataSize, push_header, WriteLE16, WriteLE32.
  assert (OP_PUSHDATA1 = 76) as HP by done.
  destruct (Z.ltb_spec n OP_PUSHDATA1); [left; rewrite uwrap_small by (unfold urange; lia); done|].
  right. destruct (Z.leb_spec n 0xff); [left|right; destruct (Z.leb_spec n 0xffff); [left|right]];
    rewrite ?uwrap_small by (unfold urange; lia); split_and!; try done; unfold urange; try lia.
  unfold digits. by rewrite Z.mod_small by lia.
Qed.

(** [CheckMinimalPush] of the instruction that [operator<<] writes for some data. *)
Lemma push_data_read data rest :
  zlen data < 2 ^ 32 →
  ∃ opcode, GetScriptOp (push_data data ++ rest) = (true, opcode, data, rest) ∧ opcode ≤ OP_PUSHDATA4 ∧
    (CheckMinimalPush data opcode = Some true ↔ ∀ n, -1 ≤ n ≤ 16 → n ≠ 0 → data ≠ serialize n).
Proof.
  intros Hlen. unfold push_data. rewrite <-app_assoc.
  eexists. split; [apply GetScriptOp_push, AppendDataSize_header; lia|].
  unfold CheckMinimalPush. unfold OP_PUSHDATA1, OP_PUSHDATA2, OP_PUSHDATA4, OP_0. split.
  { destruct (Z.ltb_spec (zlen data) 0x4c); repeat case_match; lia. }
  assert (∀ n, -1 ≤ n ≤ 16 → n ≠ 0 → serialize n = [if n =? -1 then 0x81 else n]) as Hs.
  { intros n H1 H2. assert (n = -1 ∨ ∃ k, (k < 16)%nat ∧ n = Z.of_nat (S k)) as [-> | (k & Hk & ->)]; [|done|].
    { destruct (decide (n = -1)); [by left|right]. exists (Z.to_nat (n - 1)). lia. }
    do 16 (destruct k as [|k]; [done|]). lia. }
  destruct data as [|b [|c data]].
  - simpl. split; [|done]. intros _ n H1 H2 H3. by rewrite (Hs n) in H3.
  - simpl. unfold zget; simpl. split.
    + intros H n H1 H2 H3. rewrite (Hs n) in H3 by done. simplify_eq.
      destruct (Z.eqb_spec n (-1)); [done|].
      destruct (Z.leb_spec 1 n); [|lia]. destruct (Z.leb_spec n 16); [done|lia].
    + intros H. destruct (Z.leb_spec 1 b), (Z.leb_spec b 16); simpl; try (destruct (Z.eqb_spec b 0x81) as [->|]; [exfalso; by apply (H (-1))|done]).
      exfalso. apply (H b); [lia..|]. rewrite (Hs b) by lia. by destruct (Z.eqb_spec b (-1)); [lia|].
  - split; [intros _ n H1 H2 H3; by rewrite (Hs n) in H3|intros _].
    set (v := b :: c :: data) in *. assert (2 ≤ zlen v) by (unfold v; simpl; lia).
    destruct (Nat.eqb_spec (length v) 0); [lia|]. destruct (Z.eqb_spec (zlen v) 1); [lia|]. cbn [andb].
    destruct (Z.leb_spec (zlen v) 75), (Z.ltb_spec (zlen v) 0x4c); try lia.
    { rewrite (proj2 (Z.leb_le 0 (zlen v))), (proj2 (Z.leb_le (zlen v) 0x4e)), Z.eqb_refl by lia. done. }
    destruct (Z.leb_spec (zlen v) 255); [done|]. by destruct (Z.leb_spec (zlen v) 65535).
Qed.

(** A script is a sequence of instructions and a tail from which none can be read. *)
Definition is_instr (x : bytes) : Prop := ∃ i opcode data, x = i ++ data ∧ instruction i opcode data.
Definition unreadable (tail : bytes) : Prop := (GetScriptOp tail).1.1.1 = false.
Definition parsed (xs : list bytes) (tail : bytes) : Prop := Forall is_instr xs ∧ unreadable tail.

Lemma is_instr_read x rest :
  is_instr x → ∃ opcode data, GetScriptOp (x ++ rest) = (true, opcode, data, rest) ∧ opcode = x.[0] ∧
    instruction (take (length x - length data) x) opcode data ∧ x = take (length x - length data) x ++ data.
Proof.
  intros (i & opcode & data & -> & Hi). exists opcode, data.
  rewrite <-app_assoc, (GetScriptOp_instruction _ _ _ _ Hi).
  rewrite length_app. replace (length i + length data - length data)%nat with (length i) by lia.
  rewrite take_app_length. split_and!; try done.
  by destruct Hi as [[(-> & _)|[(-> & -> & _)|[(-> & -> & _)|(-> & -> & _)]]]|(-> & _)].
Qed.
Lemma is_instr_nonempty x : is_instr x → (0 < length x)%nat.
Proof.
  intros (i & opcode & data & -> & Hi). rewrite length_app.
  destruct Hi as [[(-> & _)|[(-> & -> & _)|[(-> & -> & _)|(-> & -> & _)]]]|(-> & _)]; simpl; lia.
Qed.

Lemma parse_exists script : bytes_ok script → ∃ xs tail, script = concat xs ++ tail ∧ parsed xs tail.
Proof.
  remember (length script) as n eqn:Hn. revert script Hn.
  induction (lt_wf n) as [n _ IH]. intros script -> Hok.
  destruct (GetScriptOp script) as [[[ok opcode] data] rest] eqn:HG. destruct ok.
  - destruct (GetScriptOp_inv _ _ _ _ Hok HG) as (i & -> & Hi & _).
    destruct (IH (length rest)) with (script := rest) as (xs & tail & -> & Hxs & Ht); [|done|..].
    { eapply GetScriptOp_progress; [done|]. intros H. by rewrite H in HG. }
    { apply digits_ok_app in Hok as [_ [_ ?]%digits_ok_app]. done. }
    exists ((i ++ data) :: xs), tail. split; [by simpl; rewrite <-!app_assoc|].
    split; [|done]. constructor; [by exists i, opcode, data|done].
  - exists [], script. split; [done|]. split; [constructor|]. unfold unreadable. by rewrite HG.
Qed.

(** An instruction is a prefix of a script only as its first instruction. *)
Lemma instr_prefix x xs tail rest :
  is_instr x → parsed xs tail → concat xs ++ tail = x ++ rest → ∃ xs', xs = x :: xs' ∧ rest = concat xs' ++ tail.
Proof.
  intros Hx [Hxs Ht] Heq. destruct (is_instr_read x rest Hx) as (opcode & data & HG & _).
  destruct xs as [|y xs]; simpl in Heq.
  - subst tail. unfold unreadable in Ht. by rewrite HG in Ht.
  - apply Forall_cons_1 in Hxs as [Hy Hxs]. rewrite <-app_assoc in Heq.
    destruct (is_instr_read y (concat xs ++ tail) Hy) as (opcode' & data' & HG' & _).
    rewrite Heq, HG in HG'. simplify_eq. apply app_inv_tail in Heq as ->. eauto.
Qed.

Lemma skip_matches_spec b k xs tail fuel n :
  is_instr b → parsed xs tail → head xs ≠ Some b → (k ≤ fuel)%nat →
  skip_matches fuel b (concat (replicate k b ++ xs) ++ tail) n = (concat xs ++ tail, n + Z.of_nat k).
Proof.
  intros Hb Hp Hhd. revert fuel n. induction k as [|k IH]; intros fuel n Hf.
  - destruct fuel as [|fuel]; simpl; [by rewrite Z.add_0_r|]. case_match eqn:E; [exfalso|by rewrite Z.add_0_r].
    apply andb_true_iff in E as [_ E%bool_decide_eq_true].
    destruct (instr_prefix b xs tail (drop (length b) (concat xs ++ tail))) as (xs' & -> & _); [done..| |done].
    rewrite <-E at 1. by rewrite take_drop.
  - destruct fuel as [|fuel]; [lia|]. simpl. rewrite <-app_assoc, take_app_length, drop_app_length, length_app.
    destruct (Z.leb_spec (zlen b) (Z.of_nat (length b + length (concat (replicate k b ++ xs) ++ tail)))); [|lia].
    rewrite bool_decide_eq_true_2 by done. simpl. rewrite IH by lia. f_equal. lia.
Qed.

Lemma head_run (b : bytes) (xs : list bytes) : ∃ k xs', xs = replicate k b ++ xs' ∧ head xs' ≠ Some b.
Proof.
  induction xs as [|x xs (k & xs' & -> & Hhd)]; [by exists 0%nat, []|].
  destruct (decide (x = b)) as [->|Hne]; [by exists (S k), xs'|].
  exists 0%nat, (x :: replicate k b ++ xs'). split; [done|]. simpl. congruence.
Qed.

Lemma FindAndDelete_loop_spec b fuel xs tail res n :
  is_instr b → parsed xs tail → (length xs ≤ fuel)%nat →
  FindAndDelete_loop fuel b (concat xs ++ tail) res n =
    (res ++ concat (filter (λ x, x ≠ b) xs), tail, n + Z.of_nat (length (filter (λ x, x = b) xs))).
Proof.
  intros Hb. revert xs res n. induction fuel as [|fuel IH]; intros xs res n Hp Hf.
  { destruct xs; [|simpl in Hf; lia]. cbn [FindAndDelete_loop].
    rewrite (skip_matches_spec b 0 [] tail) by (done || lia). simpl. by rewrite app_nil_r. }
  destruct (head_run b xs) as (k & xs' & -> & Hhd). rewrite length_app, length_replicate in Hf.
  assert (parsed xs' tail) as Hp' by (destruct Hp as [[_ ?]%Forall_app ?]; done).
  cbn [FindAndDelete_loop]. rewrite skip_matches_spec; [|done..|].
  2:{ rewrite concat_app, !length_app. assert (k ≤ length (concat (replicate k b)))%nat; [|lia].
      pose proof (is_instr_nonempty b Hb). clear -H. induction k; simpl; rewrite ?length_app; lia. }
  assert (filter (λ x, x ≠ b) (replicate k b ++ xs') = filter (λ x, x ≠ b) xs') as ->.
  { rewrite filter_app. clear. induction k; [done|]. cbn [replicate]. by rewrite filter_cons_False by naive_solver. }
  assert (length (filter (λ x, x = b) (replicate k b ++ xs')) = k + length (filter (λ x, x = b) xs'))%nat as ->.
  { rewrite filter_app, length_app. f_equal. clear. induction k; [done|]. cbn [replicate].
    rewrite filter_cons_True by done. simpl. lia. }
  destruct xs' as [|x xs'].
  - destruct Hp' as [_ Ht]. unfold unreadable in Ht. simpl.
    destruct (GetScriptOp tail) as [[[[] ?] ?] ?]; [done|]. rewrite app_nil_r. f_equal. lia.
  - pose proof Hp' as [[Hx Hxs]%Forall_cons_1 Ht]. simpl. rewrite <-app_assoc.
    destruct (is_instr_read x (concat xs' ++ tail) Hx) as (op & data & -> & _).
    rewrite IH by (done || simpl in Hf; lia).
    assert (x ≠ b) by (simpl in Hhd; congruence).
    rewrite filter_cons_True, filter_cons_False by done. rewrite (length_app x).
    replace (length x + length (concat xs' ++ tail) - length (concat xs' ++ tail))%nat with (length x) by lia.
    rewrite take_app_length. simpl. rewrite <-app_assoc. f_equal. lia.
Qed.

Lemma length_concat_instrs xs : Forall is_instr xs → (length xs ≤ length (concat xs))%nat.
Proof.
  induction 1 as [|x xs Hx%is_instr_nonempty _ IH]; simpl; [lia|]. rewrite length_app. lia.
Qed.
Lemma fuel_enough xs tail : parsed xs tail → (length xs + length tail ≤ length (concat xs ++ tail))%nat.
Proof. intros [?%length_concat_instrs _]. rewrite length_app. lia. Qed.

(** What [operator<<] appends reads back.  Data of less than 2^32 bytes is read as one push
    with that data, and the push is minimal unless an opcode pushes the same data; an integer is
    read as an opcode that pushes it or as a minimal push of its serialization. *)
Theorem script_push_reads_back :
  (∀ data rest, zlen data < 2 ^ 32 →
    ∃ opcode, GetScriptOp (push_data data ++ rest) = (true, opcode, data, rest) ∧ opcode ≤ OP_PUSHDATA4 ∧
      (CheckMinimalPush data opcode = Some true ↔ ∀ n, -1 ≤ n ≤ 16 → n ≠ 0 → data ≠ serialize n)) ∧
  (∀ n rest, Z.abs n < 2 ^ 63 →
    ∃ opcode data, GetScriptOp (push_int64 n ++ rest) = (true, opcode, data, rest) ∧
      ((opcode ≤ OP_PUSHDATA4 ∧ data = serialize n ∧ CheckMinimalPush data opcode = Some true) ∨
       ((opcode = OP_1NEGATE ∨ OP_1 ≤ opcode ≤ OP_16) ∧ data = [] ∧ n = opcode - (OP_1 - 1)))).
Proof.
  split; [apply push_data_read|]. intros n rest Hn. unfold push_int64.
  destruct (decide (n = -1 ∨ 1 ≤ n ≤ 16)) as [Hs|Hs].
  - replace ((n =? -1) || ((1 <=? n) && (n <=? 16))) with true
      by (symmetry; destruct Hs as [-> | [?%Z.leb_le ->%Z.leb_le]]; [done|]; by rewrite H, orb_true_r).
    rewrite uwrap_small by (unfold urange, OP_1; lia). exists (n + (OP_1 - 1)), []. split.
    + apply (GetScriptOp_instruction [_] _ []). right. unfold OP_PUSHDATA4, OP_1. split_and!; [done..|lia].
    + right. unfold OP_1, OP_16, OP_1NEGATE. split_and!; [lia|done|lia].
  - replace ((n =? -1) || ((1 <=? n) && (n <=? 16))) with false
      by (destruct (Z.eqb_spec n (-1)), (Z.leb_spec 1 n), (Z.leb_spec n 16); simpl; try done; lia).
    destruct (Z.eqb_spec n 0) as [->|Hn0].
    + exists OP_0, []. split; [|by left]. apply (GetScriptOp_push [_] _ []). by left.
    + destruct (serialize_num_decode n ltac:(lia)) as (_ & _ & Hd & Hlen).
      specialize (Hlen 8 ltac:(lia) ltac:(done)).
      destruct (push_data_read (serialize n) rest ltac:(lia)) as (opcode & HG & Hop & Hmin).
      exists opcode, (serialize n). split; [done|]. left. split_and!; [done..|]. apply Hmin.
      intros k Hk Hk0 Heq. apply (f_equal num_decode) in Heq. rewrite Hd in Heq.
      destruct (serialize_num_decode k ltac:(lia)) as (_ & _ & Hd' & _). lia.
Qed.

(** C36: [FindAndDelete] of one instruction removes exactly the instructions equal to it, counts
    them, and leaves every other instruction and an unreadable tail alone; in particular it never
    matches inside the data of another instruction. *)
Theorem FindAndDelete_removes b xs tail :
  is_instr b → parsed xs tail →
  FindAndDelete (concat xs ++ tail) b =
    (concat (filter (λ x, x ≠ b) xs) ++ tail, Z.of_nat (length (filter (λ x, x = b) xs))).
Proof.
  intros Hb Hp. unfold FindAndDelete. pose proof (is_instr_nonempty b Hb).
  destruct (Nat.eqb_spec (length b) 0); [lia|].
  rewrite FindAndDelete_loop_spec by (done || (pose proof (fuel_enough xs tail Hp); lia)). cbn [app].
  destruct (Z.ltb_spec 0 (0 + Z.of_nat (length (filter (λ x, x = b) xs)))) as [|Hle]; [by rewrite Z.add_0_l|].
  assert (filter (λ x, x = b) xs = []) as Hnil by (apply nil_length_inv; lia).
  rewrite Hnil. f_equal. do 2 f_equal. clear -Hnil. induction xs as [|x xs IH]; [done|].
  destruct (decide (x = b)) as [->|Hne]; [by rewrite filter_cons_True in Hnil|].
  rewrite filter_cons_False in Hnil by done. rewrite filter_cons_True by done. f_equal. by apply IH.
Qed.

Lemma IsPushOnly_spec xs tail :
  parsed xs tail →
  IsPushOnly (concat xs ++ tail) = forallb (λ x, x.[0] <=? OP_16) xs && bool_decide (tail = []).
Proof.
  intros Hp. unfold IsPushOnly. pose proof (fuel_enough xs tail Hp) as Hf.
  revert Hf. generalize (length (concat xs ++ tail)) as fuel. destruct Hp as [Hxs Ht].
  induction Hxs as [|x xs Hx _ IH]; intros fuel Hf; simpl in *.
  - destruct tail as [|b tail]; [by destruct fuel|]. rewrite bool_decide_eq_false_2 by done.
    destruct fuel as [|fuel]; [simpl in Hf; lia|]. cbn [IsPushOnly_loop]. unfold unreadable in Ht.
    by destruct (GetScriptOp (b :: tail)) as [[[[] ?] ?] ?].
  - destruct fuel as [|fuel]; [lia|]. rewrite <-app_assoc. cbn [IsPushOnly_loop].
    destruct (is_instr_read x (concat xs ++ tail) Hx) as (op & data & -> & -> & _).
    destruct (x ++ concat xs ++ tail) as [|] eqn:E.
    { apply (f_equal length) in E. rewrite length_app in E. pose proof (is_instr_nonempty x Hx). simpl in E. lia. }
    rewrite IH by lia. by destruct (Z.ltb_spec OP_16 (x.[0])), (Z.leb_spec (x.[0]) OP_16); try lia.
Qed.

Lemma push_data_small data : zlen data < 76 → push_data data = zlen data :: data.
Proof.
  intros H. unfold push_data, AppendDataSize, OP_PUSHDATA1. rewrite uwrap_small by (unfold urange; lia).
  destruct (Z.ltb_spec (zlen data) 0x4c); [|lia]. by rewrite uwrap_small by (unfold urange; lia).
Qed.
Lemma push_int64_small v : 0 ≤ v ≤ 16 → push_int64 v = [if v =? 0 then 0 else v + 80].
Proof.
  intros Hv. unfold push_int64, OP_1, OP_0. destruct (Z.eqb_spec v 0) as [->|]; [done|].
  replace ((v =? -1) || ((1 <=? v) && (v <=? 16))) with true.
  { by rewrite uwrap_small by (unfold urange; lia). }
  symmetry. apply orb_true_iff. right. apply andb_true_iff. split; apply Z.leb_le; lia.
Qed.

(** A witness program is exactly a push of a small number followed by a push of 2 to 40 bytes. *)
Lemma IsWitnessProgram_iff script v program :
  bytes_ok script →
  IsWitnessProgram script = Some (v, program) ↔
  script = push_int64 v ++ push_data program ∧ 0 ≤ v ≤ 16 ∧ 2 ≤ zlen program ≤ 40.
Proof.
  intros Hok. unfold IsWitnessProgram, DecodeOP_N, OP_0, OP_1, OP_16. split.
  - destruct script as [|b0 [|b1 program']]; [done..|].
    apply digits_ok_cons in Hok as [Hb0 [Hb1 Hok]%digits_ok_cons].
    cbn [drop]. unfold zget; cbn [lookup list_lookup default from_option id].
    destruct (Z.ltb_spec (zlen (b0 :: b1 :: program')) 4) as [|H4]; [done|].
    destruct (Z.ltb_spec 42 (zlen (b0 :: b1 :: program'))) as [|H42]; [done|]. cbn [orb].
    destruct (Z.eqb_spec (b1 + 2) (zlen (b0 :: b1 :: program'))) as [Hsz|]; [|by case_match].
    simpl in Hsz, H4, H42. assert (b1 = zlen program') as -> by lia.
    destruct (Z.eqb_spec b0 0) as [->|Hb00].
    { cbn [negb andb mbind option_bind]. rewrite drop_0. intros [= <- <-]. rewrite push_data_small by lia. split_and!; [done|lia..]. }
    destruct (Z.ltb_spec b0 0x51), (Z.ltb_spec 0x60 b0); cbn [negb andb orb]; try done.
    destruct (Z.leb_spec 0x51 b0), (Z.leb_spec b0 0x60); cbn [andb]; try done.
    rewrite drop_0. intros [= <- <-]. rewrite push_data_small by lia. split_and!; [|lia..].
    rewrite push_int64_small by lia. destruct (Z.eqb_spec (b0 - (0x51 - 1)) 0); [lia|]. simpl. f_equal. lia.
  - intros (-> & Hv & Hp).
    rewrite push_data_small, push_int64_small by lia. cbn [app drop]. unfold zget; cbn [lookup list_lookup default from_option id length].
    destruct (Z.ltb_spec (Z.of_nat (S (S (length program)))) 4), (Z.ltb_spec 42 (Z.of_nat (S (S (length program))))); try lia.
    cbn [orb]. destruct (Z.eqb_spec (zlen program + 2) (Z.of_nat (S (S (length program))))); [|lia].
    destruct (Z.eqb_spec v 0) as [->|]; [done|].
    destruct (Z.eqb_spec (v + 80) 0), (Z.ltb_spec (v + 80) 0x51), (Z.ltb_spec 0x60 (v + 80)); try lia.
    destruct (Z.leb_spec 0x51 (v + 80)), (Z.leb_spec (v + 80) 0x60); try lia. cbn. do 2 f_equal. lia.
Qed.
