(* ===== verification/PubKey.v ===== *)
(** * Public keys and signatures: pubkey.h, pubkey.cpp

    Public keys are the bytes of a [CPubKey], the empty list being the invalid key; an x-only key
    is its 32 bytes.  Curve arithmetic is libsecp256k1's: it is the classes [Secp256k1] and
    [Secp256k1Signatures].  The laws of the first are the documented behaviour of parsing and
    serializing a public key; the second has the operations on signatures and x-only keys. *)

From S2P Require Import Prelude Endian Serialize Hasher Sha256 Hash Primitives Script.
From Stdlib Require Import ZArith Lia.
From stdpp Require Import base option list numbers gmap.

Open Scope Z_scope.
Open Scope kernel_scope.

(** ** Public keys *)

Class Secp256k1 := {
  secp_pubkey : Type;
  ec_pubkey_parse : bytes → option secp_pubkey;
  (** [true] is [SECP256K1_EC_COMPRESSED]. *)
  ec_pubkey_serialize : bool → secp_pubkey → bytes;
  (** The two forms of a point with coordinates [x] and [y]. *)
  ec_serialize_forms p : ∃ x y,
    length x = 32%nat ∧ length y = 32%nat ∧ bytes_ok x ∧ bytes_ok y ∧
    ec_pubkey_serialize false p = 4 :: x ++ y ∧
    ec_pubkey_serialize true p = (2 .| (nth 31 y 0 .& 1)) :: x;
  ec_parse_serialize p compressed : ec_pubkey_parse (ec_pubkey_serialize compressed p) = Some p;
  (** An uncompressed key that parses is the uncompressed form of its point. *)
  ec_serialize_parse b p : head b = Some 4 → ec_pubkey_parse b = Some p → ec_pubkey_serialize false p = b
}.

Definition PUBKEY_SIZE : Z := 65.
Definition COMPRESSED_SIZE : Z := 33.

Definition GetLen (chHeader : Z) : Z :=
  if (chHeader =? 2) || (chHeader =? 3) then COMPRESSED_SIZE
  else if (chHeader =? 4) || (chHeader =? 6) || (chHeader =? 7) then PUBKEY_SIZE
  else 0.

(** [CPubKey::Set]: the key, or [[]] (invalidated). *)
Definition CPubKey_Set (b : bytes) : bytes :=
  let len := match b with [] => 0 | h :: _ => GetLen h end in
  if negb (len =? 0) && (len =? Z.of_nat (length b)) then b else [].
Definition CPubKey_size (k : bytes) : Z := match k with [] => 0 | h :: _ => GetLen h end.
Definition CPubKey_IsValid (k : bytes) : bool := 0 <? CPubKey_size k.

(** Operations on signatures and on x-only keys.  A result [None] is the return value 0. *)
Class Secp256k1Signatures `{SECP : !Secp256k1} := {
  secp_signature : Type;
  ecdsa_signature_parse_compact : bytes → option secp_signature;
  (** The signature with a lower [s], and whether it was not normalized before. *)
  ecdsa_signature_normalize : secp_signature → secp_signature * bool;
  ecdsa_verify : secp_signature → uint256 → secp_pubkey → bool;
  secp_recoverable : Type;
  ecdsa_recoverable_parse_compact : bytes → Z → option secp_recoverable;
  ecdsa_recover : secp_recoverable → uint256 → option secp_pubkey;
  ec_pubkey_tweak_add : secp_pubkey → bytes → option secp_pubkey;
  secp_xonly : Type;
  xonly_pubkey_parse : bytes → option secp_xonly;
  xonly_pubkey_serialize : secp_xonly → bytes;
  xonly_pubkey_from_pubkey : secp_pubkey → secp_xonly * bool;
  xonly_pubkey_tweak_add : secp_xonly → bytes → option secp_pubkey;
  xonly_pubkey_tweak_add_check : bytes → bool → secp_xonly → bytes → bool;
  schnorrsig_verify : bytes → uint256 → secp_xonly → bool;
  (** "A correctly-parsed but invalid signature": both numbers are 0. *)
  invalid_signature : secp_signature;
  parse_compact_zero : ecdsa_signature_parse_compact (replicate 64 0) = Some invalid_signature
}.

(** ** Lax parsing of DER signatures

    A position in the input is the list of the bytes from it on, so that [inputlen - pos] is its
    length. *)

(** [while (lenbyte > 0 && input[pos] == 0)], and the same loop over the bytes of a number. *)
Fixpoint skip_zeros (n : nat) (input : bytes) : nat * bytes :=
  match n, input with
  | S n', b :: input' => if b =? 0 then skip_zeros n' input' else (n, input)
  | _, _ => (n, input)
  end.

(** The length of an integer, and the position of its first byte. *)
Definition der_lax_length (input : bytes) : option (nat * bytes) :=
  match input with
  | [] => None
  | lenbyte :: input =>
      '(len, input) ←
        (if negb (lenbyte .& 0x80 =? 0) then
           let lenbyte := Z.to_nat (lenbyte - 0x80) in
           if (length input <? lenbyte)%nat then None else
           let '(lenbyte, input) := skip_zeros lenbyte input in
           if (4 <=? lenbyte)%nat then None else
           Some (Z.to_nat (foldl (λ len b, len .<< 8 + b) 0 (take lenbyte input)), drop lenbyte input)
         else Some (Z.to_nat lenbyte, input));
      if (length input <? len)%nat then None else Some (len, input)
  end.

(** An integer: its bytes and the position after it. *)
Definition der_lax_integer (input : bytes) : option (bytes * bytes) :=
  match input with
  | [] => None
  | tag :: input =>
      if negb (tag =? 0x02) then None else
      '(len, input) ← der_lax_length input;
      Some (take len input, drop len input)
  end.

(** A number without its leading zeros in a field of 32 bytes; [None] is an overflow. *)
Definition der_lax_copy (value : bytes) : option bytes :=
  let '(len, input) := skip_zeros (length value) value in
  if (32 <? len)%nat then None else Some (replicate (32 - len) 0 ++ take len input).

Definition der_lax_sequence (input : bytes) : option bytes :=
  match input with
  | [] => None
  | tag :: input =>
      if negb (tag =? 0x30) then None else
      match input with
      | [] => None
      | lenbyte :: input =>
          if negb (lenbyte .& 0x80 =? 0) then
            let lenbyte := Z.to_nat (lenbyte - 0x80) in
            if (length input <? lenbyte)%nat then None else Some (drop lenbyte input)
          else Some input
      end
  end.

(** The 64 bytes given to [secp256k1_ecdsa_signature_parse_compact], all 0 after an overflow. *)
Definition der_lax_compact (input : bytes) : option bytes :=
  input ← der_lax_sequence input;
  '(r, input) ← der_lax_integer input;
  '(s, _) ← der_lax_integer input;
  Some (match der_lax_copy r, der_lax_copy s with
        | Some r, Some s => r ++ s
        | _, _ => replicate 64 0
        end).

Section PubKey.
Context `{SECP : !Secp256k1}.

Definition CPubKey_IsFullyValid (k : bytes) : bool :=
  if CPubKey_IsValid k then match ec_pubkey_parse k with Some _ => true | None => false end else false.

(** [None] is the result false. *)
Definition CPubKey_Decompress (k : bytes) : option bytes :=
  if CPubKey_IsValid k then
    pubkey ← ec_pubkey_parse k;
    Some (CPubKey_Set (ec_pubkey_serialize false pubkey))
  else None.

Context `{SIGS : !Secp256k1Signatures}.

Definition ecdsa_signature_parse_der_lax (input : bytes) : option secp_signature :=
  tmpsig ← der_lax_compact input;
  Some (default invalid_signature (ecdsa_signature_parse_compact tmpsig)).

Definition Verify (k : bytes) (hash : uint256) (vchSig : bytes) : bool :=
  if negb (CPubKey_IsValid k) then false else
  match ec_pubkey_parse k with
  | None => false
  | Some pubkey =>
      match ecdsa_signature_parse_der_lax vchSig with
      | None => false
      | Some sig => ecdsa_verify (ecdsa_signature_normalize sig).1 hash pubkey
      end
  end.

Definition CheckLowS (vchSig : bytes) : bool :=
  match ecdsa_signature_parse_der_lax vchSig with
  | None => false
  | Some sig => negb (ecdsa_signature_normalize sig).2
  end.

Definition COMPACT_SIGNATURE_SIZE : Z := 65.
Definition RecoverCompact (hash : uint256) (vchSig : bytes) : option bytes :=
  if negb (zlen vchSig =? COMPACT_SIGNATURE_SIZE) then None else
  let recid := (vchSig.[0] - 27) .& 3 in
  let fComp := negb ((vchSig.[0] - 27) .& 4 =? 0) in
  sig ← ecdsa_recoverable_parse_compact (drop 1 vchSig) recid;
  pubkey ← ecdsa_recover sig hash;
  Some (CPubKey_Set (ec_pubkey_serialize fComp pubkey)).

(** ** X-only keys *)

(** [None] where [assert(sigbytes.size() == 64)] fails. *)
Definition VerifySchnorr (m_keydata : uint256) (msg : uint256) (sigbytes : bytes) : option bool :=
  if negb (length sigbytes =? 64)%nat then None else
  match xonly_pubkey_parse m_keydata with
  | None => Some false
  | Some pubkey => Some (schnorrsig_verify sigbytes msg pubkey)
  end.

Definition XOnly_IsFullyValid (m_keydata : uint256) : bool :=
  match xonly_pubkey_parse m_keydata with Some _ => true | None => false end.

Definition HASHER_TAPTWEAK : hasher := TaggedHash [84; 97; 112; 84; 119; 101; 97; 107].
Definition ComputeTapTweakHash (m_keydata : uint256) (merkle_root : option uint256) : uint256 :=
  match merkle_root with
  | None => HashWriter.GetSHA256 (HashWriter.write HASHER_TAPTWEAK m_keydata)
  | Some merkle_root => HashWriter.GetSHA256 (HashWriter.write (HashWriter.write HASHER_TAPTWEAK m_keydata) merkle_root)
  end.

Definition CheckTapTweak (m_keydata internal merkle_root : uint256) (parity : bool) : bool :=
  match xonly_pubkey_parse internal with
  | None => false
  | Some internal_key =>
      let tweak := ComputeTapTweakHash internal (Some merkle_root) in
      xonly_pubkey_tweak_add_check m_keydata parity internal_key tweak
  end.

Definition CreateTapTweak (m_keydata : uint256) (merkle_root : option uint256) : option (uint256 * bool) :=
  base_point ← xonly_pubkey_parse m_keydata;
  let tweak := ComputeTapTweakHash m_keydata merkle_root in
  out ← xonly_pubkey_tweak_add base_point tweak;
  let '(out_xonly, parity) := xonly_pubkey_from_pubkey out in
  Some (xonly_pubkey_serialize out_xonly, parity).

Definition GetCPubKeys (m_keydata : uint256) : list bytes := [CPubKey_Set (2 :: m_keydata); CPubKey_Set (3 :: m_keydata)].
Definition GetID (k : bytes) : bytes := Hash160 k.
Definition GetKeyIDs (m_keydata : uint256) : list bytes := map GetID (GetCPubKeys m_keydata).
Definition GetEvenCorrespondingCPubKey (m_keydata : uint256) : bytes := CPubKey_Set (2 :: m_keydata).

(** ** Extended keys (BIP 32) *)

(** The child key, its chain code and the tweak; the outer [None] is a failed assertion. *)
Definition CPubKey_Derive (k : bytes) (nChild : Z) (cc : uint256) : option (option bytes * uint256 * uint256) :=
  if CPubKey_IsValid k && (nChild .>> 31 =? 0) && (CPubKey_size k =? COMPRESSED_SIZE) then
    let out := BIP32Hash cc nChild (k.[0]) (drop 1 k) in
    Some (pubkey ← ec_pubkey_parse k;
          pubkey ← ec_pubkey_tweak_add pubkey (take 32 out);
          Some (CPubKey_Set (ec_pubkey_serialize true pubkey)),
          drop 32 out, take 32 out)
  else None.

Record CExtPubKey := {
  ext_version : bytes; nDepth : Z; vchFingerprint : bytes; nChild : Z; chaincode : uint256; ext_pubkey : bytes
}.

(** [None] is the failing assertion on the size of the key. *)
Definition Encode (e : CExtPubKey) : option bytes :=
  if CPubKey_size (ext_pubkey e) =? COMPRESSED_SIZE
  then Some (nDepth e :: vchFingerprint e ++ WriteBE32 (nChild e) ++ chaincode e ++ ext_pubkey e)
  else None.
Definition Decode (version code : bytes) : CExtPubKey :=
  let depth := code.[0] in
  let fingerprint := take 4 (drop 1 code) in
  let child := ReadBE32 (drop 5 code) in
  let pubkey := CPubKey_Set (take 33 (drop 41 code)) in
  {| ext_version := version; nDepth := depth; vchFingerprint := fingerprint; nChild := child;
     chaincode := take 32 (drop 9 code);
     ext_pubkey :=
       if ((depth =? 0) && (negb (child =? 0) || negb (ReadLE32 fingerprint =? 0)))
          || negb (CPubKey_IsFullyValid pubkey) then [] else pubkey |}.
Definition EncodeWithVersion (e : CExtPubKey) : option bytes := code ← Encode e; Some (ext_version e ++ code).
Definition DecodeWithVersion (code : bytes) : CExtPubKey := Decode (take 4 code) (drop 4 code).

(** The outer [None] is a failed assertion, the inner one the result false; the version of the
    result is not set. *)
Definition CExtPubKey_Derive (e : CExtPubKey) (out_version : bytes) (_nChild : Z) : option (option CExtPubKey) :=
  if nDepth e =? 255 then Some None else
  '(child, cc, _) ← CPubKey_Derive (ext_pubkey e) _nChild (chaincode e);
  Some (child ← child;
        Some {| ext_version := out_version; nDepth := nDepth e + 1; vchFingerprint := take 4 (GetID (ext_pubkey e));
                nChild := _nChild; chaincode := cc; ext_pubkey := child |}).
End PubKey.

Lemma CPubKey_Set_ok h x :
  GetLen h = Z.of_nat (length (h :: x)) → CPubKey_Set (h :: x) = h :: x.
Proof.
  intros E. unfold CPubKey_Set. rewrite E, Z.eqb_refl. cbn [length]. by rewrite (proj2 (Z.eqb_neq _ _)) by lia.
Qed.
