(* ===== verification/Interpreter.v ===== *)
(** * The script interpreter: script/interpreter.h, script/interpreter.cpp (EvalScript), script/script_error.h

    A stack is a list with its top first.  What ends an evaluation early is a value of [stop]:
    a return of false with the error it sets (or none), one of the exceptions that [EvalScript]
    catches, or a failed assertion.  The signature checker is a record of its virtual functions
    over a state [C] of its own, which holds the cache that a checker mutates. *)

From S2P Require Import Prelude Endian Serialize Hasher Sha256 Sha1 Ripemd160 Hash Primitives Script PubKey.
From Stdlib Require Import ZArith Lia.
From stdpp Require Import base option list numbers gmap.

Open Scope Z_scope.
Open Scope kernel_scope.

(** ** Errors *)

Inductive ScriptError :=
  | SCRIPT_ERR_OK | SCRIPT_ERR_UNKNOWN_ERROR | SCRIPT_ERR_EVAL_FALSE | SCRIPT_ERR_OP_RETURN | SCRIPT_ERR_SCRIPTNUM
  | SCRIPT_ERR_SCRIPT_SIZE | SCRIPT_ERR_PUSH_SIZE | SCRIPT_ERR_OP_COUNT | SCRIPT_ERR_STACK_SIZE | SCRIPT_ERR_SIG_COUNT
  | SCRIPT_ERR_PUBKEY_COUNT | SCRIPT_ERR_VERIFY | SCRIPT_ERR_EQUALVERIFY | SCRIPT_ERR_CHECKMULTISIGVERIFY
  | SCRIPT_ERR_CHECKSIGVERIFY | SCRIPT_ERR_NUMEQUALVERIFY | SCRIPT_ERR_BAD_OPCODE | SCRIPT_ERR_DISABLED_OPCODE
  | SCRIPT_ERR_INVALID_STACK_OPERATION | SCRIPT_ERR_INVALID_ALTSTACK_OPERATION | SCRIPT_ERR_UNBALANCED_CONDITIONAL
  | SCRIPT_ERR_NEGATIVE_LOCKTIME | SCRIPT_ERR_UNSATISFIED_LOCKTIME | SCRIPT_ERR_SIG_HASHTYPE | SCRIPT_ERR_SIG_DER
  | SCRIPT_ERR_MINIMALDATA | SCRIPT_ERR_SIG_PUSHONLY | SCRIPT_ERR_SIG_HIGH_S | SCRIPT_ERR_SIG_NULLDUMMY
  | SCRIPT_ERR_PUBKEYTYPE | SCRIPT_ERR_CLEANSTACK | SCRIPT_ERR_MINIMALIF | SCRIPT_ERR_SIG_NULLFAIL
  | SCRIPT_ERR_DISCOURAGE_UPGRADABLE_NOPS | SCRIPT_ERR_DISCOURAGE_UPGRADABLE_WITNESS_PROGRAM
  | SCRIPT_ERR_DISCOURAGE_UPGRADABLE_TAPROOT_VERSION | SCRIPT_ERR_DISCOURAGE_OP_SUCCESS
  | SCRIPT_ERR_DISCOURAGE_UPGRADABLE_PUBKEYTYPE | SCRIPT_ERR_WITNESS_PROGRAM_WRONG_LENGTH
  | SCRIPT_ERR_WITNESS_PROGRAM_WITNESS_EMPTY | SCRIPT_ERR_WITNESS_PROGRAM_MISMATCH | SCRIPT_ERR_WITNESS_MALLEATED
  | SCRIPT_ERR_WITNESS_MALLEATED_P2SH | SCRIPT_ERR_WITNESS_UNEXPECTED | SCRIPT_ERR_WITNESS_PUBKEYTYPE
  | SCRIPT_ERR_SCHNORR_SIG_SIZE | SCRIPT_ERR_SCHNORR_SIG_HASHTYPE | SCRIPT_ERR_SCHNORR_SIG
  | SCRIPT_ERR_TAPROOT_WRONG_CONTROL_SIZE | SCRIPT_ERR_TAPSCRIPT_VALIDATION_WEIGHT | SCRIPT_ERR_TAPSCRIPT_CHECKMULTISIG
  | SCRIPT_ERR_TAPSCRIPT_MINIMALIF | SCRIPT_ERR_TAPSCRIPT_EMPTY_PUBKEY | SCRIPT_ERR_OP_CODESEPARATOR
  | SCRIPT_ERR_SIG_FINDANDDELETE.

Inductive stop :=
  | returns_false (serror : option ScriptError)
  | throws_scriptnum_error
  | throws_other
  | assertion_failed.

Definition set_error {A} (serror : ScriptError) : stop + A := inl (returns_false (Some serror)).
Definition assert (b : bool) : stop + unit := if b then mret () else inl assertion_failed.
Definition number (n : scriptnum_error + Z) : stop + Z :=
  match n with inl _ => inl throws_scriptnum_error | inr n => mret n end.
Definition asserted {A} (x : option A) : stop + A := match x with Some x => mret x | None => inl assertion_failed end.

(** ** Flags *)

Inductive script_verify_flag_name :=
  | SCRIPT_VERIFY_P2SH | SCRIPT_VERIFY_STRICTENC | SCRIPT_VERIFY_DERSIG | SCRIPT_VERIFY_LOW_S | SCRIPT_VERIFY_NULLDUMMY
  | SCRIPT_VERIFY_SIGPUSHONLY | SCRIPT_VERIFY_MINIMALDATA | SCRIPT_VERIFY_DISCOURAGE_UPGRADABLE_NOPS
  | SCRIPT_VERIFY_CLEANSTACK | SCRIPT_VERIFY_CHECKLOCKTIMEVERIFY | SCRIPT_VERIFY_CHECKSEQUENCEVERIFY
  | SCRIPT_VERIFY_WITNESS | SCRIPT_VERIFY_DISCOURAGE_UPGRADABLE_WITNESS_PROGRAM | SCRIPT_VERIFY_MINIMALIF
  | SCRIPT_VERIFY_NULLFAIL | SCRIPT_VERIFY_WITNESS_PUBKEYTYPE | SCRIPT_VERIFY_CONST_SCRIPTCODE | SCRIPT_VERIFY_TAPROOT
  | SCRIPT_VERIFY_DISCOURAGE_UPGRADABLE_TAPROOT_VERSION | SCRIPT_VERIFY_DISCOURAGE_OP_SUCCESS
  | SCRIPT_VERIFY_DISCOURAGE_UPGRADABLE_PUBKEYTYPE.

Definition flag_bit (f : script_verify_flag_name) : Z :=
  match f with
  | SCRIPT_VERIFY_P2SH => 0 | SCRIPT_VERIFY_STRICTENC => 1 | SCRIPT_VERIFY_DERSIG => 2 | SCRIPT_VERIFY_LOW_S => 3
  | SCRIPT_VERIFY_NULLDUMMY => 4 | SCRIPT_VERIFY_SIGPUSHONLY => 5 | SCRIPT_VERIFY_MINIMALDATA => 6
  | SCRIPT_VERIFY_DISCOURAGE_UPGRADABLE_NOPS => 7 | SCRIPT_VERIFY_CLEANSTACK => 8
  | SCRIPT_VERIFY_CHECKLOCKTIMEVERIFY => 9 | SCRIPT_VERIFY_CHECKSEQUENCEVERIFY => 10 | SCRIPT_VERIFY_WITNESS => 11
  | SCRIPT_VERIFY_DISCOURAGE_UPGRADABLE_WITNESS_PROGRAM => 12 | SCRIPT_VERIFY_MINIMALIF => 13
  | SCRIPT_VERIFY_NULLFAIL => 14 | SCRIPT_VERIFY_WITNESS_PUBKEYTYPE => 15 | SCRIPT_VERIFY_CONST_SCRIPTCODE => 16
  | SCRIPT_VERIFY_TAPROOT => 17 | SCRIPT_VERIFY_DISCOURAGE_UPGRADABLE_TAPROOT_VERSION => 18
  | SCRIPT_VERIFY_DISCOURAGE_OP_SUCCESS => 19 | SCRIPT_VERIFY_DISCOURAGE_UPGRADABLE_PUBKEYTYPE => 20
  end.

(** [script_verify_flags] of a name, and [(flags & f) != 0]. *)
Definition script_verify_flags (f : script_verify_flag_name) : Z := 1 .<< flag_bit f.
Definition has_flag (flags : Z) (f : script_verify_flag_name) : bool := negb (flags .& script_verify_flags f =? 0).

(** ** Signature hash types, signature versions, execution data *)

Definition SIGHASH_ALL : Z := 1.
Definition SIGHASH_NONE : Z := 2.
Definition SIGHASH_SINGLE : Z := 3.
Definition SIGHASH_ANYONECANPAY : Z := 0x80.
Definition SIGHASH_DEFAULT : Z := 0.
Definition SIGHASH_OUTPUT_MASK : Z := 3.
Definition SIGHASH_INPUT_MASK : Z := 0x80.

Inductive SigVersion := BASE | WITNESS_V0 | TAPROOT | TAPSCRIPT.
#[export] Instance SigVersion_eq_dec : EqDecision SigVersion.
Proof. solve_decision. Defined.
Definition pre_tapscript (v : SigVersion) : bool := match v with BASE | WITNESS_V0 => true | _ => false end.
Definition is_base (v : SigVersion) : bool := match v with BASE => true | _ => false end.
Definition is_witness_v0 (v : SigVersion) : bool := match v with WITNESS_V0 => true | _ => false end.
Definition is_tapscript (v : SigVersion) : bool := match v with TAPSCRIPT => true | _ => false end.

Record ScriptExecutionData := {
  m_tapleaf_hash_init : bool;
  m_tapleaf_hash : uint256;
  m_codeseparator_pos_init : bool;
  m_codeseparator_pos : Z;
  m_annex_init : bool;
  m_annex_present : bool;
  m_annex_hash : uint256;
  m_validation_weight_left_init : bool;
  m_validation_weight_left : Z;
  m_output_hash : option uint256
}.
(** The members without a default are 0 here; they are read only when initialized. *)
Definition ScriptExecutionData_new : ScriptExecutionData := {|
  m_tapleaf_hash_init := false; m_tapleaf_hash := uint256_zero; m_codeseparator_pos_init := false; m_codeseparator_pos := 0;
  m_annex_init := false; m_annex_present := false; m_annex_hash := uint256_zero;
  m_validation_weight_left_init := false; m_validation_weight_left := 0; m_output_hash := None |}.
Definition set_codeseparator_pos (pos : Z) (e : ScriptExecutionData) : ScriptExecutionData := {|
  m_tapleaf_hash_init := m_tapleaf_hash_init e; m_tapleaf_hash := m_tapleaf_hash e;
  m_codeseparator_pos_init := true; m_codeseparator_pos := pos;
  m_annex_init := m_annex_init e; m_annex_present := m_annex_present e; m_annex_hash := m_annex_hash e;
  m_validation_weight_left_init := m_validation_weight_left_init e; m_validation_weight_left := m_validation_weight_left e;
  m_output_hash := m_output_hash e |}.
Definition set_validation_weight_left (w : Z) (e : ScriptExecutionData) : ScriptExecutionData := {|
  m_tapleaf_hash_init := m_tapleaf_hash_init e; m_tapleaf_hash := m_tapleaf_hash e;
  m_codeseparator_pos_init := m_codeseparator_pos_init e; m_codeseparator_pos := m_codeseparator_pos e;
  m_annex_init := m_annex_init e; m_annex_present := m_annex_present e; m_annex_hash := m_annex_hash e;
  m_validation_weight_left_init := m_validation_weight_left_init e; m_validation_weight_left := w;
  m_output_hash := m_output_hash e |}.

(** ** The interface of a signature checker

    A Schnorr check that returns false stops the evaluation, so its result is the new state. *)
Record BaseSignatureChecker (C : Type) := {
  CheckECDSASignature : bytes → bytes → bytes → SigVersion → C → stop + bool * C;
  CheckSchnorrSignature : bytes → bytes → SigVersion → ScriptExecutionData → C → stop + ScriptExecutionData * C;
  CheckLockTime : Z → bool;
  CheckSequence : Z → bool
}.
Arguments CheckECDSASignature {_}. Arguments CheckSchnorrSignature {_}.
Arguments CheckLockTime {_}. Arguments CheckSequence {_}.

(** The checker of the base class, for which every check fails. *)
Definition base_checker : BaseSignatureChecker unit := {|
  CheckECDSASignature _ _ _ _ c := mret (false, c);
  CheckSchnorrSignature _ _ _ _ _ := inl (returns_false None);
  CheckLockTime _ := false;
  CheckSequence _ := false |}.

(** ** Values *)

Fixpoint CastToBool (vch : bytes) : bool :=
  match vch with
  | [] => false
  | b :: vch' => if negb (b =? 0) then negb ((length vch' =? 0)%nat && (b =? 0x80)) else CastToBool vch'
  end.
Definition vchFalse : bytes := [].
Definition vchTrue : bytes := [1].
Definition of_bool (b : bool) : bytes := if b then vchTrue else vchFalse.

(** ** Encodings of keys and signatures *)

Definition IsCompressedOrUncompressedPubKey (vchPubKey : bytes) : bool :=
  if zlen vchPubKey <? COMPRESSED_SIZE then false
  else if vchPubKey.[0] =? 0x04 then zlen vchPubKey =? PUBKEY_SIZE
  else if (vchPubKey.[0] =? 0x02) || (vchPubKey.[0] =? 0x03) then zlen vchPubKey =? COMPRESSED_SIZE
  else false.

Definition IsCompressedPubKey (vchPubKey : bytes) : bool :=
  if negb (zlen vchPubKey =? COMPRESSED_SIZE) then false
  else (vchPubKey.[0] =? 0x02) || (vchPubKey.[0] =? 0x03).

Definition IsValidSignatureEncoding (sig : bytes) : bool :=
  if zlen sig <? 9 then false else
  if 73 <? zlen sig then false else
  if negb (sig.[0] =? 0x30) then false else
  if negb (sig.[1] =? zlen sig - 3) then false else
  let lenR := Z.to_nat (sig.[3]) in
  if (length sig <=? 5 + lenR)%nat then false else
  let lenS := Z.to_nat (sig.[5 + lenR]) in
  if negb (lenR + lenS + 7 =? length sig)%nat then false else
  if negb (sig.[2] =? 0x02) then false else
  if (lenR =? 0)%nat then false else
  if negb (sig.[4] .& 0x80 =? 0) then false else
  if (1 <? lenR)%nat && (sig.[4] =? 0x00) && negb (negb (sig.[5] .& 0x80 =? 0)) then false else
  if negb (sig.[lenR + 4] =? 0x02) then false else
  if (lenS =? 0)%nat then false else
  if negb (sig.[lenR + 6] .& 0x80 =? 0) then false else
  if (1 <? lenS)%nat && (sig.[lenR + 6] =? 0x00) && negb (negb (sig.[lenR + 7] .& 0x80 =? 0)) then false else
  true.

Definition IsDefinedHashtypeSignature (vchSig : bytes) : bool :=
  if (length vchSig =? 0)%nat then false else
  let nHashType := back vchSig .& u8 (Z.lnot SIGHASH_ANYONECANPAY) in
  negb ((nHashType <? SIGHASH_ALL) || (SIGHASH_SINGLE <? nHashType)).

(** ** The stack of conditions *)

Module ConditionStack.
Definition NO_FALSE : Z := 2 ^ 32 - 1.
Record t := { m_stack_size : Z; m_first_false_pos : Z }.
Definition new : t := {| m_stack_size := 0; m_first_false_pos := NO_FALSE |}.
Definition empty (c : t) : bool := m_stack_size c =? 0.
Definition all_true (c : t) : bool := m_first_false_pos c =? NO_FALSE.
Definition push_back (c : t) (f : bool) : t := {|
  m_first_false_pos := if (m_first_false_pos c =? NO_FALSE) && negb f then m_stack_size c else m_first_false_pos c;
  m_stack_size := u32 (m_stack_size c + 1) |}.
Definition pop_back (c : t) : option t :=
  if m_stack_size c <=? 0 then None else
  let m_stack_size' := m_stack_size c - 1 in
  Some {| m_stack_size := m_stack_size';
          m_first_false_pos := if m_first_false_pos c =? m_stack_size' then NO_FALSE else m_first_false_pos c |}.
Definition toggle_top (c : t) : option t :=
  if m_stack_size c <=? 0 then None else
  Some {| m_stack_size := m_stack_size c;
          m_first_false_pos :=
            if m_first_false_pos c =? NO_FALSE then m_stack_size c - 1
            else if m_first_false_pos c =? m_stack_size c - 1 then NO_FALSE
            else m_first_false_pos c |}.
End ConditionStack.

(** ** Reading the stack

    [stacktop i] is the macro [stacktop(-i)], which throws out of range; [popstack] throws on
    an empty stack. *)

Definition stacktop (stack : list bytes) (i : Z) : stop + bytes :=
  if i <=? 0 then inl throws_other else
  match stack !! Z.to_nat (i - 1) with Some v => mret v | None => inl throws_other end.
Definition popstack (stack : list bytes) : stop + list bytes :=
  match stack with [] => inl throws_other | _ :: stack => mret stack end.

Section Signatures.
Context `{SIGS : Secp256k1Signatures}.

(** [None] when the encoding is acceptable, else the error set. *)
Definition IsLowDERSignature (vchSig : bytes) : option ScriptError :=
  if negb (IsValidSignatureEncoding vchSig) then Some SCRIPT_ERR_SIG_DER
  else if negb (CheckLowS (take (length vchSig - 1) vchSig)) then Some SCRIPT_ERR_SIG_HIGH_S
  else None.

Definition CheckSignatureEncoding (vchSig : bytes) (flags : Z) : stop + unit :=
  if (length vchSig =? 0)%nat then mret () else
  if negb (flags .& (script_verify_flags SCRIPT_VERIFY_DERSIG .| script_verify_flags SCRIPT_VERIFY_LOW_S
                     .| script_verify_flags SCRIPT_VERIFY_STRICTENC) =? 0)
     && negb (IsValidSignatureEncoding vchSig) then set_error SCRIPT_ERR_SIG_DER else
  match (if has_flag flags SCRIPT_VERIFY_LOW_S then IsLowDERSignature vchSig else None) with
  | Some e => set_error e
  | None =>
      if has_flag flags SCRIPT_VERIFY_STRICTENC && negb (IsDefinedHashtypeSignature vchSig)
      then set_error SCRIPT_ERR_SIG_HASHTYPE else mret ()
  end.

Definition CheckPubKeyEncoding (vchPubKey : bytes) (flags : Z) (sigversion : SigVersion) : stop + unit :=
  if has_flag flags SCRIPT_VERIFY_STRICTENC && negb (IsCompressedOrUncompressedPubKey vchPubKey)
  then set_error SCRIPT_ERR_PUBKEYTYPE else
  if has_flag flags SCRIPT_VERIFY_WITNESS_PUBKEYTYPE && is_witness_v0 sigversion && negb (IsCompressedPubKey vchPubKey)
  then set_error SCRIPT_ERR_WITNESS_PUBKEYTYPE else mret ().

Section EvalScript.
Context {C : Type} (checker : BaseSignatureChecker C) (flags : Z) (sigversion : SigVersion).

(** ** Checking one signature *)

(** [scriptCode] is the script from the last code separator on; the result is [fSuccess]. *)
Definition EvalChecksigPreTapscript (vchSig vchPubKey scriptCode : bytes) (c : C) : stop + bool * C :=
  assert (pre_tapscript sigversion) ≫= λ _,
  scriptCode ← (if is_base sigversion then
                  let '(scriptCode, found) := FindAndDelete scriptCode (push_data vchSig) in
                  if (0 <? found) && has_flag flags SCRIPT_VERIFY_CONST_SCRIPTCODE
                  then set_error SCRIPT_ERR_SIG_FINDANDDELETE else mret scriptCode
                else mret scriptCode);
  CheckSignatureEncoding vchSig flags ≫= λ _,
  CheckPubKeyEncoding vchPubKey flags sigversion ≫= λ _,
  '(fSuccess, c) ← CheckECDSASignature checker vchSig vchPubKey scriptCode sigversion c;
  if negb fSuccess && has_flag flags SCRIPT_VERIFY_NULLFAIL && negb (length vchSig =? 0)%nat
  then set_error SCRIPT_ERR_SIG_NULLFAIL else mret (fSuccess, c).

Definition EvalChecksigTapscript (sig pubkey : bytes) (execdata : ScriptExecutionData) (c : C)
    : stop + bool * ScriptExecutionData * C :=
  assert (is_tapscript sigversion) ≫= λ _,
  let success := negb (length sig =? 0)%nat in
  execdata ← (if success then
                assert (m_validation_weight_left_init execdata) ≫= λ _,
                let left := i64 (m_validation_weight_left execdata - VALIDATION_WEIGHT_PER_SIGOP_PASSED) in
                if left <? 0 then set_error SCRIPT_ERR_TAPSCRIPT_VALIDATION_WEIGHT
                else mret (set_validation_weight_left left execdata)
              else mret execdata);
  if (length pubkey =? 0)%nat then set_error SCRIPT_ERR_TAPSCRIPT_EMPTY_PUBKEY
  else if (length pubkey =? 32)%nat then
    if success then
      '(execdata, c) ← CheckSchnorrSignature checker sig pubkey sigversion execdata c;
      mret (success, execdata, c)
    else mret (success, execdata, c)
  else if has_flag flags SCRIPT_VERIFY_DISCOURAGE_UPGRADABLE_PUBKEYTYPE
  then set_error SCRIPT_ERR_DISCOURAGE_UPGRADABLE_PUBKEYTYPE
  else mret (success, execdata, c).

Definition EvalChecksig (sig pubkey scriptCode : bytes) (execdata : ScriptExecutionData) (c : C)
    : stop + bool * ScriptExecutionData * C :=
  match sigversion with
  | BASE | WITNESS_V0 =>
      '(success, c) ← EvalChecksigPreTapscript sig pubkey scriptCode c; mret (success, execdata, c)
  | TAPSCRIPT => EvalChecksigTapscript sig pubkey execdata c
  | TAPROOT => inl assertion_failed
  end.

(** ** The state of an evaluation *)

Record EvalState := {
  stack : list bytes;
  altstack : list bytes;
  vfExec : ConditionStack.t;
  pbegincodehash : bytes;
  nOpCount : Z;
  execdata : ScriptExecutionData;
  cstate : C
}.
Definition set_stack (s : list bytes) (st : EvalState) : EvalState := {|
  stack := s; altstack := altstack st; vfExec := vfExec st; pbegincodehash := pbegincodehash st;
  nOpCount := nOpCount st; execdata := execdata st; cstate := cstate st |}.
Definition set_stacks (s alt : list bytes) (st : EvalState) : EvalState := {|
  stack := s; altstack := alt; vfExec := vfExec st; pbegincodehash := pbegincodehash st;
  nOpCount := nOpCount st; execdata := execdata st; cstate := cstate st |}.
Definition set_vfExec (v : ConditionStack.t) (st : EvalState) : EvalState := {|
  stack := stack st; altstack := altstack st; vfExec := v; pbegincodehash := pbegincodehash st;
  nOpCount := nOpCount st; execdata := execdata st; cstate := cstate st |}.
Definition set_nOpCount (n : Z) (st : EvalState) : EvalState := {|
  stack := stack st; altstack := altstack st; vfExec := vfExec st; pbegincodehash := pbegincodehash st;
  nOpCount := n; execdata := execdata st; cstate := cstate st |}.
Definition set_check (s : list bytes) (e : ScriptExecutionData) (c : C) (st : EvalState) : EvalState := {|
  stack := s; altstack := altstack st; vfExec := vfExec st; pbegincodehash := pbegincodehash st;
  nOpCount := nOpCount st; execdata := e; cstate := c |}.

Definition fRequireMinimal : bool := has_flag flags SCRIPT_VERIFY_MINIMALDATA.
Definition stack_number (vch : bytes) (nMaxNumSize : Z) : stop + Z := number (CScriptNum vch fRequireMinimal nMaxNumSize).
Definition invalid_stack {A} : stop + A := set_error SCRIPT_ERR_INVALID_STACK_OPERATION.

(** ** Opcodes: pushes and control *)

Definition op_small_integer (opcode : Z) (s : list bytes) : list bytes := serialize (opcode - (OP_1 - 1)) :: s.

Definition op_checklocktimeverify (s : list bytes) : stop + list bytes :=
  if negb (has_flag flags SCRIPT_VERIFY_CHECKLOCKTIMEVERIFY) then mret s else
  match s with
  | [] => invalid_stack
  | vch :: _ =>
      nLockTime ← stack_number vch 5;
      if nLockTime <? 0 then set_error SCRIPT_ERR_NEGATIVE_LOCKTIME
      else if negb (CheckLockTime checker nLockTime) then set_error SCRIPT_ERR_UNSATISFIED_LOCKTIME
      else mret s
  end.

Definition op_checksequenceverify (s : list bytes) : stop + list bytes :=
  if negb (has_flag flags SCRIPT_VERIFY_CHECKSEQUENCEVERIFY) then mret s else
  match s with
  | [] => invalid_stack
  | vch :: _ =>
      nSequence ← stack_number vch 5;
      if nSequence <? 0 then set_error SCRIPT_ERR_NEGATIVE_LOCKTIME
      else if negb (nSequence .& SEQUENCE_LOCKTIME_DISABLE_FLAG =? 0) then mret s
      else if negb (CheckSequence checker nSequence) then set_error SCRIPT_ERR_UNSATISFIED_LOCKTIME
      else mret s
  end.

Definition op_nops (s : list bytes) : stop + list bytes :=
  if has_flag flags SCRIPT_VERIFY_DISCOURAGE_UPGRADABLE_NOPS
  then set_error SCRIPT_ERR_DISCOURAGE_UPGRADABLE_NOPS else mret s.

Definition not_minimal_if (vch : bytes) : bool := (1 <? zlen vch) || ((zlen vch =? 1) && negb (vch.[0] =? 1)).
Definition op_if (opcode : Z) (fExec : bool) (st : EvalState) : stop + EvalState :=
  if fExec then
    match stack st with
    | [] => invalid_stack
    | vch :: s =>
        if is_tapscript sigversion && not_minimal_if vch then set_error SCRIPT_ERR_TAPSCRIPT_MINIMALIF else
        if is_witness_v0 sigversion && has_flag flags SCRIPT_VERIFY_MINIMALIF && not_minimal_if vch
        then set_error SCRIPT_ERR_MINIMALIF else
        let fValue := CastToBool vch in
        let fValue := if opcode =? OP_NOTIF then negb fValue else fValue in
        mret (set_vfExec (ConditionStack.push_back (vfExec st) fValue) (set_stack s st))
    end
  else mret (set_vfExec (ConditionStack.push_back (vfExec st) false) st).

Definition op_else (st : EvalState) : stop + EvalState :=
  if ConditionStack.empty (vfExec st) then set_error SCRIPT_ERR_UNBALANCED_CONDITIONAL else
  v ← asserted (ConditionStack.toggle_top (vfExec st)); mret (set_vfExec v st).
Definition op_endif (st : EvalState) : stop + EvalState :=
  if ConditionStack.empty (vfExec st) then set_error SCRIPT_ERR_UNBALANCED_CONDITIONAL else
  v ← asserted (ConditionStack.pop_back (vfExec st)); mret (set_vfExec v st).

Definition op_verify (s : list bytes) : stop + list bytes :=
  match s with
  | [] => invalid_stack
  | vch :: s => if CastToBool vch then mret s else set_error SCRIPT_ERR_VERIFY
  end.

(** ** Opcodes: the stack *)

Definition op_toaltstack (st : EvalState) : stop + EvalState :=
  match stack st with
  | [] => invalid_stack
  | vch :: s => mret (set_stacks s (vch :: altstack st) st)
  end.
Definition op_fromaltstack (st : EvalState) : stop + EvalState :=
  match altstack st with
  | [] => set_error SCRIPT_ERR_INVALID_ALTSTACK_OPERATION
  | vch :: alt => mret (set_stacks (vch :: stack st) alt st)
  end.
Definition op_2drop (s : list bytes) : stop + list bytes :=
  match s with _ :: _ :: s => mret s | _ => invalid_stack end.
Definition op_2dup (s : list bytes) : stop + list bytes :=
  match s with vch2 :: vch1 :: _ => mret (vch2 :: vch1 :: s) | _ => invalid_stack end.
Definition op_3dup (s : list bytes) : stop + list bytes :=
  match s with vch3 :: vch2 :: vch1 :: _ => mret (vch3 :: vch2 :: vch1 :: s) | _ => invalid_stack end.
Definition op_2over (s : list bytes) : stop + list bytes :=
  match s with _ :: _ :: vch2 :: vch1 :: _ => mret (vch2 :: vch1 :: s) | _ => invalid_stack end.
Definition op_2rot (s : list bytes) : stop + list bytes :=
  match s with
  | x6 :: x5 :: x4 :: x3 :: vch2 :: vch1 :: s => mret (vch2 :: vch1 :: x6 :: x5 :: x4 :: x3 :: s)
  | _ => invalid_stack
  end.
Definition op_2swap (s : list bytes) : stop + list bytes :=
  match s with x4 :: x3 :: x2 :: x1 :: s => mret (x2 :: x1 :: x4 :: x3 :: s) | _ => invalid_stack end.
Definition op_ifdup (s : list bytes) : stop + list bytes :=
  match s with vch :: _ => mret (if CastToBool vch then vch :: s else s) | _ => invalid_stack end.
Definition op_depth (s : list bytes) : stop + list bytes := mret (serialize (zlen s) :: s).
Definition op_drop (s : list bytes) : stop + list bytes :=
  match s with _ :: s => mret s | _ => invalid_stack end.
Definition op_dup (s : list bytes) : stop + list bytes :=
  match s with vch :: _ => mret (vch :: s) | _ => invalid_stack end.
Definition op_nip (s : list bytes) : stop + list bytes :=
  match s with x2 :: _ :: s => mret (x2 :: s) | _ => invalid_stack end.
Definition op_over (s : list bytes) : stop + list bytes :=
  match s with _ :: vch :: _ => mret (vch :: s) | _ => invalid_stack end.
Definition op_pick_roll (opcode : Z) (s : list bytes) : stop + list bytes :=
  match s with
  | top :: _ :: _ =>
      n ← stack_number top nDefaultMaxNumSize;
      let n := getint n in
      s ← popstack s;
      if (n <? 0) || (zlen s <=? n) then invalid_stack else
      vch ← stacktop s (n + 1);
      mret (vch :: if opcode =? OP_ROLL then delete (Z.to_nat n) s else s)
  | _ => invalid_stack
  end.
Definition op_rot (s : list bytes) : stop + list bytes :=
  match s with x3 :: x2 :: x1 :: s => mret (x1 :: x3 :: x2 :: s) | _ => invalid_stack end.
Definition op_swap (s : list bytes) : stop + list bytes :=
  match s with x2 :: x1 :: s => mret (x1 :: x2 :: s) | _ => invalid_stack end.
Definition op_tuck (s : list bytes) : stop + list bytes :=
  match s with vch :: x1 :: s => mret (vch :: x1 :: vch :: s) | _ => invalid_stack end.
Definition op_size (s : list bytes) : stop + list bytes :=
  match s with vch :: _ => mret (serialize (zlen vch) :: s) | _ => invalid_stack end.

(** ** Opcodes: comparison and numbers *)

Definition op_equal (opcode : Z) (s : list bytes) : stop + list bytes :=
  match s with
  | vch2 :: vch1 :: s =>
      let fEqual := bool_decide (vch1 = vch2) in
      if opcode =? OP_EQUALVERIFY then if fEqual then mret s else set_error SCRIPT_ERR_EQUALVERIFY
      else mret (of_bool fEqual :: s)
  | _ => invalid_stack
  end.

Definition op_unary (opcode : Z) (s : list bytes) : stop + list bytes :=
  match s with
  | [] => invalid_stack
  | vch :: s =>
      bn ← stack_number vch nDefaultMaxNumSize;
      bn ← (if opcode =? OP_1ADD then asserted (num_add_assign bn 1)
            else if opcode =? OP_1SUB then asserted (num_sub_assign bn 1)
            else if opcode =? OP_NEGATE then asserted (num_neg bn)
            else if opcode =? OP_ABS then if bn <? 0 then asserted (num_neg bn) else mret bn
            else if opcode =? OP_NOT then mret (Z.b2z (bn =? 0))
            else if opcode =? OP_0NOTEQUAL then mret (Z.b2z (negb (bn =? 0)))
            else inl assertion_failed);
      mret (serialize bn :: s)
  end.

Definition op_binary (opcode : Z) (s : list bytes) : stop + list bytes :=
  match s with
  | vch2 :: vch1 :: s =>
      bn1 ← stack_number vch1 nDefaultMaxNumSize;
      bn2 ← stack_number vch2 nDefaultMaxNumSize;
      bn ← (if opcode =? OP_ADD then mret (num_add bn1 bn2)
            else if opcode =? OP_SUB then mret (num_sub bn1 bn2)
            else if opcode =? OP_BOOLAND then mret (Z.b2z (negb (bn1 =? 0) && negb (bn2 =? 0)))
            else if opcode =? OP_BOOLOR then mret (Z.b2z (negb (bn1 =? 0) || negb (bn2 =? 0)))
            else if opcode =? OP_NUMEQUAL then mret (Z.b2z (bn1 =? bn2))
            else if opcode =? OP_NUMEQUALVERIFY then mret (Z.b2z (bn1 =? bn2))
            else if opcode =? OP_NUMNOTEQUAL then mret (Z.b2z (negb (bn1 =? bn2)))
            else if opcode =? OP_LESSTHAN then mret (Z.b2z (bn1 <? bn2))
            else if opcode =? OP_GREATERTHAN then mret (Z.b2z (bn2 <? bn1))
            else if opcode =? OP_LESSTHANOREQUAL then mret (Z.b2z (bn1 <=? bn2))
            else if opcode =? OP_GREATERTHANOREQUAL then mret (Z.b2z (bn2 <=? bn1))
            else if opcode =? OP_MIN then mret (if bn1 <? bn2 then bn1 else bn2)
            else if opcode =? OP_MAX then mret (if bn2 <? bn1 then bn1 else bn2)
            else inl assertion_failed);
      if opcode =? OP_NUMEQUALVERIFY then
        if CastToBool (serialize bn) then mret s else set_error SCRIPT_ERR_NUMEQUALVERIFY
      else mret (serialize bn :: s)
  | _ => invalid_stack
  end.

Definition op_within (s : list bytes) : stop + list bytes :=
  match s with
  | vch3 :: vch2 :: vch1 :: s =>
      bn1 ← stack_number vch1 nDefaultMaxNumSize;
      bn2 ← stack_number vch2 nDefaultMaxNumSize;
      bn3 ← stack_number vch3 nDefaultMaxNumSize;
      mret (of_bool ((bn2 <=? bn1) && (bn1 <? bn3)) :: s)
  | _ => invalid_stack
  end.

(** ** Opcodes: hashes and signatures *)

Definition op_hash (opcode : Z) (s : list bytes) : stop + list bytes :=
  match s with
  | [] => invalid_stack
  | vch :: s =>
      let vchHash :=
        if opcode =? OP_RIPEMD160 then CRIPEMD160.Finalize (CRIPEMD160.Write CRIPEMD160_new vch)
        else if opcode =? OP_SHA1 then CSHA1.Finalize (CSHA1.Write (CSHA1.make (replicate 64 0)) vch)
        else if opcode =? OP_SHA256 then CSHA256.Finalize (CSHA256.Write CSHA256_new vch)
        else if opcode =? OP_HASH160 then CHash160.Finalize (CHash160.Write CSHA256_new vch)
        else CHash256.Finalize (CHash256.Write CSHA256_new vch) in
      mret (vchHash :: s)
  end.

(** [pc] is the position after the opcode. *)
Definition op_codeseparator (pc : bytes) (opcode_pos : Z) (st : EvalState) : stop + EvalState :=
  mret {| stack := stack st; altstack := altstack st; vfExec := vfExec st; pbegincodehash := pc;
          nOpCount := nOpCount st; execdata := set_codeseparator_pos opcode_pos (execdata st); cstate := cstate st |}.

Definition op_checksig (opcode : Z) (st : EvalState) : stop + EvalState :=
  match stack st with
  | vchPubKey :: vchSig :: s =>
      EvalChecksig vchSig vchPubKey (pbegincodehash st) (execdata st) (cstate st)
        ≫= λ '((fSuccess, e, c) : bool * ScriptExecutionData * C),
      if opcode =? OP_CHECKSIGVERIFY then
        if fSuccess then mret (set_check s e c st) else set_error SCRIPT_ERR_CHECKSIGVERIFY
      else mret (set_check (of_bool fSuccess :: s) e c st)
  | _ => invalid_stack
  end.

Definition op_checksigadd (st : EvalState) : stop + EvalState :=
  if pre_tapscript sigversion then set_error SCRIPT_ERR_BAD_OPCODE else
  match stack st with
  | pubkey :: vch :: sig :: s =>
      num ← stack_number vch nDefaultMaxNumSize;
      EvalChecksig sig pubkey (pbegincodehash st) (execdata st) (cstate st)
        ≫= λ '((success, e, c) : bool * ScriptExecutionData * C),
      mret (set_check (serialize (num_add num (if success then 1 else 0)) :: s) e c st)
  | _ => invalid_stack
  end.

(** [for (int k = 0; k < nSigsCount; k++)]. *)
Fixpoint multisig_scriptCode (n : nat) (s : list bytes) (isig k : Z) (scriptCode : bytes) : stop + bytes :=
  match n with
  | O => mret scriptCode
  | S n =>
      vchSig ← stacktop s (isig + k);
      scriptCode ← (if is_base sigversion then
                      let '(scriptCode, found) := FindAndDelete scriptCode (push_data vchSig) in
                      if (0 <? found) && has_flag flags SCRIPT_VERIFY_CONST_SCRIPTCODE
                      then set_error SCRIPT_ERR_SIG_FINDANDDELETE else mret scriptCode
                    else mret scriptCode);
      multisig_scriptCode n s isig (k + 1) scriptCode
  end.

(** [while (fSuccess && nSigsCount > 0)]: every round uses up a key, and the loop ends when there
    are more signatures than keys, so the number of keys is enough fuel. *)
Fixpoint multisig_check (fuel : nat) (s : list bytes) (scriptCode : bytes) (isig ikey nSigsCount nKeysCount : Z) (c : C)
    : stop + bool * C :=
  if negb (0 <? nSigsCount) then mret (true, c) else
  match fuel with
  | O => inl assertion_failed
  | S fuel =>
      vchSig ← stacktop s isig;
      vchPubKey ← stacktop s ikey;
      CheckSignatureEncoding vchSig flags ≫= λ _,
      CheckPubKeyEncoding vchPubKey flags sigversion ≫= λ _,
      CheckECDSASignature checker vchSig vchPubKey scriptCode sigversion c ≫= λ '((fOk, c) : bool * C),
      let '(isig, nSigsCount) := if fOk then (isig + 1, nSigsCount - 1) else (isig, nSigsCount) in
      let ikey := ikey + 1 in
      let nKeysCount := nKeysCount - 1 in
      if nKeysCount <? nSigsCount then mret (false, c)
      else multisig_check fuel s scriptCode isig ikey nSigsCount nKeysCount c
  end.

(** [while (i-- > 1)], [n] rounds. *)
Fixpoint multisig_cleanup (n : nat) (fSuccess : bool) (ikey2 : Z) (s : list bytes) : stop + list bytes :=
  match n with
  | O => mret s
  | S n =>
      (if negb fSuccess && has_flag flags SCRIPT_VERIFY_NULLFAIL && (ikey2 =? 0) then
         vch ← stacktop s 1;
         if negb (length vch =? 0)%nat then set_error SCRIPT_ERR_SIG_NULLFAIL else mret ()
       else mret ()) ≫= λ _,
      let ikey2 := if 0 <? ikey2 then ikey2 - 1 else ikey2 in
      s ← popstack s;
      multisig_cleanup n fSuccess ikey2 s
  end.

Definition op_checkmultisig (opcode : Z) (st : EvalState) : stop + EvalState :=
  if is_tapscript sigversion then set_error SCRIPT_ERR_TAPSCRIPT_CHECKMULTISIG else
  let s := stack st in
  let i := 1 in
  if zlen s <? i then invalid_stack else
  vch ← stacktop s i;
  nKeysCount ← stack_number vch nDefaultMaxNumSize;
  let nKeysCount := getint nKeysCount in
  if (nKeysCount <? 0) || (MAX_PUBKEYS_PER_MULTISIG <? nKeysCount) then set_error SCRIPT_ERR_PUBKEY_COUNT else
  let nOpCount := nOpCount st + nKeysCount in
  if MAX_OPS_PER_SCRIPT <? nOpCount then set_error SCRIPT_ERR_OP_COUNT else
  let ikey := i + 1 in
  let ikey2 := nKeysCount + 2 in
  let i := ikey + nKeysCount in
  if zlen s <? i then invalid_stack else
  vch ← stacktop s i;
  nSigsCount ← stack_number vch nDefaultMaxNumSize;
  let nSigsCount := getint nSigsCount in
  if (nSigsCount <? 0) || (nKeysCount <? nSigsCount) then set_error SCRIPT_ERR_SIG_COUNT else
  let isig := i + 1 in
  let i := isig + nSigsCount in
  if zlen s <? i then invalid_stack else
  scriptCode ← multisig_scriptCode (Z.to_nat nSigsCount) s isig 0 (pbegincodehash st);
  multisig_check (Z.to_nat nKeysCount) s scriptCode isig ikey nSigsCount nKeysCount (cstate st)
    ≫= λ '((fSuccess, c) : bool * C),
  s ← multisig_cleanup (Z.to_nat (i - 1)) fSuccess ikey2 s;
  match s with
  | [] => invalid_stack
  | dummy :: s =>
      if has_flag flags SCRIPT_VERIFY_NULLDUMMY && negb (length dummy =? 0)%nat
      then set_error SCRIPT_ERR_SIG_NULLDUMMY else
      let st := set_nOpCount nOpCount st in
      if opcode =? OP_CHECKMULTISIGVERIFY then
        if fSuccess then mret (set_check s (execdata st) c st) else set_error SCRIPT_ERR_CHECKMULTISIGVERIFY
      else mret (set_check (of_bool fSuccess :: s) (execdata st) c st)
  end.

(** ** The switch *)

Definition on_stack (f : list bytes → stop + list bytes) (st : EvalState) : stop + EvalState :=
  s ← f (stack st); mret (set_stack s st).

Definition opcode_between (lo x hi : Z) : bool := (lo <=? x) && (x <=? hi).

Definition is_unary (opcode : Z) : bool :=
  (opcode =? OP_1ADD) || (opcode =? OP_1SUB) || (opcode =? OP_NEGATE) || (opcode =? OP_ABS)
  || (opcode =? OP_NOT) || (opcode =? OP_0NOTEQUAL).
Definition is_binary (opcode : Z) : bool :=
  (opcode =? OP_ADD) || (opcode =? OP_SUB) || (opcode =? OP_BOOLAND) || (opcode =? OP_BOOLOR) || (opcode =? OP_NUMEQUAL)
  || (opcode =? OP_NUMEQUALVERIFY) || (opcode =? OP_NUMNOTEQUAL) || (opcode =? OP_LESSTHAN) || (opcode =? OP_GREATERTHAN)
  || (opcode =? OP_LESSTHANOREQUAL) || (opcode =? OP_GREATERTHANOREQUAL) || (opcode =? OP_MIN) || (opcode =? OP_MAX).
Definition is_hash (opcode : Z) : bool :=
  (opcode =? OP_RIPEMD160) || (opcode =? OP_SHA1) || (opcode =? OP_SHA256) || (opcode =? OP_HASH160) || (opcode =? OP_HASH256).
Definition is_nop (opcode : Z) : bool := (opcode =? OP_NOP1) || opcode_between OP_NOP4 opcode OP_NOP10.

(** The operations that only read and write the stack. *)
Definition stack_operation (opcode : Z) : option (list bytes → stop + list bytes) :=
  if (opcode =? OP_1NEGATE) || opcode_between OP_1 opcode OP_16 then Some (λ s, mret (op_small_integer opcode s))
  else if opcode =? OP_NOP then Some mret
  else if opcode =? OP_CHECKLOCKTIMEVERIFY then Some op_checklocktimeverify
  else if opcode =? OP_CHECKSEQUENCEVERIFY then Some op_checksequenceverify
  else if is_nop opcode then Some op_nops
  else if opcode =? OP_VERIFY then Some op_verify
  else if opcode =? OP_RETURN then Some (λ _, set_error SCRIPT_ERR_OP_RETURN)
  else if opcode =? OP_2DROP then Some op_2drop
  else if opcode =? OP_2DUP then Some op_2dup
  else if opcode =? OP_3DUP then Some op_3dup
  else if opcode =? OP_2OVER then Some op_2over
  else if opcode =? OP_2ROT then Some op_2rot
  else if opcode =? OP_2SWAP then Some op_2swap
  else if opcode =? OP_IFDUP then Some op_ifdup
  else if opcode =? OP_DEPTH then Some op_depth
  else if opcode =? OP_DROP then Some op_drop
  else if opcode =? OP_DUP then Some op_dup
  else if opcode =? OP_NIP then Some op_nip
  else if opcode =? OP_OVER then Some op_over
  else if (opcode =? OP_PICK) || (opcode =? OP_ROLL) then Some (op_pick_roll opcode)
  else if opcode =? OP_ROT then Some op_rot
  else if opcode =? OP_SWAP then Some op_swap
  else if opcode =? OP_TUCK then Some op_tuck
  else if opcode =? OP_SIZE then Some op_size
  else if (opcode =? OP_EQUAL) || (opcode =? OP_EQUALVERIFY) then Some (op_equal opcode)
  else if is_unary opcode then Some (op_unary opcode)
  else if is_binary opcode then Some (op_binary opcode)
  else if opcode =? OP_WITHIN then Some op_within
  else if is_hash opcode then Some (op_hash opcode)
  else None.

Definition execute (opcode : Z) (pc : bytes) (opcode_pos : Z) (fExec : bool) (st : EvalState) : stop + EvalState :=
  match stack_operation opcode with
  | Some f => on_stack f st
  | None =>
      if (opcode =? OP_IF) || (opcode =? OP_NOTIF) then op_if opcode fExec st
      else if opcode =? OP_ELSE then op_else st
      else if opcode =? OP_ENDIF then op_endif st
      else if opcode =? OP_TOALTSTACK then op_toaltstack st
      else if opcode =? OP_FROMALTSTACK then op_fromaltstack st
      else if opcode =? OP_CODESEPARATOR then op_codeseparator pc opcode_pos st
      else if (opcode =? OP_CHECKSIG) || (opcode =? OP_CHECKSIGVERIFY) then op_checksig opcode st
      else if opcode =? OP_CHECKSIGADD then op_checksigadd st
      else if (opcode =? OP_CHECKMULTISIG) || (opcode =? OP_CHECKMULTISIGVERIFY) then op_checkmultisig opcode st
      else set_error SCRIPT_ERR_BAD_OPCODE
  end.

Definition is_disabled (opcode : Z) : bool :=
  (opcode =? OP_CAT) || (opcode =? OP_SUBSTR) || (opcode =? OP_LEFT) || (opcode =? OP_RIGHT) || (opcode =? OP_INVERT)
  || (opcode =? OP_AND) || (opcode =? OP_OR) || (opcode =? OP_XOR) || (opcode =? OP_2MUL) || (opcode =? OP_2DIV)
  || (opcode =? OP_MUL) || (opcode =? OP_DIV) || (opcode =? OP_MOD) || (opcode =? OP_LSHIFT) || (opcode =? OP_RSHIFT).

(** One round of the loop: the position after the instruction and the new state. *)
Definition step (pc : bytes) (opcode_pos : Z) (st : EvalState) : stop + bytes * EvalState :=
  let fExec := ConditionStack.all_true (vfExec st) in
  match GetScriptOp pc with
  | (false, _, _, _) => set_error SCRIPT_ERR_BAD_OPCODE
  | (true, opcode, vchPushValue, pc) =>
      if MAX_SCRIPT_ELEMENT_SIZE <? zlen vchPushValue then set_error SCRIPT_ERR_PUSH_SIZE else
      st ← (if pre_tapscript sigversion && (OP_16 <? opcode) then
              let nOpCount := nOpCount st + 1 in
              if MAX_OPS_PER_SCRIPT <? nOpCount then set_error SCRIPT_ERR_OP_COUNT else mret (set_nOpCount nOpCount st)
            else mret st);
      if is_disabled opcode then set_error SCRIPT_ERR_DISABLED_OPCODE else
      if (opcode =? OP_CODESEPARATOR) && is_base sigversion && has_flag flags SCRIPT_VERIFY_CONST_SCRIPTCODE
      then set_error SCRIPT_ERR_OP_CODESEPARATOR else
      st ← (if fExec && opcode_between 0 opcode OP_PUSHDATA4 then
              minimal ← (if fRequireMinimal then asserted (CheckMinimalPush vchPushValue opcode) else mret true);
              if negb minimal then set_error SCRIPT_ERR_MINIMALDATA
              else mret (set_stack (vchPushValue :: stack st) st)
            else if fExec || opcode_between OP_IF opcode OP_ENDIF then execute opcode pc opcode_pos fExec st
            else mret st);
      if MAX_STACK_SIZE <? zlen (stack st) + zlen (altstack st) then set_error SCRIPT_ERR_STACK_SIZE
      else mret (pc, st)
  end.

Fixpoint eval_loop (fuel : nat) (pc : bytes) (opcode_pos : Z) (st : EvalState) : stop + EvalState :=
  match pc, fuel with
  | [], _ => mret st
  | _, O => inl assertion_failed
  | _, S fuel => '(pc, st) ← step pc opcode_pos st; eval_loop fuel pc (u32 (opcode_pos + 1)) st
  end.

(** What the handlers around the loop make of an exception. *)
Definition caught {A} (r : stop + A) : stop + A :=
  match r with
  | inl throws_scriptnum_error => set_error SCRIPT_ERR_SCRIPTNUM
  | inl throws_other => set_error SCRIPT_ERR_UNKNOWN_ERROR
  | inl (returns_false None) => set_error SCRIPT_ERR_UNKNOWN_ERROR
  | _ => r
  end.

(** The stack, the execution data and the state of the checker after a successful evaluation.  An
    error that is not set stays [SCRIPT_ERR_UNKNOWN_ERROR], which [EvalScript] sets first. *)
Definition EvalScript (s : list bytes) (script : bytes) (e : ScriptExecutionData) (c : C)
    : stop + list bytes * ScriptExecutionData * C :=
  assert (negb (bool_decide (sigversion = TAPROOT))) ≫= λ _,
  if pre_tapscript sigversion && (MAX_SCRIPT_SIZE <? zlen script) then set_error SCRIPT_ERR_SCRIPT_SIZE else
  st ← caught (eval_loop (length script) script 0
         {| stack := s; altstack := []; vfExec := ConditionStack.new; pbegincodehash := script; nOpCount := 0;
            execdata := set_codeseparator_pos 0xFFFFFFFF e; cstate := c |});
  if negb (ConditionStack.empty (vfExec st)) then set_error SCRIPT_ERR_UNBALANCED_CONDITIONAL
  else mret (stack st, execdata st, cstate st).
End EvalScript.
End Signatures.
