(* ===== verification/InterpreterTheory.v ===== *)
(** * Theory of the script interpreter

    What every evaluation keeps: the sizes of the stack and of its items, the count of
    operations, and that no assertion fails and no exception but the one for numbers is thrown.
    The optimised stack of conditions implements a list of booleans.  Multisignature checks
    accept exactly the signatures that match keys in order.  Evaluation under more flags succeeds
    only where evaluation under fewer flags succeeds with the same result. *)

From S2P Require Import Prelude Endian Serialize Hasher Sha256 Sha1 Ripemd160 Hash Primitives Script PubKey Interpreter.
From Stdlib Require Import ZArith Lia.
From stdpp Require Import base option list numbers gmap.

Open Scope Z_scope.
Open Scope kernel_scope.

(** ** The stack of conditions

    The vector of booleans that the class stands for, the bottom first. *)

Fixpoint first_false (v : list bool) : option nat :=
  match v with
  | [] => None
  | false :: _ => Some 0%nat
  | true :: v => S <$> first_false v
  end.
Definition cond_repr (c : ConditionStack.t) (v : list bool) : Prop :=
  zlen v < ConditionStack.NO_FALSE ∧ ConditionStack.m_stack_size c = zlen v ∧
  ConditionStack.m_first_false_pos c = from_option Z.of_nat ConditionStack.NO_FALSE (first_false v).

Lemma first_false_lt v i : first_false v = Some i → (i < length v)%nat.
Proof.
  revert i. induction v as [|[] v IH]; intros i; simpl; [done| |intros [= <-]; lia].
  destruct (first_false v) as [j|]; [|done]. intros [= <-]. specialize (IH j eq_refl). lia.
Qed.
Lemma first_false_snoc v b :
  first_false (v ++ [b]) = match first_false v with Some i => Some i | None => if b then None else Some (length v) end.
Proof. induction v as [|[] v IH]; simpl; [by destruct b| |done]. rewrite IH. by destruct (first_false v), b. Qed.
Lemma first_false_forallb v : first_false v = None ↔ forallb id v = true.
Proof. induction v as [|[] v IH]; simpl; [done| |done]. rewrite <-IH. by destruct (first_false v). Qed.

Lemma cond_new : cond_repr ConditionStack.new [].
Proof. done. Qed.
Lemma cond_empty c v : cond_repr c v → ConditionStack.empty c = bool_decide (v = []).
Proof. intros (_ & Hs & _). unfold ConditionStack.empty. rewrite Hs. by destruct v. Qed.
Lemma cond_all_true c v : cond_repr c v → ConditionStack.all_true c = forallb id v.
Proof.
  intros (Hlen & _ & Hf). unfold ConditionStack.all_true. rewrite Hf.
  pose proof (first_false_forallb v) as Hv. destruct (first_false v) as [i|] eqn:E; simpl.
  - apply first_false_lt in E. destruct (forallb id v); [by destruct Hv as [_ Hv]; discriminate Hv|]. apply Z.eqb_neq. lia.
  - by rewrite (proj1 Hv eq_refl).
Qed.
Lemma cond_push c v f :
  cond_repr c v → zlen v + 1 < ConditionStack.NO_FALSE → cond_repr (ConditionStack.push_back c f) (v ++ [f]).
Proof.
  intros (Hlen & Hs & Hf) Hb. unfold cond_repr. rewrite length_app, first_false_snoc. cbn [length].
  unfold ConditionStack.push_back. cbn [ConditionStack.m_stack_size ConditionStack.m_first_false_pos].
  rewrite Hs, Hf. unfold ConditionStack.NO_FALSE in *.
  split; [lia|]. split; [rewrite uwrap_small by (unfold urange; lia); lia|].
  destruct (first_false v) as [i|] eqn:E; simpl.
  - apply first_false_lt in E. by destruct (Z.eqb_spec (Z.of_nat i) (2 ^ 32 - 1)); [lia|].
  - by destruct f.
Qed.
Lemma cond_pop c v b : cond_repr c (v ++ [b]) → ∃ c', ConditionStack.pop_back c = Some c' ∧ cond_repr c' v.
Proof.
  unfold cond_repr. rewrite length_app, first_false_snoc. cbn [length]. intros (Hlen & Hs & Hf).
  unfold ConditionStack.pop_back. rewrite Hs, Hf. destruct (Z.leb_spec (Z.of_nat (length v + 1)) 0); [lia|].
  eexists; split; [done|]. cbn [ConditionStack.m_stack_size ConditionStack.m_first_false_pos].
  replace (Z.of_nat (length v + 1) - 1) with (zlen v) by lia. split_and!; [lia|done|].
  destruct (first_false v) as [i|] eqn:E; simpl.
  - apply first_false_lt in E. by destruct (Z.eqb_spec (Z.of_nat i) (zlen v)); [lia|].
  - destruct b; simpl; [|by rewrite Z.eqb_refl]. by case_match.
Qed.
Lemma cond_toggle c v b :
  cond_repr c (v ++ [b]) → ∃ c', ConditionStack.toggle_top c = Some c' ∧ cond_repr c' (v ++ [negb b]).
Proof.
  unfold cond_repr. rewrite !length_app, !first_false_snoc. cbn [length]. intros (Hlen & Hs & Hf).
  unfold ConditionStack.toggle_top. rewrite Hs, Hf. destruct (Z.leb_spec (Z.of_nat (length v + 1)) 0); [lia|].
  eexists; split; [done|]. cbn [ConditionStack.m_stack_size ConditionStack.m_first_false_pos].
  replace (Z.of_nat (length v + 1) - 1) with (zlen v) by lia. split_and!; [done|done|].
  destruct (first_false v) as [i|] eqn:E; simpl.
  - apply first_false_lt in E. destruct (Z.eqb_spec (Z.of_nat i) ConditionStack.NO_FALSE); [lia|].
    by destruct (Z.eqb_spec (Z.of_nat i) (zlen v)); [lia|].
  - destruct b; simpl; [done|].
    destruct (Z.eqb_spec (zlen v) ConditionStack.NO_FALSE); [lia|]. by rewrite Z.eqb_refl.
Qed.

(** Sequences of operations on the class and on the vector; [None] is a failed assertion. *)
Inductive cond_op := CondPush (f : bool) | CondPop | CondToggle.
Definition cond_step (c : option ConditionStack.t) (op : cond_op) : option ConditionStack.t :=
  c ← c;
  match op with
  | CondPush f => Some (ConditionStack.push_back c f)
  | CondPop => ConditionStack.pop_back c
  | CondToggle => ConditionStack.toggle_top c
  end.
Definition vector_step (v : option (list bool)) (op : cond_op) : option (list bool) :=
  v ← v;
  match op with
  | CondPush f => Some (v ++ [f])
  | CondPop => match v with [] => None | _ => Some (take (length v - 1) v) end
  | CondToggle => match v with [] => None | _ => Some (take (length v - 1) v ++ [negb (List.last v false)]) end
  end.

Definition cond_related (n : nat) (c : option ConditionStack.t) (v : option (list bool)) : Prop :=
  match c, v with
  | Some c, Some v => cond_repr c v ∧ (length v ≤ n)%nat
  | None, None => True
  | _, _ => False
  end.
Lemma cond_step_related n c v op :
  Z.of_nat n + 1 < ConditionStack.NO_FALSE → cond_related n c v →
  cond_related (S n) (cond_step c op) (vector_step v op).
Proof.
  intros Hn Hr. destruct c as [c|], v as [v|]; simpl in Hr; try done. destruct Hr as [Hr Hlen].
  destruct op as [f| |]; simpl.
  { split; [apply cond_push; [done|lia]|]. rewrite length_app. simpl. lia. }
  all: destruct (decide (v = [])) as [->|Hne];
    [destruct Hr as (_ & Hs & _); unfold ConditionStack.pop_back, ConditionStack.toggle_top; by rewrite Hs|].
  all: destruct (exists_last Hne) as (v' & b & ->); rewrite length_app in *; cbn [length] in *.
  all: replace (length v' + 1 - 1)%nat with (length v') by lia; rewrite take_app_length.
  - destruct (cond_pop c v' b Hr) as (c' & -> & Hr'). destruct (v' ++ [b]) eqn:E; [by destruct v'|]. split; [done|lia].
  - destruct (cond_toggle c v' b Hr) as (c' & -> & Hr'). rewrite last_last.
    destruct (v' ++ [b]) eqn:E; [by destruct v'|]. split; [done|]. rewrite length_app. simpl. lia.
Qed.

(** ** Results that do not go wrong

    A computation is safe when it returns a value with the property, returns false, or throws
    the exception for numbers. *)
Definition safe {A} (P : A → Prop) (r : stop + A) : Prop :=
  match r with
  | inr x => P x
  | inl (returns_false _) | inl throws_scriptnum_error => True
  | inl _ => False
  end.

Lemma safe_ret {A} (P : A → Prop) x : P x → safe P (mret x).
Proof. done. Qed.
Lemma safe_error {A} (P : A → Prop) e : safe P (set_error e).
Proof. done. Qed.
Lemma safe_bind {A B} (P : A → Prop) (Q : B → Prop) m (f : A → stop + B) :
  safe P m → (∀ x, P x → safe Q (f x)) → safe Q (m ≫= f).
Proof. destruct m as [[]|x]; simpl; auto. Qed.
Lemma safe_weaken {A} (P Q : A → Prop) r : safe P r → (∀ x, P x → Q x) → safe Q r.
Proof. destruct r as [[]|x]; simpl; auto. Qed.
Lemma safe_assert b : b = true → safe (λ _, True) (assert b).
Proof. by intros ->. Qed.

(** ** Values on the stack *)

Definition item_ok (v : bytes) : Prop := bytes_ok v ∧ zlen v ≤ MAX_SCRIPT_ELEMENT_SIZE.

Lemma serialize_item v : - 2 ^ 63 < v < 2 ^ 63 → item_ok (serialize v).
Proof.
  intros Hv. destruct (serialize_num_decode v Hv) as (Hok & _ & _ & Hlen).
  specialize (Hlen 8 ltac:(lia) ltac:(change (2 ^ (8 * 8 - 1)) with (2 ^ 63); lia)).
  split; [done|]. unfold MAX_SCRIPT_ELEMENT_SIZE. lia.
Qed.
Lemma of_bool_item b : item_ok (of_bool b).
Proof. destruct b; split; try done; by repeat constructor. Qed.

Section HashSizes.
Lemma blocks_length f (n k : nat) s c :
  (∀ s c, length s = k → length (f s c) = k) → length s = k → length (Transform_blocks 64 f s c n) = k.
Proof. intros Hf. revert s c. induction n as [|n IH]; intros s c Hs; [done|]. cbn. by apply IH, Hf. Qed.
Lemma length_words (f : Z → bytes) ws : (∀ x, length (f x) = 4%nat) → length (concat (map f ws)) = (4 * length ws)%nat.
Proof. intros Hf. induction ws as [|w ws IH]; [done|]. cbn. rewrite length_app, IH, Hf. lia. Qed.
Lemma words_ok (f : Z → bytes) ws : (∀ x, bytes_ok (f x)) → bytes_ok (concat (map f ws)).
Proof. intros Hf. induction ws as [|w ws IH]; [by apply digits_ok_nil|]. cbn. by apply digits_ok_app. Qed.

Lemma SHA1_item m : item_ok (fips1.SHA1 m).
Proof.
  unfold fips1.SHA1. split; [apply words_ok; auto with kernel|].
  rewrite length_words by apply length_WriteBE32. unfold md_compress.
  rewrite (blocks_length _ _ 5); [done|apply compress1_length|done].
Qed.
Lemma RIPEMD160_item m : item_ok (rmd.RIPEMD160 m).
Proof.
  unfold rmd.RIPEMD160. split; [apply words_ok; auto with kernel|].
  rewrite length_words by apply length_WriteLE32. unfold md_compress.
  rewrite (blocks_length _ _ 5); [done|apply compressRmd_length|done].
Qed.
End HashSizes.

#[local] Transparent Hash Hash160.
Lemma op_hash_value opcode vch s :
  op_hash opcode (vch :: s) =
    mret ((if opcode =? OP_RIPEMD160 then rmd.RIPEMD160 vch
           else if opcode =? OP_SHA1 then fips1.SHA1 vch
           else if opcode =? OP_SHA256 then fips.SHA256 vch
           else if opcode =? OP_HASH160 then Hash160 vch else Hash vch) :: s).
Proof.
  assert (CSHA1.Finalize (CSHA1.Write (CSHA1.make (replicate 64 0)) vch) = fips1.SHA1 vch) as H1.
  { rewrite <-(app_nil_r vch) at 2. apply CSHA1_Finalize_represents. exact (CSHA1_writes (replicate 64 0) [vch] eq_refl). }
  assert (CSHA256.Finalize (CSHA256.Write CSHA256_new vch) = fips.SHA256 vch) as H2.
  { rewrite <-(app_nil_r vch) at 2. apply CSHA256_Finalize_represents. exact (CSHA256_writes (replicate 64 0) [vch] eq_refl). }
  assert (CRIPEMD160.Finalize (CRIPEMD160.Write CRIPEMD160_new vch) = rmd.RIPEMD160 vch) as H3.
  { rewrite <-(app_nil_r vch) at 2. apply CRIPEMD160_Finalize_represents. exact (CRIPEMD160_writes (replicate 64 0) [vch] eq_refl). }
  unfold op_hash, Hash160, Hash. rewrite H1, H2, H3. reflexivity.
Qed.
#[local] Opaque Hash Hash160.

Lemma op_hash_safe opcode s : Forall item_ok s → safe (Forall item_ok) (op_hash opcode s).
Proof.
  intros Hs. destruct Hs as [|vch s Hv Hs]; [done|]. rewrite op_hash_value. apply safe_ret. constructor; [|done].
  assert (∀ m, item_ok (fips.SHA256 m)) as H256.
  { intros m. split; [auto with kernel|]. by rewrite length_SHA256. }
  repeat case_match; [apply RIPEMD160_item|apply SHA1_item|apply H256|rewrite Hash160_spec; apply RIPEMD160_item|].
  rewrite Hash_double. apply H256.
Qed.

(** ** Stack operations *)

Lemma number_safe (flags : Z) vch n :
  bytes_ok vch → 1 ≤ n ≤ 8 → safe (λ v, Z.abs v < 2 ^ (8 * n - 1)) (stack_number flags vch n).
Proof.
  intros Hok Hn. unfold stack_number. rewrite CScriptNum_spec by (done || lia). fold (num_decode vch).
  destruct (Z.ltb_spec n (zlen vch)); [done|]. case_match; [done|]. apply num_decode_range; (done || lia).
Qed.

Lemma number4_safe flags vch : item_ok vch → safe (λ v, Z.abs v < 2 ^ 31) (stack_number flags vch nDefaultMaxNumSize).
Proof. intros [Hok _]. by apply (number_safe flags vch 4). Qed.

(** One step of a safety proof: leave a binding, a test or a pattern on the stack. *)
Ltac safe_step :=
  match goal with
  | |- safe _ (mret _) => apply safe_ret
  | |- safe _ (inr _) => apply safe_ret
  | |- safe _ (set_error _) => done
  | |- safe _ invalid_stack => done
  | |- safe _ (stack_number _ _ nDefaultMaxNumSize ≫= _) =>
      eapply safe_bind; [apply number4_safe; by auto|intros ? ?]
  | |- safe _ (if _ then _ else _) => case_match
  | |- safe _ (match ?s with [] => _ | _ :: _ => _ end) => destruct s
  end.

Lemma stacktop_safe (P : bytes → Prop) s i : Forall P s → 1 ≤ i ≤ zlen s → safe P (stacktop s i).
Proof.
  intros Hs Hi. unfold stacktop. destruct (Z.leb_spec i 0); [lia|].
  destruct (lookup_lt_is_Some_2 s (Z.to_nat (i - 1)) ltac:(lia)) as [v Hv]. rewrite Hv. apply safe_ret. eapply Forall_lookup_1; eauto.
Qed.

Ltac stack_items := repeat match goal with H : Forall item_ok (_ :: _) |- _ => apply Forall_cons_1 in H as [??] end.

Section Safety.
Context `{SIGS : Secp256k1Signatures} {C : Type} (checker : BaseSignatureChecker C) (flags : Z) (sigversion : SigVersion).

Lemma op_unary_safe opcode s :
  is_unary opcode = true → Forall item_ok s → safe (Forall item_ok) (op_unary flags opcode s).
Proof.
  intros Hop Hs. unfold op_unary. destruct s as [|vch s]; [done|]. stack_items.
  eapply safe_bind; [by apply number4_safe|]. intros n Hn. cbv beta in Hn.
  eapply (safe_bind (λ v, - 2 ^ 63 < v < 2 ^ 63)); [|intros v Hv; apply safe_ret; constructor; [by apply serialize_item|done]].
  assert (num_add_assign n 1 = Some (n + 1)) as ->.
  { unfold num_add_assign, INT64_MAX. destruct (Z.leb_spec n (2 ^ 63 - 1 - 1)); [|lia].
    simpl. by rewrite swrap_small by (unfold srange; lia). }
  assert (num_sub_assign n 1 = Some (n - 1)) as ->.
  { unfold num_sub_assign, INT64_MIN. destruct (Z.leb_spec (- 2 ^ 63 + 1) n); [|lia].
    simpl. by rewrite swrap_small by (unfold srange; lia). }
  assert (num_neg n = Some (- n)) as ->.
  { unfold num_neg, INT64_MIN. by destruct (Z.eqb_spec n (- 2 ^ 63)); [lia|]. }
  unfold is_unary in Hop. simpl. repeat (case_match; simpl in *; try lia); try done.
  all: match goal with |- context [Z.b2z ?b] => destruct b; simpl; lia end.
Qed.

Lemma op_binary_safe opcode s :
  is_binary opcode = true → Forall item_ok s → safe (Forall item_ok) (op_binary flags opcode s).
Proof.
  intros Hop Hs. unfold op_binary. destruct s as [|vch2 [|vch1 s]]; [done..|]. stack_items.
  eapply safe_bind; [by apply number4_safe|]. intros n Hn. cbv beta in Hn.
  eapply safe_bind; [by apply number4_safe|]. intros m Hm. cbv beta in Hm.
  eapply (safe_bind (λ v, - 2 ^ 63 < v < 2 ^ 63)).
  - assert (num_add n m = n + m) as -> by (apply swrap_small; [lia|unfold srange; lia]).
    assert (num_sub n m = n - m) as -> by (apply swrap_small; [lia|unfold srange; lia]).
    assert (∀ b, safe (λ v, - 2 ^ 63 < v < 2 ^ 63) (mret (M:=sum stop) (Z.b2z b))) as Hb by (intros []; simpl; lia).
    unfold is_binary in Hop. repeat (case_match; [first [apply Hb|apply safe_ret; repeat case_match; lia]|]).
    simpl in Hop. done.
  - intros v Hv. repeat safe_step; [done|]. constructor; [by apply serialize_item|done].
Qed.

Lemma op_pick_roll_safe opcode s :
  Forall item_ok s → safe (Forall item_ok) (op_pick_roll flags opcode s).
Proof.
  intros Hs. unfold op_pick_roll. destruct s as [|top [|x s]]; [done..|]. stack_items.
  eapply safe_bind; [by apply number4_safe|]. intros n Hn. cbn [popstack mbind sum_mbind mret sum_mret].
  destruct (Z.ltb_spec (getint n) 0); [done|]. destruct (Z.leb_spec (zlen (x :: s)) (getint n)); [done|].
  eapply (safe_bind item_ok); [apply stacktop_safe; [by constructor|lia]|].
  intros vch Hvch. apply safe_ret. constructor; [done|].
  assert (Forall item_ok (x :: s)) as Hxs by (by constructor).
  case_match; [|done]. by apply Forall_delete.
Qed.

(** Every operation on the stack keeps its items small, and is safe. *)
Lemma stack_operation_safe opcode f s :
  stack_operation checker flags opcode = Some f → zlen s ≤ 2 ^ 32 → Forall item_ok s → safe (Forall item_ok) (f s).
Proof.
  intros Hf Hlen Hs. unfold stack_operation in Hf.
  assert (item_ok (serialize (zlen s))) as Hdepth by (apply serialize_item; lia).
  assert (∀ v, item_ok v → item_ok (serialize (zlen v))) as Hsize.
  { intros v [_ Hv]. unfold MAX_SCRIPT_ELEMENT_SIZE in Hv. apply serialize_item. lia. }
  pose proof of_bool_item as Hbool.
  repeat (case_match; [injection Hf as <-|]); [..|done];
    try (unfold op_checklocktimeverify, op_checksequenceverify; case_match; [done|]; destruct Hs as [|vch s [Hok ?] Hs]; [done|];
         eapply safe_bind; [by apply (number_safe flags vch 5); [|lia]|]; intros n _; repeat safe_step; by constructor);
    try (by apply op_pick_roll_safe); try (by apply op_unary_safe); try (by apply op_binary_safe);
    try (by apply op_hash_safe); try done.
  { apply safe_ret. constructor; [|done]. apply serialize_item. unfold opcode_between, OP_1NEGATE, OP_1, OP_16 in *.
    apply orb_true_iff in H as [H%Z.eqb_eq|[?%Z.leb_le ?%Z.leb_le]%andb_true_iff]; lia. }
  { unfold op_nops. by case_match. }
  { destruct Hs; [done|]. unfold op_verify. by case_match. }
  all: unfold op_2drop, op_2dup, op_3dup, op_2over, op_2rot, op_2swap, op_ifdup, op_depth, op_drop, op_dup, op_nip,
    op_over, op_rot, op_swap, op_tuck, op_size, op_equal, op_within.
  all: repeat (safe_step || (stack_items; progress safe_step)); stack_items.
  all: try case_match; repeat apply Forall_cons_2; auto.
Qed.
(** ** Signature checks *)

(** The data that a Schnorr check reads is there. *)
Definition exec_ready (e : ScriptExecutionData) : Prop :=
  m_tapleaf_hash_init e = true ∧ m_codeseparator_pos_init e = true ∧ m_annex_init e = true ∧
  m_validation_weight_left_init e = true.

(** What the interpreter relies on: a checker called as it is called here does not fail an
    assertion, and keeps the execution data initialized. *)
Record checker_safe : Prop := {
  ecdsa_safe sig pubkey code c :
    pre_tapscript sigversion = true → safe (λ _, True) (CheckECDSASignature checker sig pubkey code sigversion c);
  schnorr_safe sig pubkey e c :
    sigversion = TAPSCRIPT → length pubkey = 32%nat → exec_ready e →
    safe (λ r, exec_ready r.1) (CheckSchnorrSignature checker sig pubkey sigversion e c)
}.
Context (Hchecker : checker_safe) (Hversion : sigversion ≠ TAPROOT).

Lemma encoding_safe sig pubkey (k : stop + bool * C) :
  safe (λ _, True) k →
  safe (λ _, True) (CheckSignatureEncoding sig flags ≫= λ _, CheckPubKeyEncoding pubkey flags sigversion ≫= λ _, k).
Proof.
  intros Hk. apply (safe_bind (λ _, True)); [unfold CheckSignatureEncoding; repeat case_match; done|].
  intros _ _. apply (safe_bind (λ _, True)); [unfold CheckPubKeyEncoding; repeat case_match; done|]. done.
Qed.

Lemma EvalChecksig_safe sig pubkey code e c :
  (sigversion = TAPSCRIPT → exec_ready e) →
  safe (λ r, sigversion = TAPSCRIPT → exec_ready r.1.2) (EvalChecksig checker flags sigversion sig pubkey code e c).
Proof.
  intros He. unfold EvalChecksig.
  assert (pre_tapscript sigversion = true →
    safe (λ _, True) (EvalChecksigPreTapscript checker flags sigversion sig pubkey code c)) as Hpre.
  { intros Hv. unfold EvalChecksigPreTapscript. rewrite Hv. cbn [assert mbind sum_mbind mret sum_mret].
    apply (safe_bind (λ _, True)); [repeat case_match; done|]. intros code' _. apply encoding_safe.
    apply (safe_bind (λ _, True)); [by apply (ecdsa_safe Hchecker)|]. intros [ok c'] _. by case_match. }
  destruct sigversion eqn:Hv; [..|done|].
  1, 2: apply (safe_bind (λ _, True)); [by apply Hpre|]; intros [ok c'] _; done.
  unfold EvalChecksigTapscript. cbn [is_tapscript assert mbind sum_mbind mret sum_mret].
  specialize (He eq_refl). apply (safe_bind exec_ready).
  { case_match; [|done]. pose proof He as (? & ? & ? & ->). cbn [assert mbind sum_mbind mret sum_mret].
    case_match; [done|]. apply safe_ret. done. }
  intros e' He'. case_match; [done|]. case_match eqn:Hlen; [|repeat case_match; try done; by apply safe_ret; intros _].
  apply Nat.eqb_eq in Hlen. case_match; [|by apply safe_ret; intros _]. apply (safe_bind (λ r, exec_ready r.1)).
  - rewrite <-Hv. by apply (schnorr_safe Hchecker).
  - intros [e'' c''] He''. by apply safe_ret; intros _.
Qed.

(** ** Multisignatures *)

Lemma multisig_scriptCode_safe n s isig k code :
  Forall item_ok s → 1 ≤ isig + k → isig + k + Z.of_nat n ≤ zlen s + 1 →
  safe (λ _, True) (multisig_scriptCode flags sigversion n s isig k code).
Proof.
  intros Hs. revert k code. induction n as [|n IH]; intros k code H1 H2; [done|]. cbn [multisig_scriptCode].
  apply (safe_bind item_ok); [by apply stacktop_safe; [|lia]|]. intros vch _.
  apply (safe_bind (λ _, True)); [repeat case_match; done|]. intros code' _. apply IH; lia.
Qed.

(** Fuel: as many rounds as keys. *)
Lemma multisig_check_safe fuel s code isig ikey nSigs nKeys c :
  pre_tapscript sigversion = true → Forall item_ok s → Z.of_nat fuel = nKeys → nSigs ≤ nKeys →
  1 ≤ isig → isig + nSigs ≤ zlen s + 1 → 1 ≤ ikey → ikey + nKeys ≤ zlen s + 1 →
  safe (λ _, True) (multisig_check checker flags sigversion fuel s code isig ikey nSigs nKeys c).
Proof.
  intros Hv Hs. revert isig ikey nSigs nKeys c. induction fuel as [|fuel IH]; intros isig ikey nSigs nKeys c Hf Hle H1 H2 H3 H4.
  { cbn. by destruct (Z.ltb_spec 0 nSigs); [lia|]. }
  cbn [multisig_check]. destruct (Z.ltb_spec 0 nSigs) as [Hpos|]; [|done]. cbn [negb].
  apply (safe_bind item_ok); [by apply stacktop_safe; [|lia]|]. intros sig _.
  apply (safe_bind item_ok); [by apply stacktop_safe; [|lia]|]. intros key _.
  apply encoding_safe. apply (safe_bind (λ _, True)); [by apply (ecdsa_safe Hchecker)|]. intros [ok c'] _.
  destruct ok; cbv zeta; (case_match eqn:E; [done|apply Z.ltb_ge in E]); apply IH; lia.
Qed.

Lemma multisig_cleanup_safe n ok ikey2 s :
  Forall item_ok s → (n ≤ length s)%nat →
  safe (λ s', Forall item_ok s' ∧ length s' = length s - n)%nat (multisig_cleanup flags n ok ikey2 s).
Proof.
  revert ikey2 s. induction n as [|n IH]; intros ikey2 s Hs Hn; [apply safe_ret; split; [done|lia]|].
  cbn [multisig_cleanup]. destruct Hs as [|vch s Hvch Hs]; [simpl in Hn; lia|].
  apply (safe_bind (λ _, True)); [case_match; [simpl; by case_match|done]|]. intros _ _.
  cbn [popstack mbind sum_mbind mret sum_mret]. simpl in Hn. apply IH; [done|lia].
Qed.
(** ** The invariant of the loop *)

(** [N] bounds the nesting of conditions. *)
Record eval_inv (N : nat) (st : EvalState (C:=C)) : Prop := {
  inv_stack : Forall item_ok (stack st);
  inv_altstack : Forall item_ok (altstack st);
  inv_ops : 0 ≤ nOpCount st ≤ MAX_OPS_PER_SCRIPT;
  inv_exec : sigversion = TAPSCRIPT → exec_ready (execdata st);
  inv_cond : ∃ v, cond_repr (vfExec st) v ∧ (length v ≤ N)%nat
}.

Lemma op_checkmultisig_safe N opcode st :
  eval_inv N st → safe (eval_inv N) (op_checkmultisig checker flags sigversion opcode st).
Proof.
  intros [Hs Ha Ho He Hc]. unfold op_checkmultisig.
  destruct (is_tapscript sigversion) eqn:Hnt; [done|].
  assert (pre_tapscript sigversion = true) as Hpre by (by destruct sigversion).
  destruct (Z.ltb_spec (zlen (stack st)) 1); [done|].
  apply (safe_bind item_ok); [by apply stacktop_safe; [|lia]|]. intros vk Hvk.
  eapply safe_bind; [by apply number4_safe|]. intros k _. cbv zeta. set (nKeys := getint k).
  destruct (Z.ltb_spec nKeys 0); [done|]. destruct (Z.ltb_spec MAX_PUBKEYS_PER_MULTISIG nKeys); [done|]. cbn [orb].
  destruct (Z.ltb_spec MAX_OPS_PER_SCRIPT (nOpCount st + nKeys)); [done|].
  destruct (Z.ltb_spec (zlen (stack st)) (1 + 1 + nKeys)); [done|].
  apply (safe_bind item_ok); [by apply stacktop_safe; [|lia]|]. intros vs Hvs.
  eapply safe_bind; [by apply number4_safe|]. intros n _. set (nSigs := getint n).
  destruct (Z.ltb_spec nSigs 0); [done|]. destruct (Z.ltb_spec nKeys nSigs); [done|]. cbn [orb].
  destruct (Z.ltb_spec (zlen (stack st)) (1 + 1 + nKeys + 1 + nSigs)); [done|].
  apply (safe_bind (λ _, True)); [apply multisig_scriptCode_safe; (done || lia)|]. intros code _.
  apply (safe_bind (λ _, True)); [apply multisig_check_safe; (done || lia)|]. intros [ok c] _.
  eapply safe_bind; [apply multisig_cleanup_safe; [done|lia]|]. intros s [Hs' _].
  destruct Hs' as [|dummy s Hd Hs']; [done|]. pose proof (of_bool_item ok).
  repeat case_match; try done; apply safe_ret; constructor; simpl; try done; try lia. by apply Forall_cons_2.
Qed.

Lemma eval_inv_S N st : eval_inv N st → eval_inv (S N) st.
Proof. intros [? ? ? ? (v & ? & ?)]. constructor; try done. exists v. split; [done|lia]. Qed.

Lemma op_conditions_safe N opcode fExec st :
  eval_inv N st → Z.of_nat N + 1 < ConditionStack.NO_FALSE →
  safe (eval_inv (S N)) (op_if flags sigversion opcode fExec st) ∧
  safe (eval_inv (S N)) (op_else st) ∧ safe (eval_inv (S N)) (op_endif st).
Proof.
  intros [Hs Ha Ho He (v & Hr & Hv)] HN.
  assert (∀ f, ∃ v', cond_repr (ConditionStack.push_back (vfExec st) f) v' ∧ (length v' ≤ S N)%nat) as Hpush.
  { intros f. exists (v ++ [f]). split; [apply cond_push; [done|lia]|]. rewrite length_app. simpl. lia. }
  unfold op_else, op_endif. rewrite (cond_empty _ _ Hr). split_and!.
  - unfold op_if. repeat case_match; try done; apply safe_ret; constructor; try done; first [apply Hpush|simpl; by stack_items].
  - case_bool_decide as Hne; [done|]. destruct (exists_last Hne) as (v' & b & ->).
    destruct (cond_toggle _ _ _ Hr) as (c' & -> & Hr'). apply safe_ret. constructor; try done.
    exists (v' ++ [negb b]). split; [done|]. rewrite length_app in *. simpl in *. lia.
  - case_bool_decide as Hne; [done|]. destruct (exists_last Hne) as (v' & b & ->).
    destruct (cond_pop _ _ _ Hr) as (c' & -> & Hr'). apply safe_ret. constructor; try done.
    exists v'. split; [done|]. rewrite length_app in *. simpl in *. lia.
Qed.

Lemma execute_safe N opcode pc pos fExec st :
  eval_inv N st → Z.of_nat N + 1 < ConditionStack.NO_FALSE → zlen (stack st) ≤ 2 ^ 32 →
  safe (eval_inv (S N)) (execute checker flags sigversion opcode pc pos fExec st).
Proof.
  intros Hinv HN Hlen. pose proof (op_conditions_safe N opcode fExec st Hinv HN) as (Hif & Helse & Hendif).
  pose proof (eval_inv_S N st Hinv) as [Hs Ha Ho He Hc]. unfold execute.
  destruct (stack_operation checker flags opcode) as [f|] eqn:Hf.
  { eapply safe_bind; [by eapply stack_operation_safe|]. intros s Hs'. by apply safe_ret. }
  pose proof of_bool_item as Hbool.
  repeat case_match; try done.
  - unfold op_toaltstack. case_match eqn:E; [done|]. apply Forall_cons_1 in Hs as [??]. apply safe_ret. constructor; try done. by apply Forall_cons_2.
  - unfold op_fromaltstack. case_match eqn:E; [done|]. apply Forall_cons_1 in Ha as [??]. apply safe_ret. constructor; try done. by apply Forall_cons_2.
  - unfold op_codeseparator. apply safe_ret. constructor; try done. intros Hv. by destruct (He Hv) as (? & ? & ? & ?).
  - unfold op_checksig. destruct (stack st) as [|key [|sig s]] eqn:E; [done..|].
    apply Forall_cons_1 in Hs as [_ [_ Hs]%Forall_cons_1].
    eapply safe_bind; [by apply EvalChecksig_safe|]. intros [[ok e] c] He'. simpl in He'.
    repeat case_match; try done; apply safe_ret; constructor; simpl; try done. by apply Forall_cons_2.
  - unfold op_checksigadd. destruct (pre_tapscript sigversion); [done|]. destruct (stack st) as [|key [|vch [|sig s]]] eqn:E; [done..|].
    stack_items. eapply safe_bind; [by apply number4_safe|]. intros n Hn. cbv beta in Hn.
    eapply safe_bind; [by apply EvalChecksig_safe|]. intros [[ok e] c] He'. simpl in He'.
    apply safe_ret; constructor; simpl; try done. apply Forall_cons_2; [|done]. apply serialize_item.
    unfold num_add. rewrite swrap_small; [|lia|unfold srange]; destruct ok; lia.
  - apply op_checkmultisig_safe. by apply eval_inv_S.
Qed.

(** The assertion of [CheckMinimalPush] holds where the interpreter calls it. *)
Lemma push_minimal (fExec : bool) data opcode :
  fExec && opcode_between 0 opcode OP_PUSHDATA4 = true → ∃ b, CheckMinimalPush data opcode = Some b.
Proof.
  intros [_ H]%andb_true_iff. unfold opcode_between in H. apply CheckMinimalPush_total. lia.
Qed.

Lemma step_safe N pc pos st :
  eval_inv N st → Z.of_nat N + 1 < ConditionStack.NO_FALSE → bytes_ok pc → pc ≠ [] → zlen (stack st) ≤ 2 ^ 32 →
  safe (λ r, (∃ x, pc = x ++ r.1 ∧ x ≠ []) ∧ eval_inv (S N) r.2 ∧
             zlen (stack r.2) + zlen (altstack r.2) ≤ MAX_STACK_SIZE) (step checker flags sigversion pc pos st).
Proof.
  intros Hinv HN Hpc Hne Hlen. unfold step. destruct (GetScriptOp pc) as [[[ok opcode] data] rest] eqn:HG.
  pose proof (GetScriptOp_progress _ _ _ _ _ HG Hne) as Hprog. destruct ok; [|done].
  destruct (GetScriptOp_inv _ _ _ _ Hpc HG) as (i & Heq & _ & _). rewrite Heq in Hpc.
  apply digits_ok_app in Hpc as [_ [Hdata Hrest]%digits_ok_app].
  destruct (Z.ltb_spec MAX_SCRIPT_ELEMENT_SIZE (zlen data)) as [|Hsize]; [done|].
  apply (safe_bind (λ st', eval_inv N st' ∧ stack st' = stack st)).
  { pose proof Hinv as [? ? Ho ? ?]. case_match; [|by apply safe_ret]. case_match eqn:E; [done|]. apply Z.ltb_ge in E.
    apply safe_ret. split; [|done]. constructor; try done. simpl. lia. }
  intros st' [Hinv' Hst']. case_match; [done|]. case_match; [done|]. apply (safe_bind (eval_inv (S N))).
  { destruct (_ && opcode_between 0 _ _) eqn:Hpush.
    - apply (push_minimal _ data) in Hpush as [b ->]. apply (safe_bind (λ _, True)); [by destruct (fRequireMinimal flags)|].
      intros [] _; [|done]. pose proof (eval_inv_S N st' Hinv') as [? ? ? ? ?]. apply safe_ret.
      constructor; try done. by apply Forall_cons_2.
    - case_match; [by apply execute_safe; [..|rewrite Hst']|by apply safe_ret, eval_inv_S]. }
  intros st'' Hinv''. case_match eqn:E; [done|]. apply Z.ltb_ge in E. apply safe_ret. split; [|done].
  exists (i ++ data). rewrite Heq, app_assoc. split; [done|]. intros [-> ->]%app_nil. rewrite Heq in Hprog. simpl in Hprog. lia.
Qed.
(** ** Reachable states *)

Definition start (s : list bytes) (script : bytes) (e : ScriptExecutionData) (c : C) : EvalState := {|
  stack := s; altstack := []; vfExec := ConditionStack.new; pbegincodehash := script; nOpCount := 0;
  execdata := set_codeseparator_pos 0xFFFFFFFF e; cstate := c |}.

Inductive reaches (st0 : EvalState) (script : bytes) : bytes → Z → EvalState → Prop :=
  | reaches_start : reaches st0 script script 0 st0
  | reaches_step pc pos st pc' st' :
      reaches st0 script pc pos st → pc ≠ [] → step checker flags sigversion pc pos st = inr (pc', st') →
      reaches st0 script pc' (u32 (pos + 1)) st'.

(** The state between two instructions: what was read, and the limits. *)
Definition between_steps (st0 : EvalState) (script pc : bytes) (st : EvalState) : Prop :=
  ∃ x, script = x ++ pc ∧ eval_inv (length x) st ∧
    ((x = [] ∧ st = st0) ∨ zlen (stack st) + zlen (altstack st) ≤ MAX_STACK_SIZE).

Lemma between_steps_step st0 script pc pos st :
  bytes_ok script → zlen script < ConditionStack.NO_FALSE → zlen (stack st0) ≤ 2 ^ 32 →
  between_steps st0 script pc st → pc ≠ [] →
  safe (λ r, (length r.1 < length pc)%nat ∧ between_steps st0 script r.1 r.2) (step checker flags sigversion pc pos st).
Proof.
  intros Hok Hlen Hst0 (x & -> & Hinv & Hb) Hne. rewrite length_app in Hlen.
  assert (0 < length pc)%nat as Hpc by (destruct pc; simpl; [done|lia]).
  eapply safe_weaken; [apply (step_safe (length x)); try done; [lia|by apply digits_ok_app in Hok as [_ ?]|]|].
  - destruct Hb as [[_ ->]|Hb]; [done|]. unfold MAX_STACK_SIZE in Hb. lia.
  - intros [pc' st'] ((y & -> & Hy) & Hinv' & Hb'). simpl in *.
    assert (0 < length y)%nat by (destruct y; simpl; [done|lia]). rewrite length_app. split; [lia|].
    exists (x ++ y). rewrite <-app_assoc. split_and!; [done| |by right].
    destruct Hinv' as [? ? ? ? (v & ? & ?)]. constructor; try done. exists v. rewrite length_app. split; [done|lia].
Qed.

Lemma reaches_between st0 script pc pos st :
  bytes_ok script → zlen script < ConditionStack.NO_FALSE → zlen (stack st0) ≤ 2 ^ 32 → eval_inv 0 st0 →
  reaches st0 script pc pos st → between_steps st0 script pc st.
Proof.
  intros Hok Hlen Hst0 Hinv. induction 1 as [|pc pos st pc' st' _ IH Hne Hstep].
  - exists []. split_and!; [done..|by left].
  - pose proof (between_steps_step st0 script pc pos st Hok Hlen Hst0 IH Hne) as Hs.
    rewrite Hstep in Hs. apply Hs.
Qed.

Lemma eval_loop_safe st0 script fuel pc pos st :
  bytes_ok script → zlen script < ConditionStack.NO_FALSE → zlen (stack st0) ≤ 2 ^ 32 →
  between_steps st0 script pc st → (length pc ≤ fuel)%nat →
  safe (between_steps st0 script []) (eval_loop checker flags sigversion fuel pc pos st).
Proof.
  intros Hok Hlen Hst0. revert pc pos st. induction fuel as [|fuel IH]; intros pc pos st Hb Hf.
  { by destruct pc; [|simpl in Hf; lia]. }
  destruct pc as [|b pc]; [done|]. cbn [eval_loop].
  eapply safe_bind; [by apply between_steps_step|]. intros [pc' st'] [Hl Hb']. apply IH; [done|simpl in *; lia].
Qed.

Lemma start_inv s script e c :
  Forall item_ok s → (sigversion = TAPSCRIPT → m_tapleaf_hash_init e = true ∧ m_annex_init e = true ∧ m_validation_weight_left_init e = true) →
  eval_inv 0 (start s script e c).
Proof.
  intros Hs He. constructor; simpl; [done|constructor|unfold MAX_OPS_PER_SCRIPT; lia| |].
  - intros Hv. by destruct (He Hv) as (? & ? & ?).
  - exists []. split; [apply cond_new|simpl; lia].
Qed.

Lemma caught_safe {A} (P : A → Prop) r : safe P r → match caught r with inr x => P x | inl t => ∃ err, t = returns_false (Some err) end.
Proof. destruct r as [[[]| | |]|x]; simpl; intros; try done; eauto. Qed.

Lemma EvalScript_safe s script e c :
  bytes_ok script → zlen script < ConditionStack.NO_FALSE → zlen s ≤ 2 ^ 32 → Forall item_ok s →
  (sigversion = TAPSCRIPT → m_tapleaf_hash_init e = true ∧ m_annex_init e = true ∧ m_validation_weight_left_init e = true) →
  match EvalScript checker flags sigversion s script e c with
  | inr (s', e', _) =>
      Forall item_ok s' ∧ zlen s' ≤ Z.max (zlen s) MAX_STACK_SIZE ∧ (sigversion = TAPSCRIPT → exec_ready e')
  | inl t => ∃ err, t = returns_false (Some err)
  end.
Proof.
  intros Hok Hlen Hs32 Hs He. unfold EvalScript. rewrite bool_decide_eq_false_2 by done. cbn [negb assert mbind sum_mbind mret sum_mret].
  destruct (_ && _); [by eexists|]. fold (start s script e c).
  pose proof (start_inv s script e c Hs He) as Hinv.
  pose proof (caught_safe _ _ (eval_loop_safe (start s script e c) script (length script) script 0 (start s script e c)
    Hok Hlen Hs32 ltac:(exists []; split_and!; [done..|by left]) ltac:(done))) as Hsafe.
  destruct (caught _) as [t|st]; [done|]. destruct Hsafe as (x & _ & [Hst _ _ He' _] & Hb).
  cbn [mbind sum_mbind]. destruct (negb _); [by eexists|]. split_and!; [done| |done].
  destruct Hb as [[_ ->]|Hb]; simpl; [lia|]. lia.
Qed.
End Safety.

(** ** Soft forks

    "The set of acceptable scripts under flags (A | B) is a subset of the acceptable scripts under
    flag (A)": what succeeds under more flags succeeds under fewer, with the same result. *)

Definition flags_le (f g : Z) : Prop := ∀ n, has_flag f n = true → has_flag g n = true.
Definition stricter {A} (rg rf : stop + A) : Prop := ∀ x, rg = inr x → rf = inr x.

Lemma stricter_refl {A} (r : stop + A) : stricter r r.
Proof. by intros x. Qed.
Lemma stricter_error {A} t (r : stop + A) : stricter (inl t) r.
Proof. by intros x. Qed.
Lemma stricter_bind {A B} (mg mf : stop + A) (kg kf : A → stop + B) :
  stricter mg mf → (∀ x, stricter (kg x) (kf x)) → stricter (mg ≫= kg) (mf ≫= kf).
Proof. intros Hm Hk y. destruct mg as [|x]; simpl; [done|]. rewrite (Hm x eq_refl). apply Hk. Qed.
Lemma stricter_guard {A} (bg bf : bool) t (kg kf : stop + A) :
  (bf = true → bg = true) → stricter kg kf → stricter (if bg then inl t else kg) (if bf then inl t else kf).
Proof. intros Hb Hk. destruct bg; [apply stricter_error|]. destruct bf; [by specialize (Hb eq_refl)|done]. Qed.
Lemma stricter_if {A} (b : bool) (xg xf yg yf : stop + A) :
  stricter xg xf → stricter yg yf → stricter (if b then xg else yg) (if b then xf else yf).
Proof. by destruct b. Qed.
Lemma stricter_caught {A} (rg rf : stop + A) : stricter rg rf → stricter (caught rg) (caught rf).
Proof.
  intros Hr x. destruct rg as [[[]| | |]|y]; simpl; try done. intros [= ->]. by rewrite (Hr x eq_refl).
Qed.

Section SoftFork.
Context `{SIGS : Secp256k1Signatures} {C : Type} (checker : BaseSignatureChecker C) (sigversion : SigVersion).
Context (f g : Z) (Hfg : flags_le f g).

Ltac same := match goal with |- stricter ?a ?b => constr_eq a b; exact (stricter_refl a) end.
Ltac check := apply stricter_guard; [rewrite ?andb_true_iff; naive_solver|].

Lemma has_one_of (fl : Z) (a b c : script_verify_flag_name) :
  negb (fl .& (script_verify_flags a .| script_verify_flags b .| script_verify_flags c) =? 0)
  = has_flag fl a || has_flag fl b || has_flag fl c.
Proof.
  unfold has_flag. rewrite !Z.land_lor_distr_r.
  destruct (Z.eqb_spec (fl .& script_verify_flags a) 0) as [->|Ha]; simpl.
  - destruct (Z.eqb_spec (fl .& script_verify_flags b) 0) as [->|Hb]; simpl; [done|].
    apply negb_true_iff, Z.eqb_neq. intros H. by apply Z.lor_eq_0_iff in H as [??].
  - apply negb_true_iff, Z.eqb_neq. intros H. apply Z.lor_eq_0_iff in H as [H _]. by apply Z.lor_eq_0_iff in H as [??].
Qed.

Lemma signature_encoding_stricter sig : stricter (CheckSignatureEncoding sig g) (CheckSignatureEncoding sig f).
Proof.
  unfold CheckSignatureEncoding. apply stricter_if; [same|]. rewrite !has_one_of.
  apply stricter_guard; [rewrite !andb_true_iff, !orb_true_iff; naive_solver|].
  destruct (has_flag f SCRIPT_VERIFY_LOW_S) eqn:HL.
  - rewrite (Hfg _ HL). case_match; [same|]. check. same.
  - case_match; [apply stricter_error|]. check. same.
Qed.
Lemma pubkey_encoding_stricter key : stricter (CheckPubKeyEncoding key g sigversion) (CheckPubKeyEncoding key f sigversion).
Proof. unfold CheckPubKeyEncoding. check. check. same. Qed.

Lemma EvalChecksig_stricter sig key code e c :
  stricter (EvalChecksig checker g sigversion sig key code e c) (EvalChecksig checker f sigversion sig key code e c).
Proof.
  unfold EvalChecksig.
  assert (stricter (EvalChecksigPreTapscript checker g sigversion sig key code c)
                   (EvalChecksigPreTapscript checker f sigversion sig key code c)) as Hpre.
  { unfold EvalChecksigPreTapscript. apply stricter_bind; [same|]. intros _. apply stricter_bind.
    { apply stricter_if; [|same]. case_match. check. same. }
    intros code'. apply stricter_bind; [apply signature_encoding_stricter|]. intros _.
    apply stricter_bind; [apply pubkey_encoding_stricter|]. intros _.
    apply stricter_bind; [same|]. intros [ok c']. check. same. }
  destruct sigversion; try same; try (apply stricter_bind; [done|intros; same]).
  unfold EvalChecksigTapscript. apply stricter_bind; [same|]. intros _.
  apply stricter_bind; [same|]. intros e'.
  do 2 (apply stricter_if; [same|]). check. same.
Qed.

Lemma number_stricter vch n : stricter (stack_number g vch n) (stack_number f vch n).
Proof.
  unfold stack_number, fRequireMinimal. intros v. unfold CScriptNum.
  destruct (n <? zlen vch); [done|].
  destruct (has_flag f SCRIPT_VERIFY_MINIMALDATA) eqn:Hm; [by rewrite (Hfg _ Hm)|].
  destruct (has_flag g SCRIPT_VERIFY_MINIMALDATA); simpl; [|done]. by case_match.
Qed.

Ltac stricter_numbers := repeat (apply stricter_bind; [apply number_stricter|intros ?]).

Lemma cltv_stricter s : stricter (op_checklocktimeverify checker g s) (op_checklocktimeverify checker f s).
Proof.
  unfold op_checklocktimeverify. destruct (has_flag f SCRIPT_VERIFY_CHECKLOCKTIMEVERIFY) eqn:Hf.
  - rewrite (Hfg _ Hf). simpl. destruct s; [same|]. stricter_numbers. same.
  - simpl. intros x. repeat case_match; try done. destruct (stack_number g _ _) as [|n]; simpl; [done|]. by repeat case_match.
Qed.
Lemma csv_stricter s : stricter (op_checksequenceverify checker g s) (op_checksequenceverify checker f s).
Proof.
  unfold op_checksequenceverify. destruct (has_flag f SCRIPT_VERIFY_CHECKSEQUENCEVERIFY) eqn:Hf.
  - rewrite (Hfg _ Hf). simpl. destruct s; [same|]. stricter_numbers. same.
  - simpl. intros x. repeat case_match; try done. destruct (stack_number g _ _) as [|n]; simpl; [done|]. by repeat case_match.
Qed.

Lemma stack_operation_stricter opcode (st : EvalState (C:=C)) :
  stricter (match stack_operation checker g opcode with Some h => on_stack h st | None => inl throws_other end)
           (match stack_operation checker f opcode with Some h => on_stack h st | None => inl throws_other end).
Proof.
  unfold stack_operation, on_stack.
  repeat (match goal with |- stricter (match (if ?b then _ else _) with _ => _ end) _ => destruct b end;
    [apply stricter_bind; [try same|intros ?; apply stricter_refl]|]); [..|apply stricter_refl].
  - apply cltv_stricter.
  - apply csv_stricter.
  - unfold op_nops. check. same.
  - unfold op_pick_roll. destruct (stack st) as [|? [|]]; try same. stricter_numbers. same.
  - unfold op_unary. destruct (stack st); try same. stricter_numbers. same.
  - unfold op_binary. destruct (stack st) as [|? [|]]; try same. stricter_numbers. same.
  - unfold op_within. destruct (stack st) as [|? [|? [|]]]; try same. stricter_numbers. same.
Qed.
Lemma op_if_stricter opcode fExec (st : EvalState (C:=C)) :
  stricter (op_if g sigversion opcode fExec st) (op_if f sigversion opcode fExec st).
Proof.
  unfold op_if. destruct fExec; [|same]. destruct (stack st); [same|]. apply stricter_if; [same|].
  check. same.
Qed.

Lemma multisig_stricter fuel s code isig ikey nSigs nKeys c :
  stricter (multisig_check checker g sigversion fuel s code isig ikey nSigs nKeys c)
           (multisig_check checker f sigversion fuel s code isig ikey nSigs nKeys c).
Proof.
  revert isig ikey nSigs nKeys c. induction fuel as [|fuel IH]; intros; cbn [multisig_check];
    (apply stricter_if; [same|]); [same|].
  apply stricter_bind; [same|]. intros sig. apply stricter_bind; [same|]. intros key.
  apply stricter_bind; [apply signature_encoding_stricter|]. intros _.
  apply stricter_bind; [apply pubkey_encoding_stricter|]. intros _.
  apply stricter_bind; [same|]. intros [[] c']; (apply stricter_if; [same|apply IH]).
Qed.
Lemma multisig_scriptCode_stricter n s isig k code :
  stricter (multisig_scriptCode g sigversion n s isig k code) (multisig_scriptCode f sigversion n s isig k code).
Proof.
  revert k code. induction n as [|n IH]; intros; cbn [multisig_scriptCode]; [same|].
  apply stricter_bind; [same|]. intros sig. apply stricter_bind; [|intros ?; apply IH].
  apply stricter_if; [|same]. case_match. check. same.
Qed.
Lemma multisig_cleanup_stricter n ok ikey2 s :
  stricter (multisig_cleanup g n ok ikey2 s) (multisig_cleanup f n ok ikey2 s).
Proof.
  revert ikey2 s. induction n as [|n IH]; intros; cbn [multisig_cleanup]; [same|].
  apply stricter_bind.
  - destruct (has_flag f SCRIPT_VERIFY_NULLFAIL) eqn:Hf; [rewrite (Hfg _ Hf); same|].
    rewrite andb_false_r. cbn [andb]. case_match; [|same].
    destruct (stacktop s 1); simpl; [apply stricter_error|]. case_match; [apply stricter_error|apply stricter_refl].
  - intros _. apply stricter_bind; [same|]. intros s'. apply IH.
Qed.

Lemma op_checkmultisig_stricter opcode (st : EvalState (C:=C)) :
  stricter (op_checkmultisig checker g sigversion opcode st) (op_checkmultisig checker f sigversion opcode st).
Proof.
  unfold op_checkmultisig. do 2 (apply stricter_if; [same|]).
  apply stricter_bind; [same|]. intros vk. apply stricter_bind; [apply number_stricter|]. intros k.
  cbv zeta. do 3 (apply stricter_if; [same|]).
  apply stricter_bind; [same|]. intros vs. apply stricter_bind; [apply number_stricter|]. intros n.
  do 2 (apply stricter_if; [same|]).
  apply stricter_bind; [apply multisig_scriptCode_stricter|]. intros code.
  apply stricter_bind; [apply multisig_stricter|]. intros [ok c].
  apply stricter_bind; [apply multisig_cleanup_stricter|]. intros s.
  destruct s; [same|]. check. same.
Qed.

Lemma execute_stricter opcode pc pos fExec (st : EvalState (C:=C)) :
  stricter (execute checker g sigversion opcode pc pos fExec st) (execute checker f sigversion opcode pc pos fExec st).
Proof.
  pose proof (stack_operation_stricter opcode st) as Hop. unfold execute.
  assert (stack_operation checker g opcode = None ↔ stack_operation checker f opcode = None) as Hiff.
  { unfold stack_operation. by repeat (match goal with |- context [if ?b then _ else _] => destruct b end; [done|]). }
  destruct (stack_operation checker g opcode) as [hg|] eqn:Hg, (stack_operation checker f opcode) as [hf|] eqn:Hf;
    [done|by destruct Hiff as [_ Hi]; discriminate (Hi eq_refl)|by destruct Hiff as [Hi _]; discriminate (Hi eq_refl)|].
  apply stricter_if; [apply op_if_stricter|]. do 5 (apply stricter_if; [same|]).
  apply stricter_if.
  { unfold op_checksig. destruct (stack st) as [|? [|]]; try same.
    apply stricter_bind; [apply EvalChecksig_stricter|]. intros [[]]. same. }
  apply stricter_if.
  { unfold op_checksigadd. apply stricter_if; [same|]. destruct (stack st) as [|? [|? [|]]]; try same. stricter_numbers.
    apply stricter_bind; [apply EvalChecksig_stricter|]. intros [[]]. same. }
  apply stricter_if; [apply op_checkmultisig_stricter|same].
Qed.

Lemma step_stricter pc pos (st : EvalState (C:=C)) :
  stricter (step checker g sigversion pc pos st) (step checker f sigversion pc pos st).
Proof.
  unfold step. destruct (GetScriptOp pc) as [[[[] opcode] data] rest]; [|same].
  apply stricter_if; [same|]. apply stricter_bind; [same|]. intros st'.
  apply stricter_if; [same|]. check. apply stricter_bind; [|intros; same].
  destruct (_ && opcode_between 0 _ _) eqn:Hpush; [|apply stricter_if; [apply execute_stricter|same]].
  apply (push_minimal _ data) in Hpush as [b ->].
  unfold fRequireMinimal. pose proof (Hfg SCRIPT_VERIFY_MINIMALDATA) as Hm. intros x.
  destruct (has_flag g _), (has_flag f _), b; first [done|by specialize (Hm eq_refl)].
Qed.

Lemma eval_loop_stricter fuel pc pos (st : EvalState (C:=C)) :
  stricter (eval_loop checker g sigversion fuel pc pos st) (eval_loop checker f sigversion fuel pc pos st).
Proof.
  revert pc pos st. induction fuel as [|fuel IH]; intros [|b pc] pos st; cbn [eval_loop]; try same.
  apply stricter_bind; [apply step_stricter|]. intros [pc' st']. apply IH.
Qed.

Lemma EvalScript_stricter s script e c :
  stricter (EvalScript checker g sigversion s script e c) (EvalScript checker f sigversion s script e c).
Proof.
  unfold EvalScript. apply stricter_bind; [same|]. intros _. apply stricter_if; [same|].
  apply stricter_bind; [apply stricter_caught, eval_loop_stricter|]. intros st. same.
Qed.
End SoftFork.

(** ** Multisignatures match keys in order *)

Section Multisig.
Context `{SIGS : Secp256k1Signatures} {C : Type} (checker : BaseSignatureChecker C) (flags : Z) (sigversion : SigVersion).
Context (code : bytes) (ok : bytes → bytes → bool).

(** Every signature with the key it is matched to, both in the order of the stack. *)
Definition matched (sigs keys : list bytes) : Prop :=
  ∃ keys', sublist keys' keys ∧ Forall2 (λ sig key, ok sig key = true) sigs keys'.

Lemma matched_nil keys : matched [] keys.
Proof. exists []. split; [apply sublist_nil_l|constructor]. Qed.
Lemma matched_length sigs keys : matched sigs keys → (length sigs ≤ length keys)%nat.
Proof. intros (keys' & Hs%sublist_length & ->%Forall2_length). done. Qed.
Lemma matched_cons sig sigs key keys :
  matched (sig :: sigs) (key :: keys) ↔
  if ok sig key then matched sigs keys else matched (sig :: sigs) keys.
Proof.
  destruct (ok sig key) eqn:Hok; split.
  - intros (keys' & Hsub & Hall). inversion Hall as [|? k ? ks Hk Hks]; simplify_eq.
    exists ks. split; [|done]. inversion Hsub as [| |]; simplify_eq; [done|].
    etrans; [|done]. by apply sublist_cons.
  - intros (keys' & Hsub & Hall). exists (key :: keys'). split; [by apply sublist_skip|by constructor].
  - intros (keys' & Hsub & Hall). exists keys'. split; [|done].
    inversion Hall as [|? k ? ks Hk Hks]; simplify_eq. inversion Hsub; simplify_eq; [congruence|done].
  - intros (keys' & Hsub & Hall). exists keys'. split; [by apply sublist_cons|done].
Qed.

Context (Hok : ∀ sig key c, ∃ c', CheckECDSASignature checker sig key code sigversion c = inr (ok sig key, c')).

Lemma stacktop_drop (s : list bytes) i v l : 1 ≤ i → drop (Z.to_nat (i - 1)) s = v :: l → stacktop s i = mret v ∧ drop (Z.to_nat (i + 1 - 1)) s = l.
Proof.
  intros Hi Hd. unfold stacktop. destruct (Z.leb_spec i 0); [lia|]. split.
  - replace (Z.to_nat (i - 1)) with (Z.to_nat (i - 1) + 0)%nat by lia. by rewrite <-lookup_drop, Hd.
  - replace (Z.to_nat (i + 1 - 1)) with (Z.to_nat (i - 1) + 1)%nat by lia. by rewrite <-drop_drop, Hd.
Qed.

Lemma multisig_check_matched fuel s isig ikey sigs keys srest krest c b c' :
  1 ≤ isig → 1 ≤ ikey → drop (Z.to_nat (isig - 1)) s = sigs ++ srest → drop (Z.to_nat (ikey - 1)) s = keys ++ krest →
  (length sigs ≤ length keys)%nat → fuel = length keys →
  multisig_check checker flags sigversion fuel s code isig ikey (zlen sigs) (zlen keys) c = inr (b, c') →
  b = true ↔ matched sigs keys.
Proof.
  revert isig ikey sigs keys c. induction fuel as [|fuel IH]; intros isig ikey sigs keys c Hi Hk Hsd Hkd Hle Hf Hr.
  { destruct keys; [|done]. destruct sigs; [|simpl in Hle; lia]. cbn in Hr. injection Hr as <- <-. split; [intros _; apply matched_nil|done]. }
  destruct sigs as [|sig sigs]; [cbn in Hr; injection Hr as <- <-; split; [intros _; apply matched_nil|done]|].
  destruct keys as [|key keys]; [done|]. cbn [multisig_check] in Hr.
  destruct (stacktop_drop s isig sig (sigs ++ srest) Hi Hsd) as [Hs1 Hs2].
  destruct (stacktop_drop s ikey key (keys ++ krest) Hk Hkd) as [Hk1 Hk2].
  rewrite Hs1, Hk1 in Hr. simpl in Hr. destruct (CheckSignatureEncoding sig flags); [done|].
  destruct (CheckPubKeyEncoding key flags sigversion); [done|]. cbn [mbind sum_mbind] in Hr.
  destruct (Hok sig key c) as [c1 Hc1]. rewrite Hc1 in Hr. cbn [mbind sum_mbind] in Hr. simpl in Hle, Hf.
  rewrite matched_cons. destruct (ok sig key).
  - replace (Z.of_nat (S (length sigs)) - 1) with (zlen sigs) in Hr by lia.
    replace (Z.of_nat (S (length keys)) - 1) with (zlen keys) in Hr by lia.
    destruct (Z.ltb_spec (zlen keys) (zlen sigs)); [lia|].
    eapply IH in Hr; [done|lia|lia|done|done|lia|lia].
  - replace (Z.of_nat (S (length keys)) - 1) with (zlen keys) in Hr by lia.
    change (Z.of_nat (S (length sigs))) with (zlen (sig :: sigs)) in Hr.
    destruct (Z.ltb_spec (zlen keys) (zlen (sig :: sigs))).
    + injection Hr as <- <-. split; [done|]. intros Hm%matched_length. simpl in *. lia.
    + eapply IH in Hr; [done|lia|lia|done|done|simpl in *; lia|lia].
Qed.
End Multisig.

(** ** OP_CHECKMULTISIG *)

Section CheckMultisig.
Context `{SIGS : Secp256k1Signatures} {C : Type} (checker : BaseSignatureChecker C) (flags : Z) (sigversion : SigVersion).
(** What the checker answers, whatever its state, for a script, a signature and a key. *)
Context (ok : bytes → bytes → bytes → bool).
Context (Hok : ∀ code sig key c, ∃ c', CheckECDSASignature checker sig key code sigversion c = inr (ok code sig key, c')).

(** The code that the signatures sign: legacy scripts delete the signatures from it. *)
Definition signed_code (sigs : list bytes) (code : bytes) : bytes :=
  if is_base sigversion then foldl (λ code sig, (FindAndDelete code (push_data sig)).1) code sigs else code.

Lemma multisig_scriptCode_signed sigs srest s isig k code code' :
  1 ≤ isig + k → drop (Z.to_nat (isig + k - 1)) s = sigs ++ srest →
  multisig_scriptCode flags sigversion (length sigs) s isig k code = inr code' → code' = signed_code sigs code.
Proof.
  unfold signed_code. revert k code. induction sigs as [|sig sigs IH]; intros k code Hk Hd.
  { intros [= <-]. by destruct (is_base sigversion). }
  cbn [length multisig_scriptCode]. destruct (stacktop_drop s (isig + k) sig (sigs ++ srest) Hk Hd) as [-> Hd'].
  cbn [mbind sum_mbind mret sum_mret]. replace (isig + k + 1 - 1) with (isig + (k + 1) - 1) in Hd' by lia.
  destruct (is_base sigversion).
  - cbn [foldl]. destruct (FindAndDelete code (push_data sig)) as [code1 found]. case_match; [done|].
    cbn [mbind sum_mbind fst mret sum_mret]. apply IH; [lia|done].
  - cbn [mbind sum_mbind]. apply IH; [lia|done].
Qed.

Lemma multisig_cleanup_drop n b ikey2 s s' : multisig_cleanup flags n b ikey2 s = inr s' → s' = drop n s.
Proof.
  revert ikey2 s. induction n as [|n IH]; intros ikey2 s; [by intros [= <-]|]. cbn [multisig_cleanup].
  match goal with |- (?m ≫= _ = _) → _ => destruct m as [|[]]; [done|] end. cbn [mbind sum_mbind].
  destruct s as [|x s]; [done|]. cbn [popstack mbind sum_mbind mret sum_mret]. apply IH.
Qed.

Lemma stacktop_at (s s1 s2 : list bytes) v i : s = s1 ++ v :: s2 → i = zlen s1 + 1 → stacktop s i = inr v.
Proof.
  intros -> ->. unfold stacktop. destruct (Z.leb_spec (zlen s1 + 1) 0); [lia|].
  replace (Z.to_nat (zlen s1 + 1 - 1)) with (length s1) by lia. by rewrite list_lookup_middle.
Qed.

Lemma getint_small n : 0 ≤ n ≤ 20 → getint n = n.
Proof. intros H. unfold getint. repeat case_match; lia. Qed.

(** C17: OP_CHECKMULTISIG: when it returns, it has replaced the keys, the signatures, their counts
    and the extra element by true exactly if every signature verifies under a key of its own, in
    the order of the keys; the greedy loop misses no such matching. *)
Theorem checkmultisig_matches_in_order (st st' : EvalState (C:=C)) (vk vs dummy : bytes) (keys sigs s : list bytes) :
  stack st = vk :: keys ++ vs :: sigs ++ dummy :: s → (length keys ≤ 20)%nat → (length sigs ≤ length keys)%nat →
  stack_number flags vk nDefaultMaxNumSize = inr (zlen keys) → stack_number flags vs nDefaultMaxNumSize = inr (zlen sigs) →
  op_checkmultisig checker flags sigversion OP_CHECKMULTISIG st = inr st' →
  ∃ b, stack st' = of_bool b :: s ∧
    (b = true ↔ matched (ok (signed_code sigs (pbegincodehash st))) sigs keys).
Proof.
  intros Hst Hk Hs Hvk Hvs. unfold op_checkmultisig. destruct (is_tapscript sigversion); [done|]. rewrite Hst.
  set (s0 := vk :: keys ++ vs :: sigs ++ dummy :: s).
  assert (zlen s0 = zlen keys + zlen sigs + 3 + zlen s) as Hlen
    by (unfold s0; cbn [length]; rewrite length_app; cbn [length]; rewrite length_app; cbn [length]; lia).
  rewrite (stacktop_at s0 [] (keys ++ vs :: sigs ++ dummy :: s) vk 1) by done.
  destruct (Z.ltb_spec (zlen s0) 1); [lia|]. cbn [mbind sum_mbind]. rewrite Hvk. cbn [mbind sum_mbind]. cbv zeta.
  rewrite (getint_small (zlen keys)) by lia. case_match; [done|]. case_match; [done|].
  destruct (Z.ltb_spec (zlen s0) (1 + 1 + zlen keys)); [lia|].
  rewrite (stacktop_at s0 (vk :: keys) (sigs ++ dummy :: s) vs) by (done || cbn [length]; lia).
  cbn [mbind sum_mbind]. rewrite Hvs. cbn [mbind sum_mbind]. rewrite (getint_small (zlen sigs)) by lia. case_match; [done|].
  destruct (Z.ltb_spec (zlen s0) (1 + 1 + zlen keys + 1 + zlen sigs)); [lia|]. rewrite !Nat2Z.id.
  assert (drop (Z.to_nat (1 + 1 + zlen keys + 1 + 0 - 1)) s0 = sigs ++ dummy :: s) as Hsig.
  { replace (Z.to_nat (1 + 1 + zlen keys + 1 + 0 - 1)) with (S (length keys + 1)) by lia. unfold s0. cbn [drop].
    rewrite <-drop_drop, drop_app_length. done. }
  destruct (multisig_scriptCode _ _ _ _ _ _ _) as [|code'] eqn:Hcode; [done|].
  apply multisig_scriptCode_signed with (srest := dummy :: s) in Hcode as ->; [|lia|done]. cbn [mbind sum_mbind].
  destruct (multisig_check _ _ _ _ _ _ _ _ _ _ _) as [|[b c']] eqn:Hcheck; [done|]. cbn [mbind sum_mbind].
  rewrite Z.add_0_r in Hsig.
  apply (multisig_check_matched checker flags sigversion _ (ok (signed_code sigs (pbegincodehash st))) (Hok _)
    _ _ _ _ _ _ (dummy :: s) (vs :: sigs ++ dummy :: s)) in Hcheck; [|lia|lia|done|done|lia|done].
  destruct (multisig_cleanup _ _ _ _ _) as [|s'] eqn:Hclean; [done|]. apply multisig_cleanup_drop in Hclean as ->.
  replace (Z.to_nat (1 + 1 + zlen keys + 1 + zlen sigs - 1)) with (Z.to_nat (1 + 1 + zlen keys + 1 - 1) + length sigs)%nat by lia.
  rewrite <-drop_drop, Hsig, drop_app_length. cbn [mbind sum_mbind]. case_match; [done|]. intros [= <-]. by exists b.
Qed.
End CheckMultisig.

(** ** Properties *)

(** C18: the constant-size stack of conditions behaves as the vector of booleans it stands for: after
    any sequence of pushes, pops and toggles (shorter than the reserved value) it is empty, and all
    its conditions hold, exactly when that is so of the vector, and the same operations fail. *)
Theorem condition_stack_refines_vector (ops : list cond_op) :
  zlen ops < ConditionStack.NO_FALSE →
  match foldl cond_step (Some ConditionStack.new) ops, foldl vector_step (Some []) ops with
  | Some c, Some v => ConditionStack.empty c = bool_decide (v = []) ∧ ConditionStack.all_true c = forallb id v
  | None, None => True
  | _, _ => False
  end.
Proof.
  intros Hlen.
  assert (∀ ops n c v, Z.of_nat n + zlen ops < ConditionStack.NO_FALSE → cond_related n c v →
    cond_related (n + length ops) (foldl cond_step c ops) (foldl vector_step v ops)) as Hrun.
  { clear. induction ops as [|op ops IH]; intros n c v Hn Hr; [by rewrite Nat.add_0_r|]. cbn [length foldl] in *.
    replace (n + S (length ops))%nat with (S n + length ops)%nat by lia. apply IH; [lia|]. apply cond_step_related; [lia|done]. }
  specialize (Hrun ops 0%nat (Some ConditionStack.new) (Some []) ltac:(lia) ltac:(split; [apply cond_new|simpl; lia])).
  destruct (foldl cond_step _ ops), (foldl vector_step _ ops); try done.
  destruct Hrun as [Hr _]. split; [by apply cond_empty|by apply cond_all_true].
Qed.
Lemma condition_stack_refines_vector_witness :
  match foldl cond_step (Some ConditionStack.new) [CondPush true; CondPush false; CondToggle; CondPop],
        foldl vector_step (Some []) [CondPush true; CondPush false; CondToggle; CondPop] with
  | Some c, Some v => ConditionStack.empty c = bool_decide (v = []) ∧ ConditionStack.all_true c = forallb id v
  | None, None => True
  | _, _ => False
  end.
Proof. apply (condition_stack_refines_vector [CondPush true; CondPush false; CondToggle; CondPop]). reflexivity. Defined.

(** C11: type soundness of the interpreter: every state reached between two instructions holds items
    of at most 520 bytes, at most 1000 of them on the two stacks once an instruction has run, at
    most 201 counted operations and a well-formed stack of conditions; and an evaluation ends with
    a stack of such items or with an error of the interpreter, never by a failed assertion or an
    escaping exception, given a checker that keeps its own promise. *)
Theorem evaluation_type_sound `{SIGS : Secp256k1Signatures} {C : Type} (checker : BaseSignatureChecker C) (flags : Z)
    (sigversion : SigVersion) (s : list bytes) (script : bytes) (e : ScriptExecutionData) (c : C) :
  checker_safe checker sigversion → sigversion ≠ TAPROOT →
  bytes_ok script → zlen script < ConditionStack.NO_FALSE → zlen s ≤ 2 ^ 32 → Forall item_ok s →
  (sigversion = TAPSCRIPT → m_tapleaf_hash_init e = true ∧ m_annex_init e = true ∧ m_validation_weight_left_init e = true) →
  (∀ pc pos st, reaches checker flags sigversion (start s script e c) script pc pos st →
     Forall item_ok (stack st) ∧ Forall item_ok (altstack st) ∧ 0 ≤ nOpCount st ≤ MAX_OPS_PER_SCRIPT ∧
     (∃ v, cond_repr (vfExec st) v) ∧ (pc = script ∨ zlen (stack st) + zlen (altstack st) ≤ MAX_STACK_SIZE)) ∧
  match EvalScript checker flags sigversion s script e c with
  | inr (s', _, _) => Forall item_ok s' ∧ zlen s' ≤ Z.max (zlen s) MAX_STACK_SIZE
  | inl t => ∃ err, t = returns_false (Some err)
  end.
Proof.
  intros Hc Hv Hok Hlen Hs32 Hs He. split.
  - intros pc pos st Hr.
    pose proof (reaches_between checker flags sigversion Hc Hv (start s script e c) script pc pos st Hok Hlen Hs32
      (start_inv sigversion s script e c Hs He) Hr) as (x & -> & [? ? ? ? (v & Hrep & _)] & Hb).
    split_and!; try done; [lia..|by exists v|]. destruct Hb as [[-> _]|Hb]; [by left|by right].
  - pose proof (EvalScript_safe checker flags sigversion Hc Hv s script e c Hok Hlen Hs32 Hs He) as Hsafe.
    destruct (EvalScript _ _ _ _ _ _ _) as [|[[s' e'] c']]; [done|]. by destruct Hsafe as (? & ? & _).
Qed.
