(* ===== verification/DerSignatures.v ===== *)
(** * Strict and lax signatures

    [IsValidSignatureEncoding] (script/interpreter.cpp) accepts exactly the strict DER
    encodings of two integers followed by a hash type, and on these the lax parser of pubkey.cpp
    reads the two integers: the parser that verifies a signature agrees with the encoding that
    the script rules ask for. *)

From S2P Require Import Prelude Endian Serialize Primitives Script PubKey Interpreter.
From Stdlib Require Import ZArith Lia.
From stdpp Require Import base option list numbers gmap.

Open Scope Z_scope.
Open Scope kernel_scope.

(** The big-endian value of some bytes, and a number in 32 bytes. *)
Definition be_value (v : bytes) : Z := undigits 8 (rev v).
Definition be32 (x : Z) : bytes := rev (digits 8 32 x).

(** The shortest encoding of a non-negative integer. *)
Definition der_integer (v : bytes) : Prop :=
  v ≠ [] ∧ v.[0] < 128 ∧ ((1 < length v)%nat → v.[0] = 0 → 128 ≤ v.[1]).

Definition strict_der (R S : bytes) (hashtype : Z) : bytes :=
  [0x30; zlen R + zlen S + 4] ++ [0x02; zlen R] ++ R ++ [0x02; zlen S] ++ S ++ [hashtype].

Lemma be_value_cons b v : be_value (b :: v) = be_value v + 2 ^ (8 * zlen v) * b.
Proof. unfold be_value. cbn [rev]. by rewrite undigits_snoc, length_rev. Qed.
Lemma be_value_range v : bytes_ok v → 0 ≤ be_value v < 2 ^ (8 * zlen v).
Proof.
  intros Hv. unfold be_value. pose proof (undigits_range 8 ltac:(lia) (rev v) ltac:(by apply bytes_ok_rev)) as H.
  by rewrite length_rev in H.
Qed.

(** ** Copying a number into 32 bytes *)

Lemma skip_zeros_spec v :
  ∃ w, skip_zeros (length v) v = (length w, w) ∧ (length w ≤ length v)%nat ∧ be_value w = be_value v ∧
       (bytes_ok v → bytes_ok w) ∧ (w = [] ∨ w.[0] ≠ 0).
Proof.
  induction v as [|b v (w & Hw & Hlen & Hval & Hok & Hhd)]; [exists []; split_and!; auto|].
  cbn [skip_zeros length]. destruct (Z.eqb_spec b 0) as [->|Hb].
  - exists w. split_and!; [done|lia|rewrite be_value_cons; lia|intros [_ ?]%digits_ok_cons; auto|done].
  - exists (b :: v). split_and!; auto.
Qed.

Lemma der_lax_copy_spec v :
  bytes_ok v → der_lax_copy v = if be_value v <? 2 ^ 256 then Some (be32 (be_value v)) else None.
Proof.
  intros Hv. unfold der_lax_copy. destruct (skip_zeros_spec v) as (w & -> & _ & <- & Hok & Hhd). specialize (Hok Hv).
  pose proof (be_value_range w Hok) as Hr. destruct (Nat.ltb_spec 32 (length w)) as [Hbig|Hsmall].
  - destruct Hhd as [-> |Hhd]; [simpl in Hbig; lia|]. destruct w as [|b w]; [simpl in Hbig; lia|].
    unfold zget in Hhd; simpl in Hhd, Hbig. rewrite be_value_cons in *.
    apply digits_ok_cons in Hok as [[Hb _] Hw]. pose proof (be_value_range w Hw).
    assert (2 ^ 256 ≤ 2 ^ (8 * zlen w)) by (apply Z.pow_le_mono_r; lia).
    by destruct (Z.ltb_spec (be_value w + 2 ^ (8 * zlen w) * b) (2 ^ 256)); [nia|].
  - assert (2 ^ (8 * zlen w) ≤ 2 ^ 256) by (apply Z.pow_le_mono_r; lia).
    destruct (Z.ltb_spec (be_value w) (2 ^ 256)); [|lia]. f_equal. rewrite take_ge by done.
    unfold be32, be_value. rewrite <-(rev_involutive (replicate (32 - length w) 0 ++ w)). f_equal.
    rewrite rev_app_distr, <-(digits_undigits 8 ltac:(lia) (rev w ++ rev (replicate (32 - length w) 0))).
    + rewrite length_app, !length_rev, length_replicate. replace (length w + (32 - length w))%nat with 32%nat by lia. f_equal.
      rewrite undigits_app by lia.
      replace (rev (replicate (32 - length w) 0)) with (replicate (32 - length w) 0);
        [by rewrite undigits_replicate_0, Z.mul_0_r, Z.add_0_r|].
      symmetry. clear. induction (32 - length w)%nat as [|n IH]; [done|]. simpl. rewrite IH. symmetry. apply replicate_cons_app.
    + apply digits_ok_app. split; [by apply bytes_ok_rev|]. apply bytes_ok_rev, digits_ok_replicate_0. lia.
Qed.

(** ** The lax parser on a strict encoding *)

Lemma lax_length_short (v rest : bytes) :
  zlen v < 128 → der_lax_length (zlen v :: v ++ rest) = Some (length v, v ++ rest).
Proof.
  intros Hlen. unfold der_lax_length.
  rewrite byte_sign' by (unfold urange; lia). destruct (Z.ltb_spec (zlen v) 128); [|lia]. cbn [negb mbind option_bind].
  rewrite Nat2Z.id. by destruct (Nat.ltb_spec (length (v ++ rest)) (length v)) as [Hl|]; [rewrite length_app in Hl; lia|].
Qed.
Lemma lax_integer_short (v rest : bytes) :
  zlen v < 128 → der_lax_integer (0x02 :: zlen v :: v ++ rest) = Some (v, rest).
Proof.
  intros Hlen. unfold der_lax_integer. cbn [Z.eqb Pos.eqb negb]. rewrite lax_length_short by done.
  cbn [mbind option_bind]. by rewrite take_app_length, drop_app_length.
Qed.

Definition compact (r s : Z) : bytes :=
  if (r <? 2 ^ 256) && (s <? 2 ^ 256) then be32 r ++ be32 s else replicate 64 0.

Lemma lax_strict R S :
  bytes_ok R → bytes_ok S → zlen R + zlen S < 100 →
  der_lax_compact ([0x30; zlen R + zlen S + 4] ++ [0x02; zlen R] ++ R ++ [0x02; zlen S] ++ S)
  = Some (compact (be_value R) (be_value S)).
Proof.
  intros HR HS Hlen. unfold der_lax_compact, der_lax_sequence. cbn [app Z.eqb Pos.eqb negb].
  rewrite byte_sign' by (unfold urange; lia). destruct (Z.ltb_spec (zlen R + zlen S + 4) 128); [|lia].
  cbn [negb mbind option_bind]. rewrite lax_integer_short by lia. cbn [mbind option_bind].
  pose proof (lax_integer_short S [] ltac:(lia)) as HSi. rewrite app_nil_r in HSi. rewrite HSi. cbn [mbind option_bind].
  rewrite !der_lax_copy_spec by done. unfold compact.
  destruct (be_value R <? 2 ^ 256), (be_value S <? 2 ^ 256); done.
Qed.

(** ** The strict encodings *)

Lemma zget_app_l (l k : bytes) i : (i < length l)%nat → (l ++ k).[i] = l.[i].
Proof. intros. unfold zget. by rewrite lookup_app_l. Qed.
Lemma zget_app_r (l k : bytes) i : (l ++ k).[length l + i] = k.[i].
Proof. unfold zget. by rewrite lookup_app_r, Nat.add_sub_swap, Nat.sub_diag by lia. Qed.

(** The tests of [IsValidSignatureEncoding] on an integer at some position. *)
Lemma der_integer_tests v :
  bytes_ok v → der_integer v ↔
  (length v =? 0)%nat = false ∧ negb (v.[0] .& 0x80 =? 0) = false ∧
  (1 <? length v)%nat && (v.[0] =? 0x00) && negb (negb (v.[1] .& 0x80 =? 0)) = false.
Proof.
  intros Hv. assert (∀ i, urange 8 v.[i]) as Hb by (intros; by apply digits_ok_zget).
  rewrite !byte_sign by done. unfold der_integer.
  rewrite Nat.eqb_neq, Z.leb_gt, length_zero_iff_nil.
  destruct (Nat.ltb_spec 1 (length v)), (Z.eqb_spec (v.[0]) 0), (Z.leb_spec 128 (v.[1])); simpl; naive_solver lia.
Qed.

Lemma signature_form (sig : bytes) n m :
  length sig = (n + m + 7)%nat →
  ∃ s0 s1 s2 s3 R x y S ht, sig = [s0; s1; s2; s3] ++ R ++ [x; y] ++ S ++ [ht] ∧ length R = n ∧ length S = m.
Proof.
  intros Hlen. destruct sig as [|s0 [|s1 [|s2 [|s3 sig]]]]; try (simpl in Hlen; lia). simpl in Hlen.
  assert (sig = take n sig ++ drop n sig) as Hs1 by (by rewrite take_drop).
  assert (length (drop n sig) = m + 3)%nat as Hd by (rewrite length_drop; lia).
  destruct (drop n sig) as [|x [|y rest]]; try (simpl in Hd; lia). simpl in Hd.
  assert (rest = take m rest ++ drop m rest) as Hs2 by (by rewrite take_drop).
  assert (length (drop m rest) = 1)%nat as Hd2 by (rewrite length_drop; lia).
  destruct (drop m rest) as [|ht [|]]; try (simpl in Hd2; lia).
  exists s0, s1, s2, s3, (take n sig), x, y, (take m rest), ht. split_and!.
  - rewrite Hs1 at 1. by rewrite Hs2 at 1.
  - rewrite length_take. lia.
  - rewrite length_take. lia.
Qed.

Section Form.
Context (s0 s1 s2 s3 x y ht : Z) (R S : bytes).
Let sig := [s0; s1; s2; s3] ++ R ++ [x; y] ++ S ++ [ht].

Lemma form_R i : (i < length R)%nat → sig.[4 + i] = R.[i].
Proof. intros. unfold sig. by rewrite (zget_app_r [s0; s1; s2; s3]), zget_app_l. Qed.
Lemma form_tail i : sig.[length R + (4 + i)] = ([x; y] ++ S ++ [ht]).[i].
Proof.
  unfold sig. replace (length R + (4 + i))%nat with (4 + (length R + i))%nat by lia.
  by rewrite (zget_app_r [s0; s1; s2; s3]), zget_app_r.
Qed.
Lemma form_S i : (i < length S)%nat → sig.[length R + (6 + i)] = S.[i].
Proof.
  intros. replace (6 + i)%nat with (4 + (2 + i))%nat by lia. by rewrite form_tail, (zget_app_r [x; y]), zget_app_l.
Qed.
Lemma form_length : length sig = (length R + length S + 7)%nat.
Proof. unfold sig. rewrite !length_app. simpl. lia. Qed.

Lemma form_valid :
  bytes_ok R → bytes_ok S → s3 = zlen R → y = zlen S →
  IsValidSignatureEncoding sig = true ↔
  s0 = 0x30 ∧ s1 = zlen sig - 3 ∧ s2 = 0x02 ∧ x = 0x02 ∧ der_integer R ∧ der_integer S ∧ zlen sig ≤ 73.
Proof.
  intros HR HS H3 Hy. unfold IsValidSignatureEncoding.
  change (sig.[0]) with s0. change (sig.[1]) with s1. change (sig.[2]) with s2. change (sig.[3]) with s3.
  rewrite H3, Nat2Z.id. pose proof form_length as Hlen.
  replace (5 + length R)%nat with (length R + (4 + 1))%nat by lia. rewrite (form_tail 1). change (([x; y] ++ S ++ [ht]).[1]) with y.
  rewrite Hy, Nat2Z.id. rewrite (form_tail 0 : sig.[length R + 4] = _). change (([x; y] ++ S ++ [ht]).[0]) with x.
  rewrite (der_integer_tests R HR), (der_integer_tests S HS).
  destruct (Nat.leb_spec (length sig) (length R + (4 + 1))); [lia|].
  rewrite <-Hlen, Nat.eqb_refl. cbn [negb].
  destruct (Nat.eqb_spec (length R) 0) as [HR0|HR0].
  { split; [repeat case_match; done|]. intros (_ & _ & _ & _ & (? & _) & _). done. }
  destruct (Nat.eqb_spec (length S) 0) as [HS0|HS0].
  { split; [repeat case_match; done|]. intros (_ & _ & _ & _ & _ & (? & _) & _). done. }
  rewrite (form_R 0 ltac:(lia) : sig.[4] = _), (form_S 0 ltac:(lia) : sig.[length R + 6] = _).
  assert ((1 <? length R)%nat && (R.[0] =? 0) && negb (negb (sig.[5] .& 0x80 =? 0))
          = (1 <? length R)%nat && (R.[0] =? 0) && negb (negb (R.[1] .& 0x80 =? 0))) as ->.
  { destruct (Nat.ltb_spec 1 (length R)); [|done]. by rewrite (form_R 1 ltac:(lia) : sig.[5] = _). }
  assert ((1 <? length S)%nat && (S.[0] =? 0) && negb (negb (sig.[length R + 7] .& 0x80 =? 0))
          = (1 <? length S)%nat && (S.[0] =? 0) && negb (negb (S.[1] .& 0x80 =? 0))) as ->.
  { destruct (Nat.ltb_spec 1 (length S)); [|done]. by rewrite (form_S 1 ltac:(lia) : sig.[length R + 7] = _). }
  destruct (Z.ltb_spec (zlen sig) 9); [lia|]. destruct (Z.ltb_spec 73 (zlen sig)); [split; [done|]; intros; lia|].
  destruct (Z.eqb_spec s0 0x30); [|split; [done|naive_solver]].
  destruct (Z.eqb_spec s1 (zlen sig - 3)); [|split; [done|naive_solver]].
  destruct (Z.eqb_spec s2 0x02); [|split; [done|naive_solver]].
  cbn [negb]. destruct (Z.eqb_spec x 0x02); cbn [negb].
  - repeat case_match; naive_solver lia.
  - split; [by repeat case_match|naive_solver].
Qed.
End Form.

(** C19: [IsValidSignatureEncoding] accepts exactly the strict DER encodings, of at most 73 bytes
    with the hash type, of two non-negative integers; and the lax parser, given the signature
    without its hash type, reads these two integers (an integer of more than 32 bytes turns the
    signature into the invalid one).  So what verifies a signature agrees with the encoding that
    the script rules ask for. *)
Theorem strict_der_signatures sig (Hsig : bytes_ok sig) :
  (IsValidSignatureEncoding sig = true ↔
    ∃ R S hashtype, sig = strict_der R S hashtype ∧ der_integer R ∧ der_integer S ∧ zlen sig ≤ 73) ∧
  (∀ R S hashtype, sig = strict_der R S hashtype → zlen sig ≤ 73 →
    der_lax_compact (take (length sig - 1) sig) = Some (compact (be_value R) (be_value S))).
Proof.
  split; [split|].
  - intros Hv. assert (length sig = Z.to_nat (sig.[3]) + Z.to_nat (sig.[5 + Z.to_nat (sig.[3])]) + 7)%nat as Hlen.
    { unfold IsValidSignatureEncoding in Hv. repeat (case_match; try done).
      match goal with H : negb (_ =? length sig)%nat = false |- _ => apply negb_false_iff, Nat.eqb_eq in H; lia end. }
    destruct (signature_form sig _ _ Hlen) as (s0 & s1 & s2 & s3 & R & x & y & S & ht & Heq & HlR & HlS).
    pose proof Hsig as Hok. rewrite Heq in Hok.
    apply digits_ok_app in Hok as [Hs [HR [Hxy [HS _]%digits_ok_app]%digits_ok_app]%digits_ok_app].
    assert (sig.[3] = s3) as H3 by (by rewrite Heq). rewrite H3 in HlR.
    assert (urange 8 s3) as Hs3 by (rewrite <-H3; by apply digits_ok_zget).
    assert (s3 = zlen R) as Hs3R by (destruct Hs3; lia).
    assert (sig.[5 + length R] = y) as H5.
    { rewrite Heq. replace (5 + length R)%nat with (length R + (4 + 1))%nat by lia. by rewrite form_tail. }
    assert (urange 8 y) as Hyr by (rewrite <-H5; by apply digits_ok_zget).
    rewrite H3, <-HlR, H5 in HlS. assert (y = zlen S) as HyS by (destruct Hyr; lia).
    rewrite Heq in Hv. apply form_valid in Hv as (-> & H1 & -> & -> & HdR & HdS & H73); [|done..].
    exists R, S, ht. rewrite <-Heq in H1, H73. split_and!; [|done..]. rewrite Heq. unfold strict_der.
    rewrite Hs3R, HyS. cbn [app]. do 2 f_equal. rewrite H1, Heq, form_length. lia.
  - intros (R & S & ht & -> & HdR & HdS & H73).
    unfold strict_der in *. pose proof Hsig as Hok.
    apply digits_ok_app in Hok as [_ [_ [HR [_ [HS _]%digits_ok_app]%digits_ok_app]%digits_ok_app]%digits_ok_app].
    apply (form_valid 0x30 _ 0x02 (zlen R) 0x02 (zlen S) ht R S); try done. split_and!; try done.
    change ([48; zlen R + zlen S + 4] ++ [2; zlen R] ++ R ++ [2; zlen S] ++ S ++ [ht])
      with ([48; zlen R + zlen S + 4; 2; zlen R] ++ R ++ [2; zlen S] ++ S ++ [ht]). rewrite form_length. lia.
  - intros R S ht -> H73. unfold strict_der in *. pose proof Hsig as Hok.
    apply digits_ok_app in Hok as [_ [_ [HR [_ [HS _]%digits_ok_app]%digits_ok_app]%digits_ok_app]%digits_ok_app].
    rewrite <-lax_strict; [|done..|rewrite !length_app in H73; simpl in H73; lia]. f_equal.
    rewrite !app_assoc. set (p := ((([48; _] ++ _) ++ R) ++ _) ++ S). clearbody p. rewrite length_app. cbn [length].
    replace (length p + 1 - 1)%nat with (length p) by lia. apply take_app_length.
Qed.

Lemma strict_der_signatures_witness :
  IsValidSignatureEncoding ([0x30; 6] ++ [2; 1] ++ [5] ++ [2; 1] ++ [7] ++ [1]) = true ∧
  der_lax_compact (take 8 ([0x30; 6] ++ [2; 1] ++ [5] ++ [2; 1] ++ [7] ++ [1])) = Some (be32 5 ++ be32 7).
Proof.
  assert (bytes_ok (strict_der [5] [7] 1)) as Hok.
  { cbn. repeat (apply Forall_cons_2; [unfold urange; lia|]). apply Forall_nil_2. }
  destruct (strict_der_signatures (strict_der [5] [7] 1) Hok) as [_ Hlax].
  split; [reflexivity|]. exact (Hlax [5] [7] 1 eq_refl ltac:(vm_compute; discriminate)).
Defined.
