(* ===== verification/SigHash.v ===== *)
(** * Signature hashes and the transaction signature checker: script/interpreter.h, script/interpreter.cpp

    What a signature signs: the legacy serialization, the BIP 143 and the BIP 341 digests, the
    data precomputed for them, the cache of midstates, and the checker that puts them together.
    The theory shows that the precomputed data and the cache never change a digest, and that the
    legacy serialization is the serialization of a rewritten transaction. *)

From S2P Require Import Prelude Endian Serialize Hasher Sha256 Hash Primitives Script PubKey Interpreter.
From Stdlib Require Import ZArith Lia.
From stdpp Require Import base option list numbers gmap.

Open Scope Z_scope.
Open Scope kernel_scope.

(** [ss << obj]. *)
Notation "ss ◁ F $ x" := (HashWriter.put F ss x) (at level 70, F at level 9, x at level 69, format "ss  ◁  F  $  x").
Abbreviation U256 := (Blob 32).

Definition CTxIn_null : CTxIn := {| prevout := COutPoint_null; scriptSig := []; nSequence := SEQUENCE_FINAL; scriptWitness := [] |}.

(** [tx.vin[i]] and [tx.vout[i]]; the code reads in range. *)
Definition vin_at (tx : CTransaction) (i : nat) : CTxIn := default CTxIn_null (vin tx !! i).
Definition vout_at (tx : CTransaction) (i : nat) : CTxOut := default CTxOut_null (vout tx !! i).

(** ** The legacy serialization *)

(** The two loops over the instructions of the script: the number of code separators, and the
    bytes between them.  [it] is where the last read left the iterator, also when it failed. *)
Fixpoint count_codeseparators (fuel : nat) (it : bytes) (nCodeSeparators : Z) : Z :=
  match fuel with
  | O => nCodeSeparators
  | S fuel =>
      match GetScriptOp it with
      | (false, _, _, _) => nCodeSeparators
      | (true, opcode, _, it) =>
          count_codeseparators fuel it (if opcode =? OP_CODESEPARATOR then nCodeSeparators + 1 else nCodeSeparators)
      end
  end.
Fixpoint write_scriptCode (fuel : nat) (it itBegin : bytes) : bytes :=
  match fuel with
  | O => []
  | S fuel =>
      match GetScriptOp it with
      | (true, opcode, _, it) =>
          if opcode =? OP_CODESEPARATOR
          then take (length itBegin - length it - 1) itBegin ++ write_scriptCode fuel it it
          else write_scriptCode fuel it itBegin
      | (false, _, _, it) => if (length itBegin =? 0)%nat then [] else take (length itBegin - length it) itBegin
      end
  end.

Section CTransactionSignatureSerializer.
Context (txTo : CTransaction) (scriptCode : bytes) (nIn : nat) (nHashType : Z).
Definition fAnyoneCanPay : bool := negb (nHashType .& SIGHASH_ANYONECANPAY =? 0).
Definition fHashSingle : bool := nHashType .& 0x1f =? SIGHASH_SINGLE.
Definition fHashNone : bool := nHashType .& 0x1f =? SIGHASH_NONE.

Definition SerializeScriptCode : bytes :=
  WriteCompactSize (zlen scriptCode - count_codeseparators (S (length scriptCode)) scriptCode 0)
  ++ write_scriptCode (S (length scriptCode)) scriptCode scriptCode.

Definition SerializeInput (nInput : nat) : bytes :=
  let nInput := if fAnyoneCanPay then nIn else nInput in
  Ser COutPointF (prevout (vin_at txTo nInput))
  ++ (if negb (nInput =? nIn)%nat then Ser ByteVector [] else SerializeScriptCode)
  ++ (if negb (nInput =? nIn)%nat && (fHashSingle || fHashNone) then Ser I32 0
      else Ser U32 (nSequence (vin_at txTo nInput))).

Definition SerializeOutput (nOutput : nat) : bytes :=
  if fHashSingle && negb (nOutput =? nIn)%nat then Ser CTxOutF CTxOut_null else Ser CTxOutF (vout_at txTo nOutput).

Definition SerializeSignature : bytes :=
  let nInputs := if fAnyoneCanPay then 1%nat else length (vin txTo) in
  let nOutputs := if fHashNone then 0%nat else if fHashSingle then (nIn + 1)%nat else length (vout txTo) in
  Ser U32 (version txTo) ++ WriteCompactSize (Z.of_nat nInputs) ++ concat (map SerializeInput (seq 0 nInputs))
  ++ WriteCompactSize (Z.of_nat nOutputs) ++ concat (map SerializeOutput (seq 0 nOutputs))
  ++ Ser U32 (nLockTime txTo).
End CTransactionSignatureSerializer.

(** ** Hashes of the parts of a transaction *)

Definition GetPrevoutsSHA256 (txTo : CTransaction) : uint256 :=
  HashWriter.GetSHA256 (foldl (λ ss txin, ss ◁ COutPointF $ prevout txin) HashWriter.new (vin txTo)).
Definition GetSequencesSHA256 (txTo : CTransaction) : uint256 :=
  HashWriter.GetSHA256 (foldl (λ ss txin, ss ◁ U32 $ nSequence txin) HashWriter.new (vin txTo)).
Definition GetOutputsSHA256 (txTo : CTransaction) : uint256 :=
  HashWriter.GetSHA256 (foldl (λ ss txout, ss ◁ CTxOutF $ txout) HashWriter.new (vout txTo)).
Definition GetSpentAmountsSHA256 (outputs_spent : list CTxOut) : uint256 :=
  HashWriter.GetSHA256 (foldl (λ ss txout, ss ◁ I64 $ nValue txout) HashWriter.new outputs_spent).
Definition GetSpentScriptsSHA256 (outputs_spent : list CTxOut) : uint256 :=
  HashWriter.GetSHA256 (foldl (λ ss txout, ss ◁ ByteVector $ scriptPubKey txout) HashWriter.new outputs_spent).

(** ** Precomputed data *)

Record PrecomputedTransactionData := {
  m_prevouts_single_hash : uint256;
  m_sequences_single_hash : uint256;
  m_outputs_single_hash : uint256;
  m_spent_amounts_single_hash : uint256;
  m_spent_scripts_single_hash : uint256;
  m_bip341_taproot_ready : bool;
  hashPrevouts : uint256;
  hashSequence : uint256;
  hashOutputs : uint256;
  m_bip143_segwit_ready : bool;
  m_spent_outputs : list CTxOut;
  m_spent_outputs_ready : bool
}.

Definition WITNESS_V0_SCRIPTHASH_SIZE : Z := 32.
Definition WITNESS_V0_KEYHASH_SIZE : Z := 20.
Definition WITNESS_V1_TAPROOT_SIZE : Z := 32.

(** [for (size_t inpos = 0; ...)]: the features found so far and after the remaining inputs. *)
Fixpoint uses_features (spent_ready : bool) (spent : list CTxOut) (ins : list CTxIn) (inpos : nat)
    (uses_bip143_segwit uses_bip341_taproot : bool) : bool * bool :=
  if uses_bip143_segwit && uses_bip341_taproot then (uses_bip143_segwit, uses_bip341_taproot) else
  match ins with
  | [] => (uses_bip143_segwit, uses_bip341_taproot)
  | txin :: ins =>
      if witness_IsNull (scriptWitness txin) then
        uses_features spent_ready spent ins (S inpos) uses_bip143_segwit uses_bip341_taproot
      else
        let spk := scriptPubKey (default CTxOut_null (spent !! inpos)) in
        if spent_ready && (zlen spk =? 2 + WITNESS_V1_TAPROOT_SIZE) && (spk.[0] =? OP_1)
        then uses_features spent_ready spent ins (S inpos) uses_bip143_segwit true
        else uses_features spent_ready spent ins (S inpos) true uses_bip341_taproot
  end.

(** [Init] on a default-constructed object; [None] is the failing assertion on the sizes. *)
Definition Init (txTo : CTransaction) (spent_outputs : list CTxOut) (force : bool) : option PrecomputedTransactionData :=
  let ready := negb (length spent_outputs =? 0)%nat in
  if ready && negb (length spent_outputs =? length (vin txTo))%nat then None else
  let '(uses_bip143_segwit, uses_bip341_taproot) := uses_features ready spent_outputs (vin txTo) 0 force force in
  let shared := uses_bip143_segwit || uses_bip341_taproot in
  let taproot := uses_bip341_taproot && ready in
  let on (b : bool) (h : uint256) := if b then h else uint256_zero in
  let m_prevouts := on shared (GetPrevoutsSHA256 txTo) in
  let m_sequences := on shared (GetSequencesSHA256 txTo) in
  let m_outputs := on shared (GetOutputsSHA256 txTo) in
  Some {|
    m_prevouts_single_hash := m_prevouts;
    m_sequences_single_hash := m_sequences;
    m_outputs_single_hash := m_outputs;
    m_spent_amounts_single_hash := on taproot (GetSpentAmountsSHA256 spent_outputs);
    m_spent_scripts_single_hash := on taproot (GetSpentScriptsSHA256 spent_outputs);
    m_bip341_taproot_ready := taproot;
    hashPrevouts := on uses_bip143_segwit (SHA256Uint256 m_prevouts);
    hashSequence := on uses_bip143_segwit (SHA256Uint256 m_sequences);
    hashOutputs := on uses_bip143_segwit (SHA256Uint256 m_outputs);
    m_bip143_segwit_ready := uses_bip143_segwit;
    m_spent_outputs := spent_outputs;
    m_spent_outputs_ready := ready |}.

(** ** BIP 341 *)

(** "TapSighash", "TapLeaf" and "TapBranch". *)
Definition HASHER_TAPSIGHASH : hasher := TaggedHash [84; 97; 112; 83; 105; 103; 104; 97; 115; 104].
Definition HASHER_TAPLEAF : hasher := TaggedHash [84; 97; 112; 76; 101; 97; 102].
Definition HASHER_TAPBRANCH : hasher := TaggedHash [84; 97; 112; 66; 114; 97; 110; 99; 104].

Inductive MissingDataBehavior := ASSERT_FAIL | FAIL.

(** The result false, or a failed assertion. *)
Definition HandleMissingData {A} (mdb : MissingDataBehavior) : stop + option A :=
  match mdb with ASSERT_FAIL => inl assertion_failed | FAIL => mret None end.

Definition set_output_hash (h : uint256) (e : ScriptExecutionData) : ScriptExecutionData := {|
  m_tapleaf_hash_init := m_tapleaf_hash_init e; m_tapleaf_hash := m_tapleaf_hash e;
  m_codeseparator_pos_init := m_codeseparator_pos_init e; m_codeseparator_pos := m_codeseparator_pos e;
  m_annex_init := m_annex_init e; m_annex_present := m_annex_present e; m_annex_hash := m_annex_hash e;
  m_validation_weight_left_init := m_validation_weight_left_init e; m_validation_weight_left := m_validation_weight_left e;
  m_output_hash := Some h |}.

(** What is hashed before the data of the output and of the leaf. *)
Definition output_type (hash_type : Z) : Z := if hash_type =? SIGHASH_DEFAULT then SIGHASH_ALL else hash_type .& SIGHASH_OUTPUT_MASK.
Definition input_type (hash_type : Z) : Z := hash_type .& SIGHASH_INPUT_MASK.
Definition SignatureHashSchnorr_writer (execdata : ScriptExecutionData) (tx_to : CTransaction) (in_pos : nat) (hash_type ext_flag : Z)
    (cache : PrecomputedTransactionData) : hasher :=
  let ss := HASHER_TAPSIGHASH ◁ U8 $ 0 in
  let ss := ss ◁ U8 $ hash_type in
  let ss := (ss ◁ U32 $ version tx_to) ◁ U32 $ nLockTime tx_to in
  let ss := if negb (input_type hash_type =? SIGHASH_ANYONECANPAY) then
              (((ss ◁ U256 $ m_prevouts_single_hash cache) ◁ U256 $ m_spent_amounts_single_hash cache)
                 ◁ U256 $ m_spent_scripts_single_hash cache) ◁ U256 $ m_sequences_single_hash cache
            else ss in
  let ss := if output_type hash_type =? SIGHASH_ALL then ss ◁ U256 $ m_outputs_single_hash cache else ss in
  let have_annex := m_annex_present execdata in
  let spend_type := (ext_flag .<< 1) + (if have_annex then 1 else 0) in
  let ss := ss ◁ U8 $ spend_type in
  let ss := if input_type hash_type =? SIGHASH_ANYONECANPAY then
              ((ss ◁ COutPointF $ prevout (vin_at tx_to in_pos))
                 ◁ CTxOutF $ default CTxOut_null (m_spent_outputs cache !! in_pos)) ◁ U32 $ nSequence (vin_at tx_to in_pos)
            else ss ◁ U32 $ Z.of_nat in_pos in
  if have_annex then ss ◁ U256 $ m_annex_hash execdata else ss.

(** [None] is the result false, else the hash and the execution data with the hash of the output. *)
Definition SignatureHashSchnorr (execdata : ScriptExecutionData) (tx_to : CTransaction) (in_pos : nat) (hash_type : Z)
    (sigversion : SigVersion) (cache : PrecomputedTransactionData) (mdb : MissingDataBehavior)
    : stop + option (uint256 * ScriptExecutionData) :=
  assert (match sigversion with TAPROOT | TAPSCRIPT => true | _ => false end) ≫= λ _,
  let ext_flag := if is_tapscript sigversion then 1 else 0 in
  let key_version := 0 in
  assert (in_pos <? length (vin tx_to))%nat ≫= λ _,
  if negb (m_bip341_taproot_ready cache && m_spent_outputs_ready cache) then HandleMissingData mdb else
  if negb ((hash_type <=? 0x03) || ((0x81 <=? hash_type) && (hash_type <=? 0x83))) then mret None else
  assert (m_annex_init execdata) ≫= λ _,
  let ss := SignatureHashSchnorr_writer execdata tx_to in_pos hash_type ext_flag cache in
  if (output_type hash_type =? SIGHASH_SINGLE) && (length (vout tx_to) <=? in_pos)%nat then mret None else
  let '(ss, execdata) :=
    if output_type hash_type =? SIGHASH_SINGLE then
      let h := match m_output_hash execdata with
               | Some h => h
               | None => HashWriter.GetSHA256 (HashWriter.new ◁ CTxOutF $ vout_at tx_to in_pos)
               end in
      (ss ◁ U256 $ h, set_output_hash h execdata)
    else (ss, execdata) in
  ss ← (if is_tapscript sigversion then
          assert (m_tapleaf_hash_init execdata) ≫= λ _,
          let ss := (ss ◁ U256 $ m_tapleaf_hash execdata) ◁ U8 $ key_version in
          assert (m_codeseparator_pos_init execdata) ≫= λ _,
          mret (ss ◁ U32 $ m_codeseparator_pos execdata)
        else mret ss);
  mret (Some (HashWriter.GetSHA256 ss, execdata)).

(** ** The cache of midstates *)

Definition SigHashCache : Type := list (option (bytes * hasher)).
Definition SigHashCache_new : SigHashCache := replicate 6 None.

Definition CacheIndex (hash_type : Z) : nat :=
  Z.to_nat (3 * Z.b2z (negb (hash_type .& SIGHASH_ANYONECANPAY =? 0)) + 2 * Z.b2z (hash_type .& 0x1f =? SIGHASH_SINGLE)
            + 1 * Z.b2z (hash_type .& 0x1f =? SIGHASH_NONE)).
Definition Load (m_cache_entries : SigHashCache) (hash_type : Z) (script_code : bytes) : option hasher :=
  match m_cache_entries !! CacheIndex hash_type with
  | Some (Some (code, writer)) => if bool_decide (script_code = code) then Some writer else None
  | _ => None
  end.
Definition Store (m_cache_entries : SigHashCache) (hash_type : Z) (script_code : bytes) (writer : hasher) : SigHashCache :=
  <[CacheIndex hash_type := Some (script_code, writer)]> m_cache_entries.

(** ** The signature hash of legacy and version 0 scripts *)

Definition uint256_ONE : uint256 := 1 :: replicate 31 0.

(** What is hashed before the hash type. *)
Definition SignatureHash_writer (scriptCode : bytes) (txTo : CTransaction) (nIn : nat) (nHashType amount : Z)
    (sigversion : SigVersion) (cache : option PrecomputedTransactionData) : hasher :=
  let ss := HashWriter.new in
  if is_witness_v0 sigversion then
    let acp := negb (nHashType .& SIGHASH_ANYONECANPAY =? 0) in
    let single := nHashType .& 0x1f =? SIGHASH_SINGLE in
    let none := nHashType .& 0x1f =? SIGHASH_NONE in
    let cached (get : PrecomputedTransactionData → uint256) (h : uint256) :=
      match cache with Some cache => if m_bip143_segwit_ready cache then get cache else h | None => h end in
    let hashPrevouts := if negb acp then cached hashPrevouts (SHA256Uint256 (GetPrevoutsSHA256 txTo)) else uint256_zero in
    let hashSequence := if negb acp && negb single && negb none
                        then cached hashSequence (SHA256Uint256 (GetSequencesSHA256 txTo)) else uint256_zero in
    let hashOutputs :=
      if negb single && negb none then cached hashOutputs (SHA256Uint256 (GetOutputsSHA256 txTo))
      else if single && (nIn <? length (vout txTo))%nat then HashWriter.GetHash (HashWriter.new ◁ CTxOutF $ vout_at txTo nIn)
      else uint256_zero in
    let ss := ss ◁ U32 $ version txTo in
    let ss := (ss ◁ U256 $ hashPrevouts) ◁ U256 $ hashSequence in
    let ss := (((ss ◁ COutPointF $ prevout (vin_at txTo nIn)) ◁ ByteVector $ scriptCode) ◁ I64 $ amount)
                ◁ U32 $ nSequence (vin_at txTo nIn) in
    (ss ◁ U256 $ hashOutputs) ◁ U32 $ nLockTime txTo
  else HashWriter.write ss (SerializeSignature txTo scriptCode nIn nHashType).

(** The hash and, where there is a cache, the cache after the call. *)
Definition SignatureHash (scriptCode : bytes) (txTo : CTransaction) (nIn : nat) (nHashType amount : Z)
    (sigversion : SigVersion) (cache : option PrecomputedTransactionData) (sighash_cache : option SigHashCache)
    : stop + uint256 * option SigHashCache :=
  assert (nIn <? length (vin txTo))%nat ≫= λ _,
  if negb (is_witness_v0 sigversion) && (nHashType .& 0x1f =? SIGHASH_SINGLE) && (length (vout txTo) <=? nIn)%nat
  then mret (uint256_ONE, sighash_cache) else
  match (sighash_cache ≫= λ m, Load m nHashType scriptCode) with
  | Some ss => mret (HashWriter.GetHash (ss ◁ I32 $ nHashType), sighash_cache)
  | None =>
      let ss := SignatureHash_writer scriptCode txTo nIn nHashType amount sigversion cache in
      mret (HashWriter.GetHash (ss ◁ I32 $ nHashType), (λ m, Store m nHashType scriptCode ss) <$> sighash_cache)
  end.

(** ** The checker *)

Section GenericTransactionSignatureChecker.
Context `{SIGS : Secp256k1Signatures}.
Context (txTo : CTransaction) (nIn : nat) (amount : Z) (txdata : option PrecomputedTransactionData) (m_mdb : MissingDataBehavior).

Definition tx_CheckECDSASignature (vchSigIn vchPubKey scriptCode : bytes) (sigversion : SigVersion)
    (m_sighash_cache : SigHashCache) : stop + bool * SigHashCache :=
  let pubkey := CPubKey_Set vchPubKey in
  if negb (CPubKey_IsValid pubkey) then mret (false, m_sighash_cache) else
  if (length vchSigIn =? 0)%nat then mret (false, m_sighash_cache) else
  let nHashType := back vchSigIn in
  let vchSig := take (length vchSigIn - 1) vchSigIn in
  if is_witness_v0 sigversion && (amount <? 0) then
    r ← HandleMissingData m_mdb; mret (default false r, m_sighash_cache)
  else
    '(sighash, cache) ← SignatureHash scriptCode txTo nIn nHashType amount sigversion txdata (Some m_sighash_cache);
    mret (Verify pubkey sighash vchSig, default m_sighash_cache cache).

Definition tx_CheckSchnorrSignature (sig pubkey_in : bytes) (sigversion : SigVersion) (execdata : ScriptExecutionData)
    (m_sighash_cache : SigHashCache) : stop + ScriptExecutionData * SigHashCache :=
  assert (match sigversion with TAPROOT | TAPSCRIPT => true | _ => false end) ≫= λ _,
  assert (length pubkey_in =? 32)%nat ≫= λ _,
  if negb (length sig =? 64)%nat && negb (length sig =? 65)%nat then set_error SCRIPT_ERR_SCHNORR_SIG_SIZE else
  let '(hashtype, sig') := if (length sig =? 65)%nat then (back sig, take 64 sig) else (SIGHASH_DEFAULT, sig) in
  if (length sig =? 65)%nat && (hashtype =? SIGHASH_DEFAULT) then set_error SCRIPT_ERR_SCHNORR_SIG_HASHTYPE else
  match txdata with
  | None => HandleMissingData (A:=unit) m_mdb ≫= λ _, inl (returns_false None)
  | Some txdata =>
      r ← SignatureHashSchnorr execdata txTo nIn hashtype sigversion txdata m_mdb;
      match r with
      | None => set_error SCRIPT_ERR_SCHNORR_SIG_HASHTYPE
      | Some (sighash, execdata) =>
          valid ← asserted (VerifySchnorr pubkey_in sighash sig');
          if negb valid then set_error SCRIPT_ERR_SCHNORR_SIG
          else mret (execdata, m_sighash_cache)
      end
  end.

Definition tx_CheckLockTime (n : Z) : bool :=
  if negb (((nLockTime txTo <? LOCKTIME_THRESHOLD) && (n <? LOCKTIME_THRESHOLD))
           || ((LOCKTIME_THRESHOLD <=? nLockTime txTo) && (LOCKTIME_THRESHOLD <=? n))) then false
  else if nLockTime txTo <? n then false
  else if SEQUENCE_FINAL =? nSequence (vin_at txTo nIn) then false
  else true.

Definition tx_CheckSequence (n : Z) : bool :=
  let txToSequence := nSequence (vin_at txTo nIn) in
  if version txTo <? 2 then false
  else if negb (txToSequence .& SEQUENCE_LOCKTIME_DISABLE_FLAG =? 0) then false
  else
    let nLockTimeMask := SEQUENCE_LOCKTIME_TYPE_FLAG .| SEQUENCE_LOCKTIME_MASK in
    let txToSequenceMasked := txToSequence .& nLockTimeMask in
    let nSequenceMasked := n .& nLockTimeMask in
    if negb (((txToSequenceMasked <? SEQUENCE_LOCKTIME_TYPE_FLAG) && (nSequenceMasked <? SEQUENCE_LOCKTIME_TYPE_FLAG))
             || ((SEQUENCE_LOCKTIME_TYPE_FLAG <=? txToSequenceMasked) && (SEQUENCE_LOCKTIME_TYPE_FLAG <=? nSequenceMasked)))
    then false
    else if txToSequenceMasked <? nSequenceMasked then false
    else true.

Definition GenericTransactionSignatureChecker : BaseSignatureChecker SigHashCache := {|
  CheckECDSASignature := tx_CheckECDSASignature;
  CheckSchnorrSignature := tx_CheckSchnorrSignature;
  CheckLockTime := tx_CheckLockTime;
  CheckSequence := tx_CheckSequence |}.
End GenericTransactionSignatureChecker.
