(* ===== verification/SigHashTheory.v ===== *)
(** * Theory of signature hashes

    The legacy serialization is that of a rewritten transaction; data precomputed from the
    transaction gives the same digest as none; a cache filled by earlier calls for the same
    input and the same kind of script gives the same digest as none. *)

From S2P Require Import Prelude Endian Serialize Hasher Sha256 Hash Primitives Script PubKey Interpreter SigHash.
From Stdlib Require Import ZArith Lia.
From stdpp Require Import base option list numbers gmap.

Open Scope Z_scope.
Open Scope kernel_scope.

(** ** Removing code separators *)

Definition is_codeseparator (x : bytes) : bool := x.[0] =? OP_CODESEPARATOR.
Definition without_codeseparators (xs : list bytes) : bytes := concat (filter (λ x, is_codeseparator x = false) xs).

Lemma codeseparator_instr x : is_instr x → is_codeseparator x = true → x = [OP_CODESEPARATOR].
Proof.
  intros (i & opcode & data & -> & Hi) Hc. unfold is_codeseparator in Hc. apply Z.eqb_eq in Hc.
  destruct Hi as [[(-> & Hn & Hlt)|[(-> & -> & _)|[(-> & -> & _)|(-> & -> & _)]]]|(-> & -> & _)]; try done.
  - change (([opcode] ++ data).[0]) with opcode in Hc. subst. unfold OP_CODESEPARATOR, OP_PUSHDATA1 in *. lia.
  - change (([opcode] ++ []).[0]) with opcode in Hc. by subst.
Qed.

(** What a failing read consumes of an unreadable tail: the opcode and the length bytes it has. *)
Definition read_part (tail : bytes) : bytes := take (length tail - length (GetScriptOp tail).2) tail.

Lemma count_codeseparators_spec fuel xs tail n :
  parsed xs tail → (length xs < fuel)%nat →
  count_codeseparators fuel (concat xs ++ tail) n = n + Z.of_nat (length (filter (λ x, is_codeseparator x = true) xs)).
Proof.
  intros [Hxs Ht]. revert fuel n. induction Hxs as [|x xs Hx _ IH]; intros [|fuel] n Hf; simpl in Hf; try lia.
  { cbn [count_codeseparators concat app]. unfold unreadable in Ht. destruct (GetScriptOp tail) as [[[[] ?] ?] ?]; [done|]. simpl. lia. }
  cbn [count_codeseparators concat]. rewrite <-app_assoc.
  destruct (is_instr_read x (concat xs ++ tail) Hx) as (op & data & -> & -> & _).
  rewrite IH by lia. change (x.[0] =? OP_CODESEPARATOR) with (is_codeseparator x). destruct (is_codeseparator x) eqn:E.
  - rewrite filter_cons_True by done. rewrite length_cons. lia.
  - rewrite filter_cons_False by congruence. done.
Qed.

Lemma GetScriptOp_shorter tail : (length (GetScriptOp tail).2 ≤ length tail)%nat.
Proof.
  destruct (GetScriptOp tail) as [[[ok op] data] rest] eqn:E. destruct tail as [|b tail]; [injection E as <- <- <- <-; done|].
  pose proof (GetScriptOp_progress _ _ _ _ _ E ltac:(done)). cbn [snd]. lia.
Qed.

Lemma write_scriptCode_spec fuel pre xs tail :
  parsed xs tail → (length xs < fuel)%nat →
  write_scriptCode fuel (concat xs ++ tail) (pre ++ concat xs ++ tail) = pre ++ without_codeseparators xs ++ read_part tail.
Proof.
  intros [Hxs Ht]. revert fuel pre. induction Hxs as [|x xs Hx _ IH]; intros [|fuel] pre Hf; simpl in Hf; try lia.
  { cbn [write_scriptCode concat app]. pose proof (GetScriptOp_shorter tail) as Hl. unfold unreadable in Ht. unfold read_part.
    destruct (GetScriptOp tail) as [[[[] ?] ?] rest]; [done|]. cbn [snd] in *. rewrite length_app.
    case_match eqn:E; [apply Nat.eqb_eq in E; by destruct pre, tail|].
    replace (length pre + length tail - length rest)%nat with (length pre + (length tail - length rest))%nat by lia.
    by rewrite take_app_add. }
  cbn [write_scriptCode concat]. rewrite <-!app_assoc.
  destruct (is_instr_read x (concat xs ++ tail) Hx) as (op & data & -> & -> & _).
  unfold without_codeseparators. change (x.[0] =? OP_CODESEPARATOR) with (is_codeseparator x).
  destruct (is_codeseparator x) eqn:E.
  - rewrite (codeseparator_instr x Hx E). rewrite filter_cons_False by done.
    rewrite !length_app. cbn [length]. rewrite take_app_length' by lia.
    f_equal. apply (IH fuel []). lia.
  - rewrite filter_cons_True by done. cbn [concat]. rewrite <-app_assoc, !(app_assoc pre). apply IH. lia.
Qed.

Lemma SerializeScriptCode_spec xs tail :
  parsed xs tail →
  SerializeScriptCode (concat xs ++ tail) =
  WriteCompactSize (zlen (without_codeseparators xs ++ tail)) ++ without_codeseparators xs ++ read_part tail.
Proof.
  intros Hp. unfold SerializeScriptCode. pose proof (fuel_enough xs tail Hp) as Hlen.
  rewrite count_codeseparators_spec by (done || lia). rewrite (write_scriptCode_spec _ [] xs) by (done || lia).
  cbn [app]. f_equal. f_equal. unfold without_codeseparators. destruct Hp as [Hxs _].
  clear Hlen. rewrite !length_app. induction Hxs as [|x xs Hx _ IH]; [simpl; lia|]. cbn [concat]. rewrite length_app.
  destruct (is_codeseparator x) eqn:E.
  - rewrite filter_cons_True, filter_cons_False by congruence.
    pose proof (codeseparator_instr x Hx E) as ->. simpl. lia.
  - rewrite filter_cons_False, filter_cons_True by congruence. cbn [concat]. rewrite length_app. lia.
Qed.

Lemma SerializeScriptCode_complete xs :
  Forall is_instr xs → SerializeScriptCode (concat xs) = Ser ByteVector (without_codeseparators xs).
Proof.
  intros Hxs. pose proof (SerializeScriptCode_spec xs [] ltac:(by split)) as H. rewrite !app_nil_r in H. exact H.
Qed.

(** ** The transaction that a legacy signature signs

    The scripts of the other inputs are emptied, that of the input is the code without its code
    separators; SIGHASH_NONE drops the outputs, SIGHASH_SINGLE blanks those before the one of the
    input and drops those after it, and both zero the sequence numbers of the other inputs;
    SIGHASH_ANYONECANPAY drops the other inputs. *)

Section Rewritten.
Context (txTo : CTransaction) (xs : list bytes) (nIn : nat) (nHashType : Z).

Definition rewritten_input (k : nat) (i : CTxIn) : CTxIn := {|
  prevout := prevout i;
  scriptSig := if (k =? nIn)%nat then without_codeseparators xs else [];
  nSequence := if negb (k =? nIn)%nat && (fHashSingle nHashType || fHashNone nHashType) then 0 else nSequence i;
  scriptWitness := [] |}.
Definition rewritten_transaction : CTransaction := {|
  vin := if fAnyoneCanPay nHashType then [rewritten_input nIn (vin_at txTo nIn)] else imap rewritten_input (vin txTo);
  vout := if fHashNone nHashType then []
          else if fHashSingle nHashType then replicate nIn CTxOut_null ++ [vout_at txTo nIn]
          else vout txTo;
  version := version txTo;
  nLockTime := nLockTime txTo |}.

Hypothesis Hxs : Forall is_instr xs.

Lemma SerializeInput_rewritten k :
  SerializeInput txTo (concat xs) nIn nHashType k =
  Ser CTxInF (let k := if fAnyoneCanPay nHashType then nIn else k in rewritten_input k (vin_at txTo k)).
Proof.
  unfold SerializeInput. cbn zeta. set (k' := if fAnyoneCanPay _ then _ else _).
  unfold CTxInF, ReadWrite, rewritten_input. cbn [Ser Pair prevout scriptSig nSequence scriptWitness].
  rewrite SerializeScriptCode_complete by done. f_equal. destruct (k' =? nIn)%nat; cbn [negb andb]; [done|].
  f_equal. by destruct (_ || _).
Qed.

Lemma concat_map_at {A} (f : nat → bytes) (g : A → bytes) (l : list A) :
  (∀ i x, l !! i = Some x → f i = g x) → concat (map f (seq 0 (length l))) = concat (map g l).
Proof.
  intros Hfg. f_equal. apply list_eq. intros i. change (map f) with (fmap (M:=list) f). change (map g) with (fmap (M:=list) g).
  rewrite !list_lookup_fmap. destruct (l !! i) as [x|] eqn:E.
  - rewrite lookup_seq_lt by (by eapply lookup_lt_Some). simpl. f_equal. by apply Hfg.
  - rewrite lookup_seq_ge by (by apply lookup_ge_None). done.
Qed.

Context `{abi : !ABI}.

Lemma SerializeSignature_rewritten :
  (nIn < length (vin txTo))%nat → (fHashSingle nHashType = true → nIn < length (vout txTo))%nat →
  SerializeSignature txTo (concat xs) nIn nHashType = SerializeTransaction false rewritten_transaction.
Proof.
  intros Hin Hout. unfold SerializeSignature, SerializeTransaction, rewritten_transaction.
  cbn [vin vout version nLockTime andb Z.eqb negb]. change (0 .& 1) with 0. cbn [Z.eqb negb app].
  f_equal. unfold VinF, VoutF, VectorFormatter. cbn [Ser]. rewrite <-!app_assoc. f_equal.
  { destruct (fAnyoneCanPay _); [done|]. by rewrite length_imap. }
  f_equal; [|f_equal; [|f_equal]].
  - destruct (fAnyoneCanPay nHashType) eqn:Ea.
    { cbn [seq map concat]. by rewrite SerializeInput_rewritten, Ea. }
    rewrite <-(length_imap rewritten_input). apply (concat_map_at _ _). intros i x.
    rewrite list_lookup_imap. intros (y & Hy & ->)%fmap_Some. rewrite SerializeInput_rewritten, Ea. unfold vin_at. by rewrite Hy.
  - unfold fHashNone, fHashSingle. destruct (_ =? _); [done|]. destruct (_ =? _); [|done].
    by rewrite length_app, length_replicate.
  - destruct (fHashNone _); [done|]. destruct (fHashSingle nHashType) eqn:Es.
    + specialize (Hout eq_refl). rewrite seq_app, !map_app, !concat_app. f_equal.
      * pose proof (concat_map_at (SerializeOutput txTo nIn nHashType) (Ser CTxOutF) (replicate nIn CTxOut_null)) as Heq.
        rewrite length_replicate in Heq. apply Heq.
        intros i x [-> Hi]%lookup_replicate. unfold SerializeOutput. rewrite Es.
        by rewrite (proj2 (Nat.eqb_neq i nIn)) by lia.
      * cbn [seq map concat]. unfold SerializeOutput. by rewrite Nat.add_0_l, Nat.eqb_refl, andb_false_r.
    + apply (concat_map_at _ _). intros i x Hx. unfold SerializeOutput. rewrite Es. simpl. unfold vout_at. by rewrite Hx.
Qed.
End Rewritten.

(** C16: what a legacy signature signs.  A script code is a sequence [xs] of complete instructions
    followed by a tail that cannot be read (empty for a well-formed script; every byte string has
    such a parse).  The script is written without its code separators, after the size of the script
    without them; of the tail only the opcode and the length bytes that a failing read consumes are
    written, so that a script with a tail may be followed by fewer bytes than its size announces.  When
    the code is made of complete instructions, the input exists and, for SIGHASH_SINGLE, an output
    of the same index exists, the bytes signed with any hash type (SIGHASH_ALL, NONE or SINGLE, with
    or without ANYONECANPAY) are the serialization, without witnesses, of the transaction rewritten
    as described above. *)
Theorem legacy_signature_serialization `{abi : !ABI} (txTo : CTransaction) (xs : list bytes) (tail : bytes) (nIn : nat)
    (nHashType : Z) :
  parsed xs tail →
  SerializeScriptCode (concat xs ++ tail) =
    WriteCompactSize (zlen (without_codeseparators xs ++ tail)) ++ without_codeseparators xs ++ read_part tail ∧
  (tail = [] → (nIn < length (vin txTo))%nat → (fHashSingle nHashType = true → nIn < length (vout txTo))%nat →
   SerializeSignature txTo (concat xs ++ tail) nIn nHashType =
     SerializeTransaction false (rewritten_transaction txTo xs nIn nHashType)).
Proof.
  intros Hp. split; [by apply SerializeScriptCode_spec|]. intros -> Hin Hout. rewrite app_nil_r.
  apply SerializeSignature_rewritten; [by destruct Hp|done..].
Qed.

(** ** Hashers that were fed a message *)

Definition fed : hasher → bytes → Prop := represents 64 sha256.Transform sha256.Initialize.

Lemma fed_new : fed HashWriter.new [].
Proof. exact CSHA256_new_represents. Qed.
Lemma fed_put {A} (F : Formatter A) st m (x : A) : fed st m → fed (st ◁ F $ x) (m ++ Ser F x).
Proof. apply CSHA256_Write_represents. Qed.
Lemma fed_write st m d : fed st m → fed (HashWriter.write st d) (m ++ d).
Proof. apply CSHA256_Write_represents. Qed.
Lemma fed_GetHash st m : fed st m → HashWriter.GetHash st = Hash m.
Proof. rewrite Hash_double. apply HashWriter_GetHash_represents. Qed.
#[local] Transparent HashWriter.GetSHA256 SHA256Uint256.
Lemma fed_GetSHA256 st m : fed st m → HashWriter.GetSHA256 st = fips.SHA256 m.
Proof. apply CSHA256_Finalize_represents. Qed.
Lemma SHA256Uint256_spec h : SHA256Uint256 h = fips.SHA256 h.
Proof. apply CSHA256_Finalize_represents, (CSHA256_Write_represents _ []), CSHA256_new_represents. Qed.
#[local] Opaque HashWriter.GetSHA256 SHA256Uint256.
Lemma fed_TaggedHash tag : fed (TaggedHash tag) (fips.SHA256 tag ++ fips.SHA256 tag).
Proof.
  unfold TaggedHash. rewrite (CSHA256_Finalize_represents _ tag)
    by apply (CSHA256_Write_represents _ []), CSHA256_new_represents.
  apply (fed_put U256), (fed_put U256 _ []), fed_new.
Qed.
Lemma fed_foldl {A B} (F : Formatter B) (f : A → B) (l : list A) st m :
  fed st m → fed (foldl (λ ss x, ss ◁ F $ f x) st l) (m ++ concat (map (λ x, Ser F (f x)) l)).
Proof.
  revert st m. induction l as [|x l IH]; intros st m Hst; cbn [foldl map concat]; [by rewrite app_nil_r|].
  rewrite app_assoc. by apply IH, fed_put.
Qed.
Create HintDb fed.
#[local] Hint Resolve fed_new fed_put fed_write fed_TaggedHash : fed.

Lemma sha_of_parts {A B} (F : Formatter B) (f : A → B) (l : list A) :
  HashWriter.GetSHA256 (foldl (λ ss x, ss ◁ F $ f x) HashWriter.new l) = fips.SHA256 (concat (map (λ x, Ser F (f x)) l)).
Proof. apply fed_GetSHA256, (fed_foldl F f l _ []), fed_new. Qed.
Lemma hash_of_parts {A B} (F : Formatter B) (f : A → B) (l : list A) :
  SHA256Uint256 (HashWriter.GetSHA256 (foldl (λ ss x, ss ◁ F $ f x) HashWriter.new l)) = Hash (concat (map (λ x, Ser F (f x)) l)).
Proof. by rewrite SHA256Uint256_spec, sha_of_parts, Hash_double. Qed.

(** ** The messages of BIP 143 and BIP 341 *)

Definition sighash_prevouts (tx : CTransaction) : bytes := concat (map (λ i, Ser COutPointF (prevout i)) (vin tx)).
Definition sighash_sequences (tx : CTransaction) : bytes := concat (map (λ i, Ser U32 (nSequence i)) (vin tx)).
Definition sighash_outputs (tx : CTransaction) : bytes := concat (map (Ser CTxOutF) (vout tx)).

Definition bip143_message (tx : CTransaction) (nIn : nat) (amount : Z) (code : bytes) (acp single none : bool) : bytes :=
  Ser U32 (version tx)
  ++ (if acp then uint256_zero else Hash (sighash_prevouts tx))
  ++ (if acp || single || none then uint256_zero else Hash (sighash_sequences tx))
  ++ Ser COutPointF (prevout (vin_at tx nIn)) ++ Ser ByteVector code ++ Ser I64 amount ++ Ser U32 (nSequence (vin_at tx nIn))
  ++ (if single || none then
        if single && (nIn <? length (vout tx))%nat then Hash (Ser CTxOutF (vout_at tx nIn)) else uint256_zero
      else Hash (sighash_outputs tx))
  ++ Ser U32 (nLockTime tx).

(** What is hashed before the hash type, by the kind of script and the three properties of the hash type. *)
Definition sighash_message (tx : CTransaction) (nIn : nat) (amount : Z) (sigversion : SigVersion) (code : bytes) (nHashType : Z) : bytes :=
  if is_witness_v0 sigversion
  then bip143_message tx nIn amount code (fAnyoneCanPay nHashType) (fHashSingle nHashType) (fHashNone nHashType)
  else SerializeSignature tx code nIn nHashType.

Definition sighash_spec (tx : CTransaction) (nIn : nat) (amount : Z) (sigversion : SigVersion) (code : bytes) (nHashType : Z) : uint256 :=
  if negb (is_witness_v0 sigversion) && fHashSingle nHashType && (length (vout tx) <=? nIn)%nat then uint256_ONE
  else Hash (sighash_message tx nIn amount sigversion code nHashType ++ Ser I32 nHashType).

(** Data that [Init] computed for the transaction. *)
Definition precomputed_for (tx : CTransaction) (d : option PrecomputedTransactionData) : Prop :=
  match d with None => True | Some d => ∃ spent force, Init tx spent force = Some d end.

Lemma GetPrevouts_double tx : SHA256Uint256 (GetPrevoutsSHA256 tx) = Hash (sighash_prevouts tx).
Proof. apply (hash_of_parts COutPointF prevout). Qed.
Lemma GetSequences_double tx : SHA256Uint256 (GetSequencesSHA256 tx) = Hash (sighash_sequences tx).
Proof. apply (hash_of_parts U32 nSequence). Qed.
Lemma GetOutputs_double tx : SHA256Uint256 (GetOutputsSHA256 tx) = Hash (sighash_outputs tx).
Proof. apply (hash_of_parts CTxOutF id). Qed.

(** What [Init] leaves where it says that the data is ready. *)
Lemma Init_segwit tx spent force d :
  Init tx spent force = Some d → m_bip143_segwit_ready d = true →
  hashPrevouts d = Hash (sighash_prevouts tx) ∧ hashSequence d = Hash (sighash_sequences tx) ∧
  hashOutputs d = Hash (sighash_outputs tx).
Proof.
  unfold Init. case_match; [done|]. destruct (uses_features _ _ _ _ _ _) as [segwit taproot].
  intros [= <-]. cbn [m_bip143_segwit_ready hashPrevouts hashSequence hashOutputs]. intros ->. cbn [orb].
  by rewrite GetPrevouts_double, GetSequences_double, GetOutputs_double.
Qed.

Lemma Init_taproot tx spent force d :
  Init tx spent force = Some d → m_bip341_taproot_ready d = true →
  m_prevouts_single_hash d = fips.SHA256 (sighash_prevouts tx) ∧
  m_sequences_single_hash d = fips.SHA256 (sighash_sequences tx) ∧
  m_outputs_single_hash d = fips.SHA256 (sighash_outputs tx) ∧
  m_spent_amounts_single_hash d = fips.SHA256 (concat (map (λ o, Ser I64 (nValue o)) spent)) ∧
  m_spent_scripts_single_hash d = fips.SHA256 (concat (map (λ o, Ser ByteVector (scriptPubKey o)) spent)) ∧
  m_spent_outputs d = spent ∧ m_spent_outputs_ready d = true.
Proof.
  unfold Init. case_match; [done|]. destruct (uses_features _ _ _ _ _ _) as [segwit taproot].
  intros [= <-]. cbn [m_bip341_taproot_ready m_prevouts_single_hash m_sequences_single_hash m_outputs_single_hash
    m_spent_amounts_single_hash m_spent_scripts_single_hash m_spent_outputs m_spent_outputs_ready].
  intros [-> ->]%andb_true_iff. rewrite orb_true_r. cbn [andb].
  split_and!; try done; [apply (sha_of_parts COutPointF prevout)|apply (sha_of_parts U32 nSequence)|
    apply (sha_of_parts CTxOutF id)|apply (sha_of_parts I64 nValue)|apply (sha_of_parts ByteVector scriptPubKey)].
Qed.

Lemma fed_bip143 (v : Z) (p s : bytes) (o : COutPoint) (c : bytes) (a q : Z) (h : bytes) (l : Z) :
  fed (((((((((HashWriter.new ◁ U32 $ v) ◁ U256 $ p) ◁ U256 $ s) ◁ COutPointF $ o) ◁ ByteVector $ c) ◁ I64 $ a) ◁ U32 $ q)
    ◁ U256 $ h) ◁ U32 $ l)
    (Ser U32 v ++ p ++ s ++ Ser COutPointF o ++ Ser ByteVector c ++ Ser I64 a ++ Ser U32 q ++ h ++ Ser U32 l).
Proof.
  rewrite !app_assoc. apply (fed_put U32), (fed_put U256), (fed_put U32), (fed_put I64), (fed_put ByteVector),
    (fed_put COutPointF), (fed_put U256), (fed_put U256), (fed_put U32 _ []), fed_new.
Qed.

Lemma writer_fed tx nIn amount sigversion code ht d :
  precomputed_for tx d → fed (SignatureHash_writer code tx nIn ht amount sigversion d) (sighash_message tx nIn amount sigversion code ht).
Proof.
  intros Hd. unfold SignatureHash_writer, sighash_message. destruct (is_witness_v0 sigversion); [|apply (fed_write _ []), fed_new].
  unfold bip143_message, fAnyoneCanPay, fHashSingle, fHashNone.
  assert (∀ get h h', SHA256Uint256 h = Hash h' →
    (∀ d', d = Some d' → m_bip143_segwit_ready d' = true → get d' = Hash h') →
    match d with Some d' => if m_bip143_segwit_ready d' then get d' else SHA256Uint256 h | None => SHA256Uint256 h end = Hash h')
    as Hget by (intros get h h' Hh Hg; destruct d as [d'|]; [destruct (m_bip143_segwit_ready d') eqn:E|]; by auto).
  assert (∀ d', d = Some d' → m_bip143_segwit_ready d' = true →
    hashPrevouts d' = Hash (sighash_prevouts tx) ∧ hashSequence d' = Hash (sighash_sequences tx) ∧
    hashOutputs d' = Hash (sighash_outputs tx)) as Hready.
  { intros d' -> Hr. destruct Hd as (spent & force & HI). by eapply Init_segwit. }
  rewrite (Hget hashPrevouts _ (sighash_prevouts tx)) by (apply GetPrevouts_double || apply Hready).
  rewrite (Hget hashSequence _ (sighash_sequences tx)) by (apply GetSequences_double || apply Hready).
  rewrite (Hget hashOutputs _ (sighash_outputs tx)) by (apply GetOutputs_double || apply Hready).
  rewrite HashWriter_put_Hash.
  set (acp := negb (ht .& SIGHASH_ANYONECANPAY =? 0)); set (single := _ =? SIGHASH_SINGLE); set (none := _ =? SIGHASH_NONE).
  replace (if negb acp then Hash (sighash_prevouts tx) else uint256_zero) with
    (if acp then uint256_zero else Hash (sighash_prevouts tx)) by by destruct acp.
  replace (if negb acp && negb single && negb none then Hash (sighash_sequences tx) else uint256_zero) with
    (if acp || single || none then uint256_zero else Hash (sighash_sequences tx)) by by destruct acp, single, none.
  replace (if negb single && negb none then Hash (sighash_outputs tx) else _) with
    (if single || none then if single && (nIn <? length (vout tx))%nat then Hash (Ser CTxOutF (vout_at tx nIn)) else uint256_zero
     else Hash (sighash_outputs tx)) by by destruct single, none.
  apply fed_bip143.
Qed.

(** ** The cache *)

(** Every entry holds the hasher for its script and every hash type with its index. *)
Definition cache_ok (tx : CTransaction) (nIn : nat) (amount : Z) (sigversion : SigVersion) (m : SigHashCache) : Prop :=
  length m = 6%nat ∧
  ∀ ht code w, m !! CacheIndex ht = Some (Some (code, w)) → fed w (sighash_message tx nIn amount sigversion code ht).

Lemma CacheIndex_lt ht : (CacheIndex ht < 6)%nat.
Proof.
  unfold CacheIndex, SIGHASH_SINGLE, SIGHASH_NONE. destruct (ht .& 0x1f =? 3) eqn:Es, (ht .& 0x1f =? 2) eqn:En, (negb _); cbn; lia.
Qed.

(** The index determines what of the hash type goes into the message. *)
Lemma CacheIndex_inj ht ht' :
  CacheIndex ht = CacheIndex ht' →
  fAnyoneCanPay ht = fAnyoneCanPay ht' ∧ fHashSingle ht = fHashSingle ht' ∧ fHashNone ht = fHashNone ht'.
Proof.
  unfold CacheIndex, fAnyoneCanPay, fHashSingle, fHashNone, SIGHASH_SINGLE, SIGHASH_NONE.
  destruct (ht .& 0x1f =? 3) eqn:Es, (ht .& 0x1f =? 2) eqn:En; try lia;
    destruct (ht' .& 0x1f =? 3) eqn:Es', (ht' .& 0x1f =? 2) eqn:En'; try lia;
    destruct (negb (ht .& _ =? 0)), (negb (ht' .& _ =? 0)); cbn; intros H; (done || lia).
Qed.

Lemma message_index tx nIn amount sigversion code ht ht' :
  CacheIndex ht = CacheIndex ht' →
  sighash_message tx nIn amount sigversion code ht = sighash_message tx nIn amount sigversion code ht'.
Proof.
  intros (Ha & Hs & Hn)%CacheIndex_inj. unfold sighash_message, SerializeSignature, SerializeInput, SerializeOutput.
  by rewrite Ha, Hs, Hn.
Qed.

Lemma cache_ok_new tx nIn amount sigversion : cache_ok tx nIn amount sigversion SigHashCache_new.
Proof. split; [done|]. intros ht code w [Heq _]%lookup_replicate_1. done. Qed.

Lemma cache_ok_Store tx nIn amount sigversion m ht code w :
  cache_ok tx nIn amount sigversion m → fed w (sighash_message tx nIn amount sigversion code ht) →
  cache_ok tx nIn amount sigversion (Store m ht code w).
Proof.
  intros [Hlen Hm] Hw. unfold Store. split; [rewrite (length_insert m); done|]. intros ht' code' w'.
  destruct (decide (CacheIndex ht = CacheIndex ht')) as [E|E].
  - rewrite <-E, (list_lookup_insert_eq m) by (rewrite Hlen; apply CacheIndex_lt). intros [= <- <-].
    by rewrite <-(message_index _ _ _ _ _ _ _ E).
  - rewrite (list_lookup_insert_ne m) by done. apply Hm.
Qed.

Lemma Load_ok tx nIn amount sigversion m ht code w :
  cache_ok tx nIn amount sigversion m → Load m ht code = Some w → fed w (sighash_message tx nIn amount sigversion code ht).
Proof.
  intros [_ Hm]. unfold Load. destruct (m !! _) as [[[code' w']|]|] eqn:E; try done.
  case_bool_decide; [|done]. intros [= ->]. subst. by apply Hm.
Qed.

Lemma SignatureHash_spec (tx : CTransaction) (nIn : nat) (amount : Z) (sigversion : SigVersion)
    (d : option PrecomputedTransactionData) (m : SigHashCache) (code : bytes) (nHashType : Z) :
  (nIn < length (vin tx))%nat → precomputed_for tx d → cache_ok tx nIn amount sigversion m →
  SignatureHash code tx nIn nHashType amount sigversion d None =
    inr (sighash_spec tx nIn amount sigversion code nHashType, None) ∧
  ∃ m', SignatureHash code tx nIn nHashType amount sigversion d (Some m) =
    inr (sighash_spec tx nIn amount sigversion code nHashType, Some m') ∧ cache_ok tx nIn amount sigversion m'.
Proof.
  intros Hin Hd Hm. unfold SignatureHash. rewrite (proj2 (Nat.ltb_lt _ _) Hin). unfold sighash_spec, fHashSingle.
  pose proof (writer_fed tx nIn amount sigversion code nHashType d Hd) as Hw.
  change (assert true) with (inr () : stop + unit). cbn [mbind sum_mbind].
  destruct (_ && _ && _); [split; [done|by eexists]|].
  cbn [mbind option_bind]. rewrite (fed_GetHash _ _ (fed_put I32 _ _ nHashType Hw)). split; [done|].
  destruct (Load m nHashType code) as [w|] eqn:E.
  - rewrite (fed_GetHash _ _ (fed_put I32 _ _ nHashType (Load_ok _ _ _ _ _ _ _ _ Hm E))). by eexists.
  - eexists. split; [done|]. by apply cache_ok_Store.
Qed.


(** C14: the digest that a legacy or version 0 signature signs is the double SHA-256 of the legacy
    serialization or of the message of BIP 143, followed by the hash type (or the number one, for
    a legacy SIGHASH_SINGLE without an output); neither data precomputed for the transaction nor a
    cache of midstates filled by earlier calls for the input changes it, and the call leaves the
    cache fit for the next one. *)
Theorem signature_hash_message (tx : CTransaction) (nIn : nat) (amount : Z) (sigversion : SigVersion)
    (d : option PrecomputedTransactionData) (m : SigHashCache) (code : bytes) (nHashType : Z) :
  (nIn < length (vin tx))%nat → precomputed_for tx d → cache_ok tx nIn amount sigversion m →
  SignatureHash code tx nIn nHashType amount sigversion d None =
    inr (sighash_spec tx nIn amount sigversion code nHashType, None) ∧
  ∃ m', SignatureHash code tx nIn nHashType amount sigversion d (Some m) =
    inr (sighash_spec tx nIn amount sigversion code nHashType, Some m') ∧ cache_ok tx nIn amount sigversion m'.
Proof. apply SignatureHash_spec. Qed.

(** ** BIP 341 *)

Definition tapsighash (m : bytes) : uint256 :=
  let tag := fips.SHA256 [84; 97; 112; 83; 105; 103; 104; 97; 115; 104] in fips.SHA256 (tag ++ tag ++ m).

(** The hash types of BIP 341, by the table of the proposal: which outputs are signed, and whether
    only the input itself is (ANYONECANPAY); every other byte is invalid. *)
Inductive signed_outputs := all_outputs | no_outputs | one_output.
Definition signs_all (outs : signed_outputs) : bool := match outs with all_outputs => true | _ => false end.
Definition signs_one (outs : signed_outputs) : bool := match outs with one_output => true | _ => false end.

Definition bip341_hash_type (ht : Z) : option (signed_outputs * bool) :=
  match ht with
  | 0x00 | 0x01 => Some (all_outputs, false)
  | 0x02 => Some (no_outputs, false)
  | 0x03 => Some (one_output, false)
  | 0x81 => Some (all_outputs, true)
  | 0x82 => Some (no_outputs, true)
  | 0x83 => Some (one_output, true)
  | _ => None
  end.

Definition bip341_common (tx : CTransaction) (spent : list CTxOut) (in_pos : nat) (ht : Z) (outs : signed_outputs) (acp : bool)
    (ext_flag : Z) (e : ScriptExecutionData) : bytes :=
  Ser U8 0 ++ Ser U8 ht ++ Ser U32 (version tx) ++ Ser U32 (nLockTime tx)
  ++ (if acp then [] else
        fips.SHA256 (sighash_prevouts tx) ++ fips.SHA256 (concat (map (λ o, Ser I64 (nValue o)) spent))
        ++ fips.SHA256 (concat (map (λ o, Ser ByteVector (scriptPubKey o)) spent)) ++ fips.SHA256 (sighash_sequences tx))
  ++ (if signs_all outs then fips.SHA256 (sighash_outputs tx) else [])
  ++ Ser U8 (2 * ext_flag + (if m_annex_present e then 1 else 0))
  ++ (if acp then
        Ser COutPointF (prevout (vin_at tx in_pos)) ++ Ser CTxOutF (default CTxOut_null (spent !! in_pos))
        ++ Ser U32 (nSequence (vin_at tx in_pos))
      else Ser U32 (Z.of_nat in_pos))
  ++ (if m_annex_present e then m_annex_hash e else []).
Definition bip341_message (tx : CTransaction) (spent : list CTxOut) (in_pos : nat) (ht : Z) (outs : signed_outputs) (acp : bool)
    (sigversion : SigVersion) (e : ScriptExecutionData) : bytes :=
  bip341_common tx spent in_pos ht outs acp (if is_tapscript sigversion then 1 else 0) e
  ++ (if signs_one outs then fips.SHA256 (Ser CTxOutF (vout_at tx in_pos)) else [])
  ++ (if is_tapscript sigversion then m_tapleaf_hash e ++ Ser U8 0 ++ Ser U32 (m_codeseparator_pos e) else []).

(** The digest, none for an invalid hash type and where the output to sign does not exist. *)
Definition bip341_digest (tx : CTransaction) (spent : list CTxOut) (in_pos : nat) (ht : Z) (sigversion : SigVersion)
    (e : ScriptExecutionData) : option uint256 :=
  '(outs, acp) ← bip341_hash_type ht;
  if signs_one outs && (length (vout tx) <=? in_pos)%nat then None
  else Some (tapsighash (bip341_message tx spent in_pos ht outs acp sigversion e)).

(** How the code decodes a hash type, against the table. *)
Definition decodes (ht : Z) : bool :=
  match bip341_hash_type ht with
  | None => negb ((ht <=? 3) || ((0x81 <=? ht) && (ht <=? 0x83)))
  | Some (outs, acp) =>
      ((ht <=? 3) || ((0x81 <=? ht) && (ht <=? 0x83)))
      && Bool.eqb (input_type ht =? SIGHASH_ANYONECANPAY) acp
      && Bool.eqb (output_type ht =? SIGHASH_ALL) (signs_all outs)
      && Bool.eqb (output_type ht =? SIGHASH_SINGLE) (signs_one outs)
  end.
Lemma hash_type_decodes ht : urange 8 ht → decodes ht = true.
Proof.
  intros Hht. unfold urange in Hht.
  assert (forallb (λ n, decodes (Z.of_nat n)) (seq 0 256) = true) as H by by vm_compute.
  rewrite forallb_forall in H. specialize (H (Z.to_nat ht)). rewrite Z2Nat.id in H by lia.
  apply H, in_seq. lia.
Qed.

(** The memo of the hash of the output is empty or right. *)
Definition output_hash_ok (tx : CTransaction) (in_pos : nat) (e : ScriptExecutionData) : Prop :=
  ∀ h, m_output_hash e = Some h → h = fips.SHA256 (Ser CTxOutF (vout_at tx in_pos)).

(** What the digest reads of the execution data has been set. *)
Definition execdata_ready (sigversion : SigVersion) (e : ScriptExecutionData) : Prop :=
  m_annex_init e = true ∧ (sigversion = TAPSCRIPT → m_tapleaf_hash_init e = true ∧ m_codeseparator_pos_init e = true).

Lemma fed_skip st m : fed st m → fed st (m ++ []).
Proof. by rewrite app_nil_r. Qed.
Ltac fed_chain :=
  repeat match goal with |- fed (HashWriter.put ?F _ _) _ => apply (fed_put F) end; apply fed_TaggedHash.

#[local] Abbreviation taptag := (fips.SHA256 [84; 97; 112; 83; 105; 103; 104; 97; 115; 104]).

Lemma taproot_writer_fed e tx spent force in_pos ht outs acp ext_flag d :
  Init tx spent force = Some d → m_bip341_taproot_ready d = true →
  (input_type ht =? SIGHASH_ANYONECANPAY) = acp → (output_type ht =? SIGHASH_ALL) = signs_all outs →
  fed (SignatureHashSchnorr_writer e tx in_pos ht ext_flag d)
    ((taptag ++ taptag) ++ bip341_common tx spent in_pos ht outs acp ext_flag e).
Proof.
  intros HI Hr Hacp Hall. destruct (Init_taproot _ _ _ _ HI Hr) as (Hp & Hs & Ho & Ham & Hsc & Hsp & Hspr).
  unfold SignatureHashSchnorr_writer, bip341_common. rewrite Hp, Hs, Ho, Ham, Hsc, Hsp, Hacp, Hall.
  rewrite (Z.shiftl_mul_pow2 ext_flag 1) by lia. rewrite (Z.mul_comm ext_flag). change (2 ^ 1) with 2.
  generalize (fips.SHA256 (sighash_prevouts tx)) (fips.SHA256 (concat (map (λ o, Ser I64 (nValue o)) spent)))
    (fips.SHA256 (concat (map (λ o, Ser ByteVector (scriptPubKey o)) spent))) (fips.SHA256 (sighash_sequences tx))
    (fips.SHA256 (sighash_outputs tx)). intros p am sc sq o.
  destruct (signs_all outs), acp, (m_annex_present e); cbv zeta; cbn [negb app]; rewrite ?app_nil_r, ?app_assoc; fed_chain.
Qed.

Lemma output_hash_get tx in_pos e :
  output_hash_ok tx in_pos e →
  match m_output_hash e with Some h => h | None => HashWriter.GetSHA256 (HashWriter.new ◁ CTxOutF $ vout_at tx in_pos) end
  = fips.SHA256 (Ser CTxOutF (vout_at tx in_pos)).
Proof.
  intros He. destruct (m_output_hash e) as [h|] eqn:E; [by apply He|]. apply fed_GetSHA256, (fed_put CTxOutF _ []), fed_new.
Qed.

Lemma HASHER_TAPSIGHASH_get st m : fed st ((taptag ++ taptag) ++ m) → HashWriter.GetSHA256 st = tapsighash m.
Proof. intros H. unfold tapsighash. rewrite (fed_GetSHA256 _ _ H). by rewrite <-app_assoc. Qed.

Lemma hash_type_decoded ht :
  urange 8 ht →
  match bip341_hash_type ht with
  | None => ((ht <=? 3) || ((0x81 <=? ht) && (ht <=? 0x83))) = false
  | Some (outs, acp) =>
      ((ht <=? 3) || ((0x81 <=? ht) && (ht <=? 0x83))) = true ∧ (input_type ht =? SIGHASH_ANYONECANPAY) = acp ∧
      (output_type ht =? SIGHASH_ALL) = signs_all outs ∧
      (output_type ht =? SIGHASH_SINGLE) = signs_one outs ∧ (ht = 3 ∨ ht = 0x83 ↔ signs_one outs = true)
  end.
Proof.
  intros Hht%hash_type_decodes. unfold decodes in Hht. destruct (bip341_hash_type ht) as [[outs acp]|] eqn:E.
  - rewrite !andb_true_iff, !eqb_true_iff in Hht. destruct Hht as [[[H1 H2] H3] H4]. split_and!; try done.
    clear -E. unfold bip341_hash_type in E. repeat case_match; simplify_eq; naive_solver.
  - by apply negb_true_iff in Hht.
Qed.

(** The rest of the message, once the outputs to sign are known. *)
Ltac taproot_end Hv Hts Hfed :=
  destruct Hv as [-> | ->];
  cbn [is_tapscript mbind sum_mbind option_bind mret sum_mret m_tapleaf_hash_init m_codeseparator_pos_init m_tapleaf_hash
    m_codeseparator_pos set_output_hash] in *;
  try (destruct (Hts eq_refl) as [-> ->]; change (assert true) with (inr () : stop + unit); cbn [mbind sum_mbind mret sum_mret]);
  do 2 f_equal; f_equal; apply HASHER_TAPSIGHASH_get; rewrite !app_assoc in *; rewrite ?app_nil_r;
  repeat match goal with |- fed (HashWriter.put ?F _ _) _ => apply (fed_put F) end; exact Hfed.

(** C15: the digest of a Taproot or Tapscript signature is the tagged hash of the message of
    BIP 341, and there is none for a byte that the proposal's table of hash types does not list and
    for SIGHASH_SINGLE without an output at the input's position.  The reference decodes the hash
    type by that table (the default type signs all outputs), not by the masks of the code.  It holds
    for every byte, whatever the memo of the output hash holds from earlier calls for the input,
    and the call changes the execution data in that memo only, when it signs one output.  The data
    of the transaction is precomputed from the spent outputs, and the fields of the execution data
    that the message contains have been set. *)
Theorem taproot_hash_message (tx : CTransaction) (spent : list CTxOut) (force : bool) (d : PrecomputedTransactionData)
    (e : ScriptExecutionData) (in_pos : nat) (ht : Z) (sigversion : SigVersion) (mdb : MissingDataBehavior) :
  sigversion = TAPROOT ∨ sigversion = TAPSCRIPT → (in_pos < length (vin tx))%nat → urange 8 ht →
  Init tx spent force = Some d → m_bip341_taproot_ready d = true →
  execdata_ready sigversion e → output_hash_ok tx in_pos e →
  SignatureHashSchnorr e tx in_pos ht sigversion d mdb =
    inr (digest ← bip341_digest tx spent in_pos ht sigversion e;
         Some (digest, if decide (ht = 0x03 ∨ ht = 0x83)
                       then set_output_hash (fips.SHA256 (Ser CTxOutF (vout_at tx in_pos))) e else e)).
Proof.
  intros Hv Hin Hht HI Hr [Ha Hts] He. destruct (Init_taproot _ _ _ _ HI Hr) as (_ & _ & _ & _ & _ & _ & Hspr).
  unfold SignatureHashSchnorr. rewrite (proj2 (Nat.ltb_lt _ _) Hin), Hr, Hspr, Ha, (output_hash_get _ _ _ He).
  replace (match sigversion with TAPROOT | TAPSCRIPT => true | _ => false end) with true by by destruct Hv as [-> | ->].
  change (assert true) with (inr () : stop + unit). cbn [mbind sum_mbind andb negb]. unfold bip341_digest.
  pose proof (hash_type_decoded ht Hht) as Hd. destruct (bip341_hash_type ht) as [[outs acp]|]; [|by rewrite Hd].
  destruct Hd as (-> & Hacp & Hall & -> & Hone). cbn [negb mbind option_bind].
  pose proof (taproot_writer_fed e tx spent force in_pos ht outs acp (if is_tapscript sigversion then 1 else 0) d HI Hr Hacp Hall) as Hfed.
  unfold bip341_message. destruct (signs_one outs); cbn [andb];
    [destruct (Nat.leb_spec (length (vout tx)) in_pos); [done|]; rewrite decide_True by tauto
    |rewrite decide_False by (intros Hs; by apply Hone in Hs)]; taproot_end Hv Hts Hfed.
Qed.
