(* ===== verification/VerifyScript.v ===== *)
(** * Script verification: VerifyScript, witness programs and Taproot (script/interpreter.cpp)

    The witness stack is the list in the order of the transaction; as the stack of an
    evaluation, with the top first, it is reversed.  A result [inr] is the return value true,
    with the state of the checker. *)

From S2P Require Import Prelude Endian Serialize Hasher Sha256 Hash Primitives Script PubKey Interpreter SigHash.
From Stdlib Require Import ZArith Lia.
From stdpp Require Import base option list numbers gmap.

Open Scope Z_scope.
Open Scope kernel_scope.

Definition TAPROOT_LEAF_MASK : Z := 0xfe.
Definition TAPROOT_LEAF_TAPSCRIPT : Z := 0xc0.
Definition TAPROOT_CONTROL_BASE_SIZE : Z := 33.
Definition TAPROOT_CONTROL_NODE_SIZE : Z := 32.
Definition TAPROOT_CONTROL_MAX_NODE_COUNT : Z := 128.
Definition TAPROOT_CONTROL_MAX_SIZE : Z := TAPROOT_CONTROL_BASE_SIZE + TAPROOT_CONTROL_NODE_SIZE * TAPROOT_CONTROL_MAX_NODE_COUNT.

(** ** Taproot commitments *)

Definition ComputeTapleafHash (leaf_version : Z) (script : bytes) : uint256 :=
  HashWriter.GetSHA256 (HashWriter.write (HashWriter.write (HASHER_TAPLEAF ◁ U8 $ leaf_version)
    (WriteCompactSize (zlen script))) script).

(** [std::lexicographical_compare]. *)
Fixpoint lexicographical_compare (a b : bytes) : bool :=
  match a, b with
  | _, [] => false
  | [], _ :: _ => true
  | x :: a, y :: b => if x <? y then true else if y <? x then false else lexicographical_compare a b
  end.

Definition ComputeTapbranchHash (a b : bytes) : uint256 :=
  let ss_branch := HASHER_TAPBRANCH in
  HashWriter.GetSHA256
    (if lexicographical_compare a b then HashWriter.write (HashWriter.write ss_branch a) b
     else HashWriter.write (HashWriter.write ss_branch b) a).

(** [for (int i = 0; i < path_len; ++i)]. *)
Definition tapbranch_node (control : bytes) (i : nat) : bytes :=
  take (Z.to_nat TAPROOT_CONTROL_NODE_SIZE) (drop (Z.to_nat (TAPROOT_CONTROL_BASE_SIZE + TAPROOT_CONTROL_NODE_SIZE * Z.of_nat i)) control).
Definition ComputeTaprootMerkleRoot (control : bytes) (tapleaf_hash : uint256) : stop + uint256 :=
  assert (TAPROOT_CONTROL_BASE_SIZE <=? zlen control) ≫= λ _,
  assert (zlen control <=? TAPROOT_CONTROL_MAX_SIZE) ≫= λ _,
  assert ((zlen control - TAPROOT_CONTROL_BASE_SIZE) mod TAPROOT_CONTROL_NODE_SIZE =? 0) ≫= λ _,
  let path_len := Z.to_nat ((zlen control - TAPROOT_CONTROL_BASE_SIZE) / TAPROOT_CONTROL_NODE_SIZE) in
  mret (foldl (λ k i, ComputeTapbranchHash k (tapbranch_node control i)) tapleaf_hash (seq 0 path_len)).

(** The execution data that [VerifyWitnessProgram] fills in. *)
Definition set_annex (annex : option bytes) (e : ScriptExecutionData) : ScriptExecutionData := {|
  m_tapleaf_hash_init := m_tapleaf_hash_init e; m_tapleaf_hash := m_tapleaf_hash e;
  m_codeseparator_pos_init := m_codeseparator_pos_init e; m_codeseparator_pos := m_codeseparator_pos e;
  m_annex_init := true; m_annex_present := match annex with Some _ => true | None => false end;
  m_annex_hash := match annex with
                  | Some annex => HashWriter.GetSHA256 (HashWriter.new ◁ ByteVector $ annex)
                  | None => m_annex_hash e
                  end;
  m_validation_weight_left_init := m_validation_weight_left_init e; m_validation_weight_left := m_validation_weight_left e;
  m_output_hash := m_output_hash e |}.
Definition set_tapleaf (h : uint256) (weight : Z) (e : ScriptExecutionData) : ScriptExecutionData := {|
  m_tapleaf_hash_init := true; m_tapleaf_hash := h;
  m_codeseparator_pos_init := m_codeseparator_pos_init e; m_codeseparator_pos := m_codeseparator_pos e;
  m_annex_init := m_annex_init e; m_annex_present := m_annex_present e; m_annex_hash := m_annex_hash e;
  m_validation_weight_left_init := true; m_validation_weight_left := weight;
  m_output_hash := m_output_hash e |}.

(** The scan for OP_SUCCESSx: whether one was found. *)
Fixpoint scan_op_success (fuel : nat) (flags : Z) (pc : bytes) : stop + bool :=
  match pc, fuel with
  | [], _ => mret false
  | _, O => inl assertion_failed
  | _, S fuel =>
      match GetScriptOp pc with
      | (false, _, _, _) => set_error SCRIPT_ERR_BAD_OPCODE
      | (true, opcode, _, pc) =>
          if IsOpSuccess opcode then
            if has_flag flags SCRIPT_VERIFY_DISCOURAGE_OP_SUCCESS then set_error SCRIPT_ERR_DISCOURAGE_OP_SUCCESS else mret true
          else scan_op_success fuel flags pc
      end
  end.

(** [stack.resize(1)] keeps the bottom of the stack. *)
Definition resize_1 (s : list bytes) : list bytes := match rev s with bottom :: _ => [bottom] | [] => [[]] end.

Section VerifyScript.
Context `{SIGS : Secp256k1Signatures} `{abi : !ABI} {C : Type} (checker : BaseSignatureChecker C) (flags : Z).

Definition VerifyTaprootCommitment (control program : bytes) (tapleaf_hash : uint256) : stop + bool :=
  assert (TAPROOT_CONTROL_BASE_SIZE <=? zlen control) ≫= λ _,
  assert (32 <=? zlen program) ≫= λ _,
  let p := take (Z.to_nat TAPROOT_CONTROL_BASE_SIZE - 1) (drop 1 control) in
  merkle_root ← ComputeTaprootMerkleRoot control tapleaf_hash;
  mret (CheckTapTweak program p merkle_root (negb (control.[0] .& 1 =? 0))).

Definition ExecuteWitnessScript (stack : list bytes) (exec_script : bytes) (sigversion : SigVersion)
    (execdata : ScriptExecutionData) (c : C) : stop + C :=
  success ← (if is_tapscript sigversion then
               success ← scan_op_success (length exec_script) flags exec_script;
               if (success : bool) then mret true
               else if MAX_STACK_SIZE <? zlen stack then set_error SCRIPT_ERR_STACK_SIZE else mret false
             else mret false);
  if (success : bool) then mret c else
  if existsb (λ elem : bytes, MAX_SCRIPT_ELEMENT_SIZE <? zlen elem) stack then set_error SCRIPT_ERR_PUSH_SIZE else
  EvalScript checker flags sigversion stack exec_script execdata c ≫= λ '((stack, _, c) : list bytes * ScriptExecutionData * C),
  match stack with
  | [top] => if negb (CastToBool top) then set_error SCRIPT_ERR_EVAL_FALSE else mret c
  | _ => set_error SCRIPT_ERR_CLEANSTACK
  end.

(** [stack] is the witness stack with its back first. *)
Definition VerifyTaproot (witness stack : list bytes) (program : bytes) (execdata : ScriptExecutionData) (c : C) : stop + C :=
  match stack with
  | [] => inl assertion_failed
  | [sig] =>
      '(_, c) ← CheckSchnorrSignature checker sig program TAPROOT execdata c; mret c
  | control :: script :: stack =>
      if (zlen control <? TAPROOT_CONTROL_BASE_SIZE) || (TAPROOT_CONTROL_MAX_SIZE <? zlen control)
         || negb ((zlen control - TAPROOT_CONTROL_BASE_SIZE) mod TAPROOT_CONTROL_NODE_SIZE =? 0)
      then set_error SCRIPT_ERR_TAPROOT_WRONG_CONTROL_SIZE else
      let tapleaf_hash := ComputeTapleafHash (control.[0] .& TAPROOT_LEAF_MASK) script in
      ok ← VerifyTaprootCommitment control program tapleaf_hash;
      if negb ok then set_error SCRIPT_ERR_WITNESS_PROGRAM_MISMATCH else
      if control.[0] .& TAPROOT_LEAF_MASK =? TAPROOT_LEAF_TAPSCRIPT then
        ExecuteWitnessScript stack script TAPSCRIPT
          (set_tapleaf tapleaf_hash (GetSerializeSize StackF witness + VALIDATION_WEIGHT_OFFSET) execdata) c
      else if has_flag flags SCRIPT_VERIFY_DISCOURAGE_UPGRADABLE_TAPROOT_VERSION
      then set_error SCRIPT_ERR_DISCOURAGE_UPGRADABLE_TAPROOT_VERSION
      else mret c
  end.

Definition VerifyWitnessProgram (witness : list bytes) (witversion : Z) (program : bytes) (is_p2sh : bool) (c : C) : stop + C :=
  let stack := rev witness in
  let execdata := ScriptExecutionData_new in
  if witversion =? 0 then
    if zlen program =? WITNESS_V0_SCRIPTHASH_SIZE then
      match stack with
      | [] => set_error SCRIPT_ERR_WITNESS_PROGRAM_WITNESS_EMPTY
      | exec_script :: stack =>
          if negb (bool_decide (CSHA256.Finalize (CSHA256.Write CSHA256_new exec_script) = program))
          then set_error SCRIPT_ERR_WITNESS_PROGRAM_MISMATCH
          else ExecuteWitnessScript stack exec_script WITNESS_V0 execdata c
      end
    else if zlen program =? WITNESS_V0_KEYHASH_SIZE then
      if negb (length stack =? 2)%nat then set_error SCRIPT_ERR_WITNESS_PROGRAM_MISMATCH else
      let exec_script := [OP_DUP; OP_HASH160] ++ push_data program ++ [OP_EQUALVERIFY; OP_CHECKSIG] in
      ExecuteWitnessScript stack exec_script WITNESS_V0 execdata c
    else set_error SCRIPT_ERR_WITNESS_PROGRAM_WRONG_LENGTH
  else if (witversion =? 1) && (zlen program =? WITNESS_V1_TAPROOT_SIZE) && negb is_p2sh then
    if negb (has_flag flags SCRIPT_VERIFY_TAPROOT) then mret c else
    match stack with
    | [] => set_error SCRIPT_ERR_WITNESS_PROGRAM_WITNESS_EMPTY
    | annex :: (_ :: _) as rest =>
        if negb (length annex =? 0)%nat && (annex.[0] =? ANNEX_TAG)
        then VerifyTaproot witness (tail stack) program (set_annex (Some annex) execdata) c
        else VerifyTaproot witness stack program (set_annex None execdata) c
    | _ => VerifyTaproot witness stack program (set_annex None execdata) c
    end
  else if negb is_p2sh && IsPayToAnchor_program witversion program then mret c
  else if has_flag flags SCRIPT_VERIFY_DISCOURAGE_UPGRADABLE_WITNESS_PROGRAM
  then set_error SCRIPT_ERR_DISCOURAGE_UPGRADABLE_WITNESS_PROGRAM
  else mret c.

(** A false result of the witness program that sets no error leaves [SCRIPT_ERR_OK], which the
    evaluation before it has set. *)
Definition error_kept {A} (r : stop + A) : stop + A :=
  match r with inl (returns_false None) => set_error SCRIPT_ERR_OK | _ => r end.

(** The top of the stack after an evaluation. *)
Definition check_top (s : list bytes) : stop + unit :=
  match s with
  | [] => set_error SCRIPT_ERR_EVAL_FALSE
  | top :: _ => if CastToBool top then mret () else set_error SCRIPT_ERR_EVAL_FALSE
  end.

(** The part for bare witness programs: the stack, [hadWitness] and the checker. *)
Definition verify_witness (scriptSig scriptPubKey : bytes) (witness s : list bytes) (c : C) : stop + list bytes * bool * C :=
  if has_flag flags SCRIPT_VERIFY_WITNESS then
    match IsWitnessProgram scriptPubKey with
    | Some (witnessversion, witnessprogram) =>
        if negb (length scriptSig =? 0)%nat then set_error SCRIPT_ERR_WITNESS_MALLEATED else
        c ← error_kept (VerifyWitnessProgram witness witnessversion witnessprogram false c);
        mret (resize_1 s, true, c)
    | None => mret (s, false, c)
    end
  else mret (s, false, c).

(** The part for pay-to-script-hash; [stackCopy] is the stack before the scriptPubKey. *)
Definition verify_p2sh (scriptSig scriptPubKey : bytes) (witness s stackCopy : list bytes) (hadWitness : bool) (c : C)
    : stop + list bytes * bool * C :=
  if has_flag flags SCRIPT_VERIFY_P2SH && IsPayToScriptHash scriptPubKey then
    if negb (IsPushOnly scriptSig) then set_error SCRIPT_ERR_SIG_PUSHONLY else
    match stackCopy with
    | [] => inl assertion_failed
    | pubKey2 :: s =>
        EvalScript checker flags BASE s pubKey2 ScriptExecutionData_new c
          ≫= λ '((s, _, c) : list bytes * ScriptExecutionData * C),
        check_top s ≫= λ _,
        if has_flag flags SCRIPT_VERIFY_WITNESS then
          match IsWitnessProgram pubKey2 with
          | Some (witnessversion, witnessprogram) =>
              if negb (bool_decide (scriptSig = push_data pubKey2)) then set_error SCRIPT_ERR_WITNESS_MALLEATED_P2SH else
              c ← error_kept (VerifyWitnessProgram witness witnessversion witnessprogram true c);
              mret (resize_1 s, true, c)
          | None => mret (s, hadWitness, c)
          end
        else mret (s, hadWitness, c)
    end
  else mret (s, hadWitness, c).

Definition VerifyScript (scriptSig scriptPubKey : bytes) (witness : list bytes) (c : C) : stop + C :=
  if has_flag flags SCRIPT_VERIFY_SIGPUSHONLY && negb (IsPushOnly scriptSig) then set_error SCRIPT_ERR_SIG_PUSHONLY else
  EvalScript checker flags BASE [] scriptSig ScriptExecutionData_new c
    ≫= λ '((s, _, c) : list bytes * ScriptExecutionData * C),
  let stackCopy := if has_flag flags SCRIPT_VERIFY_P2SH then s else [] in
  EvalScript checker flags BASE s scriptPubKey ScriptExecutionData_new c
    ≫= λ '((s, _, c) : list bytes * ScriptExecutionData * C),
  check_top s ≫= λ _,
  verify_witness scriptSig scriptPubKey witness s c ≫= λ '((s, hadWitness, c) : list bytes * bool * C),
  verify_p2sh scriptSig scriptPubKey witness s stackCopy hadWitness c ≫= λ '((s, hadWitness, c) : list bytes * bool * C),
  (if has_flag flags SCRIPT_VERIFY_CLEANSTACK then
     assert (has_flag flags SCRIPT_VERIFY_P2SH) ≫= λ _,
     assert (has_flag flags SCRIPT_VERIFY_WITNESS) ≫= λ _,
     if negb (length s =? 1)%nat then set_error SCRIPT_ERR_CLEANSTACK else mret ()
   else mret ()) ≫= λ _,
  (if has_flag flags SCRIPT_VERIFY_WITNESS then
     assert (has_flag flags SCRIPT_VERIFY_P2SH) ≫= λ _,
     if negb hadWitness && negb (witness_IsNull witness) then set_error SCRIPT_ERR_WITNESS_UNEXPECTED else mret ()
   else mret ()) ≫= λ _,
  mret c.
End VerifyScript.

(** ** Counting signature operations in witnesses *)

Definition WitnessSigOps (witversion : Z) (witprogram : bytes) (witness : list bytes) : Z :=
  if witversion =? 0 then
    if zlen witprogram =? WITNESS_V0_KEYHASH_SIZE then 1
    else if (zlen witprogram =? WITNESS_V0_SCRIPTHASH_SIZE) && negb (length witness =? 0)%nat
    then GetSigOpCount (List.last witness []) true
    else 0
  else 0.

(** The data of the last instruction; a read that fails clears it. *)
Fixpoint last_data (fuel : nat) (pc data : bytes) : bytes :=
  match pc, fuel with
  | [], _ | _, O => data
  | _, S fuel => let '(_, _, data, pc) := GetScriptOp pc in last_data fuel pc data
  end.

(** [None] is the failing assertion. *)
Definition CountWitnessSigOps (scriptSig scriptPubKey : bytes) (witness : list bytes) (flags : Z) : option Z :=
  if negb (has_flag flags SCRIPT_VERIFY_WITNESS) then Some 0 else
  if negb (has_flag flags SCRIPT_VERIFY_P2SH) then None else
  match IsWitnessProgram scriptPubKey with
  | Some (witnessversion, witnessprogram) => Some (WitnessSigOps witnessversion witnessprogram witness)
  | None =>
      if IsPayToScriptHash scriptPubKey && IsPushOnly scriptSig then
        let subscript := last_data (length scriptSig) scriptSig [] in
        match IsWitnessProgram subscript with
        | Some (witnessversion, witnessprogram) => Some (WitnessSigOps witnessversion witnessprogram witness)
        | None => Some 0
        end
      else Some 0
  end.
