(* ===== verification/VerifyTheory.v ===== *)
(** * Theory of script verification

    Flags only restrict what [VerifyScript] accepts; verification fails no assertion; and neither
    the cache of midstates nor the data precomputed for a transaction changes its result. *)

From S2P Require Import Prelude Endian Serialize Hasher Sha256 Hash Primitives Script PubKey Interpreter InterpreterTheory SigHash SigHashTheory VerifyScript.
From Stdlib Require Import ZArith Lia.
From stdpp Require Import base option list numbers gmap.

Open Scope Z_scope.
Open Scope kernel_scope.

Lemma witness_program_not_p2sh spk vp : IsWitnessProgram spk = Some vp → IsPayToScriptHash spk = false.
Proof.
  unfold IsWitnessProgram, IsPayToScriptHash, OP_0, OP_1, OP_16, OP_HASH160. intros H.
  destruct (Z.eqb_spec (spk.[0]) 0xa9) as [E|]; [|by rewrite andb_false_r]. rewrite E in H. by repeat case_match.
Qed.

(** ** Soft forks *)

(** Flags that [VerifyScript] accepts: CLEANSTACK comes with P2SH and WITNESS, WITNESS with P2SH. *)
Definition flags_consistent (f : Z) : Prop :=
  (has_flag f SCRIPT_VERIFY_CLEANSTACK = true → has_flag f SCRIPT_VERIFY_WITNESS = true) ∧
  (has_flag f SCRIPT_VERIFY_WITNESS = true → has_flag f SCRIPT_VERIFY_P2SH = true).

Definition accepts {A} (r : stop + A) : Prop := ∃ x, r = inr x.

Section SoftFork.
Context `{SIGS : Secp256k1Signatures} `{abi : !ABI} {C : Type} (checker : BaseSignatureChecker C).
Context (f g : Z) (Hfg : flags_le f g).

Ltac same := match goal with |- stricter ?a ?b => constr_eq a b; exact (stricter_refl a) end.

Lemma scan_op_success_stricter fuel pc : stricter (scan_op_success fuel g pc) (scan_op_success fuel f pc).
Proof.
  revert pc. induction fuel as [|fuel IH]; intros [|b pc]; cbn [scan_op_success]; try same.
  destruct (GetScriptOp _) as [[[[] opcode] data] rest]; [|same]. apply stricter_if; [|apply IH].
  apply stricter_guard; [apply Hfg|same].
Qed.

Lemma ExecuteWitnessScript_stricter s script sigversion e c :
  stricter (ExecuteWitnessScript checker g s script sigversion e c) (ExecuteWitnessScript checker f s script sigversion e c).
Proof.
  unfold ExecuteWitnessScript. apply stricter_bind.
  { apply stricter_if; [|same]. apply stricter_bind; [apply scan_op_success_stricter|]. intros ?. same. }
  intros success. do 2 (apply stricter_if; [same|]).
  apply stricter_bind; [by apply EvalScript_stricter|]. intros ?. same.
Qed.

Lemma VerifyTaproot_stricter witness s program e c :
  stricter (VerifyTaproot checker g witness s program e c) (VerifyTaproot checker f witness s program e c).
Proof.
  unfold VerifyTaproot. destruct s as [|sig [|script s]]; try same. apply stricter_if; [same|]. cbv zeta.
  apply stricter_bind; [same|]. intros ok. apply stricter_if; [same|].
  apply stricter_if; [apply ExecuteWitnessScript_stricter|]. apply stricter_guard; [apply Hfg|same].
Qed.

Lemma stricter_accepts {A} (rg rf : stop + A) : stricter rg rf → accepts rg → accepts rf.
Proof. intros H [x Hx]. exists x. by apply H. Qed.

Lemma VerifyWitnessProgram_accepts witness v program p2sh c :
  accepts (VerifyWitnessProgram checker g witness v program p2sh c) →
  accepts (VerifyWitnessProgram checker f witness v program p2sh c).
Proof.
  unfold VerifyWitnessProgram. cbv zeta.
  destruct (v =? 0).
  { apply stricter_accepts. apply stricter_if; [|apply stricter_if; [|same]].
    - destruct (rev witness); [same|]. apply stricter_if; [same|apply ExecuteWitnessScript_stricter].
    - apply stricter_if; [same|apply ExecuteWitnessScript_stricter]. }
  destruct (_ && _ && _).
  { destruct (has_flag f SCRIPT_VERIFY_TAPROOT) eqn:Hf; [|by eexists]. rewrite (Hfg _ Hf). cbn [negb].
    apply stricter_accepts. destruct (rev witness) as [|annex [|]]; [same|apply VerifyTaproot_stricter|].
    apply stricter_if; apply VerifyTaproot_stricter. }
  destruct (_ && _); [by eexists|]. apply stricter_accepts, stricter_guard; [apply Hfg|same].
Qed.

Lemma accepts_bind {A B} (m : stop + A) (k : A → stop + B) :
  accepts (m ≫= k) ↔ ∃ x, m = inr x ∧ accepts (k x).
Proof.
  split.
  - intros [y Hy]. destruct m as [t|x]; [done|]. exists x. split; [done|]. by exists y.
  - intros (x & -> & Hk). done.
Qed.
Lemma accepts_error_kept {A} (r : stop + A) : accepts (error_kept r) ↔ accepts r.
Proof. split; intros [x Hx]; destruct r as [[[]| | |]|y]; try done; by exists y. Qed.

(** The checks after the scripts have been evaluated. *)
Definition final_checks (flags : Z) (witness s : list bytes) (hadWitness : bool) : Prop :=
  (has_flag flags SCRIPT_VERIFY_CLEANSTACK = true →
   has_flag flags SCRIPT_VERIFY_P2SH = true ∧ has_flag flags SCRIPT_VERIFY_WITNESS = true ∧ length s = 1%nat) ∧
  (has_flag flags SCRIPT_VERIFY_WITNESS = true →
   has_flag flags SCRIPT_VERIFY_P2SH = true ∧ (hadWitness = true ∨ witness_IsNull witness = true)).

Lemma final_checks_accepts flags witness s hadWitness (c : C) :
  accepts ((if has_flag flags SCRIPT_VERIFY_CLEANSTACK then
     assert (has_flag flags SCRIPT_VERIFY_P2SH) ≫= λ _,
     assert (has_flag flags SCRIPT_VERIFY_WITNESS) ≫= λ _,
     if negb (length s =? 1)%nat then set_error SCRIPT_ERR_CLEANSTACK else mret ()
   else mret ()) ≫= λ _,
  (if has_flag flags SCRIPT_VERIFY_WITNESS then
     assert (has_flag flags SCRIPT_VERIFY_P2SH) ≫= λ _,
     if negb hadWitness && negb (witness_IsNull witness) then set_error SCRIPT_ERR_WITNESS_UNEXPECTED else mret ()
   else mret ()) ≫= λ _, mret c) ↔ final_checks flags witness s hadWitness.
Proof.
  unfold final_checks.
  destruct (has_flag flags SCRIPT_VERIFY_CLEANSTACK), (has_flag flags SCRIPT_VERIFY_P2SH), (has_flag flags SCRIPT_VERIFY_WITNESS),
    (Nat.eqb_spec (length s) 1), hadWitness, (witness_IsNull witness); cbn; (split; [intros [x Hx]; try discriminate Hx|intros [H1 H2]]);
    try (by eexists); intuition congruence.
Qed.

Lemma VerifyScript_accepts flags scriptSig spk witness c :
  accepts (VerifyScript checker flags scriptSig spk witness c) ↔
  (has_flag flags SCRIPT_VERIFY_SIGPUSHONLY = true → IsPushOnly scriptSig = true) ∧
  ∃ s1 e1 c1 s2 e2 c2 s3 h3 c3 s4 h4 c4,
    EvalScript checker flags BASE [] scriptSig ScriptExecutionData_new c = inr (s1, e1, c1) ∧
    EvalScript checker flags BASE s1 spk ScriptExecutionData_new c1 = inr (s2, e2, c2) ∧
    check_top s2 = inr () ∧
    verify_witness checker flags scriptSig spk witness s2 c2 = inr (s3, h3, c3) ∧
    verify_p2sh checker flags scriptSig spk witness s3 (if has_flag flags SCRIPT_VERIFY_P2SH then s1 else []) h3 c3 = inr (s4, h4, c4) ∧
    final_checks flags witness s4 h4.
Proof.
  unfold VerifyScript. destruct (has_flag flags SCRIPT_VERIFY_SIGPUSHONLY && negb (IsPushOnly scriptSig)) eqn:E.
  { split; [intros [x Hx]; done|]. intros [H _]. apply andb_true_iff in E as [E1 E2]. rewrite (H E1) in E2. done. }
  rewrite accepts_bind. split.
  - intros ([[s1 e1] c1] & H1 & Hr). split; [by destruct (has_flag _ _), (IsPushOnly _)|]. cbv zeta in Hr.
    apply accepts_bind in Hr as ([[s2 e2] c2] & H2 & Hr). apply accepts_bind in Hr as ([] & H3 & Hr).
    apply accepts_bind in Hr as ([[s3 h3] c3] & H4 & Hr). apply accepts_bind in Hr as ([[s4 h4] c4] & H5 & Hr).
    apply final_checks_accepts in Hr. by exists s1, e1, c1, s2, e2, c2, s3, h3, c3, s4, h4, c4.
  - intros (_ & s1 & e1 & c1 & s2 & e2 & c2 & s3 & h3 & c3 & s4 & h4 & c4 & H1 & H2 & H3 & H4 & H5 & Hr).
    exists (s1, e1, c1). split; [done|]. cbv zeta. apply accepts_bind. exists (s2, e2, c2). split; [done|].
    apply accepts_bind. exists (). split; [done|]. apply accepts_bind. exists (s3, h3, c3). split; [done|].
    apply accepts_bind. exists (s4, h4, c4). split; [done|]. by apply (final_checks_accepts flags witness s4 h4 c4).
Qed.

Lemma length_resize_1 s : length (resize_1 s) = 1%nat.
Proof. unfold resize_1. by destruct (rev s). Qed.

(** A bare witness program: nothing follows the witness. *)
Lemma soft_fork_witness vp scriptSig spk witness s2 c2 s3 h3 c3 s4 h4 c4 stackCopy :
  flags_consistent f → IsWitnessProgram spk = Some vp →
  verify_witness checker g scriptSig spk witness s2 c2 = inr (s3, h3, c3) →
  verify_p2sh checker g scriptSig spk witness s3 stackCopy h3 c3 = inr (s4, h4, c4) →
  final_checks g witness s4 h4 →
  ∃ s3 h3 c3, verify_witness checker f scriptSig spk witness s2 c2 = inr (s3, h3, c3) ∧ 
    (∀ st, verify_p2sh checker f scriptSig spk witness s3 st h3 c3 = inr (s3, h3, c3)) ∧ final_checks f witness s3 h3.
Proof.
  intros [Hf1 Hf2] Hvp Hw Hp Hfin. unfold verify_witness, verify_p2sh in *.
  rewrite (witness_program_not_p2sh _ _ Hvp) in *. rewrite andb_false_r in *. rewrite Hvp in *. destruct vp as [v program].
  destruct (has_flag f SCRIPT_VERIFY_WITNESS) eqn:HW.
  - rewrite (Hfg _ HW) in Hw. destruct (negb _); [done|].
    assert (accepts (error_kept (VerifyWitnessProgram checker g witness v program false c2))) as Ha.
    { destruct (error_kept _) as [t|c']; [done|]. by exists c'. }
    apply accepts_error_kept, VerifyWitnessProgram_accepts, accepts_error_kept in Ha as [c' ->].
    exists (resize_1 s2), true, c'. split_and!; [done..|]. split; intros; [split_and!; [by apply Hf2|done|apply length_resize_1]|].
    split; [by apply Hf2|by left].
  - exists s2, false, c2. split_and!; [done..|]. split; [|congruence]. intros Hc. apply Hf1 in Hc. congruence.
Qed.

(** Any other script. *)
Lemma soft_fork_p2sh scriptSig spk witness s2 c2 s4 h4 c4 s1 :
  flags_consistent f →
  verify_p2sh checker g scriptSig spk witness s2 (if has_flag g SCRIPT_VERIFY_P2SH then s1 else []) false c2 = inr (s4, h4, c4) →
  final_checks g witness s4 h4 →
  ∃ s4 h4 c4,
    verify_p2sh checker f scriptSig spk witness s2 (if has_flag f SCRIPT_VERIFY_P2SH then s1 else []) false c2 = inr (s4, h4, c4) ∧
    final_checks f witness s4 h4.
Proof.
  intros [Hf1 Hf2] Hp [Hc Hw]. unfold verify_p2sh in *.
  destruct (has_flag f SCRIPT_VERIFY_P2SH) eqn:HP; cycle 1.
  { exists s2, false, c2. split; [done|]. split; intros H; [apply Hf1, Hf2 in H|apply Hf2 in H]; congruence. }
  rewrite (Hfg _ HP) in *. cbn [andb] in *. destruct (IsPayToScriptHash spk); cycle 1.
  { injection Hp as <- <- <-. exists s2, false, c2. split; [done|]. split; intros H.
    - split_and!; [done|first [done|by apply Hf1]|]. by apply Hc, Hfg.
    - split; [done|]. by apply Hw, Hfg. }
  destruct (negb _); [done|]. destruct s1 as [|redeem s1]; [done|].
  destruct (EvalScript checker g BASE s1 redeem ScriptExecutionData_new c2) as [|[[s e] c]] eqn:HE; [done|].
  rewrite (EvalScript_stricter checker BASE f g Hfg _ _ _ _ _ HE). cbn [mbind sum_mbind] in *.
  destruct (check_top s) as [|[]]; [done|]. cbn [mbind sum_mbind] in *.
  destruct (has_flag f SCRIPT_VERIFY_WITNESS) eqn:HW; cycle 1.
  { exists s, false, c. split; [done|]. split; [intros H%Hf1; congruence|congruence]. }
  rewrite (Hfg _ HW) in Hp. destruct (IsWitnessProgram redeem) as [[v program]|]; cycle 1.
  { injection Hp as <- <- <-. exists s, false, c. split; [done|]. split; intros H.
    - split_and!; [done|first [done|by apply Hf1]|]. by apply Hc, Hfg.
    - split; [done|]. by apply Hw, Hfg. }
  destruct (negb _); [done|].
  assert (accepts (error_kept (VerifyWitnessProgram checker g witness v program true c))) as Ha.
  { destruct (error_kept _) as [t|c']; [done|]. by exists c'. }
  apply accepts_error_kept, VerifyWitnessProgram_accepts, accepts_error_kept in Ha as [c' ->].
  exists (resize_1 s), true, c'. split; [done|].
  split; intros H; [split_and!; [done|done|apply length_resize_1]|split; [done|by left]].
Qed.

(** C12: every verification flag is a soft fork: what [VerifyScript] accepts under a set of flags,
    it accepts under any consistent subset of them. *)
Theorem flags_are_soft_forks scriptSig spk witness (c : C) :
  flags_consistent f →
  accepts (VerifyScript checker g scriptSig spk witness c) → accepts (VerifyScript checker f scriptSig spk witness c).
Proof.
  intros Hf. rewrite !VerifyScript_accepts.
  intros (Hpush & s1 & e1 & c1 & s2 & e2 & c2 & s3 & h3 & c3 & s4 & h4 & c4 & H1 & H2 & H3 & H4 & H5 & Hr).
  split; [intros H; by apply Hpush, Hfg|].
  apply (EvalScript_stricter checker BASE f g Hfg) in H1, H2.
  destruct (IsWitnessProgram spk) as [vp|] eqn:Hvp.
  - destruct (soft_fork_witness vp _ _ _ _ _ _ _ _ _ _ _ _ Hf Hvp H4 H5 Hr) as (s3' & h3' & c3' & H4' & H5' & Hr').
    by exists s1, e1, c1, s2, e2, c2, s3', h3', c3', s3', h3', c3'.
  - assert (∀ fl, verify_witness checker fl scriptSig spk witness s2 c2 = inr (s2, false, c2)) as Hnone.
    { intros fl. unfold verify_witness. rewrite Hvp. by destruct (has_flag fl _). }
    rewrite Hnone in H4. injection H4 as <- <- <-.
    destruct (soft_fork_p2sh _ _ _ _ _ _ _ _ _ Hf H5 Hr) as (s4' & h4' & c4' & H5' & Hr').
    exists s1, e1, c1, s2, e2, c2, s2, false, c2, s4', h4', c4'. by rewrite Hnone.
Qed.
End SoftFork.

(** ** No assertion fails *)

(** The function returns: no exception, no failed assertion. *)
Definition returns {A} (r : stop + A) : Prop := match r with inr _ | inl (returns_false _) => True | _ => False end.
Lemma returns_bind {A B} (m : stop + A) (k : A → stop + B) : returns m → (∀ x, returns (k x)) → returns (m ≫= k).
Proof. destruct m as [[]|]; simpl; auto. Qed.

Section Safe.
Context `{SIGS : Secp256k1Signatures} `{abi : !ABI} {C : Type} (checker : BaseSignatureChecker C) (flags : Z).

(** Scripts and witnesses of a size that a transaction can have. *)
Definition script_ok (script : bytes) : Prop := bytes_ok script ∧ zlen script < ConditionStack.NO_FALSE.
Definition witness_ok (witness : list bytes) : Prop := Forall script_ok witness ∧ zlen witness ≤ 2 ^ 32.

(** A spend of a Taproot output: the only one that checks Schnorr signatures. *)
Definition taproot_spend (spk : bytes) (witness : list bytes) : Prop :=
  (∃ program, IsWitnessProgram spk = Some (1, program) ∧ zlen program = WITNESS_V1_TAPROOT_SIZE) ∧ witness ≠ [].

Record checker_ok (spk : bytes) (witness : list bytes) : Prop := {
  base_ok : checker_safe checker BASE;
  v0_ok : checker_safe checker WITNESS_V0;
  tapscript_ok : taproot_spend spk witness → checker_safe checker TAPSCRIPT;
  taproot_ok : taproot_spend spk witness → ∀ sig pubkey e c,
    length pubkey = 32%nat → m_annex_init e = true → returns (CheckSchnorrSignature checker sig pubkey TAPROOT e c)
}.

Lemma scan_op_success_safe fuel pc :
  bytes_ok pc → (length pc ≤ fuel)%nat → returns (scan_op_success fuel flags pc).
Proof.
  revert pc. induction fuel as [|fuel IH]; intros pc Hok Hf.
  { by destruct pc; [|simpl in Hf; lia]. }
  destruct pc as [|b pc]; [done|]. cbn [scan_op_success].
  destruct (GetScriptOp (b :: pc)) as [[[ok opcode] data] rest] eqn:HG. destruct ok; [|done].
  pose proof (GetScriptOp_progress _ _ _ _ _ HG ltac:(done)). destruct (GetScriptOp_inv _ _ _ _ Hok HG) as (i & Heq & _ & _).
  rewrite Heq in Hok. apply digits_ok_app in Hok as [_ [_ Hrest]%digits_ok_app]. cbn [length] in *.
  destruct (IsOpSuccess opcode); [by destruct (has_flag _ _)|]. apply IH; [done|lia].
Qed.

Lemma ExecuteWitnessScript_safe s script sigversion e c :
  checker_safe checker sigversion → sigversion ≠ TAPROOT → script_ok script → witness_ok s →
  (sigversion = TAPSCRIPT → m_tapleaf_hash_init e = true ∧ m_annex_init e = true ∧ m_validation_weight_left_init e = true) →
  returns (ExecuteWitnessScript checker flags s script sigversion e c).
Proof.
  intros Hc Hv [Hok Hlen] [Hs Hs32] He. unfold ExecuteWitnessScript. apply returns_bind.
  { case_match; [|done]. apply returns_bind; [by apply scan_op_success_safe|]. intros b. by repeat case_match. }
  intros b. case_match; [done|]. destruct (existsb _ s) eqn:Ex; [done|].
  assert (Forall item_ok s) as Hitems.
  { apply Forall_forall. intros x Hx. rewrite Forall_forall in Hs. split; [by apply Hs|].
    destruct (Z.ltb_spec MAX_SCRIPT_ELEMENT_SIZE (zlen x)) as [Hlt|]; [|done].
    assert (existsb (λ elem : bytes, MAX_SCRIPT_ELEMENT_SIZE <? zlen elem) s = true) as Ht; [|congruence].
    apply existsb_exists. exists x. split; [by apply list_elem_of_In|by apply Z.ltb_lt]. }
  pose proof (EvalScript_safe checker flags sigversion Hc Hv s script e c Hok Hlen Hs32 Hitems He) as Hsafe.
  destruct (EvalScript _ _ _ _ _ _ _) as [t|[[s' e'] c']]; [by destruct Hsafe as [err ->]|].
  cbn [mbind sum_mbind]. by repeat case_match.
Qed.

Lemma VerifyTaproot_safe spk witness s program e c :
  checker_ok spk witness → taproot_spend spk witness → zlen program = 32 → s ≠ [] → witness_ok s → m_annex_init e = true →
  returns (VerifyTaproot checker flags witness s program e c).
Proof.
  intros Hc Hsp Hp Hne [Hs Hs32] He. unfold VerifyTaproot. destruct s as [|control [|script s]]; [done| |].
  { apply returns_bind; [apply (taproot_ok _ _ Hc Hsp); [lia|done]|]. by intros []. }
  apply Forall_cons_1 in Hs as [Hcontrol [Hscript Hs]%Forall_cons_1].
  destruct (_ || _) eqn:E; [done|]. apply orb_false_iff in E as [[E1 E2]%orb_false_iff E3].
  apply Z.ltb_ge in E1, E2. apply negb_false_iff in E3. cbv zeta.
  apply returns_bind.
  { unfold VerifyTaprootCommitment, ComputeTaprootMerkleRoot. rewrite Hp, E3.
    rewrite (proj2 (Z.leb_le _ _) E1), (proj2 (Z.leb_le _ _) E2). done. }
  intros ok. destruct ok; [|done]. cbn [negb]. case_match; [|by case_match].
  apply ExecuteWitnessScript_safe; [by apply (tapscript_ok _ _ Hc)|done|done| |by intros _].
  split; [done|]. simpl in Hs32. lia.
Qed.

Lemma witness_ok_rev w : witness_ok w → witness_ok (rev w).
Proof.
  intros [Hw Hl]. split; [|by rewrite length_rev]. apply Forall_forall. intros x Hx. rewrite Forall_forall in Hw.
  apply Hw. apply list_elem_of_In. apply in_rev. by apply list_elem_of_In.
Qed.

Lemma VerifyWitnessProgram_safe spk witness v program is_p2sh c :
  checker_ok spk witness → witness_ok witness → bytes_ok program → zlen program ≤ 40 →
  (is_p2sh = false → IsWitnessProgram spk = Some (v, program)) →
  returns (VerifyWitnessProgram checker flags witness v program is_p2sh c).
Proof.
  intros Hc Hw Hok Hlen Hspk. unfold VerifyWitnessProgram. cbv zeta. pose proof (witness_ok_rev _ Hw) as Hrev.
  destruct (v =? 0).
  { destruct (zlen program =? WITNESS_V0_SCRIPTHASH_SIZE).
    - destruct (rev witness) as [|script s]; [done|]. destruct Hrev as [[Hscript Hs]%Forall_cons_1 Hs32]. case_match; [done|].
      apply ExecuteWitnessScript_safe; [by apply (v0_ok _ _ Hc)|done|done| |done]. split; [done|]. simpl in Hs32. lia.
    - destruct (zlen program =? WITNESS_V0_KEYHASH_SIZE); [|done]. case_match; [done|].
      apply ExecuteWitnessScript_safe; [by apply (v0_ok _ _ Hc)|done| |done|done]. rewrite push_data_small by lia. split.
      + cbn [app]. repeat (apply digits_ok_cons; split; [unfold urange, OP_DUP, OP_HASH160; lia|]).
        apply digits_ok_app; split; [done|]. by repeat constructor.
      + simpl. rewrite length_app. simpl. unfold ConditionStack.NO_FALSE. lia. }
  destruct ((v =? 1) && (zlen program =? WITNESS_V1_TAPROOT_SIZE) && negb is_p2sh) eqn:E; [|by repeat case_match].
  apply andb_true_iff in E as [[->%Z.eqb_eq Hp%Z.eqb_eq]%andb_true_iff ->%negb_true_iff].
  case_match; [done|]. destruct (rev witness) as [|annex s] eqn:Er; [done|].
  assert (taproot_spend spk witness) as Hsp.
  { split; [exists program; split; [by apply Hspk|done]|]. intros ->. done. }
  destruct s as [|x s]; [by eapply VerifyTaproot_safe|]. case_match; [|by eapply VerifyTaproot_safe].
  eapply VerifyTaproot_safe; try done. destruct Hrev as [[_ Hs]%Forall_cons_1 Hs32]. split; [done|]. simpl in *. lia.
Qed.

(** A pay-to-script-hash output needs a script on the stack. *)
Lemma p2sh_needs_stack spk e c r : IsPayToScriptHash spk = true → EvalScript checker flags BASE [] spk e c ≠ inr r.
Proof.
  intros Hp. unfold IsPayToScriptHash in Hp. apply andb_true_iff in Hp as [[[Hl%Z.eqb_eq H0%Z.eqb_eq]%andb_true_iff _]%andb_true_iff _].
  destruct spk as [|b spk]; [done|]. unfold zget in H0. simpl in H0. subst b.
  unfold EvalScript. rewrite bool_decide_eq_false_2 by done. cbn [assert negb mbind sum_mbind mret sum_mret].
  rewrite Hl. cbn [length eval_loop]. done.
Qed.

Lemma IsWitnessProgram_drop spk v program : IsWitnessProgram spk = Some (v, program) → program = drop 2 spk ∧ zlen program ≤ 40.
Proof.
  unfold IsWitnessProgram. destruct (_ || _) eqn:E; [done|]. apply orb_false_iff in E as [_ E%Z.ltb_ge].
  case_match; [done|]. case_match; [|done]. destruct (DecodeOP_N _); [|done]. intros [= <- <-].
  split; [done|]. rewrite length_drop. lia.
Qed.
Lemma program_ok spk v program : bytes_ok spk → IsWitnessProgram spk = Some (v, program) → bytes_ok program ∧ zlen program ≤ 40.
Proof. intros Hok [-> Hlen]%IsWitnessProgram_drop. split; [by apply Forall_drop|done]. Qed.

Lemma returns_witness_program spk' spk witness v program is_p2sh (s : list bytes) c :
  checker_ok spk witness → witness_ok witness → bytes_ok spk' → IsWitnessProgram spk' = Some (v, program) →
  (is_p2sh = false → spk' = spk) →
  returns (c ← error_kept (VerifyWitnessProgram checker flags witness v program is_p2sh c); mret (resize_1 s, true, c)).
Proof.
  intros Hc Hw Hok Hvp Hspk. destruct (program_ok _ _ _ Hok Hvp) as [Hp1 Hp2].
  assert (returns (VerifyWitnessProgram checker flags witness v program is_p2sh c)) as Hr.
  { eapply VerifyWitnessProgram_safe; try done. intros ->. by rewrite <-Hspk. }
  by destruct (VerifyWitnessProgram _ _ _ _ _ _ _) as [[[]| | |]|].
Qed.

Lemma VerifyScript_safe scriptSig spk witness c :
  flags_consistent flags → checker_ok spk witness → script_ok scriptSig → script_ok spk → witness_ok witness →
  returns (VerifyScript checker flags scriptSig spk witness c).
Proof.
  intros [Hf1 Hf2] Hc [Hs1 Hs2] [Hk1 Hk2] Hw. unfold VerifyScript. case_match; [done|].
  pose proof (EvalScript_safe checker flags BASE (base_ok _ _ Hc) ltac:(done) [] scriptSig ScriptExecutionData_new c Hs1 Hs2
    ltac:(done) ltac:(constructor) ltac:(done)) as H1.
  destruct (EvalScript checker flags BASE [] scriptSig _ c) as [t|[[s1 e1] c1]]; [by destruct H1 as [? ->]|].
  destruct H1 as (Hi1 & Hl1 & _). cbn [mbind sum_mbind]. cbv zeta.
  assert (zlen s1 ≤ 2 ^ 32) as Hl1' by (unfold MAX_STACK_SIZE in *; simpl in *; lia).
  pose proof (EvalScript_safe checker flags BASE (base_ok _ _ Hc) ltac:(done) s1 spk ScriptExecutionData_new c1 Hk1 Hk2
    Hl1' Hi1 ltac:(done)) as H2.
  destruct (EvalScript checker flags BASE s1 spk _ c1) as [t|[[s2 e2] c2]] eqn:HE2; [by destruct H2 as [? ->]|].
  cbn [mbind sum_mbind]. apply returns_bind; [unfold check_top; by repeat case_match|]. intros _. apply returns_bind.
  { unfold verify_witness. case_match; [|done]. destruct (IsWitnessProgram spk) as [[v program]|] eqn:Hvp; [|done].
    case_match; [done|]. by apply (returns_witness_program spk spk). }
  intros [[s3 h3] c3]. apply returns_bind.
  { unfold verify_p2sh. destruct (has_flag flags SCRIPT_VERIFY_P2SH); [|done].
    destruct (IsPayToScriptHash spk) eqn:Hp; [|done]. cbn [andb]. case_match; [done|].
    destruct s1 as [|redeem s1]; [by destruct (p2sh_needs_stack spk _ _ _ Hp HE2)|].
    apply Forall_cons_1 in Hi1 as [[Hr1 Hr2] Hi1].
    pose proof (EvalScript_safe checker flags BASE (base_ok _ _ Hc) ltac:(done) s1 redeem ScriptExecutionData_new c3 Hr1
      ltac:(unfold MAX_SCRIPT_ELEMENT_SIZE, ConditionStack.NO_FALSE in *; lia) ltac:(simpl in *; lia) Hi1 ltac:(done)) as H3.
    destruct (EvalScript checker flags BASE s1 redeem _ c3) as [t|[[s4 e4] c4]]; [by destruct H3 as [? ->]|].
    cbn [mbind sum_mbind]. apply returns_bind; [unfold check_top; by repeat case_match|]. intros _.
    case_match; [|done]. destruct (IsWitnessProgram redeem) as [[v program]|] eqn:Hvp; [|done].
    case_match; [done|]. by apply (returns_witness_program redeem spk). }
  intros [[s4 h4] c4]. apply returns_bind.
  { destruct (has_flag flags SCRIPT_VERIFY_CLEANSTACK); [|done]. rewrite Hf2, Hf1 by auto. by case_match. }
  intros _. apply returns_bind; [|done]. destruct (has_flag flags SCRIPT_VERIFY_WITNESS); [|done]. rewrite Hf2 by done. by case_match.
Qed.
End Safe.

(** ** The checker of a transaction *)

Lemma uses_features_taproot_kept ready spent ins pos a : (uses_features ready spent ins pos a true).2 = true.
Proof.
  revert pos a. induction ins as [|i ins IH]; intros pos []; try done. cbn [uses_features andb].
  repeat case_match; apply IH.
Qed.

Lemma uses_features_taproot ready spent ins pos k a b i :
  ins !! k = Some i → witness_IsNull (scriptWitness i) = false →
  ready && (zlen (scriptPubKey (default CTxOut_null (spent !! (pos + k)%nat))) =? 2 + WITNESS_V1_TAPROOT_SIZE)
  && ((scriptPubKey (default CTxOut_null (spent !! (pos + k)%nat))).[0] =? OP_1) = true →
  (uses_features ready spent ins pos a b).2 = true.
Proof.
  intros Hi Hw Hspk. revert pos k a b Hi Hspk. induction ins as [|j ins IH]; intros pos k a b Hi Hspk; [done|].
  destruct b; [apply uses_features_taproot_kept|]. cbn [uses_features]. rewrite andb_false_r.
  destruct k as [|k]; simpl in Hi.
  - injection Hi as ->. rewrite Nat.add_0_r in Hspk. cbv zeta. rewrite Hw, Hspk. apply uses_features_taproot_kept.
  - replace (pos + S k)%nat with (S pos + k)%nat in Hspk by lia. cbv zeta. repeat case_match; by eapply IH.
Qed.

Lemma Init_taproot_ready tx spent force d nIn i o :
  Init tx spent force = Some d → vin tx !! nIn = Some i → spent !! nIn = Some o →
  bytes_ok (scriptPubKey o) → taproot_spend (scriptPubKey o) (scriptWitness i) →
  m_bip341_taproot_ready d = true ∧ m_spent_outputs_ready d = true.
Proof.
  intros HI Hi Ho Hok [(program & Hvp & Hlen) Hne]. unfold Init in HI.
  assert (negb (length spent =? 0)%nat = true) as Hready by (by destruct spent).
  rewrite Hready in HI. case_match; [done|].
  pose proof (uses_features_taproot true spent (vin tx) 0 nIn force force i Hi) as Hu.
  destruct (uses_features _ _ _ _ _ _) as [segwit taproot]. injection HI as <-. simpl in *. rewrite andb_true_r.
  split; [|done]. apply Hu; [unfold witness_IsNull; by destruct (scriptWitness i)|].
  rewrite Ho. simpl. apply (IsWitnessProgram_iff _ _ _ Hok) in Hvp as (-> & _ & _).
  rewrite push_data_small by (unfold WITNESS_V1_TAPROOT_SIZE in *; lia). rewrite length_app. cbn [length].
  unfold WITNESS_V1_TAPROOT_SIZE in *. apply andb_true_iff. split; [apply Z.eqb_eq|done]. simpl. lia.
Qed.

Section Transaction.
Context `{SIGS : Secp256k1Signatures}.
Context (tx : CTransaction) (nIn : nat) (amount : Z) (d : PrecomputedTransactionData) (mdb : MissingDataBehavior).
Context (Hin : (nIn < length (vin tx))%nat).

Lemma SignatureHash_returns code ht sigversion cache m : ∃ r, SignatureHash code tx nIn ht amount sigversion cache m = inr r.
Proof.
  unfold SignatureHash. rewrite (proj2 (Nat.ltb_lt _ _) Hin). cbn [assert mbind sum_mbind mret sum_mret].
  repeat case_match; by eexists.
Qed.

Lemma tx_ecdsa_returns sig pubkey code sigversion c :
  0 ≤ amount → ∃ r, CheckECDSASignature (GenericTransactionSignatureChecker tx nIn amount (Some d) mdb) sig pubkey code sigversion c = inr r.
Proof.
  intros Ha. cbn [CheckECDSASignature GenericTransactionSignatureChecker]. unfold tx_CheckECDSASignature.
  destruct (Z.ltb_spec amount 0); [lia|]. rewrite andb_false_r. do 2 (case_match; [by eexists|]). cbv zeta.
  destruct (SignatureHash_returns code (back sig) sigversion (Some d) (Some c)) as [[h m] ->]. by eexists.
Qed.

(** With the data in place, and what the signature version reads of the execution data. *)
(** The signature without its hash type byte has 64 bytes, as [VerifySchnorr] asserts. *)
Lemma schnorr_size (sig : bytes) ht sig' :
  negb (length sig =? 64)%nat && negb (length sig =? 65)%nat = false →
  (if (length sig =? 65)%nat then (back sig, take 64 sig) else (SIGHASH_DEFAULT, sig)) = (ht, sig') → length sig' = 64%nat.
Proof.
  destruct (Nat.eqb_spec (length sig) 64), (Nat.eqb_spec (length sig) 65); try done; intros _ [= _ <-]; rewrite ?length_take; lia.
Qed.
Lemma VerifySchnorr_total key h (sig : bytes) : length sig = 64%nat → ∃ b, VerifySchnorr key h sig = Some b.
Proof. intros H. unfold VerifySchnorr. rewrite H. cbn [Nat.eqb negb]. destruct (xonly_pubkey_parse key); by eexists. Qed.

Lemma tx_schnorr_returns sig pubkey e sigversion c :
  sigversion = TAPROOT ∨ sigversion = TAPSCRIPT → length pubkey = 32%nat →
  m_bip341_taproot_ready d = true → m_spent_outputs_ready d = true → execdata_ready sigversion e →
  match CheckSchnorrSignature (GenericTransactionSignatureChecker tx nIn amount (Some d) mdb) sig pubkey sigversion e c with
  | inr (e', _) => ∃ h, e' = e ∨ e' = set_output_hash h e
  | inl t => ∃ err, t = returns_false (Some err)
  end.
Proof.
  intros Hv Hk Hr1 Hr2 [Ha Hts]. cbn [CheckSchnorrSignature GenericTransactionSignatureChecker]. unfold tx_CheckSchnorrSignature.
  replace (match sigversion with TAPROOT | TAPSCRIPT => true | _ => false end) with true by by destruct Hv as [-> | ->].
  rewrite Hk. cbn [assert mbind sum_mbind mret sum_mret Nat.eqb]. destruct (_ && _) eqn:Hsize; [by eexists|].
  destruct (if (length sig =? 65)%nat then _ else _) as [ht sig'] eqn:Hsig. apply (schnorr_size sig ht sig' Hsize) in Hsig. clear Hsize.
  destruct (_ && (ht =? _)); [by eexists|].
  unfold SignatureHashSchnorr. rewrite (proj2 (Nat.ltb_lt _ _) Hin), Hr1, Hr2, Ha.
  replace (match sigversion with TAPROOT | TAPSCRIPT => true | _ => false end) with true by by destruct Hv as [-> | ->].
  cbn [assert mbind sum_mbind mret sum_mret andb negb].
  destruct (negb _); [by eexists|]. cbv zeta. destruct (_ && _); [by eexists|].
  destruct (output_type ht =? SIGHASH_SINGLE), Hv as [-> | ->]; cbn [is_tapscript mbind sum_mbind mret sum_mret
    m_tapleaf_hash_init m_codeseparator_pos_init set_output_hash];
    try (destruct (Hts eq_refl) as [-> ->]; cbn [assert mbind sum_mbind mret sum_mret]);
    match goal with |- context [VerifySchnorr pubkey ?h sig'] => destruct (VerifySchnorr_total pubkey h sig' Hsig) as [[] ->] end;
    cbn [asserted mbind sum_mbind mret sum_mret negb];
    first [exists uint256_zero; by left | eexists; by right | by eexists].
Qed.

Lemma tx_checker_ok spent force i o :
  Init tx spent force = Some d → vin tx !! nIn = Some i → spent !! nIn = Some o → bytes_ok (scriptPubKey o) → 0 ≤ amount →
  checker_ok (GenericTransactionSignatureChecker tx nIn amount (Some d) mdb) (scriptPubKey o) (scriptWitness i).
Proof.
  intros HI Hi Ho Hok Ha.
  assert (∀ v, v ≠ TAPSCRIPT → checker_safe (GenericTransactionSignatureChecker tx nIn amount (Some d) mdb) v) as Hpre.
  { intros v Hv. split; [|done]. intros sig pubkey code c _. by destruct (tx_ecdsa_returns sig pubkey code v c Ha) as [r ->]. }
  split; [by apply Hpre|by apply Hpre|intros Hsp..]; destruct (Init_taproot_ready _ _ _ _ _ _ _ HI Hi Ho Hok Hsp) as [Hr1 Hr2].
  - split; [done|]. intros sig pubkey e c _ Hk (He1 & He2 & He3 & He4).
    pose proof (tx_schnorr_returns sig pubkey e TAPSCRIPT c ltac:(by right) Hk Hr1 Hr2 ltac:(by split)) as Hs.
    destruct (CheckSchnorrSignature _ _ _ _ _ _) as [t|[e' c']]; [by destruct Hs as [? ->]|].
    by destruct Hs as [h [-> | ->]].
  - intros sig pubkey e c Hk He.
    pose proof (tx_schnorr_returns sig pubkey e TAPROOT c ltac:(by left) Hk Hr1 Hr2 ltac:(by split)) as Hs.
    destruct (CheckSchnorrSignature _ _ _ _ _ _) as [t|[e' c']]; [by destruct Hs as [? ->]|done].
Qed.
End Transaction.

(** C2: checking an input of a transaction against the output it spends always returns true or
    false: no assertion of the interpreter, of the signature checks or of the digests fails and no
    exception escapes, whatever the scripts, the witness, the signatures and the way missing data
    is handled.  It holds for an input of the transaction whose spent output has an amount of at
    least 0, with the data that [PrecomputedTransactionData::Init] computes from the transaction and
    all the outputs it spends, for scripts and witness items that are byte strings shorter than
    the 32-bit size limit, and for flags the caller may combine (a CLEANSTACK or WITNESS flag
    comes with the flags it presupposes). *)
Theorem script_check_returns `{SIGS : Secp256k1Signatures} `{abi : !ABI} (tx : CTransaction) (spent : list CTxOut) (force : bool)
    (d : PrecomputedTransactionData) (nIn : nat) (i : CTxIn) (o : CTxOut) (flags : Z) (mdb : MissingDataBehavior) (c : SigHashCache) :
  Init tx spent force = Some d → vin tx !! nIn = Some i → spent !! nIn = Some o →
  script_ok (scriptSig i) → script_ok (scriptPubKey o) → witness_ok (scriptWitness i) → 0 ≤ nValue o → flags_consistent flags →
  returns (VerifyScript (GenericTransactionSignatureChecker tx nIn (nValue o) (Some d) mdb) flags
             (scriptSig i) (scriptPubKey o) (scriptWitness i) c).
Proof.
  intros HI Hi Ho H1 H2 H3 Ha Hf. apply VerifyScript_safe; try done.
  eapply tx_checker_ok; try done; [by eapply lookup_lt_Some|by apply H2].
Qed.
