(* ===== verification/ScriptCaching.v ===== *)
(** * Script verification with and without caches

    Two checkers whose answers agree give the same evaluation.  The checker of a transaction, with
    its cache of midstates and its precomputed data, agrees with one that computes every digest
    from its definition, so [VerifyScript] gives the same result with both. *)

From S2P Require Import Prelude Endian Serialize Hasher Sha256 Hash Primitives Script PubKey Interpreter InterpreterTheory SigHash SigHashTheory VerifyScript VerifyTheory.
From Stdlib Require Import ZArith Lia.
From stdpp Require Import base option list numbers gmap.

Open Scope Z_scope.
Open Scope kernel_scope.

(** ** Related results *)

Definition related {A B} (R : A → B → Prop) (r1 : stop + A) (r2 : stop + B) : Prop :=
  match r1, r2 with inl t1, inl t2 => t1 = t2 | inr x, inr y => R x y | _, _ => False end.

Lemma related_refl {A} (r : stop + A) : related eq r r.
Proof. by destruct r. Qed.
Lemma related_bind {A B A' B'} (R : A → B → Prop) (Q : A' → B' → Prop) m1 m2 (k1 : A → stop + A') (k2 : B → stop + B') :
  related R m1 m2 → (∀ x y, R x y → related Q (k1 x) (k2 y)) → related Q (m1 ≫= k1) (m2 ≫= k2).
Proof. by destruct m1, m2; simpl; auto. Qed.
Lemma related_same {A A' B'} (Q : A' → B' → Prop) (m : stop + A) (k1 : A → stop + A') (k2 : A → stop + B') :
  (∀ x, related Q (k1 x) (k2 x)) → related Q (m ≫= k1) (m ≫= k2).
Proof. intros H. apply (related_bind eq); [apply related_refl|]. intros x ? <-. apply H. Qed.
Lemma related_if {A B} (R : A → B → Prop) (b : bool) x1 x2 y1 y2 :
  related R x1 x2 → related R y1 y2 → related R (if b then x1 else y1) (if b then x2 else y2).
Proof. by destruct b. Qed.
Lemma related_error {A B} (R : A → B → Prop) t : related R (inl t) (inl t).
Proof. done. Qed.
Lemma related_caught {A B} (R : A → B → Prop) r1 r2 : related R r1 r2 → related R (caught r1) (caught r2).
Proof. destruct r1 as [[[]| | |]|], r2 as [[[]| | |]|]; simpl; intros; simplify_eq; done. Qed.

Section Related.
Context `{SIGS : Secp256k1Signatures} {C1 C2 : Type} (ck1 : BaseSignatureChecker C1) (ck2 : BaseSignatureChecker C2).
Context (flags : Z) (sigversion : SigVersion) (RC : C1 → C2 → Prop).

Definition with_state {A} (x : A * C1) (y : A * C2) : Prop := x.1 = y.1 ∧ RC x.2 y.2.

(** The two checkers agree, and keep their states related. *)
Record checkers_agree : Prop := {
  locktime_agree n : CheckLockTime ck1 n = CheckLockTime ck2 n;
  sequence_agree n : CheckSequence ck1 n = CheckSequence ck2 n;
  ecdsa_agree sig key code c1 c2 : RC c1 c2 →
    related with_state (CheckECDSASignature ck1 sig key code sigversion c1) (CheckECDSASignature ck2 sig key code sigversion c2);
  schnorr_agree sig key e c1 c2 : RC c1 c2 →
    related with_state (CheckSchnorrSignature ck1 sig key sigversion e c1) (CheckSchnorrSignature ck2 sig key sigversion e c2)
}.
Context (Hck : checkers_agree).

Record state_related (st1 : EvalState (C:=C1)) (st2 : EvalState (C:=C2)) : Prop := {
  rel_stack : stack st1 = stack st2;
  rel_altstack : altstack st1 = altstack st2;
  rel_vfExec : vfExec st1 = vfExec st2;
  rel_code : pbegincodehash st1 = pbegincodehash st2;
  rel_ops : nOpCount st1 = nOpCount st2;
  rel_exec : execdata st1 = execdata st2;
  rel_cstate : RC (cstate st1) (cstate st2)
}.

Lemma EvalChecksig_related sig key code e c1 c2 :
  RC c1 c2 → related with_state (EvalChecksig ck1 flags sigversion sig key code e c1) (EvalChecksig ck2 flags sigversion sig key code e c2).
Proof.
  intros Hc. unfold EvalChecksig.
  assert (related with_state (EvalChecksigPreTapscript ck1 flags sigversion sig key code c1)
                             (EvalChecksigPreTapscript ck2 flags sigversion sig key code c2)) as Hpre.
  { unfold EvalChecksigPreTapscript. apply related_same; intros _. apply related_same; intros code'.
    apply related_same; intros _. apply related_same; intros _.
    eapply related_bind; [by apply (ecdsa_agree Hck)|]. intros [ok c1'] [ok' c2'] [Hok Hc']. simpl in Hok, Hc'. subst ok'.
    apply related_if; [done|by split]. }
  destruct sigversion eqn:Hv; try done;
    try (eapply related_bind; [done|]; intros [ok c1'] [ok' c2'] [Hok Hc']; simpl in *; subst; by split).
  unfold EvalChecksigTapscript. apply related_same; intros _. apply related_same; intros e'.
  apply related_if; [done|]. apply related_if; [|by apply related_if].
  apply related_if; [|by split]. rewrite <-Hv. eapply related_bind; [by apply (schnorr_agree Hck)|].
  intros [e1 c1'] [e2 c2'] [He Hc']. simpl in *. subst. by split.
Qed.

Lemma stack_operation_agree opcode :
  match stack_operation ck1 flags opcode, stack_operation ck2 flags opcode with
  | Some f1, Some f2 => ∀ s, f1 s = f2 s
  | None, None => True
  | _, _ => False
  end.
Proof.
  unfold stack_operation. repeat (match goal with |- context [if ?b then _ else _] => destruct b end; [try done|]); try done.
  - intros s. unfold op_checklocktimeverify. destruct (negb _); [done|]. destruct s; [done|].
    destruct (stack_number _ _ _); [done|]. cbn [mbind sum_mbind]. by rewrite (locktime_agree Hck).
  - intros s. unfold op_checksequenceverify. destruct (negb _); [done|]. destruct s; [done|].
    destruct (stack_number _ _ _); [done|]. cbn [mbind sum_mbind]. by rewrite (sequence_agree Hck).
Qed.

Lemma multisig_check_related fuel s code isig ikey nSigs nKeys c1 c2 :
  RC c1 c2 → related with_state (multisig_check ck1 flags sigversion fuel s code isig ikey nSigs nKeys c1)
                                (multisig_check ck2 flags sigversion fuel s code isig ikey nSigs nKeys c2).
Proof.
  revert isig ikey nSigs nKeys c1 c2. induction fuel as [|fuel IH]; intros isig ikey nSigs nKeys c1 c2 Hc; cbn [multisig_check];
    (apply related_if; [by split|]); [done|].
  do 4 (apply related_same; intros ?). eapply related_bind; [by apply (ecdsa_agree Hck)|].
  intros [ok c1'] [ok' c2'] [Hok Hc']. simpl in Hok, Hc'. subst ok'. destruct ok; (apply related_if; [by split|by apply IH]).
Qed.

Lemma op_checkmultisig_related opcode st1 st2 :
  state_related st1 st2 →
  related state_related (op_checkmultisig ck1 flags sigversion opcode st1) (op_checkmultisig ck2 flags sigversion opcode st2).
Proof.
  intros [Hs Ha Hv Hcode Ho He Hc]. unfold op_checkmultisig. rewrite Hs, Ho, Hcode.
  do 2 (apply related_if; [done|]). do 2 (apply related_same; intros ?). cbv zeta. do 3 (apply related_if; [done|]).
  do 2 (apply related_same; intros ?). do 2 (apply related_if; [done|]). apply related_same; intros code.
  eapply related_bind; [by apply multisig_check_related|]. intros [ok c1'] [ok' c2'] [Hok Hc']. simpl in Hok, Hc'. subst ok'.
  apply related_same; intros s. destruct s as [|dummy s]; [done|]. apply related_if; [done|].
  apply related_if; [apply related_if; [|done]|]; by constructor.
Qed.

Lemma execute_related opcode pc pos fExec st1 st2 :
  state_related st1 st2 →
  related state_related (execute ck1 flags sigversion opcode pc pos fExec st1) (execute ck2 flags sigversion opcode pc pos fExec st2).
Proof.
  intros Hst. pose proof Hst as [Hs Ha Hv Hcode Ho He Hc]. unfold execute. pose proof (stack_operation_agree opcode) as Hop.
  destruct (stack_operation ck1 flags opcode) as [f1|], (stack_operation ck2 flags opcode) as [f2|]; try done.
  { unfold on_stack. rewrite Hs, Hop. apply related_same; intros s. by constructor. }
  apply related_if.
  { unfold op_if. rewrite Hs, Hv. apply related_if; [|by constructor]. destruct (stack st2); [done|].
    do 2 (apply related_if; [done|]). by constructor. }
  apply related_if; [unfold op_else; rewrite Hv; apply related_if; [done|]; apply related_same; by constructor|].
  apply related_if; [unfold op_endif; rewrite Hv; apply related_if; [done|]; apply related_same; by constructor|].
  apply related_if; [unfold op_toaltstack; rewrite Hs; destruct (stack st2); [done|]; constructor; try done; simpl; congruence|].
  apply related_if; [unfold op_fromaltstack; rewrite Ha; destruct (altstack st2); [done|]; constructor; try done; simpl; congruence|].
  apply related_if; [constructor; try done; simpl; congruence|].
  apply related_if.
  { unfold op_checksig. rewrite Hs, Hcode, He. destruct (stack st2) as [|? [|]]; try done.
    eapply related_bind; [by apply EvalChecksig_related|]. intros [[ok e] c] [[ok' e'] c'] [Hok Hc']. simpl in *. simplify_eq.
    apply related_if; [apply related_if; [|done]|]; by constructor. }
  apply related_if; [|by apply related_if; [apply op_checkmultisig_related|]].
  unfold op_checksigadd. rewrite Hs, Hcode, He. apply related_if; [done|]. destruct (stack st2) as [|? [|? [|]]]; try done.
  apply related_same; intros n. eapply related_bind; [by apply EvalChecksig_related|].
  intros [[ok e] c] [[ok' e'] c'] [Hok Hc']. simpl in *. simplify_eq. by constructor.
Qed.

Lemma step_related pc pos st1 st2 :
  state_related st1 st2 →
  related (λ r1 r2, r1.1 = r2.1 ∧ state_related r1.2 r2.2) (step ck1 flags sigversion pc pos st1) (step ck2 flags sigversion pc pos st2).
Proof.
  intros Hst. pose proof Hst as [Hs Ha Hv Hcode Ho He Hc]. unfold step. rewrite Hv, Ho.
  destruct (GetScriptOp pc) as [[[[] opcode] data] rest]; [|done]. apply related_if; [done|].
  apply (related_bind state_related).
  { apply related_if; [|done]. cbv zeta. apply related_if; [done|]. by constructor. }
  intros st1' st2' Hst'. do 2 (apply related_if; [done|]). apply (related_bind state_related).
  { pose proof Hst' as [Hs' _ _ _ _ _ _]. apply related_if; [|apply related_if; [by apply execute_related|done]].
    apply related_same. intros b. apply related_if; [done|]. rewrite Hs'. destruct Hst'. by constructor. }
  intros st1'' st2'' [Hs'' Ha'' ? ? ? ? ?]. rewrite Hs'', Ha''. apply related_if; [done|]. split; [done|]. by constructor.
Qed.

Lemma eval_loop_related fuel pc pos st1 st2 :
  state_related st1 st2 →
  related state_related (eval_loop ck1 flags sigversion fuel pc pos st1) (eval_loop ck2 flags sigversion fuel pc pos st2).
Proof.
  revert pc pos st1 st2. induction fuel as [|fuel IH]; intros [|b pc] pos st1 st2 Hst; cbn [eval_loop]; try done.
  eapply related_bind; [by apply step_related|]. intros [pc1 st1'] [pc2 st2'] [Hpc Hst']. simpl in Hpc, Hst'. subst. by apply IH.
Qed.

Lemma EvalScript_related s script e c1 c2 :
  RC c1 c2 → related with_state (EvalScript ck1 flags sigversion s script e c1) (EvalScript ck2 flags sigversion s script e c2).
Proof.
  intros Hc. unfold EvalScript. apply related_same; intros _. apply related_if; [done|].
  eapply related_bind; [apply related_caught, eval_loop_related; by constructor|].
  intros st1 st2 [Hs Ha Hv Hcode Ho He Hc']. rewrite Hs, Hv, He. apply related_if; [done|by split].
Qed.
End Related.

(** ** Scripts that check no signature *)

Definition checks_signature (opcode : Z) : bool :=
  (opcode =? OP_CHECKSIG) || (opcode =? OP_CHECKSIGVERIFY) || (opcode =? OP_CHECKSIGADD)
  || (opcode =? OP_CHECKMULTISIG) || (opcode =? OP_CHECKMULTISIGVERIFY).
Definition quiet_instr (x : bytes) : Prop := is_instr x ∧ checks_signature (x.[0]) = false.
Definition quiet (script : bytes) : Prop := ∃ xs, script = concat xs ∧ Forall quiet_instr xs.

Section Quiet.
Context `{SIGS : Secp256k1Signatures} {C : Type} (checker : BaseSignatureChecker C) (flags : Z) (sigversion : SigVersion).

Lemma execute_quiet opcode pc pos fExec (st st' : EvalState (C:=C)) :
  checks_signature opcode = false → execute checker flags sigversion opcode pc pos fExec st = inr st' → cstate st' = cstate st.
Proof.
  intros Hq. unfold execute. destruct (stack_operation checker flags opcode) as [f|].
  { unfold on_stack. destruct (f (stack st)); [done|]. by intros [= <-]. }
  unfold checks_signature in Hq. rewrite !orb_false_iff in Hq. destruct Hq as [[[[-> ->] ->] ->] ->]. cbn [orb].
  repeat match goal with |- (if ?b then _ else _) = _ → _ => destruct b end; [..|done].
  - unfold op_if. repeat case_match; try done; by intros [= <-].
  - unfold op_else. case_match; [done|]. destruct (ConditionStack.toggle_top _); [|done]. by intros [= <-].
  - unfold op_endif. case_match; [done|]. destruct (ConditionStack.pop_back _); [|done]. by intros [= <-].
  - unfold op_toaltstack. case_match; [done|]. by intros [= <-].
  - unfold op_fromaltstack. case_match; [done|]. by intros [= <-].
  - by intros [= <-].
Qed.

Lemma step_quiet x rest pos (st : EvalState (C:=C)) r :
  quiet_instr x → step checker flags sigversion (x ++ rest) pos st = inr r → r.1 = rest ∧ cstate r.2 = cstate st.
Proof.
  intros [Hx Hq]. unfold step. destruct (is_instr_read x rest Hx) as (op & data & -> & -> & _). case_match; [done|].
  set (m := if pre_tapscript sigversion && _ then _ else _).
  assert (∀ st', m = inr st' → cstate st' = cstate st) as Hm.
  { intros st'. unfold m. cbv zeta. repeat case_match; try done; by intros [= <-]. }
  destruct m as [|st1]; [done|]. specialize (Hm _ eq_refl). cbn [mbind sum_mbind]. do 2 (case_match; [done|]).
  match goal with |- (?e ≫= _ = _) → _ => assert (∀ st', e = inr st' → cstate st' = cstate st1) as He; [|destruct e as [|st2]; [done|]] end.
  { intros st'. repeat match goal with |- (if ?b then _ else _) = _ → _ => destruct b end;
      [|by apply execute_quiet|by intros [= <-]].
    destruct (if fRequireMinimal flags then _ else _) as [|[]]; [done|by intros [= <-]|done]. }
  specialize (He _ eq_refl). cbn [mbind sum_mbind]. case_match; [done|]. intros [= <-]. simpl. by rewrite He.
Qed.

Lemma eval_loop_quiet fuel xs pos (st st' : EvalState (C:=C)) :
  Forall quiet_instr xs → eval_loop checker flags sigversion fuel (concat xs) pos st = inr st' → cstate st' = cstate st.
Proof.
  intros Hxs. revert fuel pos st. induction Hxs as [|x xs Hx _ IH]; intros fuel pos st.
  { destruct fuel; by intros [= <-]. }
  assert (0 < length x)%nat by (by apply is_instr_nonempty, Hx). cbn [concat].
  destruct (x ++ concat xs) as [|b pc] eqn:E; [apply (f_equal length) in E; rewrite length_app in E; simpl in E; lia|].
  destruct fuel as [|fuel]; [done|]. cbn [eval_loop]. rewrite <-E.
  destruct (step checker flags sigversion (x ++ concat xs) pos st) as [|[pc' st1]] eqn:Hstep; [done|].
  destruct (step_quiet _ _ _ _ _ Hx Hstep) as [Hpc Hst]. simpl in Hpc, Hst. subst pc'. rewrite <-Hst. apply IH.
Qed.

Lemma EvalScript_quiet s script e c s' e' c' :
  quiet script → EvalScript checker flags sigversion s script e c = inr (s', e', c') → c' = c.
Proof.
  intros (xs & -> & Hxs). unfold EvalScript. destruct (assert _); [done|]. cbn [mbind sum_mbind]. case_match; [done|].
  match goal with |- context [eval_loop _ _ _ ?fu ?pc ?pos ?st] =>
    destruct (eval_loop checker flags sigversion fu pc pos st) as [[[]| | |]|st'] eqn:Hl; try done end.
  apply eval_loop_quiet in Hl; [|done]. cbn [caught mbind sum_mbind]. case_match; [done|]. by intros [= <- <- <-].
Qed.
End Quiet.

Lemma quiet_nil : quiet [].
Proof. by exists []. Qed.
Lemma quiet_push data : 0 < zlen data < 76 → quiet (push_data data).
Proof.
  intros Hd. rewrite push_data_small by lia. exists [zlen data :: data]. split; [simpl; by rewrite app_nil_r|]. constructor; [|constructor].
  split.
  - exists [zlen data], (zlen data), data. split; [done|]. left. left. unfold OP_PUSHDATA1. split_and!; (done || lia).
  - change ((zlen data :: data).[0]) with (zlen data). unfold checks_signature, OP_CHECKSIG, OP_CHECKSIGVERIFY, OP_CHECKSIGADD,
      OP_CHECKMULTISIG, OP_CHECKMULTISIGVERIFY. lia.
Qed.
Lemma quiet_app a b : quiet a → quiet b → quiet (a ++ b).
Proof. intros (xs & -> & Hxs) (ys & -> & Hys). exists (xs ++ ys). rewrite concat_app. split; [done|]. by apply Forall_app. Qed.
Lemma quiet_op op : OP_PUSHDATA4 < op → checks_signature op = false → quiet [op].
Proof.
  intros Hop Hq. exists [[op]]. split; [done|]. constructor; [|constructor]. split; [|done].
  exists [op], op, []. split; [done|]. by right.
Qed.

Lemma witness_program_quiet spk v program : bytes_ok spk → IsWitnessProgram spk = Some (v, program) → quiet spk.
Proof.
  intros Hok (-> & Hv & Hp)%IsWitnessProgram_iff; [|done]. apply quiet_app; [|apply quiet_push; lia].
  rewrite push_int64_small by lia. destruct (Z.eqb_spec v 0) as [->|].
  - exists [[0]]. split; [done|]. constructor; [|constructor]. split; [|done]. exists [0], 0, []. split; [done|]. by left; left.
  - apply quiet_op; [unfold OP_PUSHDATA4; lia|]. unfold checks_signature, OP_CHECKSIG, OP_CHECKSIGVERIFY, OP_CHECKSIGADD,
      OP_CHECKMULTISIG, OP_CHECKMULTISIGVERIFY. lia.
Qed.

Lemma p2sh_quiet spk : IsPayToScriptHash spk = true → quiet spk.
Proof.
  unfold IsPayToScriptHash. rewrite !andb_true_iff, !Z.eqb_eq. intros [[[Hl H0] H1] H22].
  destruct spk as [|b0 [|b1 h]]; [done..|]. unfold zget in *. simpl in H0, H1. subst b0 b1.
  destruct (exists_last (l:=h)) as (h' & b & ->); [by destruct h|]. simpl in Hl. rewrite length_app in Hl. simpl in Hl.
  assert (length h' = 20%nat) as Hh by lia.
  assert (b = OP_EQUAL) as ->.
  { change (default 0 ((h' ++ [b]) !! 20%nat) = OP_EQUAL) in H22. rewrite lookup_app_r in H22 by lia. by rewrite Hh in H22. }
  change (quiet ([OP_HASH160] ++ (20 :: h') ++ [OP_EQUAL])).
  replace (20 :: h') with (push_data h') by (rewrite push_data_small by lia; by rewrite Hh).
  apply quiet_app; [by apply quiet_op|]. apply quiet_app; [apply quiet_push; lia|by apply quiet_op].
Qed.

(** ** [VerifyScript] with two checkers that agree *)

Section Verify.
Context `{SIGS : Secp256k1Signatures} `{abi : !ABI} {C1 C2 : Type} (ck1 : BaseSignatureChecker C1) (ck2 : BaseSignatureChecker C2).
Context (flags : Z) (RC : SigVersion → C1 → C2 → Prop) (c01 : C1) (c02 : C2).
(** They agree for every kind of script from the initial states on. *)
Context (Hck : ∀ v, checkers_agree ck1 ck2 v (RC v)) (H0 : ∀ v, RC v c01 c02).

Let any (_ : C1) (_ : C2) : Prop := True.

Lemma ExecuteWitnessScript_related s script v e :
  related any (ExecuteWitnessScript ck1 flags s script v e c01) (ExecuteWitnessScript ck2 flags s script v e c02).
Proof.
  unfold ExecuteWitnessScript. apply related_same; intros success. do 2 (apply related_if; [done|]).
  eapply related_bind; [apply (EvalScript_related _ _ _ _ (RC v)); [apply Hck|apply H0]|].
  intros [[s1 e1] c1] [[s2 e2] c2] [Hs _]. simpl in Hs. simplify_eq. destruct s2 as [|top [|]]; try done. by apply related_if.
Qed.

Lemma VerifyTaproot_related witness s program e :
  related any (VerifyTaproot ck1 flags witness s program e c01) (VerifyTaproot ck2 flags witness s program e c02).
Proof.
  unfold VerifyTaproot. destruct s as [|control [|script s]]; [done| |].
  { eapply related_bind; [apply (schnorr_agree _ _ _ _ (Hck TAPROOT)), H0|]. by intros [] [] _. }
  apply related_if; [done|]. cbv zeta. apply related_same; intros ok. apply related_if; [done|].
  apply related_if; [apply ExecuteWitnessScript_related|by apply related_if].
Qed.

Lemma VerifyWitnessProgram_related witness v program is_p2sh :
  related any (VerifyWitnessProgram ck1 flags witness v program is_p2sh c01) (VerifyWitnessProgram ck2 flags witness v program is_p2sh c02).
Proof.
  unfold VerifyWitnessProgram. cbv zeta. apply related_if.
  { apply related_if; [|apply related_if; [|done]].
    - destruct (rev witness); [done|]. apply related_if; [done|apply ExecuteWitnessScript_related].
    - apply related_if; [done|apply ExecuteWitnessScript_related]. }
  apply related_if; [|by repeat (apply related_if; [done|])]. apply related_if; [done|].
  destruct (rev witness) as [|annex [|]]; [done|apply VerifyTaproot_related|]. apply related_if; apply VerifyTaproot_related.
Qed.

(** The stack and [hadWitness]. *)
Let same_result (r1 : list bytes * bool * C1) (r2 : list bytes * bool * C2) : Prop := r1.1 = r2.1.

Lemma witness_step_related witness v program is_p2sh (s : list bytes) :
  related same_result
    (c ← error_kept (VerifyWitnessProgram ck1 flags witness v program is_p2sh c01); mret (resize_1 s, true, c))
    (c ← error_kept (VerifyWitnessProgram ck2 flags witness v program is_p2sh c02); mret (resize_1 s, true, c)).
Proof.
  pose proof (VerifyWitnessProgram_related witness v program is_p2sh) as H.
  destruct (VerifyWitnessProgram ck1 _ _ _ _ _ _) as [[[]| | |]|], (VerifyWitnessProgram ck2 _ _ _ _ _ _) as [[[]| | |]|];
    simpl in H; simplify_eq; done.
Qed.

Lemma verify_witness_related scriptSig spk witness s c1 c2 :
  (IsWitnessProgram spk ≠ None → scriptSig = [] → c1 = c01 ∧ c2 = c02) → RC BASE c1 c2 →
  related (λ r1 r2, r1.1 = r2.1 ∧ (IsWitnessProgram spk = None → r1.2 = c1 ∧ r2.2 = c2))
    (verify_witness ck1 flags scriptSig spk witness s c1) (verify_witness ck2 flags scriptSig spk witness s c2).
Proof.
  intros Hq Hc. unfold verify_witness. apply related_if; [|done]. destruct (IsWitnessProgram spk) as [[v program]|]; [|done].
  destruct scriptSig; [|done]. destruct Hq as [-> ->]; [done..|]. cbn [length Nat.eqb negb].
  pose proof (witness_step_related witness v program false s) as H.
  match goal with |- related _ ?a ?b => destruct a as [|[]], b as [|[]] end; simpl in *; try done.
Qed.

Lemma verify_p2sh_related scriptSig spk witness s stackCopy h c1 c2 :
  IsPayToScriptHash spk = true → RC BASE c1 c2 → bytes_ok scriptSig →
  (∀ redeem v program, IsWitnessProgram redeem = Some (v, program) → scriptSig = push_data redeem → c1 = c01 ∧ c2 = c02) →
  related same_result (verify_p2sh ck1 flags scriptSig spk witness s stackCopy h c1) (verify_p2sh ck2 flags scriptSig spk witness s stackCopy h c2).
Proof.
  intros Hp Hc Hok Hq. unfold verify_p2sh. rewrite Hp. apply related_if; [|done]. apply related_if; [done|].
  destruct stackCopy as [|redeem s1]; [done|].
  pose proof (EvalScript_related ck1 ck2 flags BASE (RC BASE) (Hck BASE) s1 redeem ScriptExecutionData_new c1 c2 Hc) as HE.
  destruct (EvalScript ck1 _ _ _ _ _ _) as [t1|[[s3 e3] c3]] eqn:HE1, (EvalScript ck2 _ _ _ _ _ _) as [t2|[[s4 e4] c4]] eqn:HE2;
    simpl in HE; try done. destruct HE as [Hs Hc']. simpl in Hs, Hc'. simplify_eq. cbn [mbind sum_mbind].
  apply related_same; intros []. apply related_if; [|done]. destruct (IsWitnessProgram redeem) as [[v program]|] eqn:Hvp; [|done].
  case_bool_decide as Hsig; [|done]. cbn [negb]. destruct (Hq redeem v program Hvp Hsig) as [-> ->].
  assert (quiet redeem) as Hredeem.
  { eapply witness_program_quiet; [|done]. rewrite Hsig in Hok. destruct (IsWitnessProgram_drop _ _ _ Hvp) as [-> Hlen].
    rewrite length_drop in Hlen. rewrite push_data_small in Hok by lia. by apply digits_ok_cons in Hok as [_ ?]. }
  rewrite (EvalScript_quiet ck1 _ _ _ _ _ _ _ _ _ Hredeem HE1), (EvalScript_quiet ck2 _ _ _ _ _ _ _ _ _ Hredeem HE2).
  apply witness_step_related.
Qed.

Lemma VerifyScript_related scriptSig spk witness :
  bytes_ok scriptSig → bytes_ok spk →
  related any (VerifyScript ck1 flags scriptSig spk witness c01) (VerifyScript ck2 flags scriptSig spk witness c02).
Proof.
  intros Hsig Hspk. unfold VerifyScript. apply related_if; [done|].
  pose proof (EvalScript_related ck1 ck2 flags BASE (RC BASE) (Hck BASE) [] scriptSig ScriptExecutionData_new c01 c02 (H0 BASE)) as HA.
  destruct (EvalScript ck1 flags BASE [] _ _ _) as [|[[s e] c1]] eqn:HA1, (EvalScript ck2 flags BASE [] _ _ _) as [|[[s' e'] c2]] eqn:HA2;
    simpl in HA; try done. destruct HA as [Hs Hc]. simpl in Hs, Hc. simplify_eq. cbn [mbind sum_mbind]. cbv zeta.
  pose proof (EvalScript_related ck1 ck2 flags BASE (RC BASE) (Hck BASE) s' spk ScriptExecutionData_new c1 c2 Hc) as HB.
  destruct (EvalScript ck1 flags BASE s' _ _ _) as [|[[t f] c3]] eqn:HB1, (EvalScript ck2 flags BASE s' _ _ _) as [|[[t' f'] c4]] eqn:HB2;
    simpl in HB; try done. destruct HB as [Ht Hc']. simpl in Ht, Hc'. simplify_eq. cbn [mbind sum_mbind].
  assert (quiet scriptSig → quiet spk → c3 = c01 ∧ c4 = c02) as Hquiet.
  { intros Hq1 Hq2. apply EvalScript_quiet in HA1, HA2, HB1, HB2; try done. by subst. }
  apply related_same; intros _.
  eapply related_bind; [apply verify_witness_related; [|done]|].
  { intros Hvp ->. destruct (IsWitnessProgram spk) as [[v program]|] eqn:E; [|done].
    apply Hquiet; [apply quiet_nil|by eapply witness_program_quiet]. }
  intros [[s1 h1] c5] [[s2 h2] c6] [Heq Hnone]. simpl in Heq, Hnone. simplify_eq. eapply (related_bind same_result).
  - destruct (IsPayToScriptHash spk) eqn:Hp; [|unfold verify_p2sh; by rewrite Hp, andb_false_r].
    destruct (IsWitnessProgram spk) as [vp|] eqn:Hvp; [by rewrite (witness_program_not_p2sh _ _ Hvp) in Hp|].
    destruct (Hnone eq_refl) as [-> ->]. apply verify_p2sh_related; try done.
    intros redeem v program Hr ->. apply Hquiet; [|by apply p2sh_quiet]. apply quiet_push.
    destruct (IsWitnessProgram_drop _ _ _ Hr) as [-> Hl]. rewrite length_drop in Hl. unfold IsWitnessProgram in Hr.
    destruct (Z.ltb_spec (zlen redeem) 4); [done|]. lia.
  - intros [[s3 h3] c7] [[s4 h4] c8] Heq. unfold same_result in Heq. simpl in Heq. simplify_eq.
    apply related_same; intros _. by apply related_same; intros _.
Qed.
End Verify.

(** ** The checker of a transaction *)

Lemma tx_Schnorr_state `{SIGS : Secp256k1Signatures} tx nIn d mdb sig key v e (c c' : SigHashCache) :
  tx_CheckSchnorrSignature tx nIn d mdb sig key v e c =
  (r ← tx_CheckSchnorrSignature tx nIn d mdb sig key v e c'; mret (r.1, c)).
Proof.
  unfold tx_CheckSchnorrSignature. destruct (assert (match v with TAPROOT | TAPSCRIPT => true | _ => false end)); [done|]. cbn [mbind sum_mbind].
  destruct (assert (length key =? 32)%nat); [done|].
  cbn [mbind sum_mbind]. destruct (_ && _); [done|]. destruct (if (length sig =? 65)%nat then _ else _) as [ht sig'].
  destruct (_ && _); [done|]. destruct d as [d|]; [|by destruct mdb].
  destruct (SignatureHashSchnorr _ _ _ _ _ _ _) as [|[[h e']|]]; [done| |done]. cbn [mbind sum_mbind].
  destruct (asserted _) as [|valid]; [done|]. cbn [mbind sum_mbind]. by destruct (negb valid).
Qed.

Section Transaction.
Context `{SIGS : Secp256k1Signatures} `{abi : !ABI}.
Context (tx : CTransaction) (nIn : nat) (amount : Z) (d : option PrecomputedTransactionData) (mdb : MissingDataBehavior).

(** It has no state and computes every legacy and version 0 digest from its definition. *)
Definition reference_checker : BaseSignatureChecker unit := {|
  CheckECDSASignature sig key code v _ :=
    if negb (CPubKey_IsValid (CPubKey_Set key)) || (length sig =? 0)%nat then mret (false, ()) else
    if is_witness_v0 v && (amount <? 0) then r ← HandleMissingData mdb; mret (default false r, ()) else
    mret (Verify (CPubKey_Set key) (sighash_spec tx nIn amount v code (back sig)) (take (length sig - 1) sig), ());
  CheckSchnorrSignature sig key v e _ :=
    '(e, _) ← tx_CheckSchnorrSignature tx nIn d mdb sig key v e SigHashCache_new; mret (e, ());
  CheckLockTime := tx_CheckLockTime tx nIn;
  CheckSequence := tx_CheckSequence tx nIn |}.

Lemma tx_checkers_agree v :
  (nIn < length (vin tx))%nat → precomputed_for tx d →
  checkers_agree (GenericTransactionSignatureChecker tx nIn amount d mdb) reference_checker v (λ m _, cache_ok tx nIn amount v m).
Proof.
  intros Hin Hd. split; [done..| |].
  - intros sig key code m u Hm. cbn [CheckECDSASignature GenericTransactionSignatureChecker reference_checker].
    unfold tx_CheckECDSASignature. cbv zeta. destruct (negb _); [done|]. destruct (length sig =? 0)%nat; [done|]. cbn [orb].
    apply related_if; [by apply related_same|].
    destruct (SignatureHash_spec tx nIn amount v d m code (back sig) Hin Hd Hm) as [_ (m' & -> & Hm')]. done.
  - intros sig key e m u Hm. cbn [CheckSchnorrSignature GenericTransactionSignatureChecker reference_checker].
    rewrite (tx_Schnorr_state tx nIn d mdb sig key v e m SigHashCache_new).
    by destruct (tx_CheckSchnorrSignature _ _ _ _ _ _ _ _ _) as [|[]].
Qed.

(** C13: verifying an input of a transaction gives the same result, true or the same error, with the
    cache of midstates and the data precomputed for the transaction as when every digest of an
    ECDSA signature is computed from its definition. *)
Theorem verify_script_caches_transparent flags scriptSig spk witness :
  (nIn < length (vin tx))%nat → precomputed_for tx d → bytes_ok scriptSig → bytes_ok spk →
  (VerifyScript (GenericTransactionSignatureChecker tx nIn amount d mdb) flags scriptSig spk witness SigHashCache_new ≫= λ _, mret ()) =
  VerifyScript reference_checker flags scriptSig spk witness ().
Proof.
  intros Hin Hd H1 H2.
  pose proof (VerifyScript_related (GenericTransactionSignatureChecker tx nIn amount d mdb) reference_checker flags
    (λ v m _, cache_ok tx nIn amount v m) SigHashCache_new () (λ v, tx_checkers_agree v Hin Hd)
    (λ v, cache_ok_new tx nIn amount v) scriptSig spk witness H1 H2) as Hr.
  destruct (VerifyScript (GenericTransactionSignatureChecker _ _ _ _ _) _ _ _ _ _), (VerifyScript reference_checker _ _ _ _ _) as [|[]];
    simpl in Hr; try done; by subst.
Qed.
End Transaction.
