(* ===== verification/CuckooCache.v ===== *)
(** * The cuckoo cache: cuckoocache.h, util/fastrange.h, util/hasher.h

    A set of 256-bit entries in a table where each entry may be in one of eight places.  Entries are
    marked for collection and overwritten later; an insertion moves entries around and may drop one.
    An access out of range is [None]; the theory shows that there is none.  The conversion of
    [std::log2] of a [float], which is not exact, is a parameter. *)

From S2P Require Import Prelude Primitives Script.
From Stdlib Require Import ZArith Lia.
From stdpp Require Import base sets fin_sets option list numbers.

Open Scope Z_scope.
Open Scope kernel_scope.

(** Accesses to arrays. *)
Definition get_at {A} (l : list A) (i : Z) : option A := l !! Z.to_nat i.
Definition set_at {A} (l : list A) (i : Z) (x : A) : option (list A) :=
  if (Z.to_nat i <? length l)%nat then Some (<[Z.to_nat i := x]> l) else None.

Definition FastRange32 (x n : Z) : Z := u32 ((u64 (x * n)) .>> 32).

(** [SignatureCacheHasher]: the words of the entry. *)
Definition SignatureCacheHasher (hash_select : nat) (key : uint256) : Z := undigits 8 (take 4 (drop (4 * hash_select) key)).

(** ** [bit_packed_atomic_flags] *)

Definition flags_make (size : Z) : list Z := replicate (Z.to_nat (u32 (size + 7) / 8)) 0xff.

Definition bit_set (mem : list Z) (s : Z) : option (list Z) :=
  b ← get_at mem (s .>> 3); set_at mem (s .>> 3) (b .| u8 (1 .<< (s .& 7))).
Definition bit_unset (mem : list Z) (s : Z) : option (list Z) :=
  b ← get_at mem (s .>> 3); set_at mem (s .>> 3) (b .& u8 (Z.lnot (1 .<< (s .& 7)))).
Definition bit_is_set (mem : list Z) (s : Z) : option bool :=
  b ← get_at mem (s .>> 3); Some (negb ((1 .<< (s .& 7)) .& b =? 0)).

(** ** [cache] *)

Record cache := {
  table : list uint256;
  size : Z;
  collection_flags : list Z;
  epoch_flags : list bool;
  epoch_heuristic_counter : Z;
  epoch_size : Z;
  depth_limit : Z
}.

Definition cache_new : cache :=
  {| table := []; size := 0; collection_flags := flags_make 0; epoch_flags := []; epoch_heuristic_counter := 0;
     epoch_size := 0; depth_limit := 0 |}.

(** Assignments to members. *)
Definition set_table (c : cache) (t : list uint256) : cache :=
  {| table := t; size := size c; collection_flags := collection_flags c; epoch_flags := epoch_flags c;
     epoch_heuristic_counter := epoch_heuristic_counter c; epoch_size := epoch_size c; depth_limit := depth_limit c |}.
Definition set_collection (c : cache) (f : list Z) : cache :=
  {| table := table c; size := size c; collection_flags := f; epoch_flags := epoch_flags c;
     epoch_heuristic_counter := epoch_heuristic_counter c; epoch_size := epoch_size c; depth_limit := depth_limit c |}.
Definition set_epochs (c : cache) (f : list bool) : cache :=
  {| table := table c; size := size c; collection_flags := collection_flags c; epoch_flags := f;
     epoch_heuristic_counter := epoch_heuristic_counter c; epoch_size := epoch_size c; depth_limit := depth_limit c |}.
Definition set_counter (c : cache) (n : Z) : cache :=
  {| table := table c; size := size c; collection_flags := collection_flags c; epoch_flags := epoch_flags c;
     epoch_heuristic_counter := n; epoch_size := epoch_size c; depth_limit := depth_limit c |}.

Definition compute_hashes (c : cache) (e : uint256) : list Z :=
  map (λ k, FastRange32 (SignatureCacheHasher k e) (size c)) (seq 0 8).

Definition invalid : Z := 2 ^ 32 - 1.

Definition allow_erase (c : cache) (n : Z) : option cache := f ← bit_set (collection_flags c) n; Some (set_collection c f).
Definition please_keep (c : cache) (n : Z) : option cache := f ← bit_unset (collection_flags c) n; Some (set_collection c f).

(** The two loops of [epoch_check], over the indices that are left. *)
Fixpoint epoch_count (c : cache) (idx : list nat) (epoch_unused_count : Z) : option Z :=
  match idx with
  | [] => Some epoch_unused_count
  | i :: idx =>
      epoch ← epoch_flags c !! i;
      collected ← (if (epoch : bool) then bit_is_set (collection_flags c) (Z.of_nat i) else Some true);
      epoch_count c idx (u32 (epoch_unused_count + Z.b2z (epoch && negb collected)))
  end.
Fixpoint epoch_age (c : cache) (idx : list nat) : option cache :=
  match idx with
  | [] => Some c
  | i :: idx =>
      epoch ← epoch_flags c !! i;
      c ← (if (epoch : bool) then f ← set_at (epoch_flags c) (Z.of_nat i) false; Some (set_epochs c f) else allow_erase c (Z.of_nat i));
      epoch_age c idx
  end.
Definition epoch_check (c : cache) : option cache :=
  if negb (epoch_heuristic_counter c =? 0) then Some (set_counter c (epoch_heuristic_counter c - 1)) else
  epoch_unused_count ← epoch_count c (seq 0 (Z.to_nat (size c))) 0;
  if epoch_size c <=? epoch_unused_count then
    c ← epoch_age c (seq 0 (Z.to_nat (size c))); Some (set_counter c (epoch_size c))
  else Some (set_counter c (Z.max 1 (Z.max (epoch_size c / 16) (u32 (epoch_size c - epoch_unused_count))))).

(** [log2f n] is [static_cast<uint8_t>(std::log2(static_cast<float>(n)))]. *)
Definition setup (log2f : Z → Z) (c : cache) (new_size : Z) : cache :=
  let size := Z.max 2 new_size in
  let epoch_size := Z.max 1 (u32 (45 * size) / 100) in
  {| table := resize (Z.to_nat size) uint256_zero (table c); size := size; collection_flags := flags_make size;
     epoch_flags := resize (Z.to_nat size) false (epoch_flags c);
     epoch_heuristic_counter := epoch_size; epoch_size := epoch_size; depth_limit := log2f size |}.
Definition setup_bytes (log2f : Z → Z) (c : cache) (bytes : Z) : cache * (Z * Z) :=
  let requested_num_elems := Z.min (bytes / 32) (2 ^ 32 - 1) in
  let c := setup log2f c requested_num_elems in
  (c, (size c, u64 (size c * 32))).

(** The first of the places that holds [e]. *)
Fixpoint find_entry (c : cache) (e : uint256) (locs : list Z) : option (option Z) :=
  match locs with
  | [] => Some None
  | loc :: locs => x ← get_at (table c) loc; if bool_decide (x = e) then Some (Some loc) else find_entry c e locs
  end.
(** The first of the places that may be collected. *)
Fixpoint find_empty (c : cache) (locs : list Z) : option (option Z) :=
  match locs with
  | [] => Some None
  | loc :: locs => b ← bit_is_set (collection_flags c) loc; if (b : bool) then Some (Some loc) else find_empty c locs
  end.

(** [std::find(...) - begin]. *)
Fixpoint position (x : Z) (l : list Z) : Z :=
  match l with [] => 0 | y :: l => if y =? x then 0 else 1 + position x l end.

(** [please_keep(loc); epoch_flags[loc] = last_epoch]. *)
Definition keep (c : cache) (loc : Z) (last_epoch : bool) : option cache :=
  c ← please_keep c loc; f ← set_at (epoch_flags c) loc last_epoch; Some (set_epochs c f).

(** The loop over [depth], with the number of iterations left. *)
Fixpoint insert_loop (depth : nat) (c : cache) (e : uint256) (last_loc : Z) (last_epoch : bool) (locs : list Z) : option cache :=
  match depth with
  | O => Some c
  | S depth =>
      empty ← find_empty c locs;
      match empty with
      | Some loc => t ← set_at (table c) loc e; keep (set_table c t) loc last_epoch
      | None =>
          last_loc ← get_at locs ((1 + position last_loc locs) .& 7);
          e' ← get_at (table c) last_loc;
          t ← set_at (table c) last_loc e;
          epoch ← get_at (epoch_flags c) last_loc;
          f ← set_at (epoch_flags c) last_loc last_epoch;
          let c := set_epochs (set_table c t) f in
          insert_loop depth c e' last_loc epoch (compute_hashes c e')
      end
  end.
Definition insert (e : uint256) (c : cache) : option cache :=
  c ← epoch_check c;
  let locs := compute_hashes c e in
  found ← find_entry c e locs;
  match found with
  | Some loc => keep c loc true
  | None => insert_loop (Z.to_nat (depth_limit c)) c e invalid true locs
  end.

Definition contains (e : uint256) (erase : bool) (c : cache) : option (bool * cache) :=
  found ← find_entry c e (compute_hashes c e);
  match found with
  | Some loc => c ← (if erase then allow_erase c loc else Some c); Some (true, c)
  | None => Some (false, c)
  end.

(** ** Theory *)

Lemma get_at_Some {A} (l : list A) i : 0 ≤ i < zlen l → is_Some (get_at l i).
Proof. intros. unfold get_at. apply lookup_lt_is_Some. lia. Qed.

Lemma set_at_Some {A} (l : list A) i x : 0 ≤ i < zlen l → set_at l i x = Some (<[Z.to_nat i := x]> l).
Proof. intros. unfold set_at. rewrite (proj2 (Nat.ltb_lt _ _)) by lia. done. Qed.

(** Putting [e] in the place of [x]. *)
Lemma insert_swap {A} (l : list A) i x e : l !! i = Some x → x :: <[i := e]> l ≡ₚ e :: l.
Proof.
  intros Hi. rewrite <-(take_drop_middle l i x Hi) at 2. rewrite insert_take_drop by by eapply lookup_lt_Some.
  rewrite <-!Permutation_middle. apply Permutation_swap.
Qed.

Lemma FastRange32_range x n : urange 32 x → 0 < n < 2 ^ 32 → 0 ≤ FastRange32 x n < n.
Proof.
  unfold urange, FastRange32. intros Hx Hn. assert (0 ≤ x * n < 2 ^ 32 * n) by nia.
  rewrite (uwrap_small 64) by (unfold urange; lia). rewrite Z.shiftr_div_pow2 by lia.
  assert (0 ≤ x * n / 2 ^ 32 < n) by (split; [apply Z.div_pos; lia|apply Z.div_lt_upper_bound; lia]).
  rewrite uwrap_small by (unfold urange; lia). lia.
Qed.

Lemma SignatureCacheHasher_range k e : uint256_ok e → (k < 8)%nat → urange 32 (SignatureCacheHasher k e).
Proof.
  intros [Hl Hb] Hk. unfold SignatureCacheHasher.
  pose proof (undigits_range 8 ltac:(lia) (take 4 (drop (4 * k) e))) as H.
  rewrite length_take, length_drop, Hl in H. replace (Nat.min 4 (32 - 4 * k)) with 4%nat in H by lia. apply H.
  by apply Forall_take, Forall_drop.
Qed.

(** The number of places and everything about the arrays. *)
Record cache_ok (c : cache) : Prop := {
  co_size : 2 ≤ size c ≤ 2 ^ 32 - 8;
  co_table : zlen (table c) = size c;
  co_flags : zlen (collection_flags c) = (size c + 7) / 8;
  co_epochs : zlen (epoch_flags c) = size c;
  co_depth : 1 ≤ depth_limit c;
  co_entries : Forall uint256_ok (table c);
  (** An entry other than the initial one is in one of its places, *)
  co_placed i x : table c !! i = Some x → x ≠ uint256_zero → Z.of_nat i ∈ compute_hashes c x;
  (** and only there. *)
  co_unique : NoDup (filter (λ x, x ≠ uint256_zero) (table c))
}.

Lemma compute_hashes_range c e loc : cache_ok c → uint256_ok e → loc ∈ compute_hashes c e → 0 ≤ loc < size c.
Proof.
  intros Hc He Hl. apply list_elem_of_fmap in Hl as (k & -> & Hk). apply elem_of_seq in Hk.
  apply FastRange32_range; [apply SignatureCacheHasher_range; [done|lia]|]. pose proof (co_size c Hc). lia.
Qed.

(** ** The arrays of flags *)

Lemma shiftr_3 s : s .>> 3 = s / 8.
Proof. by rewrite Z.shiftr_div_pow2. Qed.

Section Flags.
Context (mem : list Z) (s : Z) (Hs : 0 ≤ s) (Hlen : s / 8 < zlen mem).

Lemma flag_byte : ∃ b, get_at mem (s .>> 3) = Some b.
Proof. rewrite shiftr_3. pose proof (Z.div_pos s 8 Hs ltac:(lia)). apply get_at_Some. lia. Qed.

Lemma bit_set_length : ∃ mem', bit_set mem s = Some mem' ∧ length mem' = length mem.
Proof.
  unfold bit_set. destruct flag_byte as [b ->]. cbn [mbind option_bind]. pose proof (Z.div_pos s 8 Hs ltac:(lia)).
  rewrite shiftr_3, set_at_Some by lia. eexists. split; [done|]. apply length_insert.
Qed.
Lemma bit_unset_length : ∃ mem', bit_unset mem s = Some mem' ∧ length mem' = length mem.
Proof.
  unfold bit_unset. destruct flag_byte as [b ->]. cbn [mbind option_bind]. pose proof (Z.div_pos s 8 Hs ltac:(lia)).
  rewrite shiftr_3, set_at_Some by lia. eexists. split; [done|]. apply length_insert.
Qed.
Lemma bit_is_set_Some : is_Some (bit_is_set mem s).
Proof. unfold bit_is_set. destruct flag_byte as [b ->]. by eexists. Qed.
End Flags.

Lemma flag_index n s : 0 ≤ s < n → s / 8 < (n + 7) / 8.
Proof. intros. zlia. Qed.

(** Caches that differ in their flags and the counter only. *)
Definition same_entries (c c' : cache) : Prop :=
  table c' = table c ∧ size c' = size c ∧ depth_limit c' = depth_limit c ∧ epoch_size c' = epoch_size c ∧
  length (collection_flags c') = length (collection_flags c) ∧ length (epoch_flags c') = length (epoch_flags c).

Lemma same_entries_ok c c' : same_entries c c' → cache_ok c → cache_ok c'.
Proof.
  intros (H1 & H2 & H3 & H4 & H5 & H6) [K1 K2 K3 K4 K5 K6 K7 K8]. split; rewrite ?H1, ?H2, ?H3, ?H5, ?H6; try done.
  intros i x Hi Hx. unfold compute_hashes. rewrite H2. by apply K7.
Qed.

Lemma same_entries_trans c1 c2 c3 : same_entries c1 c2 → same_entries c2 c3 → same_entries c1 c3.
Proof. unfold same_entries. intuition congruence. Qed.

Section Operations.
Context (c : cache) (Hc : cache_ok c).

Lemma allow_erase_spec n : 0 ≤ n < size c → ∃ c', allow_erase c n = Some c' ∧ same_entries c c'.
Proof.
  intros Hn. unfold allow_erase. destruct (bit_set_length (collection_flags c) n) as (f & -> & Hf); [lia| |].
  - rewrite (co_flags c Hc). by apply flag_index.
  - eexists. split; [done|]. by split_and!.
Qed.

Lemma keep_spec n b : 0 ≤ n < size c → ∃ c', keep c n b = Some c' ∧ same_entries c c'.
Proof.
  intros Hn. unfold keep, please_keep. destruct (bit_unset_length (collection_flags c) n) as (f & -> & Hf); [lia| |].
  - rewrite (co_flags c Hc). by apply flag_index.
  - cbn [mbind option_bind set_collection epoch_flags]. rewrite set_at_Some by (rewrite (co_epochs c Hc); lia).
    eexists. split; [done|]. unfold same_entries. cbn. rewrite length_insert. by split_and!.
Qed.

Lemma bit_is_set_ok n : 0 ≤ n < size c → is_Some (bit_is_set (collection_flags c) n).
Proof. intros Hn. apply bit_is_set_Some; [lia|]. rewrite (co_flags c Hc). by apply flag_index. Qed.

Lemma find_entry_spec e locs :
  (∀ loc, loc ∈ locs → 0 ≤ loc < size c) →
  ∃ r, find_entry c e locs = Some r ∧
    match r with
    | Some loc => loc ∈ locs ∧ table c !! Z.to_nat loc = Some e
    | None => ∀ loc, loc ∈ locs → table c !! Z.to_nat loc ≠ Some e
    end.
Proof.
  induction locs as [|loc locs IH]; intros Hl; cbn [find_entry]; [exists None; split; [done|set_solver]|].
  destruct (get_at_Some (table c) loc) as [x Hx]; [rewrite (co_table c Hc); apply Hl; set_solver|].
  rewrite Hx. cbn [mbind option_bind]. case_bool_decide as Hd.
  - exists (Some loc). split; [done|]. split; [set_solver|]. by rewrite <-Hd.
  - destruct IH as (r & -> & Hr); [set_solver|]. exists r. split; [done|]. destruct r; [set_solver|].
    intros l [->|Hin]%elem_of_cons; [|by apply Hr]. unfold get_at in Hx. rewrite Hx. congruence.
Qed.

Lemma find_empty_spec locs :
  (∀ loc, loc ∈ locs → 0 ≤ loc < size c) →
  ∃ r, find_empty c locs = Some r ∧ match r with Some loc => loc ∈ locs | None => True end.
Proof.
  induction locs as [|loc locs IH]; intros Hl; cbn [find_empty]; [by exists None|].
  destruct (bit_is_set_ok loc) as [b Hb]; [apply Hl; set_solver|]. rewrite Hb. cbn [mbind option_bind].
  destruct b; [exists (Some loc); split; [done|set_solver]|]. destruct IH as (r & -> & Hr); [set_solver|].
  exists r. split; [done|]. destruct r; set_solver.
Qed.

(** An entry that is in none of its places is not in the table. *)
Lemma absent e : e ≠ uint256_zero → (∀ loc, loc ∈ compute_hashes c e → table c !! Z.to_nat loc ≠ Some e) → e ∉ table c.
Proof.
  intros He Hl Hin. apply list_elem_of_lookup in Hin as [i Hi]. apply (Hl (Z.of_nat i)); [|by rewrite Nat2Z.id].
  by apply (co_placed c Hc).
Qed.

(** Writing an entry to one of its places. *)
Lemma set_entry_ok e loc x :
  uint256_ok e → loc ∈ compute_hashes c e → table c !! Z.to_nat loc = Some x →
  NoDup (filter (λ x, x ≠ uint256_zero) (e :: table c)) →
  cache_ok (set_table c (<[Z.to_nat loc := e]> (table c))) ∧
  NoDup (filter (λ x, x ≠ uint256_zero) (x :: <[Z.to_nat loc := e]> (table c))).
Proof.
  intros He Hin Hx Hnd. pose proof (compute_hashes_range c e loc Hc He Hin) as Hr.
  assert (Hp : NoDup (filter (λ x, x ≠ uint256_zero) (x :: <[Z.to_nat loc := e]> (table c)))).
  { by rewrite (insert_swap (table c) (Z.to_nat loc) x e Hx). }
  split; [|done]. destruct Hc as [K1 K2 K3 K4 K5 K6 K7 K8]. split; cbn; rewrite ?length_insert; try done.
  - by apply Forall_insert.
  - intros i y Hi Hy. destruct (decide (i = Z.to_nat loc)) as [->|Hne].
    + rewrite list_lookup_insert_eq in Hi by (by eapply lookup_lt_Some). injection Hi as <-. by rewrite Z2Nat.id by lia.
    + rewrite list_lookup_insert_ne in Hi by done. exact (K7 i y Hi Hy).
  - rewrite filter_cons in Hp. case_decide; [by inversion_clear Hp|done].
Qed.
End Operations.

Lemma epoch_count_Some c idx n :
  cache_ok c → (∀ i, i ∈ idx → Z.of_nat i < size c) → is_Some (epoch_count c idx n).
Proof.
  intros Hc. revert n. induction idx as [|i idx IH]; intros n Hi; cbn [epoch_count]; [by eexists|].
  assert (Z.of_nat i < size c) by (apply Hi; set_solver).
  destruct (lookup_lt_is_Some_2 (epoch_flags c) i) as [b Hb]; [pose proof (co_epochs c Hc); lia|].
  rewrite Hb. cbn [mbind option_bind]. destruct b; cbn [andb].
  - destruct (bit_is_set_ok c Hc (Z.of_nat i)) as [b' ->]; [lia|]. cbn [mbind option_bind]. apply IH. set_solver.
  - cbn [mbind option_bind]. apply IH. set_solver.
Qed.

Lemma epoch_age_spec c idx :
  cache_ok c → (∀ i, i ∈ idx → Z.of_nat i < size c) → ∃ c', epoch_age c idx = Some c' ∧ same_entries c c'.
Proof.
  revert c. induction idx as [|i idx IH]; intros c Hc Hi; cbn [epoch_age]; [exists c; split; [done|by split_and!]|].
  assert (Z.of_nat i < size c) by (apply Hi; set_solver).
  destruct (lookup_lt_is_Some_2 (epoch_flags c) i) as [b Hb]; [pose proof (co_epochs c Hc); lia|]. rewrite Hb. cbn [mbind option_bind].
  assert (∃ c1, (if b then f ← set_at (epoch_flags c) (Z.of_nat i) false; Some (set_epochs c f) else allow_erase c (Z.of_nat i)) = Some c1
    ∧ same_entries c c1) as (c1 & -> & H1).
  { destruct b; [|apply allow_erase_spec; [done|lia]]. rewrite set_at_Some by (rewrite (co_epochs c Hc); lia).
    eexists. split; [done|]. unfold same_entries. cbn. rewrite length_insert. by split_and!. }
  cbn [mbind option_bind]. destruct (IH c1) as (c2 & -> & H2).
  - by eapply same_entries_ok.
  - destruct H1 as (_ & -> & _). set_solver.
  - exists c2. split; [done|]. by eapply same_entries_trans.
Qed.

Lemma epoch_check_spec c : cache_ok c → ∃ c', epoch_check c = Some c' ∧ same_entries c c'.
Proof.
  intros Hc. assert (Hi : ∀ i, i ∈ seq 0 (Z.to_nat (size c)) → Z.of_nat i < size c) by (intros i Hi%elem_of_seq; lia).
  unfold epoch_check. destruct (negb _); [eexists; split; [done|by split_and!]|].
  destruct (epoch_count_Some c (seq 0 (Z.to_nat (size c))) 0 Hc Hi) as [n ->]. cbn [mbind option_bind].
  destruct (_ <=? _); [|eexists; split; [done|by split_and!]].
  destruct (epoch_age_spec c (seq 0 (Z.to_nat (size c))) Hc Hi) as (c' & -> & H). eexists. split; [done|]. by destruct H as (? & ? & ? & ? & ? & ?).
Qed.

Lemma position_range x l : 0 ≤ position x l ≤ zlen l.
Proof. induction l as [|y l IH]; cbn [position length]; [lia|]. destruct (y =? x); lia. Qed.

Lemma length_compute_hashes c e : length (compute_hashes c e) = 8%nat.
Proof. done. Qed.

Lemma keep_table c t n b : cache_ok (set_table c t) → 0 ≤ n < size c →
  ∃ c', keep (set_table c t) n b = Some c' ∧ cache_ok c' ∧ table c' = t ∧ size c' = size c.
Proof.
  intros Hc Hn. destruct (keep_spec _ Hc n b Hn) as (c' & -> & H). exists c'. split; [done|]. split; [by eapply same_entries_ok|].
  destruct H as (-> & -> & _). done.
Qed.

(** One entry is dropped, possibly the one to insert. *)
Lemma insert_loop_spec depth c e last_loc last_epoch :
  cache_ok c → uint256_ok e → NoDup (filter (λ x, x ≠ uint256_zero) (e :: table c)) →
  ∃ c' d, insert_loop depth c e last_loc last_epoch (compute_hashes c e) = Some c' ∧ cache_ok c' ∧ size c' = size c ∧
    d :: table c' ≡ₚ e :: table c.
Proof.
  revert c e last_loc last_epoch. induction depth as [|depth IH]; intros c e last_loc last_epoch Hc He Hnd; cbn [insert_loop].
  { by exists c, e. }
  pose proof (λ loc, compute_hashes_range c e loc Hc He) as Hr.
  assert (Hlk : ∀ loc, loc ∈ compute_hashes c e → ∃ x, table c !! Z.to_nat loc = Some x ∧ uint256_ok x).
  { intros loc Hl%Hr. destruct (get_at_Some (table c) loc) as [x Hx]; [rewrite (co_table c Hc); lia|]. exists x. split; [done|].
    by apply (Forall_lookup_1 _ _ _ _ (co_entries c Hc) Hx). }
  assert (Hset : ∀ loc, loc ∈ compute_hashes c e → set_at (table c) loc e = Some (<[Z.to_nat loc := e]> (table c))).
  { intros loc Hl%Hr. apply set_at_Some. rewrite (co_table c Hc). lia. }
  destruct (find_empty_spec c Hc (compute_hashes c e) Hr) as (r & -> & Hin). cbn [mbind option_bind]. destruct r as [loc|].
  - destruct (Hlk loc Hin) as (x & Hx & _). rewrite (Hset loc Hin). cbn [mbind option_bind].
    destruct (set_entry_ok c Hc e loc x He Hin Hx Hnd) as [Hok _].
    destruct (keep_table c (<[Z.to_nat loc := e]> (table c)) loc last_epoch Hok (Hr loc Hin)) as (c' & -> & Hc' & Ht & Hs).
    exists c', x. split; [done|]. split; [done|]. split; [done|]. rewrite Ht. by apply insert_swap.
  - assert (∃ l, get_at (compute_hashes c e) ((1 + position last_loc (compute_hashes c e)) .& 7) = Some l ∧ l ∈ compute_hashes c e)
      as (l & -> & Hl).
    { destruct (get_at_Some (compute_hashes c e) ((1 + position last_loc (compute_hashes c e)) .& 7)) as [l Hl].
      - rewrite length_compute_hashes. change 7 with (Z.ones 3). rewrite Z.land_ones by lia. apply Z.mod_pos_bound. lia.
      - exists l. split; [done|]. unfold get_at in Hl. by eapply list_elem_of_lookup_2. }
    cbn [mbind option_bind]. destruct (Hlk l Hl) as (x & Hx & Hxok). assert (get_at (table c) l = Some x) as -> by done. cbn [mbind option_bind].
    rewrite (Hset l Hl). cbn [mbind option_bind]. pose proof (Hr l Hl) as Hlr.
    destruct (get_at_Some (epoch_flags c) l) as [b ->]; [rewrite (co_epochs c Hc); lia|]. cbn [mbind option_bind].
    rewrite set_at_Some by (rewrite (co_epochs c Hc); lia). cbn [mbind option_bind].
    destruct (set_entry_ok c Hc e l x He Hl Hx Hnd) as [Hok Hnd'].
    set (c1 := set_epochs _ _). assert (Hc1 : cache_ok c1).
    { eapply same_entries_ok; [|exact Hok]. unfold c1, same_entries. cbn. rewrite length_insert. by split_and!. }
    destruct (IH c1 x l b Hc1 Hxok Hnd') as (c' & d & -> & Hc' & Hs & Hp). exists c', d. split; [done|]. split; [done|]. split; [done|].
    rewrite Hp. cbn. by apply insert_swap.
Qed.

(** ** Membership *)

Lemma contains_spec c e erase :
  cache_ok c → uint256_ok e →
  ∃ b c', contains e erase c = Some (b, c') ∧ same_entries c c' ∧ (e ≠ uint256_zero → b = bool_decide (e ∈ table c)).
Proof.
  intros Hc He. unfold contains. destruct (find_entry_spec c Hc e (compute_hashes c e)) as (r & -> & Hr).
  { intros loc. by apply compute_hashes_range. }
  cbn [mbind option_bind]. destruct r as [loc|].
  - destruct Hr as [Hl Hx]. rewrite bool_decide_true by by eapply list_elem_of_lookup_2.
    destruct erase; [|exists true, c; split; [done|]; split; [by split_and!|done]].
    destruct (allow_erase_spec c Hc loc) as (c' & -> & H); [by eapply compute_hashes_range|]. by exists true, c'.
  - exists false, c. split; [done|]. split; [by split_and!|]. intros Hz. rewrite bool_decide_false; [done|]. by apply absent.
Qed.

Lemma NoDup_filter_cons c e :
  cache_ok c → (e ≠ uint256_zero → e ∉ table c) → NoDup (filter (λ x, x ≠ uint256_zero) (e :: table c)).
Proof.
  intros Hc He. rewrite filter_cons. case_decide as Hz; [|by apply co_unique]. constructor; [|by apply co_unique].
  rewrite list_elem_of_filter. intros [_ Hin]. by apply He.
Qed.

Lemma insert_spec c e :
  cache_ok c → uint256_ok e →
  ∃ c' d, insert e c = Some c' ∧ cache_ok c' ∧ size c' = size c ∧ d :: table c' ≡ₚ e :: table c.
Proof.
  intros Hc He. unfold insert. destruct (epoch_check_spec c Hc) as (c1 & -> & H1). cbn [mbind option_bind]. cbn zeta.
  pose proof (same_entries_ok c c1 H1 Hc) as Hc1. destruct H1 as (Ht & Hs & _).
  destruct (find_entry_spec c1 Hc1 e (compute_hashes c1 e)) as (r & -> & Hr). { intros loc. by apply compute_hashes_range. }
  cbn [mbind option_bind]. destruct r as [loc|].
  - destruct Hr as [Hl Hx]. destruct (keep_spec c1 Hc1 loc true) as (c2 & -> & H2); [by eapply compute_hashes_range|].
    exists c2, e. split; [done|]. split; [by eapply same_entries_ok|]. destruct H2 as (-> & -> & _). by rewrite Ht, Hs.
  - destruct (insert_loop_spec (Z.to_nat (depth_limit c1)) c1 e invalid true Hc1 He) as (c2 & d & -> & H2 & Hs2 & Hp).
    { apply NoDup_filter_cons; [done|]. intros Hz. by apply absent. }
    exists c2, d. split; [done|]. split; [done|]. split; [congruence|]. by rewrite Hp, Ht.
Qed.

(** ** Sequences of operations *)

Section Sequences.
Context (log2f : Z → Z).
(** [std::log2] of a float is within its rounding to an integer of the exact logarithm. *)
Context (Hlog : ∀ n, 2 ≤ n < 2 ^ 32 → Z.log2 n ≤ log2f n ≤ Z.log2_up n).

(** The caches that operations lead to, with the entries inserted so far. *)
Inductive reached : cache → list uint256 → Prop :=
  | reached_setup n : 0 ≤ n ≤ 2 ^ 32 - 8 → reached (setup log2f cache_new n) []
  | reached_insert c inserted e c' :
      reached c inserted → uint256_ok e → insert e c = Some c' → reached c' (e :: inserted)
  | reached_contains c inserted e erase b c' :
      reached c inserted → uint256_ok e → contains e erase c = Some (b, c') → reached c' inserted.

Lemma setup_ok n : 0 ≤ n ≤ 2 ^ 32 - 8 → cache_ok (setup log2f cache_new n).
Proof.
  intros Hn. assert (Hm : 2 ≤ Z.max 2 n ≤ 2 ^ 32 - 8) by lia. unfold setup. cbn [table epoch_flags cache_new].
  rewrite !resize_nil.
  assert (Hf : zlen (flags_make (Z.max 2 n)) = (Z.max 2 n + 7) / 8).
  { unfold flags_make. rewrite length_replicate, uwrap_small by (unfold urange; lia). apply Z2Nat.id. apply Z.div_pos; lia. }
  split; cbn [size table collection_flags epoch_flags depth_limit]; rewrite ?length_replicate; try (done || lia).
  - pose proof (Hlog (Z.max 2 n) ltac:(lia)). assert (1 ≤ Z.log2 (Z.max 2 n)) by (change 1 with (Z.log2 2); apply Z.log2_le_mono; lia). lia.
  - apply Forall_replicate, uint256_zero_ok.
  - intros i x Hi%lookup_replicate Hx. destruct Hi as [-> _]. done.
  - assert (filter (λ x, x ≠ uint256_zero) (replicate (Z.to_nat (Z.max 2 n)) uint256_zero) = []) as ->; [|constructor].
    induction (Z.to_nat (Z.max 2 n)) as [|k IH]; [done|]. cbn [replicate]. rewrite filter_cons_False; [done|]. by intros [].
Qed.

Lemma reached_ok c inserted : reached c inserted → cache_ok c ∧ ∀ x, x ∈ table c → x = uint256_zero ∨ x ∈ inserted.
Proof.
  induction 1 as [n Hn|c ins e c' _ [Hc IH] He Hi|c ins e er b c' _ [Hc IH] He Hi].
  - split; [by apply setup_ok|]. cbn [table setup cache_new]. rewrite resize_nil. intros x Hx.
    apply list_elem_of_lookup in Hx as [i Hi%lookup_replicate]. left. by destruct Hi.
  - destruct (insert_spec c e Hc He) as (c1 & d & E & Hc1 & _ & Hp). rewrite Hi in E. injection E as <-. split; [done|].
    intros x Hx. assert (x ∈ e :: table c) as Hx' by (rewrite <-Hp; by right).
    apply elem_of_cons in Hx' as [->|Hx']; [right; left|]. destruct (IH x Hx'); [by left|right; by right].
  - destruct (contains_spec c e er Hc He) as (b1 & c1 & E & Hs & _). rewrite Hi in E. injection E as <- <-.
    split; [by eapply same_entries_ok|]. destruct Hs as (-> & _). done.
Qed.

Definition has (c : cache) (e : uint256) : bool := match contains e false c with Some (b, _) => b | None => false end.

Lemma has_spec c e : cache_ok c → uint256_ok e → e ≠ uint256_zero → has c e = bool_decide (e ∈ table c).
Proof. intros Hc He Hz. unfold has. destruct (contains_spec c e false Hc He) as (b & c' & -> & _ & Hb). by apply Hb. Qed.

(** The cache is a set that may lose entries.  After any sequence of operations from [setup] on,
    no access is out of range and, for entries other than zero: only inserted entries are found;
    looking one up, also to erase it, changes no answer; and an insertion adds its entry and loses at
    most one, which may be the entry itself. *)
Theorem cuckoo_cache_lossy_set (c : cache) (inserted : list uint256) (e : uint256) (erase : bool) :
  reached c inserted → uint256_ok e → e ≠ uint256_zero →
  (has c e = true → e ∈ inserted) ∧
  (∃ c', contains e erase c = Some (has c e, c') ∧ ∀ x, uint256_ok x → x ≠ uint256_zero → has c' x = has c x) ∧
  (∃ c' lost, insert e c = Some c' ∧ ∀ x, uint256_ok x → x ≠ uint256_zero → x ≠ lost → has c' x = bool_decide (x = e) || has c x).
Proof.
  intros Hr He Hz. destruct (reached_ok c inserted Hr) as [Hc Hin]. split; [|split].
  - rewrite has_spec by done. intros Hx%bool_decide_eq_true. by destruct (Hin e Hx).
  - destruct (contains_spec c e erase Hc He) as (b & c' & E & Hs & Hb). exists c'. rewrite has_spec by done. rewrite <-Hb by done.
    split; [done|]. intros x Hx Hxz. rewrite !has_spec by (done || by eapply same_entries_ok). destruct Hs as (-> & _). done.
  - destruct (insert_spec c e Hc He) as (c' & d & E & Hc' & _ & Hp). exists c', d. split; [done|]. intros x Hx Hxz Hd.
    rewrite !has_spec by done. rewrite <-bool_decide_or. apply bool_decide_ext.
    assert (x ∈ d :: table c' ↔ x ∈ e :: table c) as H by by rewrite Hp. rewrite !elem_of_cons in H. intuition congruence.
Qed.
End Sequences.

(** ** Sizes near the limit *)

(** The number of bytes for the flags wraps around for the seven largest sizes, for which there are
    then no flags at all, although the cache "is able to hold up to (~(uint32_t)0) - 1 elements". *)
Lemma flags_make_wraps : flags_make (2 ^ 32 - 2) = [] ∧ bit_is_set (flags_make (2 ^ 32 - 2)) 0 = None.
Proof. split; reflexivity. Qed.

(** From 95443718 entries on, 45 percent of the size is not what [epoch_size] is set to. *)
Lemma epoch_size_wraps log2f :
  epoch_size (setup log2f cache_new 95443717) = 42949672 ∧ epoch_size (setup log2f cache_new 95443718) = 1.
Proof. split; reflexivity. Qed.

(** The first entry to be moved is that at the second place. *)
Lemma first_moved c e :
  cache_ok c → uint256_ok e → get_at (compute_hashes c e) ((1 + position invalid (compute_hashes c e)) .& 7) = compute_hashes c e !! 1%nat.
Proof.
  intros Hc He. assert (∀ locs, (∀ loc, loc ∈ locs → 0 ≤ loc < size c) → position invalid locs = zlen locs) as H.
  { pose proof (co_size c Hc). induction locs as [|l locs IH]; intros Hl; [done|]. cbn [position length].
    assert (0 ≤ l < size c) by (apply Hl; set_solver). rewrite (proj2 (Z.eqb_neq l invalid)) by (unfold invalid; lia).
    rewrite IH by set_solver. lia. }
  rewrite H; [done|]. intros loc. by apply compute_hashes_range.
Qed.
