(* ===== verification/Merkle.v ===== *)
(** * Merkle trees: consensus/merkle.cpp

    [ComputeMerkleRoot] reduces a vector of hashes level by level in its own memory;
    [MerkleComputation] walks the leaves once with a binary counter of subtree hashes
    and collects the path of one leaf.  The reference is the top-down definition of the
    tree ([mroot]) and of its authentication paths ([mpath]). *)

From S2P Require Import Prelude Endian Serialize Hasher Sha256 Hash Primitives.
From Stdlib Require Import ZArith Lia.
From stdpp Require Import base sets fin_sets option list numbers.

Open Scope Z_scope.
Open Scope kernel_scope.

(** ** [SHA256D64(p, p, blocks)]: output and input are the same memory

    [out] and [inp] are offsets into [mem]. *)

Fixpoint D64_inplace_loop (n : nat) (tr : bytes → bytes) (fuel : nat) (mem : bytes) (out inp blocks : nat)
    : bytes * nat * nat * nat :=
  match fuel with
  | O => (mem, out, inp, blocks)
  | S fuel =>
      if (n <=? blocks)%nat then
        let mem := memcpy mem out (tr (take (64 * n) (drop inp mem))) in
        D64_inplace_loop n tr fuel mem (out + 32 * n) (inp + 64 * n) (blocks - n)
      else (mem, out, inp, blocks)
  end.

Definition D64_inplace_way (n : nat) (tr : option (bytes → bytes)) (st : bytes * nat * nat * nat)
    : bytes * nat * nat * nat :=
  let '(mem, out, inp, blocks) := st in
  match tr with
  | Some tr => D64_inplace_loop n tr blocks mem out inp blocks
  | None => st
  end.

(** The function pointers selected at start-up. *)
Class D64Impl := {
  TransformD64_8way : option (bytes → bytes);
  TransformD64_4way : option (bytes → bytes);
  TransformD64_2way : option (bytes → bytes);
  TransformD64_8way_ok : way_correct 8 TransformD64_8way;
  TransformD64_4way_ok : way_correct 4 TransformD64_4way;
  TransformD64_2way_ok : way_correct 2 TransformD64_2way
}.

Definition SHA256D64_inplace `{!D64Impl} (mem : bytes) (blocks : nat) : bytes :=
  let st := (mem, 0%nat, 0%nat, blocks) in
  let st := D64_inplace_way 8 TransformD64_8way st in
  let st := D64_inplace_way 4 TransformD64_4way st in
  let st := D64_inplace_way 2 TransformD64_2way st in
  let '(mem, _, _, _) := D64_inplace_way 1 (Some sha256.TransformD64) st in
  mem.

(** ** [ComputeMerkleRoot] *)

(** [for (pos = 0; pos + 1 < hashes.size(); pos += 2) if (hashes[pos] == hashes[pos + 1]) mutation = true;] *)
Fixpoint equal_pair (hashes : list uint256) : bool :=
  match hashes with
  | a :: b :: rest => bool_decide (a = b) || equal_pair rest
  | _ => false
  end.

(** The first [n] 32-byte entries of the vector's memory. *)
Definition entries (mem : bytes) (n : nat) : list uint256 :=
  map (λ i, take 32 (drop (32 * i) mem)) (seq 0 n).

Definition push_back_last (hashes : list uint256) : list uint256 :=
  if Nat.odd (length hashes)
  then match list.last hashes with Some h => hashes ++ [h] | None => hashes end
  else hashes.

Definition merkle_level `{!D64Impl} (hashes : list uint256) : list uint256 :=
  let hashes := push_back_last hashes in
  let half := (length hashes / 2)%nat in
  entries (SHA256D64_inplace (concat hashes) half) half.

(** Every round at least halves the vector, rounding up: [hashes.size()] rounds suffice. *)
Fixpoint merkle_loop `{!D64Impl} (fuel : nat) (mutated : bool) (hashes : list uint256) (mutation : bool)
    : list uint256 * bool :=
  match fuel with
  | O => (hashes, mutation)
  | S fuel =>
      if (1 <? length hashes)%nat then
        let mutation := if mutated then mutation || equal_pair hashes else mutation in
        merkle_loop fuel mutated (merkle_level hashes) mutation
      else (hashes, mutation)
  end.

(** [mutated] is whether the caller passed a pointer for the flag. *)
Definition ComputeMerkleRoot `{!D64Impl} (hashes : list uint256) (mutated : bool) : uint256 * bool :=
  let '(hashes, mutation) := merkle_loop (length hashes) mutated hashes false in
  (match hashes with [] => uint256_zero | h :: _ => h end, mutation).

Section Block.
Context `{!D64Impl, !ABI}.

Definition BlockMerkleRoot (block : CBlock) (mutated : bool) : uint256 * bool :=
  let leaves := map ComputeHash (vtx block) in
  ComputeMerkleRoot leaves mutated.

Definition BlockWitnessMerkleRoot (block : CBlock) : uint256 :=
  let leaves := uint256_zero :: map ComputeWitnessHash (drop 1 (vtx block)) in
  fst (ComputeMerkleRoot leaves false).
End Block.

(** ** [MerkleComputation] *)

Section MerkleComputation.
Context (leaf_pos : Z).

Definition inner_at (inner : list uint256) (level : nat) : uint256 := default uint256_zero (inner !! level).

(** [!(count & (1 << level))] *)
Definition bit_clear (count : Z) (level : nat) : bool := count .& (u32 (1 .<< Z.of_nat level)) =? 0.

(** The loop that combines [h] with the pending subtrees to its left; it is written twice
    in the source, lines 114-122 and 153-162. *)
Fixpoint combine_loop (fuel : nat) (count : Z) (inner : list uint256) (matchlevel : Z)
    (level : nat) (h : uint256) (matchh : bool) (path : list uint256)
    : nat * uint256 * bool * list uint256 :=
  match fuel with
  | O => (level, h, matchh, path)
  | S fuel =>
      if bit_clear count level then
        let '(path, matchh) :=
          if matchh then (path ++ [inner_at inner level], true)
          else if matchlevel =? Z.of_nat level then (path ++ [h], true)
          else (path, false) in
        combine_loop fuel count inner matchlevel (S level) (Hash2 (inner_at inner level) h) matchh path
      else (level, h, matchh, path)
  end.

(** The state between two leaves. *)
Record mstate := MState { m_count : Z; m_inner : list uint256; m_matchlevel : Z; m_path : list uint256 }.

Definition process_leaf (st : mstate) (leaf : uint256) : mstate :=
  let matchh := m_count st =? leaf_pos in
  let count := u32 (m_count st + 1) in
  let '(level, h, matchh, path) :=
    combine_loop 32 count (m_inner st) (m_matchlevel st) 0 leaf matchh (m_path st) in
  MState count (<[level := h]> (m_inner st)) (if matchh then Z.of_nat level else m_matchlevel st) path.

Fixpoint lowest_level (fuel : nat) (count : Z) (level : nat) : nat :=
  match fuel with
  | O => level
  | S fuel => if bit_clear count level then lowest_level fuel count (S level) else level
  end.

Fixpoint sweep (fuel : nat) (inner : list uint256) (matchlevel : Z)
    (count : Z) (level : nat) (h : uint256) (matchh : bool) (path : list uint256) : list uint256 :=
  match fuel with
  | O => path
  | S fuel =>
      if count =? u32 (1 .<< Z.of_nat level) then path
      else
        let path := if matchh then path ++ [h] else path in
        let h := Hash2 h h in
        let count := u32 (count + u32 (1 .<< Z.of_nat level)) in
        let '(level, h, matchh, path) :=
          combine_loop 32 count inner matchlevel (S level) h matchh path in
        sweep fuel inner matchlevel count level h matchh path
  end.

Definition MerkleComputation (leaves : list uint256) : list uint256 :=
  match leaves with
  | [] => []
  | _ =>
      let st := foldl process_leaf (MState 0 (replicate 32 uint256_zero) (-1) []) leaves in
      let level := lowest_level 32 (m_count st) 0 in
      sweep 32 (m_inner st) (m_matchlevel st) (m_count st) level (inner_at (m_inner st) level)
        (m_matchlevel st =? Z.of_nat level) (m_path st)
  end.
End MerkleComputation.

Definition ComputeMerklePath (leaves : list uint256) (position : Z) : list uint256 :=
  MerkleComputation position leaves.

Definition TransactionMerklePath `{!ABI} (block : CBlock) (position : Z) : list uint256 :=
  ComputeMerklePath (map ComputeHash (vtx block)) position.

(** ** Hashing in place *)

Lemma length_D64s input n : length (D64s input n) = (32 * n)%nat.
Proof.
  revert input. induction n as [|n IH]; intros input; [done|]. cbn [D64s].
  rewrite length_app, IH, length_SHA256. lia.
Qed.

Lemma drop_memcpy dst off src n :
  (off + length src ≤ n)%nat → (off ≤ length dst)%nat → drop n (memcpy dst off src) = drop n dst.
Proof.
  intros Hn Hoff. unfold memcpy. rewrite app_assoc, drop_app_ge by (rewrite length_app, length_take; lia).
  rewrite drop_drop, length_app, length_take. f_equal. lia.
Qed.

(** After [k] blocks: the hashes of those blocks, then what the rest of the input was. *)
Definition inplace_inv (orig : bytes) (total : nat) (st : bytes * nat * nat * nat) : Prop :=
  let '(mem, out, inp, blocks) := st in
  ∃ k, out = (32 * k)%nat ∧ inp = (64 * k)%nat ∧ (k + blocks = total)%nat ∧
    length mem = length orig ∧ take (32 * k) mem = D64s orig k ∧ drop (64 * k) mem = drop (64 * k) orig.

Lemma D64_inplace_loop_inv n tr fuel orig total mem out inp blocks :
  way_correct n (Some tr) → (64 * total ≤ length orig)%nat →
  inplace_inv orig total (mem, out, inp, blocks) →
  inplace_inv orig total (D64_inplace_loop n tr fuel mem out inp blocks).
Proof.
  intros Htr Htot. revert mem out inp blocks.
  induction fuel as [|fuel IH]; intros mem out inp blocks Hinv; [done|]. cbn [D64_inplace_loop].
  destruct (Nat.leb_spec n blocks) as [Hn|Hn]; [|done]. apply IH.
  destruct Hinv as (k & -> & -> & Hk & Hlen & Htake & Hdrop).
  assert (tr (take (64 * n) (drop (64 * k) mem)) = D64s (drop (64 * k) orig) n) as ->.
  { rewrite Hdrop, Htr by (rewrite length_take, length_drop; lia). by rewrite D64s_take. }
  set (o := D64s (drop (64 * k) orig) n).
  assert (length o = (32 * n)%nat) as Ho by apply length_D64s.
  exists (k + n)%nat. split_and!; [lia..|rewrite memcpy_length; lia| |].
  - replace (32 * (k + n))%nat with (32 * k + length o)%nat by lia.
    rewrite take_memcpy, Htake by lia. subst o. by rewrite D64s_add.
  - rewrite drop_memcpy by lia. replace (64 * (k + n))%nat with (64 * k + 64 * n)%nat by lia.
    by rewrite <-!drop_drop, Hdrop.
Qed.

Lemma D64_inplace_way_inv n tr orig total st :
  way_correct n tr → (64 * total ≤ length orig)%nat →
  inplace_inv orig total st → inplace_inv orig total (D64_inplace_way n tr st).
Proof.
  intros Htr Htot Hst. destruct st as [[[mem out] inp] blocks], tr as [tr|]; [|done].
  by apply D64_inplace_loop_inv.
Qed.

Lemma D64_inplace_loop_1_done tr fuel mem out inp blocks :
  (blocks ≤ fuel)%nat → snd (D64_inplace_loop 1 tr fuel mem out inp blocks) = 0%nat.
Proof.
  revert mem out inp blocks. induction fuel as [|fuel IH]; intros mem out inp blocks Hb; cbn [D64_inplace_loop].
  - cbn [snd]. lia.
  - destruct (Nat.leb_spec 1 blocks); [apply IH; lia|cbn [snd]; lia].
Qed.

Lemma SHA256D64_inplace_correct `{!D64Impl} mem blocks :
  (64 * blocks ≤ length mem)%nat →
  length (SHA256D64_inplace mem blocks) = length mem ∧
  take (32 * blocks) (SHA256D64_inplace mem blocks) = D64s mem blocks.
Proof.
  intros Hlen. unfold SHA256D64_inplace.
  assert (inplace_inv mem blocks (mem, 0%nat, 0%nat, blocks)) as Hst by (exists 0%nat; split_and!; done || lia).
  apply (D64_inplace_way_inv _ _ _ _ _ TransformD64_8way_ok) in Hst; [|done].
  apply (D64_inplace_way_inv _ _ _ _ _ TransformD64_4way_ok) in Hst; [|done].
  apply (D64_inplace_way_inv _ _ _ _ _ TransformD64_2way_ok) in Hst; [|done].
  destruct (D64_inplace_way 2 _ _) as [[[mem1 out1] inp1] blocks1]. cbn [D64_inplace_way].
  apply (D64_inplace_loop_inv 1 sha256.TransformD64 blocks1) in Hst; [|apply TransformD64_way_correct|done].
  pose proof (D64_inplace_loop_1_done sha256.TransformD64 blocks1 mem1 out1 inp1 blocks1 ltac:(lia)) as Hd.
  destruct (D64_inplace_loop 1 _ _ _ _ _ _) as [[[mem2 out2] inp2] blocks2]. cbn [snd] in Hd. subst blocks2.
  destruct Hst as (k & _ & _ & Hk & Hl & Ht & _). rewrite Nat.add_0_r in Hk. by subst k.
Qed.

(** ** One level of the tree *)

Lemma nonempty_length {A} (l : list A) : l ≠ [] → (0 < length l)%nat.
Proof. destruct l; [done|]. intros _. cbn [length]. lia. Qed.

Abbreviation hash_ok := (λ h : uint256, length h = 32%nat).

Fixpoint pair_up (l : list uint256) : list uint256 :=
  match l with
  | a :: b :: rest => Hash2 a b :: pair_up rest
  | [a] => [Hash2 a a]
  | [] => []
  end.

(** Induction two elements at a time. *)
Lemma list_pair_ind {A} (P : list A → Prop) :
  P [] → (∀ a, P [a]) → (∀ a b l, P l → P (a :: b :: l)) → ∀ l, P l.
Proof.
  intros H0 H1 H2 l. enough (P l ∧ ∀ a, P (a :: l)) as [? _] by done.
  induction l as [|b l [IH1 IH2]]; [by split|]. split; [apply IH2|]. intros a. by apply H2.
Qed.

Lemma length_pair_up l : length (pair_up l) = ((length l + 1) / 2)%nat.
Proof.
  induction l as [|a|a b l IH] using list_pair_ind; [done..|]. cbn [pair_up length]. rewrite IH.
  replace (S (S (length l)) + 1)%nat with (length l + 1 + 1 * 2)%nat by lia. rewrite Nat.div_add; lia.
Qed.

Lemma pair_up_ok l : Forall hash_ok (pair_up l).
Proof.
  induction l as [|a|a b l IH] using list_pair_ind; cbn [pair_up]; repeat constructor; try done;
    rewrite Hash2_app; apply length_Hash.
Qed.

Lemma entries_cons x y n : length x = 32%nat → entries (x ++ y) (S n) = x :: entries y n.
Proof.
  intros Hx. unfold entries. cbn [seq map]. f_equal.
  - by rewrite Nat.mul_0_r, drop_0, take_app_length' by done.
  - rewrite <-seq_shift, map_map. apply map_ext. intros i.
    rewrite drop_app_ge by lia. do 2 f_equal. lia.
Qed.

Lemma entries_take mem n : entries (take (32 * n) mem) n = entries mem n.
Proof.
  apply map_ext_in. intros i Hi%in_seq. rewrite skipn_firstn_comm, take_take. f_equal. lia.
Qed.

Lemma entries_D64s l n :
  Forall hash_ok l → length l = (2 * n)%nat → entries (D64s (concat l) n) n = pair_up l.
Proof.
  revert l. induction n as [|n IH]; intros l Hl Hlen.
  { by destruct l. }
  destruct l as [|a [|b l]]; cbn [length] in Hlen; [lia..|].
  inversion_clear Hl as [|? ? Ha Hl']. inversion_clear Hl' as [|? ? Hb Hl].
  cbn [D64s concat pair_up]. rewrite app_assoc, take_app_length', drop_app_length' by (rewrite length_app; lia).
  rewrite <-Hash_double, <-Hash2_app, entries_cons by (rewrite Hash2_app; apply length_Hash).
  f_equal. apply IH; [done|lia].
Qed.

Lemma pair_up_push_back l : pair_up (push_back_last l) = pair_up l.
Proof.
  unfold push_back_last. destruct (Nat.odd (length l)) eqn:Hodd; [|done].
  induction l as [|a|a b l IH] using list_pair_ind; [done..|].
  change (Nat.odd (length (a :: b :: l))) with (Nat.odd (length l)) in Hodd. specialize (IH Hodd).
  destruct l as [|c l]; [done|].
  replace (list.last (a :: b :: c :: l)) with (list.last (c :: l)) by done.
  destruct (list.last (c :: l)) as [h|]; [|done].
  cbn [app pair_up]. by f_equal.
Qed.

Lemma push_back_ok l : Forall hash_ok l → Forall hash_ok (push_back_last l).
Proof.
  intros Hl. unfold push_back_last. destruct (Nat.odd _); [|done].
  destruct (list.last l) as [h|] eqn:Hh; [|done]. apply Forall_app_2; [done|].
  apply last_Some in Hh as [l' ->]. by apply Forall_app in Hl as [_ ?].
Qed.

Lemma push_back_even l : Nat.odd (length (push_back_last l)) = false.
Proof.
  unfold push_back_last. destruct (Nat.odd (length l)) eqn:Hodd; [|done].
  destruct (list.last l) as [h|] eqn:Hh.
  - rewrite length_app. cbn [length]. rewrite Nat.add_1_r, Nat.odd_succ, <-Nat.negb_odd, Hodd. done.
  - apply last_None in Hh as ->. done.
Qed.

Lemma merkle_level_pair_up `{!D64Impl} l : Forall hash_ok l → merkle_level l = pair_up l.
Proof.
  intros Hl. unfold merkle_level.
  pose proof (push_back_ok l Hl) as Hl'. pose proof (push_back_even l) as Heven.
  rewrite <-(pair_up_push_back l). set (l' := push_back_last l) in *. set (n := (length l' / 2)%nat).
  assert (length l' = (2 * n)%nat) as Hn.
  { rewrite <-Nat.negb_even in Heven. apply negb_false_iff, Nat.even_spec in Heven as [m Hm].
    subst n. rewrite Hm, (Nat.mul_comm 2 m), Nat.div_mul; lia. }
  assert (length (concat l') = (32 * length l')%nat) as Hc.
  { clear -Hl'. induction Hl' as [|h l' Hh Hl' IH]; [done|]. cbn [concat length]. rewrite length_app, IH. lia. }
  destruct (SHA256D64_inplace_correct (concat l') n ltac:(lia)) as [_ Htake].
  rewrite <-entries_take, Htake. by apply entries_D64s.
Qed.

(** ** The tree, top down

    [mroot d l] is the root of the tree of depth [d] over the leaves [l], at most [2^d]
    of them: a level that lacks its right half repeats the left one. *)

Fixpoint mroot (d : nat) (l : list uint256) : uint256 :=
  match d with
  | O => match l with h :: _ => h | [] => uint256_zero end
  | S d =>
      if (length l <=? 2 ^ d)%nat then let h := mroot d l in Hash2 h h
      else Hash2 (mroot d (take (2 ^ d) l)) (mroot d (drop (2 ^ d) l))
  end.

(** The siblings from the leaf [pos] up to the root. *)
Fixpoint mpath (d : nat) (l : list uint256) (pos : nat) : list uint256 :=
  match d with
  | O => []
  | S d =>
      if (length l <=? 2 ^ d)%nat then mpath d l pos ++ [mroot d l]
      else if (pos <? 2 ^ d)%nat then mpath d (take (2 ^ d) l) pos ++ [mroot d (drop (2 ^ d) l)]
      else mpath d (drop (2 ^ d) l) (pos - 2 ^ d) ++ [mroot d (take (2 ^ d) l)]
  end.

(** What a verifier does with a path: bit [i] of the position says on which side the
    node at level [i] is. *)
Fixpoint root_from_path (h : uint256) (path : list uint256) (pos : nat) {struct path} : uint256 :=
  match path with
  | [] => h
  | p :: path => root_from_path (if Nat.odd pos then Hash2 p h else Hash2 h p) path (pos / 2)
  end.

Definition height (l : list uint256) : nat := Nat.log2_up (length l).

Lemma pow2_pos d : (1 ≤ 2 ^ d)%nat.
Proof. pose proof (Nat.pow_nonzero 2 d). lia. Qed.

Lemma pair_up_take n l : pair_up (take (2 * n) l) = take n (pair_up l).
Proof.
  revert l. induction n as [|n IH]; intros l; [done|].
  replace (2 * S n)%nat with (S (S (2 * n))) by lia.
  destruct l as [|a [|b l]]; [done|by destruct n|]. cbn [take pair_up]. by rewrite IH.
Qed.

Lemma pair_up_drop n l : pair_up (drop (2 * n) l) = drop n (pair_up l).
Proof.
  revert l. induction n as [|n IH]; intros l; [done|].
  replace (2 * S n)%nat with (S (S (2 * n))) by lia.
  destruct l as [|a [|b l]]; [by destruct n|by destruct n|]. cbn [drop pair_up]. by rewrite IH.
Qed.

Lemma mroot_S d l :
  mroot (S d) l =
    if (length l <=? 2 ^ d)%nat then Hash2 (mroot d l) (mroot d l)
    else Hash2 (mroot d (take (2 ^ d) l)) (mroot d (drop (2 ^ d) l)).
Proof. reflexivity. Qed.

Lemma mroot_pair_up d l :
  (0 < length l ≤ 2 ^ S d)%nat → mroot (S d) l = mroot d (pair_up l).
Proof.
  revert l. induction d as [|d IH]; intros l Hl.
  { destruct l as [|a [|b [|c l]]]; cbn [length Nat.pow] in Hl; [lia| | |lia];
      cbn [mroot pair_up length Nat.pow Nat.leb take drop]; reflexivity. }
  rewrite (mroot_S (S d) l), (mroot_S d (pair_up l)).
  assert ((length (pair_up l) <=? 2 ^ d)%nat = (length l <=? 2 ^ S d)%nat) as ->.
  { rewrite length_pair_up. cbn [Nat.pow].
    pose proof (Nat.div_mod_eq (length l + 1) 2). pose proof (Nat.mod_upper_bound (length l + 1) 2).
    destruct (Nat.leb_spec ((length l + 1) / 2) (2 ^ d)), (Nat.leb_spec (length l) (2 * 2 ^ d)); lia. }
  pose proof (pow2_pos d). cbn [Nat.pow] in Hl.
  destruct (Nat.leb_spec (length l) (2 ^ S d)) as [Hle|Hgt].
  - by rewrite IH by lia.
  - rewrite !IH by (rewrite ?length_take, ?length_drop; cbn [Nat.pow] in *; lia).
    cbn [Nat.pow]. by rewrite pair_up_take, pair_up_drop.
Qed.

Lemma height_pair_up l : (1 < length l)%nat → height l = S (height (pair_up l)).
Proof.
  intros Hl. unfold height. rewrite length_pair_up. set (m := ((length l + 1) / 2)%nat).
  assert (length l ≤ 2 * m ≤ length l + 1)%nat as Hm.
  { pose proof (Nat.div_mod_eq (length l + 1) 2). pose proof (Nat.mod_upper_bound (length l + 1) 2). lia. }
  apply Nat.log2_up_unique; [lia|]. cbn [Nat.pred Nat.pow].
  destruct (decide (m = 1)%nat) as [->|Hne]; [change (Nat.log2_up 1) with 0%nat; cbn [Nat.pow]; lia|].
  pose proof (Nat.log2_up_spec m ltac:(lia)) as [H1 H2].
  pose proof (Nat.log2_up_pos m ltac:(lia)). destruct (Nat.log2_up m) as [|h]; [lia|].
  cbn [Nat.pred Nat.pow] in *. lia.
Qed.

Lemma pair_up_nonempty l : (0 < length l)%nat → (0 < length (pair_up l))%nat.
Proof.
  intros. rewrite length_pair_up. pose proof (Nat.div_mod_eq (length l + 1) 2).
  pose proof (Nat.mod_upper_bound (length l + 1) 2). lia.
Qed.

Lemma length_le_height l : (length l ≤ 2 ^ height l)%nat.
Proof.
  unfold height. destruct (decide (length l ≤ 1)%nat); [pose proof (pow2_pos (Nat.log2_up (length l))); lia|].
  apply Nat.log2_up_spec. lia.
Qed.

(** ** [ComputeMerkleRoot] *)

(** What the flag reports, in terms of the tree: two sibling subtrees of the same depth, the right
    one not empty, have the same root. *)
Definition subtree (d j : nat) (l : list uint256) : list uint256 := take (2 ^ d) (drop (j * 2 ^ d) l).
Definition twin_siblings (l : list uint256) : Prop :=
  ∃ d i, ((2 * i + 1) * 2 ^ d < length l)%nat ∧ mroot d (subtree d (2 * i) l) = mroot d (subtree d (2 * i + 1) l).

(** The same, level by level. *)
Fixpoint mutated_at (d : nat) (l : list uint256) : bool :=
  match d with O => false | S d => equal_pair l || mutated_at d (pair_up l) end.

Lemma equal_pair_spec l :
  equal_pair l = true ↔ ∃ i h, l !! (2 * i)%nat = Some h ∧ l !! (2 * i + 1)%nat = Some h.
Proof.
  induction l as [|a|a b l IH] using list_pair_ind; cbn [equal_pair].
  - split; [done|]. by intros (i & h & ? & ?).
  - split; [done|]. intros (i & h & _ & H). apply lookup_lt_Some in H. simpl in H. lia.
  - rewrite orb_true_iff, bool_decide_eq_true, IH. split.
    + intros [-> | (i & h & H1 & H2)]; [by exists 0%nat, b|]. exists (S i), h.
      replace (2 * S i)%nat with (S (S (2 * i))) by lia. done.
    + intros ([|i] & h & H1 & H2); [left; cbn in H1, H2; congruence|]. right. exists i, h.
      by replace (2 * S i)%nat with (S (S (2 * i))) in H1, H2 by lia.
Qed.

Lemma mroot_leaf i l h : l !! i = Some h → mroot 0 (subtree 0 i l) = h.
Proof.
  intros H. unfold subtree. cbn [Nat.pow]. rewrite Nat.mul_1_r, (drop_S _ _ _ H). reflexivity.
Qed.

Lemma mroot_subtree d j l :
  (j * 2 ^ S d < length l)%nat → mroot (S d) (subtree (S d) j l) = mroot d (subtree d j (pair_up l)).
Proof.
  intros Hj. unfold subtree. pose proof (pow2_pos (S d)). rewrite mroot_pair_up.
  - cbn [Nat.pow]. rewrite pair_up_take. replace (j * (2 * 2 ^ d))%nat with (2 * (j * 2 ^ d))%nat by lia.
    by rewrite pair_up_drop.
  - rewrite length_take, length_drop. lia.
Qed.

Lemma twin_siblings_level l : twin_siblings l ↔ equal_pair l = true ∨ twin_siblings (pair_up l).
Proof.
  rewrite equal_pair_spec. split.
  - intros ([|d] & i & Hlt & Heq).
    + left. cbn [Nat.pow] in Hlt. rewrite Nat.mul_1_r in Hlt.
      destruct (lookup_lt_is_Some_2 l (2 * i) ltac:(lia)) as [a Ha]. destruct (lookup_lt_is_Some_2 l (2 * i + 1) ltac:(lia)) as [b Hb].
      rewrite (mroot_leaf _ _ _ Ha), (mroot_leaf _ _ _ Hb) in Heq. subst. by exists i, b.
    + right. exists d, i. rewrite <-!mroot_subtree by lia. split; [|done].
      rewrite length_pair_up. apply (Nat.lt_le_trans _ (((2 * i + 1) * 2 ^ d * 2 + 1 + 1) / 2)).
      { apply (Nat.div_le_lower_bound _ 2 (S _)); lia. }
      apply Nat.Div0.div_le_mono. cbn [Nat.pow] in Hlt. lia.
  - intros [(i & h & H1 & H2)|(d & i & Hlt & Heq)].
    + exists 0%nat, i. rewrite (mroot_leaf _ _ _ H1), (mroot_leaf _ _ _ H2). split; [|done].
      apply lookup_lt_Some in H2. cbn [Nat.pow]. lia.
    + assert (((2 * i + 1) * 2 ^ S d < length l)%nat) as Hlt'.
      { rewrite length_pair_up in Hlt. cbn [Nat.pow]. pose proof (Nat.div_mod_eq (length l + 1) 2).
        pose proof (Nat.mod_upper_bound (length l + 1) 2). lia. }
      exists (S d), i. split; [done|]. by rewrite !mroot_subtree by lia.
Qed.

Lemma mutated_at_spec l : mutated_at (height l) l = true ↔ twin_siblings l.
Proof.
  remember (height l) as h eqn:Hh. revert l Hh. induction h as [|h IH]; intros l Hh.
  - cbn [mutated_at]. split; [done|]. intros (d & i & Hlt & _). pose proof (length_le_height l) as Hl. rewrite <-Hh in Hl.
    pose proof (pow2_pos d). cbn [Nat.pow] in Hl. lia.
  - assert (1 < length l)%nat as H1.
    { destruct (decide (1 < length l)%nat) as [|Hn]; [done|]. unfold height in Hh. rewrite Nat.log2_up_eqn0 in Hh by lia. done. }
    rewrite (height_pair_up l H1) in Hh. cbn [mutated_at]. rewrite orb_true_iff, IH by lia. symmetry. apply twin_siblings_level.
Qed.

Lemma merkle_loop_spec `{!D64Impl} fuel mutated l mutation :
  Forall hash_ok l → (0 < length l)%nat → (height l ≤ fuel)%nat →
  merkle_loop fuel mutated l mutation =
    ([mroot (height l) l], mutation || (mutated && mutated_at (height l) l)).
Proof.
  revert l mutation. induction fuel as [|fuel IH]; intros l mutation Hl H0 Hfuel; cbn [merkle_loop].
  { pose proof (length_le_height l). replace (height l) with 0%nat in * by lia.
    destruct l as [|h [|]]; cbn [length Nat.pow] in *; [lia| |lia].
    cbn [mroot mutated_at]. by rewrite andb_false_r, orb_false_r. }
  destruct (Nat.ltb_spec 1 (length l)) as [H1|H1].
  - pose proof (height_pair_up l H1) as Hh. rewrite merkle_level_pair_up by done.
    rewrite IH by (apply pair_up_ok || by apply pair_up_nonempty || lia).
    rewrite Hh, mroot_pair_up by (rewrite <-Hh; pose proof (length_le_height l); lia).
    cbn [mutated_at]. by destruct mutated, mutation.
  - destruct l as [|h [|]]; cbn [length] in *; [lia| |lia].
    cbn [height length mroot mutated_at]. by rewrite andb_false_r, orb_false_r.
Qed.

Lemma log2_up_le n : (Nat.log2_up n ≤ n)%nat.
Proof. pose proof (Nat.log2_up_le_lin n). lia. Qed.

Lemma ComputeMerkleRoot_spec `{!D64Impl} l mutated :
  Forall hash_ok l →
  ComputeMerkleRoot l mutated = (mroot (height l) l, mutated && mutated_at (height l) l).
Proof.
  intros Hl. unfold ComputeMerkleRoot. destruct l as [|h l]; [by destruct mutated|].
  rewrite merkle_loop_spec; [done|done|cbn [length]; lia|apply log2_up_le].
Qed.

(** ** Equal roots *)

(** The messages hashed for a level, and for a tree of depth [d]. *)
Fixpoint pair_messages (l : list uint256) : list bytes :=
  match l with
  | a :: b :: rest => (a ++ b) :: pair_messages rest
  | [a] => [a ++ a]
  | [] => []
  end.
Fixpoint tree_messages (d : nat) (l : list uint256) : list bytes :=
  match d with O => [] | S d => pair_messages l ++ tree_messages d (pair_up l) end.

Lemma Hash2_inj a b c d :
  length a = length c → Hash2 a b = Hash2 c d → (a = c ∧ b = d) ∨ hash_collision [a ++ b; c ++ d].
Proof.
  intros Hlen Heq. rewrite !Hash2_app in Heq. apply Hash_inj in Heq as [Heq|]; [|by right].
  left. by apply app_inj_1 in Heq.
Qed.

(** Two levels with the same parents are equal, unless the longer one repeats an entry. *)
Lemma pair_up_inj l1 l2 :
  Forall hash_ok l1 → Forall hash_ok l2 → equal_pair l1 = false → equal_pair l2 = false →
  pair_up l1 = pair_up l2 → l1 = l2 ∨ hash_collision (pair_messages l1 ++ pair_messages l2).
Proof.
  intros H1 H2. revert l2 H2. induction l1 as [|a|a b l1 IH] using list_pair_ind; intros l2 H2 He1 He2 Heq.
  - left. by destruct l2 as [|? [|]].
  - destruct l2 as [|c [|d l2]]; cbn [pair_up] in Heq; [done| |].
    + injection Heq as Heq. inversion_clear H1; inversion_clear H2.
      destruct (Hash2_inj a a c c) as [[-> _]|]; [congruence|done|by left|by right].
    + injection Heq as Heq Hnil. inversion_clear H1; inversion_clear H2.
      destruct (Hash2_inj a a c d) as [[-> ->]|Hc]; [congruence|done| |].
      * cbn [equal_pair] in He2. by rewrite bool_decide_eq_true_2 in He2.
      * right. eapply hash_collision_mono, Hc. set_solver.
  - cbn [equal_pair] in He1. apply orb_false_iff in He1 as [Hab He1]. apply bool_decide_eq_false in Hab.
    inversion_clear H1 as [|? ? Ha H1']. inversion_clear H1' as [|? ? Hb H1].
    destruct l2 as [|c [|d l2]]; cbn [pair_up] in Heq; [done| |].
    + injection Heq as Heq _. inversion_clear H2.
      destruct (Hash2_inj a b c c) as [[-> ->]|Hc]; [congruence|done|done|]. right. eapply hash_collision_mono, Hc. set_solver.
    + injection Heq as Heq Hrest. inversion_clear H2 as [|? ? Hc H2']. inversion_clear H2' as [|? ? Hd H2].
      cbn [equal_pair] in He2. apply orb_false_iff in He2 as [_ He2].
      destruct (Hash2_inj a b c d) as [[-> ->]|Hx]; [congruence|done| |right; eapply hash_collision_mono, Hx; set_solver].
      destruct (IH H1 l2 H2 He1 He2 Hrest) as [->|Hx]; [by left|right]. eapply hash_collision_mono, Hx. set_solver.
Qed.

Lemma mroot_inj d l1 l2 :
  Forall hash_ok l1 → Forall hash_ok l2 → (0 < length l1 ≤ 2 ^ d)%nat → (0 < length l2 ≤ 2 ^ d)%nat →
  mutated_at d l1 = false → mutated_at d l2 = false → mroot d l1 = mroot d l2 →
  l1 = l2 ∨ hash_collision (tree_messages d l1 ++ tree_messages d l2).
Proof.
  revert l1 l2. induction d as [|d IH]; intros l1 l2 H1 H2 L1 L2 M1 M2 Heq.
  { destruct l1 as [|a [|]], l2 as [|b [|]]; cbn [length Nat.pow] in *; try lia. left.
    cbn [mroot] in Heq. by f_equal. }
  cbn [mutated_at] in M1, M2. apply orb_false_iff in M1 as [E1 M1], M2 as [E2 M2].
  rewrite !mroot_pair_up in Heq by done.
  assert (∀ l, (0 < length l ≤ 2 ^ S d)%nat → (0 < length (pair_up l) ≤ 2 ^ d)%nat) as Hlen.
  { intros l Hl. split; [apply pair_up_nonempty; lia|]. rewrite length_pair_up. cbn [Nat.pow] in Hl.
    pose proof (Nat.div_mod_eq (length l + 1) 2). lia. }
  cbn [tree_messages].
  apply IH in Heq as [Heq|Hx]; [|right; eapply hash_collision_mono, Hx; set_solver|apply pair_up_ok..|by apply Hlen|by apply Hlen|done|done].
  destruct (pair_up_inj l1 l2) as [|Hx]; try done; [by left|]. right. eapply hash_collision_mono, Hx. set_solver.
Qed.

(** ** Authentication paths *)

Lemma mpath_S d l pos :
  mpath (S d) l pos =
    if (length l <=? 2 ^ d)%nat then mpath d l pos ++ [mroot d l]
    else if (pos <? 2 ^ d)%nat then mpath d (take (2 ^ d) l) pos ++ [mroot d (drop (2 ^ d) l)]
    else mpath d (drop (2 ^ d) l) (pos - 2 ^ d) ++ [mroot d (take (2 ^ d) l)].
Proof. reflexivity. Qed.

Lemma root_from_path_snoc h path p pos :
  root_from_path h (path ++ [p]) pos =
    (let r := root_from_path h path pos in
     if Nat.odd (pos / 2 ^ length path) then Hash2 p r else Hash2 r p).
Proof.
  revert h pos. induction path as [|q path IH]; intros h pos; cbn [app root_from_path length Nat.pow].
  - by rewrite Nat.div_1_r.
  - rewrite IH. cbn zeta. rewrite Nat.Div0.div_div. reflexivity.
Qed.

Lemma length_mpath d l pos : length (mpath d l pos) = d.
Proof.
  revert l pos. induction d as [|d IH]; intros l pos; [done|]. rewrite mpath_S.
  repeat case_match; rewrite length_app, IH; cbn [length]; lia.
Qed.

(** The low bits of a position are those of its offset in an aligned segment. *)
Lemma root_from_path_mod h path pos q d :
  (length path ≤ d)%nat → root_from_path h path (pos + q * 2 ^ d) = root_from_path h path pos.
Proof.
  revert h pos d. induction path as [|p path IH]; intros h pos d Hd; [done|].
  cbn [length] in Hd. destruct d as [|d]; [lia|]. cbn [root_from_path Nat.pow].
  replace (pos + q * (2 * 2 ^ d))%nat with (pos + (q * 2 ^ d) * 2)%nat by lia.
  rewrite Nat.div_add, IH by lia. rewrite Nat.odd_add, Nat.odd_mul. cbn [Nat.odd Nat.even negb].
  by rewrite andb_false_r, xorb_false_r.
Qed.

Lemma mpath_correct d l pos leaf :
  (length l ≤ 2 ^ d)%nat → l !! pos = Some leaf → root_from_path leaf (mpath d l pos) pos = mroot d l.
Proof.
  revert l pos. induction d as [|d IH]; intros l pos Hlen Hpos.
  { cbn [Nat.pow] in Hlen. pose proof (lookup_lt_Some _ _ _ Hpos).
    destruct l as [|a [|]], pos as [|]; cbn [length] in *; try lia. by injection Hpos as ->. }
  rewrite mpath_S, mroot_S. pose proof (lookup_lt_Some _ _ _ Hpos) as Hlt. cbn [Nat.pow] in Hlen.
  pose proof (pow2_pos d).
  destruct (Nat.leb_spec (length l) (2 ^ d)) as [Hle|Hgt]; [|destruct (Nat.ltb_spec pos (2 ^ d)) as [Hp|Hp]];
    rewrite root_from_path_snoc, length_mpath; cbn zeta.
  - rewrite IH by done. by rewrite Nat.div_small by lia.
  - rewrite IH by (rewrite ?length_take, ?lookup_take_lt by done; done || lia). by rewrite Nat.div_small by lia.
  - remember (pos - 2 ^ d)%nat as r eqn:Hr. assert (pos = r + 1 * 2 ^ d)%nat as -> by lia.
    rewrite root_from_path_mod by (by rewrite length_mpath).
    rewrite IH by (rewrite ?length_drop, ?lookup_drop; try lia; rewrite <-Hpos; f_equal; lia).
    rewrite Nat.div_add, Nat.div_small by lia. done.
Qed.

(** ** The binary counter *)

Section Counter.
Context (leaves : list uint256) (pos : nat).
#[local] Open Scope nat_scope.

Definition slice (s k : nat) : list uint256 := take k (drop s leaves).

Lemma length_slice s k : s + k ≤ length leaves → length (slice s k) = k.
Proof. intros. unfold slice. rewrite length_take, length_drop. lia. Qed.

Lemma take_slice s k m : m ≤ k → take m (slice s k) = slice s m.
Proof. intros. unfold slice. rewrite take_take. f_equal. lia. Qed.

Lemma drop_slice s k m : drop m (slice s k) = slice (s + m) (k - m).
Proof. unfold slice. by rewrite skipn_firstn_comm, drop_drop. Qed.

(** The segment of [2^j] leaves that the set bit [j] of the counter [c] stands for. *)
Definition seg_start (c j : nat) : nat := (c / 2 ^ j - 1) * 2 ^ j.

Definition inner_ok (inner : list uint256) (c : nat) : Prop :=
  ∀ j, Nat.odd (c / 2 ^ j) = true → inner !! j = Some (mroot j (slice (seg_start c j) (2 ^ j))).

(** The position is in the segment of bit [matchlevel], and [path] is its path there. *)
Definition tracked (c : nat) (matchlevel : Z) (path : list uint256) : Prop :=
  ∃ j, matchlevel = Z.of_nat j ∧ Nat.odd (c / 2 ^ j) = true ∧
    seg_start c j ≤ pos < seg_start c j + 2 ^ j ∧
    path = mpath j (slice (seg_start c j) (2 ^ j)) (pos - seg_start c j).

Definition waiting (matchlevel : Z) (path : list uint256) : Prop := matchlevel = (-1)%Z ∧ path = [].

(** [h] is the hash at [level] of the leaves from [s] to [n], its position being the last
    of the counter [s + 2^level]. *)
Record combine_inv (matchlevel : Z) (n s level : nat) (h : uint256) (matchh : bool) (path : list uint256) : Prop := {
  ci_aligned : ∃ q, s = q * 2 ^ level;
  ci_range : s < n ≤ s + 2 ^ level;
  ci_n : n ≤ length leaves;
  ci_h : h = mroot level (slice s (n - s));
  ci_path :
    if matchh then s ≤ pos < n ∧ path = mpath level (slice s (n - s)) (pos - s)
    else (n ≤ pos ∧ waiting matchlevel path) ∨ (pos < s ∧ tracked s matchlevel path)
}.

Lemma pow2_split a b : a ≤ b → 2 ^ b = 2 ^ (b - a) * 2 ^ a.
Proof. intros. rewrite <-Nat.pow_add_r. f_equal. lia. Qed.

(** Adding below an aligned number does not change its higher digits. *)
Lemma aligned_div_high q L r j : r < 2 ^ S L → L < j → (q * 2 ^ S L + r) / 2 ^ j = (q * 2 ^ S L) / 2 ^ j.
Proof.
  intros Hr Hj. pose proof (pow2_pos (S L)).
  rewrite (pow2_split (S L) j), (Nat.mul_comm (2 ^ (j - S L))), <-!Nat.Div0.div_div by lia.
  f_equal. rewrite Nat.add_comm, Nat.div_add, Nat.div_mul, Nat.div_small by lia. done.
Qed.

Lemma aligned_div_low q L j : j ≤ L → Nat.odd (q * 2 ^ S L / 2 ^ j) = false.
Proof.
  intros Hj. pose proof (pow2_pos j). cbn [Nat.pow]. rewrite (pow2_split j L) by done.
  replace (q * (2 * (2 ^ (L - j) * 2 ^ j))) with (q * 2 ^ (L - j) * 2 * 2 ^ j) by lia.
  rewrite Nat.div_mul, Nat.odd_mul, andb_false_r by lia. done.
Qed.

(** Carrying: when [c = q * 2^(L+1) + 2^L] loses its lowest bit, the other segments stay. *)
Lemma low_bit q L : (q * 2 ^ S L + 2 ^ L) / 2 ^ L = 2 * q + 1.
Proof.
  pose proof (pow2_pos L). cbn [Nat.pow]. replace (q * (2 * 2 ^ L) + 2 ^ L) with ((2 * q + 1) * 2 ^ L) by lia.
  apply Nat.div_mul. lia.
Qed.

Lemma seg_start_low q L : seg_start (q * 2 ^ S L + 2 ^ L) L = q * 2 ^ S L.
Proof. unfold seg_start. rewrite low_bit. cbn [Nat.pow]. lia. Qed.

Lemma seg_start_high q L j : L < j → seg_start (q * 2 ^ S L + 2 ^ L) j = seg_start (q * 2 ^ S L) j.
Proof.
  intros. unfold seg_start. rewrite aligned_div_high; [done|cbn [Nat.pow]; pose proof (pow2_pos L); lia|done].
Qed.

(** The set bits of [q * 2^(L+1) + 2^L] are [L] and those of [q * 2^(L+1)]. *)
Lemma counter_bits q L j :
  Nat.odd ((q * 2 ^ S L + 2 ^ L) / 2 ^ j) = true ↔ j = L ∨ (L < j ∧ Nat.odd (q * 2 ^ S L / 2 ^ j) = true).
Proof.
  pose proof (pow2_pos L). destruct (Nat.lt_trichotomy j L) as [Hj|[->|Hj]].
  - split; [|lia]. replace (q * 2 ^ S L + 2 ^ L) with ((2 * q + 1) * 2 ^ L) by (cbn [Nat.pow]; lia).
    destruct L as [|L]; [lia|]. rewrite aligned_div_low by lia. done.
  - rewrite low_bit. split; [by left|]. intros _. rewrite Nat.odd_add, Nat.odd_mul. done.
  - rewrite aligned_div_high; [|cbn [Nat.pow]; lia|done]. split; [by right|]. intros [->|[_ ?]]; [lia|done].
Qed.

Lemma aligned_bits q L j : Nat.odd (q * 2 ^ S L / 2 ^ j) = true → L < j.
Proof. intros Ho. destruct (decide (L < j)); [done|]. by rewrite aligned_div_low in Ho by lia. Qed.

Lemma seg_end c j : Nat.odd (c / 2 ^ j) = true → seg_start c j + 2 ^ j ≤ c.
Proof.
  intros Hbit. unfold seg_start. pose proof (Nat.Div0.mul_div_le c (2 ^ j)).
  destruct (c / 2 ^ j) as [|m]; [done|]. rewrite Nat.sub_1_r. cbn [Nat.pred]. lia.
Qed.

(** What is known of the counter without its lowest bit, and back. *)
Lemma inner_ok_drop inner q L : inner_ok inner (q * 2 ^ S L + 2 ^ L) → inner_ok inner (q * 2 ^ S L).
Proof.
  intros Hinner j Hj. pose proof (aligned_bits _ _ _ Hj) as Hlt.
  rewrite (Hinner j) by (apply counter_bits; auto). by rewrite seg_start_high.
Qed.

Lemma tracked_lift q L ml path : tracked (q * 2 ^ S L) ml path → tracked (q * 2 ^ S L + 2 ^ L) ml path.
Proof.
  intros (j & -> & Hbit & Hseg & ->). pose proof (aligned_bits _ _ _ Hbit) as Hlt. exists j.
  rewrite seg_start_high by done. split_and!; [done|apply counter_bits; auto|lia..|done].
Qed.

Lemma u32_bit L : L < 32 → u32 (1 .<< Z.of_nat L) = Z.of_nat (2 ^ L).
Proof.
  intros HL. rewrite Z.shiftl_1_l, Nat2Z.inj_pow. apply uwrap_small. split; [lia|].
  apply Z.pow_lt_mono_r; lia.
Qed.

Lemma Zodd_of_nat n : Z.odd (Z.of_nat n) = Nat.odd n.
Proof.
  apply eq_true_iff_eq. rewrite Z.odd_spec, Nat.odd_spec. split.
  - intros [m Hm]. exists (Z.to_nat m). lia.
  - intros [m ->]. exists (Z.of_nat m). lia.
Qed.

Lemma bit_clear_spec c L : L < 32 → bit_clear (Z.of_nat c) L = negb (Nat.odd (c / 2 ^ L)).
Proof.
  intros HL. unfold bit_clear. rewrite u32_bit, Nat2Z.inj_pow, <-Z.shiftl_1_l by done.
  rewrite <-(negb_involutive (_ =? 0)%Z), land_bit_eqb, Z.testbit_odd, Z.shiftr_div_pow2 by lia.
  replace (2 ^ Z.of_nat L)%Z with (Z.of_nat (2 ^ L)) by apply Nat2Z.inj_pow.
  by rewrite <-Nat2Z.inj_div, Zodd_of_nat.
Qed.

Lemma level_lt_32 level : (Z.of_nat (2 ^ level) < 2 ^ 32)%Z → level < 32.
Proof. rewrite Nat2Z.inj_pow. intros H%Z.pow_lt_mono_r_iff; lia. Qed.

(** One round of the combining loop: bit [level] of [s] is set. *)
Lemma combine_step inner matchlevel n q level h matchh path :
  let s := q * 2 ^ S level + 2 ^ level in
  inner_ok inner s → combine_inv matchlevel n s level h matchh path →
  let '(path', matchh') :=
    if matchh then (path ++ [inner_at inner level], true)
    else if (matchlevel =? Z.of_nat level)%Z then (path ++ [h], true)
    else (path, false) in
  combine_inv matchlevel n (q * 2 ^ S level) (S level) (Hash2 (inner_at inner level) h) matchh' path'.
Proof.
  intros s Hinner [Hal Hrange Hn Hh Hpath]. set (s' := q * 2 ^ S level) in *. pose proof (pow2_pos level) as Hp.
  assert (seg_start s level = s') as Hlow by apply seg_start_low.
  assert (∀ j, level < j → seg_start s j = seg_start s' j) as Hhigh by (intros j; apply seg_start_high).
  assert (inner_at inner level = mroot level (slice s' (2 ^ level))) as ->.
  { unfold inner_at. rewrite (Hinner level) by (apply counter_bits; by left). by rewrite Hlow. }
  assert ((length (slice s' (n - s')) <=? 2 ^ level) = false) as Hlen
    by (apply Nat.leb_gt; rewrite length_slice; lia).
  assert (take (2 ^ level) (slice s' (n - s')) = slice s' (2 ^ level)) as Htake by (apply take_slice; lia).
  assert (drop (2 ^ level) (slice s' (n - s')) = slice s (n - s)) as Hdrop
    by (rewrite drop_slice; f_equal; lia).
  assert (Hash2 (mroot level (slice s' (2 ^ level))) h = mroot (S level) (slice s' (n - s'))) as Hroot
    by (by rewrite mroot_S, Hlen, Htake, Hdrop, Hh).
  assert (mpath (S level) (slice s' (n - s')) (pos - s') =
    if pos - s' <? 2 ^ level then mpath level (slice s' (2 ^ level)) (pos - s') ++ [h]
    else mpath level (slice s (n - s)) (pos - s' - 2 ^ level) ++ [mroot level (slice s' (2 ^ level))]) as Hmp
    by (by rewrite mpath_S, Hlen, Htake, Hdrop, Hh).
  destruct matchh; [|destruct (Z.eqb_spec matchlevel (Z.of_nat level)) as [->|Hml]];
    (split; [by exists q|cbn [Nat.pow]; lia|done|done|]).
  - destruct Hpath as [Hpos ->]. split; [lia|]. rewrite Hmp. destruct (Nat.ltb_spec (pos - s') (2 ^ level)); [lia|].
    do 2 f_equal. lia.
  - destruct Hpath as [[_ [? _]]|[Hpos (j & Hj & _ & Hseg & ->)]]; [lia|].
    assert (j = level) as -> by lia. rewrite Hlow in Hseg |- *. split; [lia|]. rewrite Hmp. destruct (Nat.ltb_spec (pos - s') (2 ^ level)); [done|lia].
  - destruct Hpath as [?|[Hpos (j & -> & Hbit & Hseg & ->)]]; [by left|right].
    apply counter_bits in Hbit as [->|[Hj Hbit]]; [done|].
    rewrite Hhigh in Hseg |- * by done. fold s' in Hbit.
    pose proof (seg_end _ _ Hbit). split; [lia|]. exists j. split_and!; (done || lia).
Qed.

Lemma combine_loop_inv fuel inner matchlevel n s level h matchh path :
  inner_ok inner s → combine_inv matchlevel n s level h matchh path →
  (Z.of_nat (s + 2 ^ level) < 2 ^ 32)%Z → 32 ≤ level + fuel →
  let '(level', h', matchh', path') :=
    combine_loop fuel (Z.of_nat (s + 2 ^ level)) inner matchlevel level h matchh path in
  ∃ q, let s' := q * 2 ^ S level' in
    s' + 2 ^ level' = s + 2 ^ level ∧ inner_ok inner s' ∧
    combine_inv matchlevel n s' level' h' matchh' path' ∧ level ≤ level' < 32 ∧
    (s' = s ∧ level' = level ∨ 2 ^ level' < 2 * (n - s')).
Proof.
  revert s level h matchh path.
  induction fuel as [|fuel IH]; intros s level h matchh path Hinner Hinv Hmax Hfuel; cbn [combine_loop];
    (assert (level < 32) as HL by (apply level_lt_32; lia)).
  { lia. }
  destruct (ci_aligned _ _ _ _ _ _ _ Hinv) as [q Hq]. pose proof (pow2_pos level) as Hp.
  assert ((s + 2 ^ level) / 2 ^ level = q + 1) as Hdiv.
  { rewrite Hq. replace (q * 2 ^ level + 2 ^ level) with ((q + 1) * 2 ^ level) by lia. apply Nat.div_mul. lia. }
  rewrite bit_clear_spec, Hdiv, Nat.add_1_r, Nat.odd_succ, <-Nat.negb_odd, negb_involutive by done.
  destruct (Nat.odd q) eqn:Hodd.
  - apply Nat.odd_spec in Hodd as [q' ->].
    assert (s = q' * 2 ^ S level + 2 ^ level) as Hs by (cbn [Nat.pow]; lia). clear Hq.
    subst s. pose proof (combine_step inner matchlevel n q' level h matchh path Hinner Hinv) as Hstep.
    destruct (if matchh then _ else _) as [path' matchh'].
    set (s' := q' * 2 ^ S level) in *.
    assert (inner_ok inner s') as Hinner' by (by apply inner_ok_drop).
    specialize (IH s' (S level) _ _ _ Hinner' Hstep).
    replace (s' + 2 ^ level + 2 ^ level) with (s' + 2 ^ S level) by (cbn [Nat.pow]; lia).
    specialize (IH ltac:(cbn [Nat.pow] in *; lia) ltac:(lia)).
    destruct (combine_loop _ _ _ _ _ _ _ _) as [[[level'' h''] matchh''] path''].
    destruct IH as (q'' & Hsum & Hin & Hci & HL' & Hlast). exists q''. split_and!; try (done || lia).
    right. destruct Hlast as [[-> ->]|]; [|done]. pose proof (ci_range _ _ _ _ _ _ _ Hinv). cbn [Nat.pow]. lia.
  - rewrite <-Nat.negb_even in Hodd. apply negb_false_iff, Nat.even_spec in Hodd as [q' ->].
    exists q'. replace (q' * 2 ^ S level) with s by (cbn [Nat.pow]; lia). split_and!; auto.
Qed.

(** ** The main loop *)

Record counter_inv (c : nat) (st : mstate) : Prop := {
  cn_count : m_count st = Z.of_nat c;
  cn_length : length (m_inner st) = 32;
  cn_inner : inner_ok (m_inner st) c;
  cn_path : (c ≤ pos ∧ waiting (m_matchlevel st) (m_path st)) ∨
            (pos < c ∧ tracked c (m_matchlevel st) (m_path st))
}.

Lemma counter_inv_init : counter_inv 0 (MState 0 (replicate 32 uint256_zero) (-1) []).
Proof.
  split; [done..| |left; split; [lia|done]]. intros j Hj. by rewrite Nat.Div0.div_0_l in Hj.
Qed.

Lemma slice_1 c leaf : leaves !! c = Some leaf → slice c 1 = [leaf].
Proof. intros Hc. unfold slice. by rewrite (drop_S _ _ _ Hc). Qed.

Lemma process_leaf_inv c st leaf :
  leaves !! c = Some leaf → (Z.of_nat (c + 1) < 2 ^ 32)%Z → counter_inv c st →
  counter_inv (c + 1) (process_leaf (Z.of_nat pos) st leaf).
Proof.
  intros Hleaf Hmax [Hcount Hlen Hinner Hpath]. unfold process_leaf. rewrite Hcount.
  replace (u32 (Z.of_nat c + 1)) with (Z.of_nat (c + 2 ^ 0)) by (rewrite uwrap_small; unfold urange; cbn [Nat.pow]; lia).
  pose proof (lookup_lt_Some _ _ _ Hleaf) as Hlt.
  assert (combine_inv (m_matchlevel st) (c + 1) c 0 leaf (Z.of_nat c =? Z.of_nat pos)%Z (m_path st)) as Hci.
  { split; [exists c; cbn [Nat.pow]; lia|cbn [Nat.pow]; lia|lia|..]; replace (c + 1 - c) with 1 by lia.
    - by rewrite (slice_1 c leaf).
    - destruct (Z.eqb_spec (Z.of_nat c) (Z.of_nat pos)) as [Heq|Hne].
      + destruct Hpath as [[_ [_ ->]]|[? _]]; [|lia]. split; [lia|done].
      + destruct Hpath as [[? ?]|?]; [left; split; [lia|done]|by right]. }
  pose proof (combine_loop_inv 32 _ _ _ _ _ _ _ _ Hinner Hci ltac:(cbn [Nat.pow]; lia) ltac:(lia)) as Hloop.
  destruct (combine_loop _ _ _ _ _ _ _ _) as [[[level h] matchh] path].
  destruct Hloop as (q & Hsum & Hin & [_ Hr _ Hh Hp] & [_ HL] & _). change (2 ^ 0) with 1 in *.
  assert (c + 1 - q * 2 ^ S level = 2 ^ level) as Hw by lia. rewrite Hw in Hh, Hp. rewrite <-Hsum in Hp |- *.
  split; cbn [m_count m_inner m_matchlevel m_path].
  - lia.
  - by rewrite length_insert.
  - intros j Hj. apply counter_bits in Hj as [->|[Hlt' Hj]].
    + by rewrite list_lookup_insert_eq, seg_start_low, Hh by lia.
    + rewrite list_lookup_insert_ne, seg_start_high by lia. by apply Hin.
  - destruct matchh.
    + destruct Hp as [Hpos ->]. right. split; [lia|]. exists level. rewrite seg_start_low.
      split_and!; [done|apply counter_bits; by left|lia..|done].
    + destruct Hp as [[? ?]|[? ?]]; [by left|right]. split; [lia|]. by apply tracked_lift.
Qed.

Lemma process_leaves_inv :
  (Z.of_nat (length leaves) < 2 ^ 32)%Z →
  counter_inv (length leaves)
    (foldl (process_leaf (Z.of_nat pos)) (MState 0 (replicate 32 uint256_zero) (-1) []) leaves).
Proof.
  intros Hmax. set (st0 := MState _ _ _ _).
  assert (∀ k, k ≤ length leaves → counter_inv k (foldl (process_leaf (Z.of_nat pos)) st0 (take k leaves))) as Hk.
  { induction k as [|k IH]; intros Hk; [apply counter_inv_init|].
    destruct (lookup_lt_is_Some_2 leaves k ltac:(lia)) as [leaf Hleaf].
    rewrite (take_S_r _ _ _ Hleaf), foldl_app. cbn [foldl]. rewrite <-Nat.add_1_r.
    apply process_leaf_inv; [done|lia|apply IH; lia]. }
  specialize (Hk (length leaves) ltac:(lia)). by rewrite firstn_all in Hk.
Qed.

(** ** The final sweep *)

Lemma lowest_level_spec fuel m level :
  0 < m → (Z.of_nat (m * 2 ^ level) < 2 ^ 32)%Z → 32 ≤ level + fuel →
  let L := lowest_level fuel (Z.of_nat (m * 2 ^ level)) level in
  L < 32 ∧ ∃ q, m * 2 ^ level = q * 2 ^ S L + 2 ^ L.
Proof.
  revert m level. induction fuel as [|fuel IH]; intros m level Hm Hmax Hfuel; cbn [lowest_level];
    pose proof (pow2_pos level); (assert (level < 32) as HL by (apply level_lt_32; nia)); [lia|].
  rewrite bit_clear_spec, Nat.div_mul by lia. destruct (Nat.odd m) eqn:Hodd; cbn [negb].
  - split; [done|]. apply Nat.odd_spec in Hodd as [q ->]. exists q. cbn [Nat.pow]. lia.
  - rewrite <-Nat.negb_even in Hodd. apply negb_false_iff, Nat.even_spec in Hodd as [m' ->].
    replace (2 * m' * 2 ^ level) with (m' * 2 ^ S level) in * by (cbn [Nat.pow]; lia).
    apply IH; lia.
Qed.

(** An odd level is combined with itself. *)
Lemma double_inv ml n q level h matchh path :
  combine_inv ml n (q * 2 ^ S level) level h matchh path →
  combine_inv ml n (q * 2 ^ S level) (S level) (Hash2 h h) matchh (if matchh then path ++ [h] else path).
Proof.
  intros [_ Hr Hn Hh Hp].
  assert ((length (slice (q * 2 ^ S level) (n - q * 2 ^ S level)) <=? 2 ^ level) = true) as Hlen
    by (apply Nat.leb_le; rewrite length_slice; lia).
  split; [by exists q|cbn [Nat.pow] in *; lia|done|by rewrite mroot_S, Hlen, Hh|].
  destruct matchh; [|done]. destruct Hp as [? ->]. split; [done|]. by rewrite mpath_S, Hlen, Hh.
Qed.

Lemma round_up q a b : q * 2 ^ a < 2 ^ b → 0 < q → a ≤ b ∧ (q + 1) * 2 ^ a ≤ 2 ^ b.
Proof.
  intros Hlt Hq. pose proof (pow2_pos a).
  assert (a ≤ b) as Hab by (apply (Nat.pow_le_mono_r_iff 2); nia).
  split; [done|]. rewrite (pow2_split a b) in Hlt |- * by done.
  apply Nat.mul_lt_mono_pos_r in Hlt; [|lia]. apply Nat.mul_le_mono_r. lia.
Qed.

Lemma slice_all : slice 0 (length leaves) = leaves.
Proof. unfold slice. by rewrite drop_0, firstn_all. Qed.

Lemma sweep_top ml level h matchh path :
  pos < length leaves → 2 ^ level < 2 * length leaves →
  combine_inv ml (length leaves) 0 level h matchh path → path = mpath (height leaves) leaves pos.
Proof.
  intros Hpos Hlow [_ Hr _ _ Hp]. destruct matchh; [|lia]. destruct Hp as [_ ->].
  rewrite !Nat.sub_0_r, slice_all. f_equal. unfold height. symmetry.
  destruct level as [|level].
  - cbn [Nat.pow] in *. by replace (length leaves) with 1 by lia.
  - apply Nat.log2_up_unique; cbn [Nat.pow Nat.pred] in *; lia.
Qed.

Lemma sweep_spec b fuel inner ml q level h matchh path :
  pos < length leaves ≤ 2 ^ b → b ≤ 31 → level < 32 → 32 ≤ level + fuel →
  inner_ok inner (q * 2 ^ S level) →
  combine_inv ml (length leaves) (q * 2 ^ S level) level h matchh path →
  (q = 0 → 2 ^ level < 2 * length leaves) →
  sweep fuel inner ml (Z.of_nat (q * 2 ^ S level + 2 ^ level)) level h matchh path =
    mpath (height leaves) leaves pos.
Proof.
  intros Hlen Hb. revert q level h matchh path.
  induction fuel as [|fuel IH]; intros q level h matchh path HL Hfuel Hin Hci Htop; [lia|]. cbn [sweep].
  pose proof (pow2_pos level) as Hp. pose proof (pow2_pos (S level)) as Hp'. rewrite u32_bit by done.
  destruct (Z.eqb_spec (Z.of_nat (q * 2 ^ S level + 2 ^ level)) (Z.of_nat (2 ^ level))) as [Heq|Hne].
  { assert (q = 0) as -> by nia. by apply (sweep_top ml level h matchh); [lia|apply Htop|]. }
  assert (0 < q) as Hq by (destruct q; lia).
  pose proof (ci_range _ _ _ _ _ _ _ Hci) as Hr.
  destruct (round_up q (S level) b ltac:(lia) Hq) as [Hab Hup].
  assert (Z.of_nat (2 ^ b) ≤ 2 ^ 31)%Z as Hcap.
  { rewrite Nat2Z.inj_pow. apply Z.pow_le_mono_r; lia. }
  replace (u32 (Z.of_nat (q * 2 ^ S level + 2 ^ level) + Z.of_nat (2 ^ level)))
    with (Z.of_nat (q * 2 ^ S level + 2 ^ S level)).
  2: { rewrite uwrap_small; [cbn [Nat.pow]; lia|]. unfold urange. cbn [Nat.pow] in *. lia. }
  pose proof (combine_loop_inv 32 _ _ _ _ _ _ _ _ Hin (double_inv _ _ _ _ _ _ _ Hci) ltac:(lia) ltac:(lia)) as Hloop.
  destruct (combine_loop _ _ _ _ _ _ _ _) as [[[level' h'] matchh'] path'].
  destruct Hloop as (q' & Hsum & Hin' & Hci' & HL' & Hlast). rewrite <-Hsum.
  apply IH; [lia|lia|done|done|]. intros ->. destruct Hlast as [[H0 _]|]; nia.
Qed.

Lemma MerkleComputation_spec b :
  pos < length leaves ≤ 2 ^ b → b ≤ 31 →
  MerkleComputation (Z.of_nat pos) leaves = mpath (height leaves) leaves pos.
Proof.
  intros Hlen Hb.
  assert (Z.of_nat (2 ^ b) ≤ 2 ^ 31)%Z as Hcap by (rewrite Nat2Z.inj_pow; apply Z.pow_le_mono_r; lia).
  assert (Z.of_nat (length leaves) < 2 ^ 32)%Z as Hmax by lia.
  pose proof (process_leaves_inv Hmax) as [Hcount _ Hinner Hpath]. unfold MerkleComputation.
  destruct leaves as [|leaf0 leaves0] eqn:Hl; [cbn [length] in Hlen; lia|]. rewrite <-Hl in *. clear leaf0 leaves0 Hl.
  set (st := foldl _ _ _) in *. rewrite Hcount.
  destruct (lowest_level_spec 32 (length leaves) 0 ltac:(lia)) as [HL [q Hq]]; [cbn [Nat.pow]; lia|lia|].
  change (2 ^ 0) with 1 in *. rewrite Nat.mul_1_r in *. set (L := lowest_level 32 _ 0) in *.
  pose proof (pow2_pos L) as Hp.
  destruct Hpath as [[? _]|[_ (j & Hml & Hbit & Hseg & Hpath)]]; [lia|].
  pose proof (Hinner L) as HinL. rewrite Hq in Hinner, HinL, Hbit, Hseg, Hpath.
  specialize (HinL ltac:(apply counter_bits; by left)). rewrite seg_start_low in HinL.
  rewrite Hq at 1. apply (sweep_spec b); [done|done|done|lia|by apply inner_ok_drop| |nia].
  unfold inner_at. rewrite HinL. cbn [default from_option id].
  assert (length leaves - q * 2 ^ S L = 2 ^ L) as Hw by lia.
  split; [exists (2 * q); cbn [Nat.pow]; lia|lia|done|by rewrite Hw|]. rewrite Hw, Hml.
  destruct (Z.eqb_spec (Z.of_nat j) (Z.of_nat L)) as [Heq|Hne].
  - assert (j = L) as -> by lia. rewrite seg_start_low in Hseg, Hpath. split; [lia|done].
  - right. apply counter_bits in Hbit as [->|[Hlt Hbit]]; [done|].
    rewrite seg_start_high in Hseg, Hpath by done. pose proof (seg_end _ _ Hbit).
    split; [lia|]. exists j. split_and!; (done || lia).
Qed.
End Counter.

(** The portable implementation only: no vector routine was selected. *)
Definition portable : D64Impl :=
  {| TransformD64_8way := None; TransformD64_4way := None; TransformD64_2way := None;
     TransformD64_8way_ok := I; TransformD64_4way_ok := I; TransformD64_2way_ok := I |}.

Lemma txids_ok `{!ABI} txs : Forall hash_ok (map ComputeHash txs).
Proof. induction txs; constructor; [apply length_ComputeHash|done]. Qed.

Lemma map_ComputeHash_inj `{!ABI} txs txs' :
  Forall tx_ok txs → Forall tx_ok txs' → map ComputeHash txs = map ComputeHash txs' →
  map strip txs = map strip txs' ∨ hash_collision (map (SerializeTransaction false) (txs ++ txs')).
Proof.
  intros H1. revert txs'. induction H1 as [|tx txs Htx H1 IH]; intros [|tx' txs'] H2 Heq; try done; [by left|].
  cbn [map] in Heq. injection Heq as Ht Heq. inversion_clear H2.
  destruct (ComputeHash_inj tx tx') as [Hs|Hx]; [done..| |right; eapply hash_collision_mono, Hx; set_solver].
  destruct (IH txs') as [Hr|Hx]; [done..| |right; eapply hash_collision_mono, Hx; set_solver].
  left. cbn [map]. by rewrite Hs, Hr.
Qed.

(** The messages hashed to compute the hash and the Merkle root of a block. *)
Definition block_messages `{!ABI} (b : CBlock) : list bytes :=
  Ser CBlockHeaderF (header b) :: map (SerializeTransaction false) (vtx b) ++
  tree_messages (height (map ComputeHash (vtx b))) (map ComputeHash (vtx b)).

(** ** Properties *)

(** C27: ComputeMerkleRoot, hashing the vector level by level in its own memory, returns the
    root of the complete binary tree over the leaves in which a missing right subtree
    repeats the left one (the null hash for no leaves), and reports a mutation exactly when it was
    asked to look and two sibling subtrees of the tree, the right one with leaves of its own, have
    the same root.  The leaves are 32-byte hashes. *)
Theorem ComputeMerkleRoot_tree `{!D64Impl} (leaves : list uint256) (mutated : bool) :
  Forall hash_ok leaves →
  fst (ComputeMerkleRoot leaves mutated) = mroot (height leaves) leaves ∧
  (snd (ComputeMerkleRoot leaves mutated) = true ↔ mutated = true ∧ twin_siblings leaves).
Proof.
  intros Hl. rewrite ComputeMerkleRoot_spec by done. split; [done|]. cbn [snd].
  by rewrite andb_true_iff, mutated_at_spec.
Qed.

Lemma ComputeMerkleRoot_tree_witness :
  let a := replicate 32 1 in let b := replicate 32 2 in
  snd (@ComputeMerkleRoot portable [a; b; b; b] true) = true ∧ snd (@ComputeMerkleRoot portable [a; b; b] true) = false.
Proof.
  intros a b. destruct (@ComputeMerkleRoot_tree portable [a; b; b; b] true) as [_ H]; [repeat constructor|].
  split; [|by vm_compute]. apply H. split; [done|]. exists 0%nat, 1%nat. split; [simpl; lia|reflexivity].
Defined.

(** C26: The root binds the leaves: two vectors of leaves with trees of the same height, the
    same root and no mutation reported have the same leaves, unless two different nodes of
    the two trees collide under double SHA-256.  (A vector and its extension by repeated entries have the same root; one of
    the two is reported.) *)
Theorem merkle_root_binding `{!D64Impl} (l1 l2 : list uint256) (root : uint256) :
  Forall hash_ok l1 → Forall hash_ok l2 → l1 ≠ [] → l2 ≠ [] → height l1 = height l2 →
  ComputeMerkleRoot l1 true = (root, false) → ComputeMerkleRoot l2 true = (root, false) →
  l1 = l2 ∨ hash_collision (tree_messages (height l1) l1 ++ tree_messages (height l2) l2).
Proof.
  intros H1 H2 N1 N2 Hh. rewrite !ComputeMerkleRoot_spec by done. rewrite <-Hh. intros [= <- M1] [= Hroot M2].
  pose proof (length_le_height l1). pose proof (length_le_height l2) as Hle. rewrite <-Hh in Hle.
  apply (mroot_inj (height l1)); try done; split; try done; by apply nonempty_length.
Qed.

Lemma merkle_root_binding_witness :
  let l := [replicate 32 1; replicate 32 2; replicate 32 3] in
  l = l ∨ hash_collision (tree_messages (height l) l ++ tree_messages (height l) l).
Proof.
  intros l. apply (@merkle_root_binding portable l l (fst (@ComputeMerkleRoot portable l true)));
    [repeat constructor..|discriminate|discriminate|reflexivity| |]; vm_compute; reflexivity.
Defined.

(** C28: ComputeMerklePath returns, for any leaf of up to 2^31 leaves, a path with one sibling
    per level of the tree, from which the root that ComputeMerkleRoot returns is
    recomputed, the bits of the position choosing the sides. *)
Theorem ComputeMerklePath_authenticates `{!D64Impl} (leaves : list uint256) (position : nat) (leaf : uint256) :
  Forall hash_ok leaves → Z.of_nat (length leaves) ≤ 2 ^ 31 → leaves !! position = Some leaf →
  let path := ComputeMerklePath leaves (Z.of_nat position) in
  length path = height leaves ∧
  root_from_path leaf path position = fst (ComputeMerkleRoot leaves false).
Proof.
  intros Hok Hlen Hpos path. pose proof (lookup_lt_Some _ _ _ Hpos) as Hlt.
  assert (path = mpath (height leaves) leaves position) as ->.
  { apply (MerkleComputation_spec _ _ 31); [|lia]. split; [done|].
    apply Nat2Z.inj_le. rewrite Nat2Z.inj_pow. exact Hlen. }
  rewrite length_mpath, ComputeMerkleRoot_spec by done. split; [done|].
  by rewrite mpath_correct; [|apply length_le_height|].
Qed.

Lemma ComputeMerklePath_authenticates_witness :
  let l := [replicate 32 1; replicate 32 2; replicate 32 3] in
  length (ComputeMerklePath l 2) = 2%nat.
Proof.
  intros l. apply (@ComputeMerklePath_authenticates portable l 2 (replicate 32 3));
    [repeat constructor|vm_compute; discriminate|reflexivity].
Defined.

(** A block hash commits to the transactions: two blocks with the same header hash whose
    headers carry the Merkle root computed from their transactions, without a mutation
    reported and with trees of the same height, have the same header and the same
    transactions up to witnesses, unless two of the messages hashed for the two blocks are
    a collision of double SHA-256. *)
Theorem block_hash_commits `{!D64Impl, !ABI} (b1 b2 : CBlock) :
  header_ok (header b1) → header_ok (header b2) → Forall tx_ok (vtx b1) → Forall tx_ok (vtx b2) →
  vtx b1 ≠ [] → vtx b2 ≠ [] → Nat.log2_up (length (vtx b1)) = Nat.log2_up (length (vtx b2)) →
  BlockMerkleRoot b1 true = (hashMerkleRoot (header b1), false) →
  BlockMerkleRoot b2 true = (hashMerkleRoot (header b2), false) →
  CBlockHeader_GetHash (header b1) = CBlockHeader_GetHash (header b2) →
  (header b1 = header b2 ∧ map strip (vtx b1) = map strip (vtx b2)) ∨
  hash_collision (block_messages b1 ++ block_messages b2).
Proof.
  intros H1 H2 T1 T2 N1 N2 Hh R1 R2 Heq. unfold block_messages.
  apply GetHash_inj in Heq as [Heq|Hx]; [|right; eapply hash_collision_mono, Hx; set_solver|done|done].
  unfold BlockMerkleRoot in R1, R2. rewrite Heq in R1.
  rewrite ComputeMerkleRoot_spec in R1, R2 by apply txids_ok. unfold height in R1, R2. rewrite !length_map in R1, R2. rewrite Hh in R1.
  injection R1 as R1 M1. injection R2 as R2 M2.
  destruct (mroot_inj (Nat.log2_up (length (vtx b2))) (map ComputeHash (vtx b1)) (map ComputeHash (vtx b2)))
    as [Htx|Hx]; [apply txids_ok..| | |done|done|congruence| |].
  1,2: rewrite length_map; split; [by apply nonempty_length|].
  - rewrite <-Hh, <-(length_map ComputeHash). apply (length_le_height (map _ _)).
  - rewrite <-(length_map ComputeHash). apply (length_le_height (map _ _)).
  - apply map_ComputeHash_inj in Htx as [Htx|Hx]; [by left| |done|done].
    right. eapply hash_collision_mono, Hx. set_solver.
  - right. eapply hash_collision_mono, Hx. unfold height. rewrite !length_map, Hh. set_solver.
Qed.

Lemma block_hash_commits_witness :
  let H := x86_64 in let I := portable in
  let root := @ComputeHash H example_tx in
  let b := {| header := {| nVersion := 1; hashPrevBlock := uint256_zero; hashMerkleRoot := root;
                           nTime := 0; nBits := 0; nNonce := 0 |}; vtx := [example_tx] |} in
  (header b = header b ∧ map strip (vtx b) = map strip (vtx b)) ∨ hash_collision (block_messages b ++ block_messages b).
Proof.
  intros H I root b. apply (@block_hash_commits I H b b).
  1,2: refine (conj _ (conj _ (conj (ComputeHash_ok _) _))); solve_ok.
  1,2: repeat constructor; apply example_tx_ok.
  all: first [discriminate|reflexivity].
Defined.
