(* ===== verification/BlockIndex.v ===== *)
(** * The block index: chain.h, chain.cpp, node/blockstorage.cpp

    The entries of the block tree live in [BlockManager::m_block_index], a map from block
    hash to entry whose addresses are stable, so a pointer to an entry is modelled by its
    key and the heap of entries by the map; [phashBlock] is the key itself.  A function that
    dereferences returns [None] where the C++ would dereference a null or dangling pointer
    or fail an assertion. *)

From S2P Require Import Prelude ArithUint256 Serialize Hash Primitives.
From Stdlib Require Import ZArith Lia.
From stdpp Require Import base option list numbers gmap sorting.

Open Scope Z_scope.
Open Scope kernel_scope.
Import base_uint arith_uint256.

(** ** The entries *)

Definition BLOCK_VALID_RESERVED : Z := 1.
Definition BLOCK_VALID_TREE : Z := 2.
Definition BLOCK_VALID_TRANSACTIONS : Z := 3.
Definition BLOCK_VALID_CHAIN : Z := 4.
Definition BLOCK_VALID_SCRIPTS : Z := 5.
Definition BLOCK_VALID_MASK : Z :=
  BLOCK_VALID_RESERVED .| BLOCK_VALID_TREE .| BLOCK_VALID_TRANSACTIONS .| BLOCK_VALID_CHAIN .| BLOCK_VALID_SCRIPTS.
Definition BLOCK_HAVE_DATA : Z := 8.
Definition BLOCK_HAVE_UNDO : Z := 16.
Definition BLOCK_FAILED_VALID : Z := 32.
Definition SEQ_ID_INIT_FROM_DISK : Z := 1.

Abbreviation ptr := uint256.

Record CBlockIndex := {
  pprev : option ptr;
  pskip : option ptr;
  nHeight : Z;
  nFile : Z;
  nDataPos : Z;
  nUndoPos : Z;
  nChainWork : list Z;
  nTx : Z;
  m_chain_tx_count : Z;
  nStatus : Z;
  bi_nVersion : Z;
  bi_hashMerkleRoot : uint256;
  bi_nTime : Z;
  bi_nBits : Z;
  bi_nNonce : Z;
  nSequenceId : Z;
  nTimeMax : Z
}.

Definition CBlockIndex_make (block : CBlockHeader) : CBlockIndex := {|
  pprev := None; pskip := None; nHeight := 0; nFile := 0; nDataPos := 0; nUndoPos := 0;
  nChainWork := zero WIDTH; nTx := 0; m_chain_tx_count := 0; nStatus := 0;
  bi_nVersion := nVersion block; bi_hashMerkleRoot := hashMerkleRoot block; bi_nTime := nTime block;
  bi_nBits := nBits block; bi_nNonce := nNonce block;
  nSequenceId := SEQ_ID_INIT_FROM_DISK; nTimeMax := 0 |}.

(** Assignments to members. *)
Definition set_parent (b : CBlockIndex) (prev : option ptr) (height : Z) : CBlockIndex := {|
  pprev := prev; pskip := pskip b; nHeight := height; nFile := nFile b; nDataPos := nDataPos b;
  nUndoPos := nUndoPos b; nChainWork := nChainWork b; nTx := nTx b; m_chain_tx_count := m_chain_tx_count b;
  nStatus := nStatus b; bi_nVersion := bi_nVersion b; bi_hashMerkleRoot := bi_hashMerkleRoot b;
  bi_nTime := bi_nTime b; bi_nBits := bi_nBits b; bi_nNonce := bi_nNonce b;
  nSequenceId := nSequenceId b; nTimeMax := nTimeMax b |}.
Definition set_pskip (b : CBlockIndex) (skip : option ptr) : CBlockIndex := {|
  pprev := pprev b; pskip := skip; nHeight := nHeight b; nFile := nFile b; nDataPos := nDataPos b;
  nUndoPos := nUndoPos b; nChainWork := nChainWork b; nTx := nTx b; m_chain_tx_count := m_chain_tx_count b;
  nStatus := nStatus b; bi_nVersion := bi_nVersion b; bi_hashMerkleRoot := bi_hashMerkleRoot b;
  bi_nTime := bi_nTime b; bi_nBits := bi_nBits b; bi_nNonce := bi_nNonce b;
  nSequenceId := nSequenceId b; nTimeMax := nTimeMax b |}.
Definition set_totals (b : CBlockIndex) (timemax : Z) (work : list Z) : CBlockIndex := {|
  pprev := pprev b; pskip := pskip b; nHeight := nHeight b; nFile := nFile b; nDataPos := nDataPos b;
  nUndoPos := nUndoPos b; nChainWork := work; nTx := nTx b; m_chain_tx_count := m_chain_tx_count b;
  nStatus := nStatus b; bi_nVersion := bi_nVersion b; bi_hashMerkleRoot := bi_hashMerkleRoot b;
  bi_nTime := bi_nTime b; bi_nBits := bi_nBits b; bi_nNonce := bi_nNonce b;
  nSequenceId := nSequenceId b; nTimeMax := timemax |}.
Definition set_nStatus (b : CBlockIndex) (status : Z) : CBlockIndex := {|
  pprev := pprev b; pskip := pskip b; nHeight := nHeight b; nFile := nFile b; nDataPos := nDataPos b;
  nUndoPos := nUndoPos b; nChainWork := nChainWork b; nTx := nTx b; m_chain_tx_count := m_chain_tx_count b;
  nStatus := status; bi_nVersion := bi_nVersion b; bi_hashMerkleRoot := bi_hashMerkleRoot b;
  bi_nTime := bi_nTime b; bi_nBits := bi_nBits b; bi_nNonce := bi_nNonce b;
  nSequenceId := nSequenceId b; nTimeMax := nTimeMax b |}.

Abbreviation BlockMap := (gmap uint256 CBlockIndex).

(** [None] where the assertion on [nUpTo] fails: only validity levels are allowed. *)
Definition IsValid (b : CBlockIndex) (nUpTo : Z) : option bool :=
  if negb (nUpTo .& u32 (Z.lnot BLOCK_VALID_MASK) =? 0) then None
  else if negb (nStatus b .& BLOCK_FAILED_VALID =? 0) then Some false
  else Some (nUpTo <=? nStatus b .& BLOCK_VALID_MASK).

Definition RaiseValidity (b : CBlockIndex) (nUpTo : Z) : option (CBlockIndex * bool) :=
  if negb (nUpTo .& u32 (Z.lnot BLOCK_VALID_MASK) =? 0) then None
  else if negb (nStatus b .& BLOCK_FAILED_VALID =? 0) then Some (b, false)
  else if nStatus b .& BLOCK_VALID_MASK <? nUpTo then
    Some (set_nStatus b ((nStatus b .& u32 (Z.lnot BLOCK_VALID_MASK)) .| nUpTo), true)
  else Some (b, false).

(** ** Skip list *)

Definition InvertLowestOne (n : Z) : Z := n .& (n - 1).

Definition GetSkipHeight (height : Z) : Z :=
  if height <? 2 then 0
  else if negb (height .& 1 =? 0) then InvertLowestOne (InvertLowestOne (height - 1)) + 1
  else InvertLowestOne height.

Fixpoint GetAncestor_loop (m : BlockMap) (fuel : nat) (pindexWalk : ptr) (heightWalk height : Z) : option ptr :=
  if height <? heightWalk then
    match fuel with
    | O => None
    | S fuel =>
        let heightSkip := GetSkipHeight heightWalk in
        let heightSkipPrev := GetSkipHeight (heightWalk - 1) in
        walk ← m !! pindexWalk;
        let follow :=
          (heightSkip =? height)
          || ((height <? heightSkip)
              && negb ((heightSkipPrev <? heightSkip - 2) && (height <=? heightSkipPrev))) in
        match pskip walk, follow with
        | Some skip, true => GetAncestor_loop m fuel skip heightSkip height
        | _, _ =>
            prev ← pprev walk;
            GetAncestor_loop m fuel prev (heightWalk - 1) height
        end
    end
  else Some pindexWalk.

(** Each step goes down by at least one: [nHeight] steps are enough. *)
Definition GetAncestor (m : BlockMap) (this : ptr) (height : Z) : option (option ptr) :=
  b ← m !! this;
  if (nHeight b <? height) || (height <? 0) then Some None
  else Some <$> GetAncestor_loop m (Z.to_nat (nHeight b)) this (nHeight b) height.

Definition BuildSkip (m : BlockMap) (b : CBlockIndex) : option CBlockIndex :=
  match pprev b with
  | Some prev => skip ← GetAncestor m prev (GetSkipHeight (nHeight b)); Some (set_pskip b skip)
  | None => Some b
  end.

(** ** Work *)

(** [return 0] and [+ 1] convert the integer to [arith_uint256]. *)
Definition GetBitsProof (bits : Z) : option (list Z) :=
  let t := SetCompact bits in
  let bnTarget := sc_value t in
  if sc_negative t || sc_overflow t || EqualTo WIDTH bnTarget 0 then Some (of_u64 WIDTH 0)
  else
    q ← div WIDTH (bitnot WIDTH bnTarget) (add WIDTH bnTarget (of_u64 WIDTH 1));
    Some (add WIDTH q (of_u64 WIDTH 1)).

Definition GetBlockProof (b : CBlockIndex) : option (list Z) := GetBitsProof (bi_nBits b).

(** [GetBlockProofEquivalentTime]; [None] is a division by a zero proof. *)
Definition GetBlockProofEquivalentTime (to from tip : CBlockIndex) (nPowTargetSpacing : Z) : option Z :=
  let '(r, sign) :=
    if gtb WIDTH (nChainWork to) (nChainWork from) then (sub WIDTH (nChainWork to) (nChainWork from), 1)
    else (sub WIDTH (nChainWork from) (nChainWork to), -1) in
  proof ← GetBlockProof tip;
  r ← div WIDTH (mul WIDTH r (of_u64 WIDTH nPowTargetSpacing)) proof;
  if 63 <? bits WIDTH r then Some (sign * (2 ^ 63 - 1))
  else Some (sign * i64 (GetLow64 r)).

(** ** [BlockManager::AddToBlockIndex] *)

Record BlockManager := {
  m_block_index : BlockMap;
  m_best_header : option ptr;
  m_dirty_blockindex : gset uint256
}.

(** The lookup of the parent, after the new entry has been inserted into [m]. *)
Definition link_pprev (m : BlockMap) (hash : uint256) (block : CBlockHeader) (pindexNew : CBlockIndex)
    : option CBlockIndex :=
  match m !! hashPrevBlock block with
  | Some prev =>
      let b := set_parent pindexNew (Some (hashPrevBlock block)) (i32 (nHeight prev + 1)) in
      BuildSkip (<[hash := b]> m) b
  | None => Some pindexNew
  end.

Definition AddToBlockIndex (st : BlockManager) (block : CBlockHeader) : option (BlockManager * ptr) :=
  let hash := CBlockHeader_GetHash block in
  match m_block_index st !! hash with
  | Some _ => Some (st, hash)
  | None =>
      let pindexNew := CBlockIndex_make block in
      let m := <[hash := pindexNew]> (m_block_index st) in
      pindexNew ← link_pprev m hash block pindexNew;
      let parent := pprev pindexNew ≫= λ q, m !! q in
      let timemax :=
        match parent with
        | Some p => Z.max (nTimeMax p) (bi_nTime pindexNew)
        | None => bi_nTime pindexNew
        end in
      proof ← GetBlockProof pindexNew;
      let work :=
        add WIDTH (match parent with Some p => nChainWork p | None => of_u64 WIDTH 0 end) proof in
      '(pindexNew, _) ← RaiseValidity (set_totals pindexNew timemax work) BLOCK_VALID_TREE;
      let m := <[hash := pindexNew]> m in
      best ←
        match m_best_header st with
        | None => Some hash
        | Some bh =>
            h ← m !! bh;
            Some (if ltb WIDTH (nChainWork h) (nChainWork pindexNew) then hash else bh)
        end;
      Some ({| m_block_index := m; m_best_header := Some best;
               m_dirty_blockindex := {[hash]} ∪ m_dirty_blockindex st |}, hash)
  end.

(** ** [CChain] *)

Abbreviation CChain := (list (option ptr)).

Definition Genesis (vChain : CChain) : option ptr := mjoin (vChain !! 0%nat).
Definition Tip (vChain : CChain) : option ptr := mjoin (vChain !! (length vChain - 1)%nat).
Definition Height (vChain : CChain) : Z := Z.of_nat (length vChain) - 1.

(** [operator[]] *)
Definition chain_at (vChain : CChain) (height : Z) : option ptr :=
  if (height <? 0) || (Z.of_nat (length vChain) <=? height) then None
  else mjoin (vChain !! Z.to_nat height).

Definition Contains (m : BlockMap) (vChain : CChain) (pindex : ptr) : option bool :=
  b ← m !! pindex; Some (bool_decide (chain_at vChain (nHeight b) = Some pindex)).

Definition Next (m : BlockMap) (vChain : CChain) (pindex : ptr) : option (option ptr) :=
  b ← m !! pindex;
  c ← Contains m vChain pindex;
  Some (if (c : bool) then chain_at vChain (nHeight b + 1) else None).

(** [vChain[pindex->nHeight]] is in range as [vChain] has been resized. *)
Fixpoint SetTip_loop (m : BlockMap) (fuel : nat) (vChain : CChain) (pindex : option ptr) : option CChain :=
  match pindex with
  | None => Some vChain
  | Some p =>
      b ← m !! p;
      v ← vChain !! Z.to_nat (nHeight b);
      if decide (v = Some p) then Some vChain
      else
        match fuel with
        | O => None
        | S fuel => SetTip_loop m fuel (<[Z.to_nat (nHeight b) := Some p]> vChain) (pprev b)
        end
  end.

Definition SetTip (m : BlockMap) (vChain : CChain) (block : ptr) : option CChain :=
  b ← m !! block;
  let size := Z.to_nat (nHeight b + 1) in
  SetTip_loop m size (resize size None vChain) (Some block).

Fixpoint FindFork_loop (m : BlockMap) (fuel : nat) (vChain : CChain) (pindex : option ptr) : option (option ptr) :=
  match pindex with
  | None => Some None
  | Some p =>
      c ← Contains m vChain p;
      if (c : bool) then Some (Some p)
      else
        match fuel with
        | O => None
        | S fuel => b ← m !! p; FindFork_loop m fuel vChain (pprev b)
        end
  end.

Definition FindFork (m : BlockMap) (vChain : CChain) (pindex : option ptr) : option (option ptr) :=
  match pindex with
  | None => Some None
  | Some p =>
      b ← m !! p;
      pindex ← (if Height vChain <? nHeight b then GetAncestor m p (Height vChain) else Some (Some p));
      FindFork_loop m (Z.to_nat (nHeight b + 1)) vChain pindex
  end.

(** [std::lower_bound] over the positions [first .. first + len). *)
Fixpoint lower_bound (before : nat → bool) (fuel first len : nat) : nat :=
  match fuel with
  | O => first
  | S fuel =>
      if (0 <? len)%nat then
        let half := (len / 2)%nat in
        if before (first + half)%nat
        then lower_bound before fuel (first + half + 1) (len - half - 1)
        else lower_bound before fuel first half
      else first
  end.

Definition FindEarliestAtLeast (m : BlockMap) (vChain : CChain) (nTime height : Z) : option ptr :=
  let before i :=
    match mjoin (vChain !! i) ≫= λ p, m !! p with
    | Some b => (nTimeMax b <? nTime) || (nHeight b <? height)
    | None => false
    end in
  mjoin (vChain !! lower_bound before (length vChain) 0 (length vChain)).

(** ** [LastCommonAncestor] *)

Fixpoint lca_skip (m : BlockMap) (fuel : nat) (pa pb : ptr) : option (ptr * ptr) :=
  match fuel with
  | O => None
  | S fuel =>
      a ← m !! pa;
      b ← m !! pb;
      if decide (pskip a = pskip b) then Some (pa, pb)
      else
        qa ← pskip a;
        qb ← pskip b;
        lca_skip m fuel qa qb
  end.

Fixpoint lca_loop (m : BlockMap) (fuel : nat) (pa pb : option ptr) : option (option ptr) :=
  if decide (pa = pb) then Some pa
  else
    match fuel with
    | O => None
    | S fuel' =>
        pa ← pa;
        pb ← pb;
        '(pa, pb) ← lca_skip m fuel pa pb;
        a ← m !! pa;
        b ← m !! pb;
        lca_loop m fuel' (pprev a) (pprev b)
    end.

Definition LastCommonAncestor (m : BlockMap) (pa pb : ptr) : option (option ptr) :=
  a ← m !! pa;
  b ← m !! pb;
  if nHeight b <? nHeight a then
    pa ← GetAncestor m pa (nHeight b); lca_loop m (Z.to_nat (nHeight b + 1)) pa (Some pb)
  else if nHeight a <? nHeight b then
    pb ← GetAncestor m pb (nHeight a); lca_loop m (Z.to_nat (nHeight a + 1)) (Some pa) pb
  else lca_loop m (Z.to_nat (nHeight a + 1)) (Some pa) (Some pb).

(** ** Locators and times *)

Fixpoint LocatorEntries_loop (m : BlockMap) (fuel : nat) (index : option ptr) (step : Z) (have : list uint256)
    : option (list uint256) :=
  match index with
  | None => Some have
  | Some p =>
      b ← m !! p;
      let have := have ++ [p] in
      if nHeight b =? 0 then Some have
      else
        match fuel with
        | O => None
        | S fuel =>
            let height := Z.max (i32 (nHeight b - step)) 0 in
            index ← GetAncestor m p height;
            let step := if 10 <? Z.of_nat (length have) then i32 (step * 2) else step in
            LocatorEntries_loop m fuel index step have
        end
  end.

Definition LocatorEntries (m : BlockMap) (index : option ptr) : option (list uint256) :=
  match index with
  | None => Some []
  | Some p => b ← m !! p; LocatorEntries_loop m (Z.to_nat (nHeight b + 1)) index 1 []
  end.

Definition nMedianTimeSpan : nat := 11.

Fixpoint past_times (m : BlockMap) (i : nat) (pindex : option ptr) : option (list Z) :=
  match i, pindex with
  | S i, Some p => b ← m !! p; rest ← past_times m i (pprev b); Some (bi_nTime b :: rest)
  | _, _ => Some []
  end.

(** The window is filled downwards, so it holds the times oldest first. *)
Definition GetMedianTimePast (m : BlockMap) (this : ptr) : option Z :=
  times ← past_times m nMedianTimeSpan (Some this);
  let sorted := merge_sort Z.le (rev times) in
  sorted !! (length sorted / 2)%nat.

(** ** Reference: following [pprev] *)

Fixpoint iter_prev (m : BlockMap) (n : nat) (p : ptr) : option ptr :=
  match n with
  | O => Some p
  | S n => b ← m !! p; q ← pprev b; iter_prev m n q
  end.

(** The ancestor of [p] at height [h], [p] itself included. *)
Definition ancestor (m : BlockMap) (p : ptr) (h : Z) : option ptr :=
  b ← m !! p;
  if (0 <=? h) && (h <=? nHeight b) then iter_prev m (Z.to_nat (nHeight b - h)) p else None.

(** Heights count the blocks below; the parent of an entry is in the map. *)
Definition linked (m : BlockMap) : Prop :=
  ∀ p b, m !! p = Some b →
    match pprev b with
    | None => nHeight b = 0
    | Some q => ∃ c, m !! q = Some c ∧ 0 ≤ nHeight c ∧ nHeight b = nHeight c + 1
    end.

(** A skip pointer, where there is one, is the ancestor at the skip height. *)
Definition skips_ok (m : BlockMap) : Prop :=
  ∀ p b q, m !! p = Some b → pskip b = Some q →
    0 < nHeight b ∧ ancestor m p (GetSkipHeight (nHeight b)) = Some q.

(** Every entry but a root has one. *)
Definition skips_built (m : BlockMap) : Prop :=
  ∀ p b, m !! p = Some b → pskip b = None → pprev b = None.

Lemma land_le a b : 0 ≤ b → a .& b ≤ b.
Proof.
  intros Hb. pose proof (Z.lor_ldiff_and b a) as H.
  assert (Z.ldiff b a .& (b .& a) = 0) as H0.
  { apply Z.bits_inj'. intros n _. rewrite !Z.land_spec, Z.ldiff_spec, Z.bits_0.
    by destruct (Z.testbit b n), (Z.testbit a n). }
  rewrite <-Z.lxor_lor, <-Z.add_nocarry_lxor in H by done.
  assert (0 ≤ Z.ldiff b a) by (apply Z.ldiff_nonneg; by left). rewrite (Z.land_comm a b). lia.
Qed.

Lemma InvertLowestOne_range n : 0 < n → 0 ≤ InvertLowestOne n < n.
Proof.
  intros. unfold InvertLowestOne. split; [apply Z.land_nonneg; lia|].
  pose proof (land_le n (n - 1)). lia.
Qed.

Lemma GetSkipHeight_range h : 0 < h → 0 ≤ GetSkipHeight h < h.
Proof.
  intros. unfold GetSkipHeight. destruct (Z.ltb_spec h 2); [lia|].
  destruct (negb _); [|apply InvertLowestOne_range; lia].
  pose proof (InvertLowestOne_range (h - 1)).
  destruct (decide (InvertLowestOne (h - 1) = 0)) as [->|]; [change (InvertLowestOne 0) with 0; lia|].
  pose proof (InvertLowestOne_range (InvertLowestOne (h - 1))). lia.
Qed.

Section Ancestors.
Context (m : BlockMap) (Hlinked : linked m).

Lemma linked_height p b : m !! p = Some b → 0 ≤ nHeight b.
Proof.
  intros Hp. pose proof (Hlinked p b Hp) as H. destruct (pprev b) as [q|]; [|lia].
  destruct H as (c & _ & ? & ->). lia.
Qed.

Lemma linked_prev p b : m !! p = Some b → 0 < nHeight b →
  ∃ q c, pprev b = Some q ∧ m !! q = Some c ∧ nHeight c = nHeight b - 1.
Proof.
  intros Hp Hh. pose proof (Hlinked p b Hp) as H. destruct (pprev b) as [q|]; [|lia].
  destruct H as (c & Hq & _ & ->). exists q, c. split_and!; [done|done|lia].
Qed.

Lemma linked_root p b : m !! p = Some b → nHeight b = 0 → pprev b = None.
Proof.
  intros Hp Hh. pose proof (Hlinked p b Hp) as H. destruct (pprev b) as [q|]; [|done].
  destruct H as (c & _ & ? & ?). lia.
Qed.

Lemma ancestor_self p b : m !! p = Some b → ancestor m p (nHeight b) = Some p.
Proof.
  intros Hp. pose proof (linked_height p b Hp). unfold ancestor. rewrite Hp. cbn [mbind option_bind].
  rewrite (proj2 (Z.leb_le _ _)), Z.leb_refl, Z.sub_diag by done. done.
Qed.

Lemma ancestor_prev p b q h :
  m !! p = Some b → pprev b = Some q → h < nHeight b → ancestor m p h = ancestor m q h.
Proof.
  intros Hp Hq Hh. pose proof (Hlinked p b Hp) as H. rewrite Hq in H. destruct H as (c & Hc & H0 & Hb).
  unfold ancestor. rewrite Hp, Hc. cbn [mbind option_bind].
  destruct (Z.leb_spec 0 h); [|done]. cbn [andb].
  rewrite (proj2 (Z.leb_le h (nHeight b))), (proj2 (Z.leb_le h (nHeight c))) by lia.
  replace (Z.to_nat (nHeight b - h)) with (S (Z.to_nat (nHeight c - h))) by lia.
  cbn [iter_prev]. by rewrite Hp; cbn [mbind option_bind]; rewrite Hq.
Qed.

Lemma ancestor_ge p b h : m !! p = Some b → nHeight b < h → ancestor m p h = None.
Proof.
  intros Hp Hh. unfold ancestor. rewrite Hp. cbn [mbind option_bind].
  rewrite (proj2 (Z.leb_gt h (nHeight b))) by done. by rewrite andb_false_r.
Qed.

Lemma ancestor_neg p h : h < 0 → ancestor m p h = None.
Proof.
  intros Hh. unfold ancestor. destruct (m !! p); [|done]. cbn [mbind option_bind].
  by rewrite (proj2 (Z.leb_gt 0 h)) by done.
Qed.

(** Induction along the chain of parents. *)
Lemma parent_ind (P : ptr → CBlockIndex → Prop) :
  (∀ p b, m !! p = Some b →
    (∀ q c, pprev b = Some q → m !! q = Some c → nHeight c = nHeight b - 1 → P q c) → P p b) →
  ∀ p b, m !! p = Some b → P p b.
Proof.
  intros Hstep p b Hp. remember (Z.to_nat (nHeight b)) as n eqn:Hn. revert p b Hp Hn.
  induction n as [|n IH]; intros p b Hp Hn; apply Hstep; [done| |done|].
  all: intros q c Hq Hc Hh; pose proof (linked_height q c Hc); pose proof (linked_height p b Hp).
  - lia.
  - apply IH; [done|lia].
Qed.

Lemma ancestor_Some p b h :
  m !! p = Some b → 0 ≤ h ≤ nHeight b → ∃ q c, ancestor m p h = Some q ∧ m !! q = Some c ∧ nHeight c = h.
Proof.
  intros Hp. revert h. revert p b Hp. apply (parent_ind (λ p b, ∀ h, 0 ≤ h ≤ nHeight b → _)).
  intros p b Hp IH h Hh. destruct (decide (h = nHeight b)) as [->|].
  - exists p, b. by rewrite (ancestor_self p b Hp).
  - destruct (linked_prev p b Hp ltac:(lia)) as (q & c & Hq & Hc & Hhc).
    rewrite (ancestor_prev p b q h Hp Hq) by lia. apply (IH q c); [done..|lia].
Qed.

Lemma ancestor_inv p h q :
  ancestor m p h = Some q → ∃ b c, m !! p = Some b ∧ m !! q = Some c ∧ nHeight c = h ∧ 0 ≤ h ≤ nHeight b.
Proof.
  intros Ha. destruct (m !! p) as [b|] eqn:Hp; [|unfold ancestor in Ha; by rewrite Hp in Ha].
  assert (0 ≤ h ≤ nHeight b) as Hh.
  { unfold ancestor in Ha. rewrite Hp in Ha. cbn [mbind option_bind] in Ha.
    destruct (Z.leb_spec 0 h), (Z.leb_spec h (nHeight b)); done || lia. }
  destruct (ancestor_Some p b h Hp Hh) as (q' & c & Ha' & Hc & Hhc).
  rewrite Ha in Ha'. injection Ha' as <-. eauto 10.
Qed.

Lemma ancestor_trans p q k h :
  ancestor m p k = Some q → h ≤ k → ancestor m p h = ancestor m q h.
Proof.
  intros Ha Hh. destruct (ancestor_inv p k q Ha) as (b & c & Hp & Hq & Hk & Hkb).
  revert k h q c Ha Hh Hq Hk Hkb. revert p b Hp.
  apply (parent_ind (λ p b, ∀ k h q c, ancestor m p k = Some q → h ≤ k → m !! q = Some c → nHeight c = k →
    0 ≤ k ≤ nHeight b → ancestor m p h = ancestor m q h)).
  intros p b Hp IH k h q c Ha Hh Hq Hk Hkb. destruct (decide (k = nHeight b)) as [->|].
  - rewrite (ancestor_self p b Hp) in Ha. by injection Ha as ->.
  - destruct (linked_prev p b Hp ltac:(lia)) as (q' & c' & Hq' & Hc' & Hhc').
    rewrite (ancestor_prev p b q' h Hp Hq') by lia. rewrite (ancestor_prev p b q' k Hp Hq') in Ha by lia.
    apply (IH q' c' Hq' Hc' Hhc' k h q c); (done || lia).
Qed.

(** ** [GetAncestor] *)

Lemma GetAncestor_loop_spec (Hskips : skips_ok m) fuel p b h :
  m !! p = Some b → 0 ≤ h ≤ nHeight b → nHeight b ≤ Z.of_nat fuel →
  GetAncestor_loop m fuel p (nHeight b) h = ancestor m p h.
Proof.
  revert p b. induction fuel as [|fuel IH]; intros p b Hp Hh Hfuel; cbn [GetAncestor_loop];
    destruct (Z.ltb_spec h (nHeight b)) as [Hlt|Hge].
  1: lia. 1,3: replace h with (nHeight b) by lia; by rewrite (ancestor_self p b Hp).
  rewrite Hp. cbn [mbind option_bind].
  assert ((prev ← pprev b; GetAncestor_loop m fuel prev (nHeight b - 1) h) = ancestor m p h) as Hprev.
  { destruct (linked_prev p b Hp ltac:(lia)) as (q & c & Hq & Hc & Hhc). rewrite Hq. cbn [mbind option_bind].
    rewrite (ancestor_prev p b q h Hp Hq), <-Hhc by lia. apply IH; (done || lia). }
  destruct (pskip b) as [q|] eqn:Hskip; [|done]. destruct (_ || _) eqn:Hfollow; [|done].
  destruct (Hskips p b q Hp Hskip) as [Hpos Ha].
  destruct (ancestor_inv p _ q Ha) as (b' & c & Hp' & Hc & Hhc & _).
  pose proof (GetSkipHeight_range (nHeight b) Hpos).
  assert (h ≤ GetSkipHeight (nHeight b)) as Hle.
  { apply orb_true_iff in Hfollow as [?%Z.eqb_eq|[?%Z.ltb_lt _]%andb_true_iff]; lia. }
  rewrite <-Hhc, IH by (done || lia). symmetry. by apply (ancestor_trans p q (GetSkipHeight (nHeight b))).
Qed.

Lemma GetAncestor_spec (Hskips : skips_ok m) p b h :
  m !! p = Some b → GetAncestor m p h = Some (ancestor m p h).
Proof.
  intros Hp. unfold GetAncestor. rewrite Hp. cbn [mbind option_bind].
  pose proof (linked_height p b Hp). destruct (Z.ltb_spec (nHeight b) h), (Z.ltb_spec h 0); cbn [orb].
  - by rewrite ancestor_neg.
  - by rewrite (ancestor_ge p b).
  - by rewrite ancestor_neg.
  - rewrite GetAncestor_loop_spec by (done || lia).
    destruct (ancestor_Some p b h Hp ltac:(lia)) as (q & c & -> & _). done.
Qed.
End Ancestors.

(** ** Forks *)

Definition common (m : BlockMap) (pa pb : ptr) (j : Z) (q : ptr) : Prop :=
  ancestor m pa j = Some q ∧ ancestor m pb j = Some q.

(** The highest block that is an ancestor of both, if there is one. *)
Definition is_lca (m : BlockMap) (pa pb : ptr) (r : option ptr) : Prop :=
  match r with
  | Some q => ∃ j, common m pa pb j q ∧ ∀ j' q', common m pa pb j' q' → j' ≤ j
  | None => ∀ j q, ¬ common m pa pb j q
  end.

Lemma common_comm m pa pb j q : common m pa pb j q ↔ common m pb pa j q.
Proof. unfold common. tauto. Qed.

Lemma is_lca_iff m pa pb pa' pb' r :
  (∀ j q, common m pa pb j q ↔ common m pa' pb' j q) → is_lca m pa' pb' r → is_lca m pa pb r.
Proof.
  intros Hiff. destruct r as [q|]; cbn [is_lca].
  - intros (j & Hc & Hmax). exists j. split; [by apply Hiff|]. intros j' q' Hc'. by apply (Hmax j' q'), Hiff.
  - intros H j q Hc. by apply (H j q), Hiff.
Qed.

Section Forks.
Context (m : BlockMap) (Hlinked : linked m).

Lemma common_down pa pb k qa :
  ancestor m pa k = Some qa → (∀ j q, common m pa pb j q → j ≤ k) →
  ∀ j q, common m pa pb j q ↔ common m qa pb j q.
Proof.
  intros Ha Hmax j q. split.
  - intros Hc. pose proof (Hmax j q Hc). destruct Hc as [H1 H2]. split; [|done].
    by rewrite <-(ancestor_trans m Hlinked pa qa k j Ha).
  - intros [H1 H2]. split; [|done].
    destruct (ancestor_inv m Hlinked qa j q H1) as (c & _ & Hc & _ & _ & Hj).
    destruct (ancestor_inv m Hlinked pa k qa Ha) as (_ & c' & _ & Hc' & Hk & _).
    rewrite (ancestor_trans m Hlinked pa qa k j Ha); [done|]. congruence || (rewrite Hc in Hc'; injection Hc' as ->; lia).
Qed.

Lemma common_le pa a pb j q : m !! pa = Some a → common m pa pb j q → 0 ≤ j ≤ nHeight a.
Proof.
  intros Ha [H1 _]. destruct (ancestor_inv m Hlinked pa j q H1) as (b & c & Hb & _ & _ & Hj).
  rewrite Ha in Hb. by injection Hb as <-.
Qed.

(** Common ancestors are comparable: below one of them everything is common. *)
Lemma common_below pa pb j q k : common m pa pb j q → k ≤ j → ancestor m pa k = ancestor m pb k.
Proof.
  intros [H1 H2] Hk. by rewrite (ancestor_trans m Hlinked pa q j k H1), (ancestor_trans m Hlinked pb q j k H2).
Qed.

Lemma common_prev pa a qa pb :
  m !! pa = Some a → pprev a = Some qa → ancestor m pb (nHeight a) ≠ Some pa →
  ∀ j q, common m pa pb j q ↔ common m qa pb j q.
Proof.
  intros Ha Hq Hne. destruct (linked_prev m Hlinked pa a Ha) as (q' & c & Hq' & Hc & Hh).
  { pose proof (Hlinked pa a Ha) as H. rewrite Hq in H. destruct H as (c & _ & ? & ?). lia. }
  rewrite Hq in Hq'. injection Hq' as <-. pose proof (linked_height m Hlinked qa c Hc).
  apply (common_down pa pb (nHeight a - 1)).
  - rewrite (ancestor_prev m Hlinked pa a qa) by (done || lia). rewrite <-Hh. by apply ancestor_self.
  - intros j q Hcom. pose proof (common_le pa a pb j q Ha Hcom). destruct (decide (j = nHeight a)) as [->|]; [|lia].
    destruct Hcom as [H1 H2]. rewrite (ancestor_self m Hlinked pa a Ha) in H1. congruence.
Qed.

Lemma lca_self p b : m !! p = Some b → is_lca m p p (Some p).
Proof.
  intros Hp. exists (nHeight b). split; [by split; apply ancestor_self|].
  intros j q Hc. apply (common_le p b p j q Hp Hc).
Qed.

(** *** [LastCommonAncestor] *)
Context (Hskips : skips_ok m) (Hbuilt : skips_built m).

Lemma pskip_Some p b : m !! p = Some b → 0 < nHeight b →
  ∃ q, pskip b = Some q ∧ ancestor m p (GetSkipHeight (nHeight b)) = Some q.
Proof.
  intros Hp Hh. destruct (pskip b) as [q|] eqn:Hq; [exists q; split; [done|by apply (Hskips p b q)]|].
  destruct (linked_prev m Hlinked p b Hp Hh) as (q & c & Hprev & _).
  by rewrite (Hbuilt p b Hp Hq) in Hprev.
Qed.

Lemma pskip_root p b : m !! p = Some b → nHeight b = 0 → pskip b = None.
Proof.
  intros Hp Hh. destruct (pskip b) as [q|] eqn:Hq; [|done]. destruct (Hskips p b q Hp Hq). lia.
Qed.

Lemma lca_skip_spec fuel pa a pb b :
  m !! pa = Some a → m !! pb = Some b → pa ≠ pb → nHeight a = nHeight b → nHeight a < Z.of_nat fuel →
  ∃ pa' a' pb' b', lca_skip m fuel pa pb = Some (pa', pb') ∧ m !! pa' = Some a' ∧ m !! pb' = Some b' ∧
    pa' ≠ pb' ∧ nHeight a' = nHeight b' ∧ nHeight a' ≤ nHeight a ∧
    ∀ j q, common m pa pb j q ↔ common m pa' pb' j q.
Proof.
  revert pa a pb b. induction fuel as [|fuel IH]; intros pa a pb b Ha Hb Hne Hh Hfuel;
    pose proof (linked_height m Hlinked pa a Ha); [lia|].
  cbn [lca_skip]. rewrite Ha, Hb. cbn [mbind option_bind].
  destruct (decide (pskip a = pskip b)) as [Heq|Hdiff]; [by exists pa, a, pb, b|].
  destruct (decide (nHeight a = 0)) as [H0|H0].
  { by rewrite (pskip_root pa a Ha H0), (pskip_root pb b Hb) in Hdiff by lia. }
  destruct (pskip_Some pa a Ha ltac:(lia)) as (qa & Hqa & Aa). rewrite Hqa in Hdiff |- *.
  destruct (pskip_Some pb b Hb ltac:(lia)) as (qb & Hqb & Ab). rewrite Hqb in Hdiff |- *. cbn [mbind option_bind].
  destruct (ancestor_inv m Hlinked _ _ _ Aa) as (_ & ca & _ & Hca & Hha & _).
  destruct (ancestor_inv m Hlinked _ _ _ Ab) as (_ & cb & _ & Hcb & Hhb & _).
  pose proof (GetSkipHeight_range (nHeight a) ltac:(lia)).
  destruct (IH qa ca qb cb) as (pa' & a' & pb' & b' & Hs & Ha' & Hb' & Hne' & Hh' & Hle & Hiff);
    [done|done|congruence|congruence|lia|].
  exists pa', a', pb', b'. split_and!; try (done || lia). intros j q. rewrite <-Hiff.
  rewrite (common_down pa pb _ qa Aa), common_comm, (common_down pb qa _ qb Ab), common_comm; [done| |].
  - intros j' q' Hc. pose proof (common_le qa ca pb j' q' Hca (proj2 (common_comm _ _ _ _ _) Hc)). rewrite <-Hh. lia.
  - intros j' q' Hc. destruct (decide (j' ≤ GetSkipHeight (nHeight a))) as [|Hgt]; [done|exfalso]. apply Hdiff.
    rewrite <-Aa, <-Ab, <-Hh. apply (common_below pa pb j' q'); [done|lia].
Qed.

Lemma lca_loop_spec fuel pa a pb b :
  m !! pa = Some a → m !! pb = Some b → nHeight a = nHeight b → nHeight a < Z.of_nat fuel →
  ∃ r, lca_loop m fuel (Some pa) (Some pb) = Some r ∧ is_lca m pa pb r.
Proof.
  revert pa a pb b. induction fuel as [|fuel IH]; intros pa a pb b Ha Hb Hh Hfuel;
    pose proof (linked_height m Hlinked pa a Ha); [lia|].
  cbn [lca_loop]. destruct (decide (Some pa = Some pb)) as [[= ->]|Hne].
  { exists (Some pb). split; [done|]. by apply (lca_self pb b). }
  cbn [mbind option_bind].
  destruct (lca_skip_spec (S fuel) pa a pb b) as (pa' & a' & pb' & b' & -> & Ha' & Hb' & Hne' & Hh' & Hle & Hiff);
    [done|done|congruence|done|done|].
  cbn [mbind option_bind]. rewrite Ha', Hb'. cbn [mbind option_bind].
  assert (ancestor m pb' (nHeight a') ≠ Some pa') as Hna.
  { rewrite Hh', (ancestor_self m Hlinked pb' b' Hb'). congruence. }
  pose proof (linked_height m Hlinked pa' a' Ha'). destruct (decide (nHeight a' = 0)) as [Hz|Hz].
  - rewrite (linked_root m Hlinked pa' a' Ha' Hz), (linked_root m Hlinked pb' b' Hb') by lia.
    exists None. split; [by destruct fuel|]. apply (is_lca_iff m pa pb pa' pb'); [done|].
    intros j q Hc. pose proof (common_le pa' a' pb' j q Ha' Hc). destruct Hc as [Hca Hcb].
    replace j with (nHeight a') in * by lia. rewrite (ancestor_self m Hlinked pa' a' Ha') in Hca. congruence.
  - destruct (linked_prev m Hlinked pa' a' Ha') as (qa & ca & Hqa & Hca & Hha); [lia|].
    destruct (linked_prev m Hlinked pb' b' Hb') as (qb & cb & Hqb & Hcb & Hhb); [lia|].
    rewrite Hqa, Hqb. destruct (IH qa ca qb cb) as (r & Hr & Hlca); [done|done|lia|lia|].
    exists r. split; [done|]. apply (is_lca_iff m pa pb qa qb); [|done]. intros j q.
    rewrite Hiff, (common_prev pa' a' qa pb' Ha' Hqa Hna), common_comm.
    rewrite (common_prev pb' b' qb qa Hb' Hqb), common_comm; [done|].
    rewrite (ancestor_ge m qa ca); [done|done|lia].
Qed.

Lemma LastCommonAncestor_spec pa a pb b :
  m !! pa = Some a → m !! pb = Some b →
  ∃ r, LastCommonAncestor m pa pb = Some r ∧ is_lca m pa pb r.
Proof.
  intros Ha Hb. unfold LastCommonAncestor. rewrite Ha, Hb. cbn [mbind option_bind].
  pose proof (linked_height m Hlinked pa a Ha). pose proof (linked_height m Hlinked pb b Hb).
  destruct (Z.ltb_spec (nHeight b) (nHeight a)); [|destruct (Z.ltb_spec (nHeight a) (nHeight b))].
  - destruct (ancestor_Some m Hlinked pa a (nHeight b) Ha) as (qa & ca & Aa & Hca & Hha); [lia|].
    rewrite (GetAncestor_spec m Hlinked Hskips pa a (nHeight b) Ha), Aa. cbn [mbind option_bind].
    destruct (lca_loop_spec (Z.to_nat (nHeight b + 1)) qa ca pb b) as (r & -> & Hr); [done|done|lia|lia|].
    exists r. split; [done|]. apply (is_lca_iff m pa pb qa pb); [|done]. apply (common_down pa pb (nHeight b)); [done|].
    intros j q Hc%common_comm. apply (common_le pb b pa j q Hb Hc).
  - destruct (ancestor_Some m Hlinked pb b (nHeight a) Hb) as (qb & cb & Ab & Hcb & Hhb); [lia|].
    rewrite (GetAncestor_spec m Hlinked Hskips pb b (nHeight a) Hb), Ab. cbn [mbind option_bind].
    destruct (lca_loop_spec (Z.to_nat (nHeight a + 1)) pa a qb cb) as (r & -> & Hr); [done|done|lia|lia|].
    exists r. split; [done|]. apply (is_lca_iff m pa pb pa qb); [|done]. intros j q.
    rewrite common_comm, (common_down pb pa (nHeight a) qb Ab); [apply common_comm|].
    intros j' q' Hc%common_comm. apply (common_le pa a pb j' q' Ha Hc).
  - apply (lca_loop_spec _ pa a pb b); (done || lia).
Qed.
End Forks.

(** ** The active chain

    A [CChain] stands for its tip: entry [i] is the ancestor of the tip at height [i]. *)

Definition chain_to (m : BlockMap) (tip : option ptr) : CChain :=
  match tip ≫= λ t, m !! t with
  | Some b => map (λ i, tip ≫= λ t, ancestor m t (Z.of_nat i)) (seq 0 (Z.to_nat (nHeight b + 1)))
  | None => []
  end.

Definition valid_tip (m : BlockMap) (tip : option ptr) : Prop :=
  match tip with Some t => is_Some (m !! t) | None => True end.

Section Chains.
Context (m : BlockMap) (Hlinked : linked m).

Lemma length_chain_to t b : m !! t = Some b → length (chain_to m (Some t)) = Z.to_nat (nHeight b + 1).
Proof. intros Ht. unfold chain_to. cbn [mbind option_bind]. by rewrite Ht, length_map, length_seq. Qed.

Lemma lookup_chain_to t b i :
  m !! t = Some b → Z.of_nat i ≤ nHeight b → chain_to m (Some t) !! i = Some (ancestor m t (Z.of_nat i)).
Proof.
  intros Ht Hi. unfold chain_to. cbn [mbind option_bind]. rewrite Ht. cbn [mbind option_bind].
  rewrite list_lookup_fmap, lookup_seq_lt by lia. done.
Qed.

Lemma chain_at_spec tip h :
  valid_tip m tip → chain_at (chain_to m tip) h = tip ≫= λ t, ancestor m t h.
Proof.
  intros Hv. unfold chain_at. destruct tip as [t|]; cbn [mbind option_bind].
  2: { change (chain_to m None) with (@nil (option ptr)). destruct (_ || _); [done|]. by rewrite lookup_nil. }
  destruct Hv as [b Ht]. pose proof (linked_height m Hlinked t b Ht). rewrite (length_chain_to t b Ht).
  destruct (Z.ltb_spec h 0); cbn [orb]; [by rewrite ancestor_neg|].
  destruct (Z.leb_spec (Z.of_nat (Z.to_nat (nHeight b + 1))) h).
  - by rewrite (ancestor_ge m t b) by (done || lia).
  - rewrite (lookup_chain_to t b) by (done || lia). cbn [mjoin option_join]. by rewrite Z2Nat.id by lia.
Qed.

Lemma Height_spec t b : m !! t = Some b → Height (chain_to m (Some t)) = nHeight b.
Proof.
  intros Ht. pose proof (linked_height m Hlinked t b Ht). unfold Height. rewrite (length_chain_to t b Ht). lia.
Qed.

Lemma Contains_spec tip p b :
  valid_tip m tip → m !! p = Some b →
  Contains m (chain_to m tip) p = Some (bool_decide (tip ≫= (λ t, ancestor m t (nHeight b)) = Some p)).
Proof. intros Hv Hp. unfold Contains. rewrite Hp. cbn [mbind option_bind]. by rewrite chain_at_spec. Qed.

(** Down from [p], the entries of [l] are those of [p]'s ancestors wherever [old] agrees
    with them, and above [p] they are final. *)
Lemma SetTip_loop_spec old t b fuel l p c :
  valid_tip m old → m !! t = Some b → m !! p = Some c → ancestor m t (nHeight c) = Some p →
  nHeight c < Z.of_nat fuel → length l = Z.to_nat (nHeight b + 1) →
  (∀ i, nHeight c < Z.of_nat i ≤ nHeight b → l !! i = Some (ancestor m t (Z.of_nat i))) →
  (∀ i, Z.of_nat i ≤ nHeight c → l !! i = Some (old ≫= λ o, ancestor m o (Z.of_nat i))) →
  SetTip_loop m fuel l (Some p) = Some (chain_to m (Some t)).
Proof.
  intros Hold Ht. revert l p c.
  induction fuel as [|fuel IH]; intros l p c Hp Hanc Hfuel Hlen Hhi Hlo;
    pose proof (linked_height m Hlinked p c Hp) as Hc; [lia|].
  destruct (ancestor_inv m Hlinked _ _ _ Hanc) as (b' & _ & Ht' & _ & _ & Hcb).
  rewrite Ht in Ht'. injection Ht' as <-.
  cbn [SetTip_loop]. rewrite Hp. cbn [mbind option_bind].
  rewrite (Hlo (Z.to_nat (nHeight c))) by lia. cbn [mbind option_bind]. rewrite Z2Nat.id by lia.
  destruct (decide _) as [Heq|Hne].
  - f_equal. apply list_eq_same_length with (length l); [by rewrite (length_chain_to t b)|done|].
    intros i x y Hi. rewrite (lookup_chain_to t b) by (done || lia).
    destruct (decide (nHeight c < Z.of_nat i)); [rewrite Hhi by lia|rewrite Hlo by lia]; intros [= <-] [= <-]; [done|].
    destruct old as [o|]; [|done]. cbn [mbind option_bind] in Heq |- *.
    rewrite (ancestor_trans m Hlinked o p (nHeight c)), (ancestor_trans m Hlinked t p (nHeight c)) by (done || lia). done.
  - assert (∀ i, nHeight c ≤ Z.of_nat i ≤ nHeight b →
      <[Z.to_nat (nHeight c):=Some p]> l !! i = Some (ancestor m t (Z.of_nat i))) as Hhi'.
    { intros i Hi. destruct (decide (Z.of_nat i = nHeight c)) as [Heq|].
      - replace i with (Z.to_nat (nHeight c)) by lia. rewrite list_lookup_insert_eq by lia.
        by rewrite Z2Nat.id, Hanc by lia.
      - rewrite list_lookup_insert_ne by lia. apply Hhi. lia. }
    destruct (decide (nHeight c = 0)) as [H0|H0].
    + rewrite (linked_root m Hlinked p c Hp H0). destruct fuel; cbn [SetTip_loop]; f_equal;
        (apply list_eq_same_length with (length l); [by rewrite (length_chain_to t b)|by rewrite length_insert|]);
        intros i x y Hi; rewrite (lookup_chain_to t b), Hhi' by (done || lia); congruence.
    + destruct (linked_prev m Hlinked p c Hp ltac:(lia)) as (q & d & Hq & Hd & Hhd). rewrite Hq.
      apply (IH _ q d); [done| |lia|by rewrite length_insert| |].
      * rewrite <-(ancestor_self m Hlinked q d Hd). rewrite (ancestor_trans m Hlinked t p (nHeight c)) by (done || lia).
        apply (ancestor_prev m Hlinked p c q); (done || lia).
      * intros i Hi. apply Hhi'. lia.
      * intros i Hi. rewrite list_lookup_insert_ne by lia. apply Hlo. lia.
Qed.

Lemma SetTip_spec old t b :
  valid_tip m old → m !! t = Some b → SetTip m (chain_to m old) t = Some (chain_to m (Some t)).
Proof.
  intros Hold Ht. pose proof (linked_height m Hlinked t b Ht) as Hb. unfold SetTip. rewrite Ht. cbn [mbind option_bind].
  apply (SetTip_loop_spec old t b _ _ t b); [done..|by apply ancestor_self|lia|by rewrite length_resize| |].
  - intros i Hi. lia.
  - intros i Hi. destruct (decide (i < length (chain_to m old))%nat) as [Hlt|Hge].
    + rewrite lookup_resize by lia. destruct old as [o|]; [|change (chain_to m None) with (@nil (option ptr)) in Hlt; cbn [length] in Hlt; lia]. destruct Hold as [bo Ho].
      rewrite (length_chain_to o bo Ho) in Hlt. by rewrite (lookup_chain_to o bo) by (done || lia).
    + rewrite lookup_resize_new by lia. destruct old as [o|]; [|done]. destruct Hold as [bo Ho].
      rewrite (length_chain_to o bo Ho) in Hge. cbn [mbind option_bind].
      by rewrite (ancestor_ge m o bo) by (done || lia).
Qed.

(** *** [FindFork] *)

Lemma FindFork_loop_spec t bt fuel p c :
  m !! t = Some bt → m !! p = Some c → nHeight c < Z.of_nat fuel →
  ∃ r, FindFork_loop m fuel (chain_to m (Some t)) (Some p) = Some r ∧ is_lca m p t r.
Proof.
  intros Ht. revert p c. induction fuel as [|fuel IH]; intros p c Hp Hfuel;
    pose proof (linked_height m Hlinked p c Hp); [lia|].
  cbn [FindFork_loop]. rewrite (Contains_spec (Some t) p c) by (done || by eexists). cbn [mbind option_bind].
  case_bool_decide as Ha.
  - exists (Some p). split; [done|]. exists (nHeight c). split; [split; [by apply ancestor_self|done]|].
    intros j q Hc. apply (common_le m Hlinked p c t j q Hp Hc).
  - rewrite Hp. cbn [mbind option_bind]. destruct (decide (nHeight c = 0)) as [H0|H0].
    + rewrite (linked_root m Hlinked p c Hp H0). exists None. split; [by destruct fuel|].
      intros j q Hc. pose proof (common_le m Hlinked p c t j q Hp Hc). destruct Hc as [Hc1 Hc2].
      replace j with (nHeight c) in * by lia. rewrite (ancestor_self m Hlinked p c Hp) in Hc1. congruence.
    + destruct (linked_prev m Hlinked p c Hp ltac:(lia)) as (q & d & Hq & Hd & Hhd). rewrite Hq.
      destruct (IH q d) as (r & Hr & Hlca); [done|lia|]. exists r. split; [done|].
      apply (is_lca_iff m p t q t); [|done]. by apply (common_prev m Hlinked p c q).
Qed.

Lemma FindFork_spec (Hskips : skips_ok m) t bt p b :
  m !! t = Some bt → m !! p = Some b →
  ∃ r, FindFork m (chain_to m (Some t)) (Some p) = Some r ∧ is_lca m p t r.
Proof.
  intros Ht Hp. unfold FindFork. rewrite Hp. cbn [mbind option_bind]. rewrite (Height_spec t bt Ht).
  pose proof (linked_height m Hlinked p b Hp). pose proof (linked_height m Hlinked t bt Ht).
  destruct (Z.ltb_spec (nHeight bt) (nHeight b)).
  - rewrite (GetAncestor_spec m Hlinked Hskips p b _ Hp). cbn [mbind option_bind].
    destruct (ancestor_Some m Hlinked p b (nHeight bt) Hp) as (q & c & Ha & Hc & Hhc); [lia|]. rewrite Ha.
    destruct (FindFork_loop_spec t bt (Z.to_nat (nHeight b + 1)) q c) as (r & -> & Hr); [done|done|lia|].
    exists r. split; [done|]. apply (is_lca_iff m p t q t); [|done].
    apply (common_down m Hlinked p t (nHeight bt)); [done|].
    intros j q' Hcom%common_comm. apply (common_le m Hlinked t bt p j q' Ht Hcom).
  - cbn [mbind option_bind]. apply (FindFork_loop_spec t bt _ p b); (done || lia).
Qed.
End Chains.

(** ** Work *)

Import arith_uint256_facts.
#[local] Opaque add sub mul bitnot div of_u64 zero.

(** The expected number of hashes for a target, 2^256 / (target + 1); none for the compact
    forms that are negative, zero or too large. *)
Definition bits_work (bits : Z) : Z :=
  let v := compact_value bits in
  if (v =? 0) || Z.testbit bits 23 || (2 ^ 256 <=? v) then 0 else 2 ^ 256 / (v + 1).

Lemma compact_value_max c : urange 32 c → compact_value c ≠ 2 ^ 256 - 1.
Proof.
  intros Hc. destruct (compact_range c Hc) as [Hs Hw]. unfold compact_value.
  destruct (Z.leb_spec (compact_size c) 3) as [Hle|Hgt].
  - assert (compact_word c / 2 ^ (8 * (3 - compact_size c)) ≤ compact_word c); [|lia].
    assert (0 < 2 ^ (8 * (3 - compact_size c))) by lia. apply Z.div_le_upper_bound; [done|nia].
  - replace (8 * (compact_size c - 3)) with (8 * (compact_size c - 4) + 8) by lia.
    rewrite Z.pow_add_r by lia. intros Heq.
    assert ((compact_word c * 2 ^ (8 * (compact_size c - 4))) * 2 ^ 8 = 2 ^ 256 - 1) as H by nia.
    apply (f_equal (λ x, x mod 2 ^ 8)) in H. by rewrite Z.mod_mul in H.
Qed.

Lemma GetBitsProof_spec bits :
  urange 32 bits → ∃ w, GetBitsProof bits = Some w ∧ WF w ∧ val w = bits_work bits.
Proof.
  intros Hb. destruct (SetCompact_ok bits Hb) as (Hwf & Hv & Hov & Hneg). unfold GetBitsProof, bits_work.
  pose proof (compact_value_max bits Hb) as Hmax.
  assert (0 ≤ compact_value bits) as Hnn.
  { destruct (compact_range bits Hb). unfold compact_value.
    destruct (Z.leb_spec (compact_size bits) 3); [apply Z.div_pos|apply Z.mul_nonneg_nonneg]; lia. }
  set (t := SetCompact bits) in *. set (v := compact_value bits) in *. clearbody t v.
  rewrite val_EqualTo by (done || solve_wf). rewrite Hv.
  destruct (Z.leb_spec (2 ^ 256) v) as [Hbig|Hfit].
  { rewrite (proj2 Hov Hbig), !orb_true_r. cbn [orb]. exists (of_u64 WIDTH 0).
    split_and!; [done|apply _|by rewrite val_of_u64]. }
  rewrite Z.mod_small by lia. destruct (sc_overflow t); [by destruct Hov as [Hov _]; lia|].
  rewrite Z.mod_small in Hv by lia. rewrite !orb_false_r.
  destruct (Z.eqb_spec v 0) as [H0|H0]; cbn [orb].
  { rewrite orb_true_r. exists (of_u64 WIDTH 0). split_and!; [done|apply _|by rewrite val_of_u64]. }
  rewrite orb_false_r. destruct (Z.testbit bits 23) eqn:Hbit, (sc_negative t) eqn:Hn.
  2: by specialize (proj2 Hneg (conj H0 eq_refl)). 2: by destruct (proj1 Hneg eq_refl).
  { exists (of_u64 WIDTH 0). split_and!; [done|apply _|by rewrite val_of_u64]. }
  assert (val (add WIDTH (sc_value t) (of_u64 WIDTH 1)) = v + 1) as Hd.
  { rewrite val_add, val_of_u64, Hv by solve_wf. change (u64 1) with 1. rewrite Z.mod_small; lia. }
  assert (val (add WIDTH (sc_value t) (of_u64 WIDTH 1)) ≠ 0) as Hd0 by (rewrite Hd; lia).
  destruct (val_div (bitnot WIDTH (sc_value t)) _ Hd0) as (q & Hdiv & Hq & Hqv).
  rewrite Hdiv. cbn [mbind option_bind]. eexists. split_and!; [done|apply _|].
  rewrite val_add, val_of_u64, Hqv, Hd, val_bitnot, Hv by solve_wf. change (u64 1) with 1.
  replace ((2 ^ 256 - 1 - v) / (v + 1) + 1) with (2 ^ 256 / (v + 1)).
  2: { rewrite <-(Z.div_add (2 ^ 256 - 1 - v) 1) by lia. f_equal. lia. }
  apply Z.mod_small. split; [apply Z.div_pos; lia|]. apply Z.div_lt_upper_bound; lia.
Qed.

(** ** Growing the index *)

Section Grow.
Context (m m' : BlockMap) (Hlinked : linked m) (Hsub : m ⊆ m').

Lemma iter_prev_mono n p b : m !! p = Some b → Z.of_nat n ≤ nHeight b → iter_prev m' n p = iter_prev m n p.
Proof.
  revert p b. induction n as [|n IH]; intros p b Hp Hn; [done|]. cbn [iter_prev].
  rewrite Hp, (lookup_weaken _ _ _ _ Hp Hsub). cbn [mbind option_bind].
  destruct (linked_prev m Hlinked p b Hp ltac:(lia)) as (q & c & -> & Hc & Hh). cbn [mbind option_bind].
  apply (IH q c); [done|lia].
Qed.

Lemma ancestor_mono p b h : m !! p = Some b → ancestor m' p h = ancestor m p h.
Proof.
  intros Hp. unfold ancestor. rewrite Hp, (lookup_weaken _ _ _ _ Hp Hsub). cbn [mbind option_bind].
  destruct (Z.leb_spec 0 h); [|done]. destruct (Z.leb_spec h (nHeight b)); [|done].
  apply (iter_prev_mono _ p b); [done|lia].
Qed.
End Grow.

Section Insert.
Context (m : BlockMap) (k : ptr) (b : CBlockIndex) (Hlinked : linked m) (Hk : m !! k = None).

Definition parent_ok : Prop :=
  match pprev b with
  | None => nHeight b = 0
  | Some q => ∃ c, m !! q = Some c ∧ nHeight b = nHeight c + 1
  end.

Lemma linked_insert : parent_ok → linked (<[k := b]> m).
Proof.
  intros Hb p c Hp. apply lookup_insert_Some in Hp as [[<- <-]|[Hne Hp]].
  - unfold parent_ok in Hb. destruct (pprev b) as [q|]; [|done]. destruct Hb as (d & Hq & Hh).
    exists d. split_and!; [|by apply (linked_height m Hlinked q)|done]. by rewrite lookup_insert_ne; [|congruence].
  - pose proof (Hlinked p c Hp) as H. destruct (pprev c) as [q|]; [|done].
    destruct H as (d & Hq & Hh). exists d. split; [|done]. by rewrite lookup_insert_ne; [|congruence].
Qed.

Lemma ancestor_insert p c h : m !! p = Some c → ancestor (<[k := b]> m) p h = ancestor m p h.
Proof. apply ancestor_mono; [done|by apply insert_subseteq]. Qed.

Lemma skips_insert :
  skips_ok m →
  (∀ q, pskip b = Some q → 0 < nHeight b ∧ ancestor (<[k := b]> m) k (GetSkipHeight (nHeight b)) = Some q) →
  skips_ok (<[k := b]> m).
Proof.
  intros Hs Hb p c q Hp Hq. apply lookup_insert_Some in Hp as [[<- <-]|[Hne Hp]]; [by apply Hb|].
  rewrite (ancestor_insert p c) by done. by apply (Hs p c).
Qed.

Lemma built_insert : skips_built m → (pskip b = None → pprev b = None) → skips_built (<[k := b]> m).
Proof.
  intros Hs Hb p c Hp. apply lookup_insert_Some in Hp as [[<- <-]|[Hne Hp]]; [done|by apply (Hs p)].
Qed.
End Insert.

(** ** The invariant of the index *)

Definition parent (m : BlockMap) (b : CBlockIndex) : option CBlockIndex := pprev b ≫= λ q, m !! q.
Definition parent_work (m : BlockMap) (b : CBlockIndex) : Z :=
  match parent m b with Some c => val (nChainWork c) | None => 0 end.

(** The accumulated fields of an entry, from its parent's. *)
Definition totals_ok (m : BlockMap) (b : CBlockIndex) : Prop :=
  WF (nChainWork b) ∧
  val (nChainWork b) = (parent_work m b + bits_work (bi_nBits b)) mod 2 ^ 256 ∧
  nTimeMax b = match parent m b with Some c => Z.max (nTimeMax c) (bi_nTime b) | None => bi_nTime b end.

Definition best_ok (m : BlockMap) (best : option ptr) : Prop :=
  match best with
  | None => m = ∅
  | Some bh => ∃ h, m !! bh = Some h ∧ ∀ p b, m !! p = Some b → val (nChainWork b) ≤ val (nChainWork h)
  end.

Record index_inv (st : BlockManager) : Prop := {
  ii_linked : linked (m_block_index st);
  ii_skips : skips_ok (m_block_index st);
  ii_built : skips_built (m_block_index st);
  ii_totals : ∀ p b, m_block_index st !! p = Some b → totals_ok (m_block_index st) b;
  ii_best : best_ok (m_block_index st) (m_best_header st)
}.

(** Raising a validity level changes the status and nothing else. *)
Lemma RaiseValidity_same b n :
  0 ≤ n ≤ BLOCK_VALID_MASK → ∃ s r, RaiseValidity b n = Some (set_nStatus b s, r).
Proof.
  change (0 ≤ n ≤ 7 → ∃ s r, RaiseValidity b n = Some (set_nStatus b s, r)). intros Hn.
  assert (n .& u32 (Z.lnot BLOCK_VALID_MASK) = 0) as E.
  { assert (n = 0 ∨ n = 1 ∨ n = 2 ∨ n = 3 ∨ n = 4 ∨ n = 5 ∨ n = 6 ∨ n = 7) as Hc by lia.
    by repeat destruct Hc as [-> | Hc]; subst. }
  unfold RaiseValidity. rewrite E.
  cbn [negb Z.eqb]. repeat case_match; [|by eexists _, _|]; exists (nStatus b), false; by destruct b.
Qed.

Section Add.
Context (st : BlockManager) (block : CBlockHeader) (Hinv : index_inv st) (Hbits : urange 32 (nBits block)).
Let m := m_block_index st.
Let hash := CBlockHeader_GetHash block.
Context (Hfresh : m !! hash = None) (Hself : hashPrevBlock block ≠ hash).
Context (Hheight : ∀ prev, m !! hashPrevBlock block = Some prev → nHeight prev < 2 ^ 31 - 1).

(** What the new entry looks like. *)
Record new_entry (b : CBlockIndex) : Prop := {
  ne_parent : parent_ok m b;
  ne_skip : pskip b = pprev b ≫= λ q, ancestor m q (GetSkipHeight (nHeight b));
  ne_totals : totals_ok m b
}.

(** The entry with its parent and skip pointer, before the totals are computed. *)
Lemma link_new_entry :
  ∃ b, link_pprev (<[hash := CBlockIndex_make block]> m) hash block (CBlockIndex_make block) = Some b ∧
    parent_ok m b ∧ pskip b = (pprev b ≫= λ q, ancestor m q (GetSkipHeight (nHeight b))) ∧
    bi_nBits b = nBits block.
Proof.
  destruct Hinv as [Hl Hs _ _ _]. unfold link_pprev. rewrite lookup_insert_ne by done.
  destruct (m !! hashPrevBlock block) as [prev|] eqn:Hprev; [|eexists; split_and!; done].
  pose proof (linked_height _ Hl _ _ Hprev) as H0. pose proof (Hheight prev eq_refl).
  cbn zeta. set (b := set_parent _ _ _). rewrite insert_insert_eq. unfold BuildSkip. cbn [pprev b set_parent].
  assert (nHeight b = nHeight prev + 1) as Hh by (apply swrap_small; unfold srange; lia).
  assert (parent_ok m b) as Hpar by (by exists prev).
  pose proof (linked_insert m hash b Hl Hfresh Hpar) as Hl'.
  assert (skips_ok (<[hash:=b]> m)) as Hs' by (by apply skips_insert).
  assert (<[hash:=b]> m !! hashPrevBlock block = Some prev) as Hprev' by (by rewrite lookup_insert_ne).
  rewrite (GetAncestor_spec _ Hl' Hs' _ _ _ Hprev'). cbn [mbind option_bind].
  rewrite (ancestor_insert m hash b Hl Hfresh _ _ _ Hprev).
  eexists. split_and!; [done|by exists prev|done|done].
Qed.

Lemma ltb_best h b : totals_ok m h → totals_ok m b →
  ltb WIDTH (nChainWork h) (nChainWork b) = (val (nChainWork h) <? val (nChainWork b)).
Proof. intros [? _] [? _]. apply val_ltb; done. Qed.

Lemma AddToBlockIndex_new :
  ∃ b best, new_entry b ∧
    AddToBlockIndex st block =
      Some ({| m_block_index := <[hash := b]> m; m_best_header := Some best;
               m_dirty_blockindex := {[hash]} ∪ m_dirty_blockindex st |}, hash) ∧
    best_ok (<[hash := b]> m) (Some best).
Proof.
  destruct link_new_entry as (b0 & Hb0 & Hpar & Hskip & Hbits0).
  destruct (GetBitsProof_spec (nBits block) Hbits) as (w & Hw & Hwf & Hwv).
  unfold AddToBlockIndex. fold hash m. rewrite Hfresh, Hb0. cbn [mbind option_bind].
  unfold GetBlockProof. rewrite Hbits0, Hw. cbn [mbind option_bind].
  assert ((pprev b0 ≫= λ q, <[hash:=CBlockIndex_make block]> m !! q) = parent m b0) as Hp.
  { unfold parent, parent_ok in *. destruct (pprev b0) as [q|]; [|done]. cbn [mbind option_bind].
    destruct Hpar as (c & Hq & _). rewrite lookup_insert_ne; [done|congruence]. }
  rewrite Hp. set (tm := match parent m b0 with Some p => Z.max _ _ | None => _ end).
  set (wk := add WIDTH _ w).
  destruct (RaiseValidity_same (set_totals b0 tm wk) BLOCK_VALID_TREE) as (s & r & ->); [by vm_compute|].
  cbn [mbind option_bind]. set (b := set_nStatus _ s).
  assert (totals_ok m b) as Htot.
  { unfold totals_ok, parent_work, parent.
    cbn [b set_nStatus set_totals pprev pskip nHeight nChainWork nTimeMax bi_nBits bi_nTime].
    fold (parent m b0). rewrite Hbits0. unfold wk, tm.
    destruct (parent m b0) as [c|] eqn:Hc.
    - assert (WF (nChainWork c)).
      { unfold parent in Hc. destruct (pprev b0) as [q|]; [|done]. by destruct (ii_totals _ Hinv q c Hc). }
      split_and!; [apply _|by rewrite val_add, Hwv by solve_wf|done].
    - split_and!; [apply _|by rewrite val_add, val_of_u64, Hwv by solve_wf|done]. }
  assert (new_entry b) as Hnew.
  { by split. }
  rewrite insert_insert_eq. clearbody b. clear -Hinv Hfresh Hnew Htot.
  assert (∀ p c, <[hash:=b]> m !! p = Some c → c = b ∨ m !! p = Some c) as Hcases.
  { intros p c [[_ ->]|[_ ?]]%lookup_insert_Some; auto. }
  pose proof (ii_best _ Hinv) as Hbest. fold m in Hbest. unfold best_ok in Hbest. destruct (m_best_header st) as [bh|].
  - destruct Hbest as (h & Hh & Hmax). rewrite lookup_insert_ne, Hh by congruence. cbn [mbind option_bind].
    rewrite (ltb_best h b (ii_totals _ Hinv bh h Hh) Htot). eexists b, _. split_and!; [done|done|]. 
    destruct (Z.ltb_spec (val (nChainWork h)) (val (nChainWork b))).
    + exists b. split; [by rewrite lookup_insert_eq|]. intros p c [->|Hc]%Hcases; [done|].
      pose proof (Hmax p c Hc). lia.
    + exists h. split; [by rewrite lookup_insert_ne by congruence|].
      intros p c [->|Hc]%Hcases; [lia|]. by apply (Hmax p).
  - cbn [mbind option_bind]. eexists b, _. split_and!; [done|done|]. exists b. split; [by rewrite lookup_insert_eq|].
    intros p c [->|Hc]%Hcases; [done|]. by rewrite Hbest in Hc.
Qed.

Lemma AddToBlockIndex_inv :
  ∃ st' b, AddToBlockIndex st block = Some (st', hash) ∧ index_inv st' ∧
    m_block_index st' = <[hash := b]> m ∧ new_entry b.
Proof.
  destruct AddToBlockIndex_new as (b & best & [Hpar Hskip Htot] & -> & Hbest).
  destruct Hinv as [Hl Hs Hb Ht _]. fold m in Hl, Hs, Hb, Ht.
  pose proof (linked_insert m hash b Hl Hfresh Hpar) as Hl'.
  eexists _, b. split_and!; [done| |done|done]. split; cbn [m_block_index m_best_header]; [done| | | |done].
  - apply skips_insert; [done..|]. intros q Hq. rewrite Hskip in Hq.
    unfold parent_ok in Hpar. destruct (pprev b) as [r|] eqn:Hr; [|done]. cbn [mbind option_bind] in Hq.
    destruct Hpar as (c & Hc & Hh). pose proof (linked_height m Hl r c Hc) as Hc0. split; [lia|].
    pose proof (GetSkipHeight_range (nHeight b) ltac:(lia)).
    rewrite (ancestor_prev _ Hl' hash b r) by first [apply lookup_insert_eq|exact Hr|lia].
    by rewrite (ancestor_insert m hash b Hl Hfresh r c).
  - apply built_insert; [done|]. rewrite Hskip. unfold parent_ok in Hpar. destruct (pprev b) as [r|]; [|done].
    destruct Hpar as (c & Hc & Hh). pose proof (linked_height m Hl r c Hc) as Hc0. cbn [mbind option_bind].
    pose proof (GetSkipHeight_range (nHeight b) ltac:(lia)).
    destruct (ancestor_Some m Hl r c (GetSkipHeight (nHeight b)) Hc ltac:(lia)) as (q & d & -> & _). done.
  - intros p c Hp.
    assert (∀ d, parent_ok m d → parent (<[hash:=b]> m) d = parent m d) as Hpeq.
    { intros d Hd. unfold parent, parent_ok in *. destruct (pprev d) as [q|]; [|done]. cbn [mbind option_bind].
      destruct Hd as (e & Hq & _). by rewrite lookup_insert_ne by congruence. }
    unfold totals_ok, parent_work. rewrite lookup_insert_Some in Hp. destruct Hp as [[<- <-]|[Hne Hp]]; rewrite Hpeq.
    + apply Htot. + done. + by apply (Ht p). + pose proof (Hl p c Hp) as Hlc. unfold parent_ok.
      destruct (pprev c); [|done]. destruct Hlc as (e & He & _ & Hh). by exists e.
Qed.
End Add.

(** ** Properties *)

(** A header that the index can take: its parent is another block, and the height still
    fits an [int]. *)
Definition admissible (st : BlockManager) (block : CBlockHeader) : Prop :=
  urange 32 (nBits block) ∧ hashPrevBlock block ≠ CBlockHeader_GetHash block ∧
  ∀ prev, m_block_index st !! hashPrevBlock block = Some prev → nHeight prev < 2 ^ 31 - 1.

Definition empty_index : BlockManager :=
  {| m_block_index := ∅; m_best_header := None; m_dirty_blockindex := ∅ |}.

Inductive reachable : BlockManager → Prop :=
| reach_init : reachable empty_index
| reach_add st block st' p :
    reachable st → admissible st block → AddToBlockIndex st block = Some (st', p) → reachable st'.

Lemma add_cases st block :
  index_inv st → admissible st block →
  ∃ st', AddToBlockIndex st block = Some (st', CBlockHeader_GetHash block) ∧ index_inv st' ∧
    m_block_index st ⊆ m_block_index st' ∧ is_Some (m_block_index st' !! CBlockHeader_GetHash block).
Proof.
  intros Hinv (Hbits & Hself & Hh). destruct (m_block_index st !! CBlockHeader_GetHash block) as [b|] eqn:Hb.
  - exists st. unfold AddToBlockIndex. rewrite Hb. eauto.
  - destruct (AddToBlockIndex_inv st block Hinv Hbits Hb Hself Hh) as (st' & b & Hadd & Hinv' & Hm & _).
    exists st'. rewrite Hm. split_and!; [done|done|by apply insert_subseteq|by rewrite lookup_insert_eq].
Qed.

Lemma reachable_inv st : reachable st → index_inv st.
Proof.
  induction 1 as [|st block st' p Hr IH Hadm Hadd].
  - split; cbn [empty_index m_block_index m_best_header]; try done; by intros p b; rewrite ?lookup_empty.
  - destruct (add_cases st block IH Hadm) as (st'' & Hadd' & Hinv & _). congruence.
Qed.

(** C29: In every state of the block index that AddToBlockIndex can produce, heights count
    from the roots, parents are present, every skip pointer is the ancestor at the skip
    height, accumulated work and maximum time are those of the parent plus the block's
    own, and the best header has maximal work; and adding an admissible header never fails
    an assertion or follows a null pointer: it keeps all entries and inserts the block. *)
Theorem block_index_invariant (st : BlockManager) (block : CBlockHeader) :
  reachable st → admissible st block →
  index_inv st ∧
  ∃ st', AddToBlockIndex st block = Some (st', CBlockHeader_GetHash block) ∧ reachable st' ∧
    m_block_index st ⊆ m_block_index st' ∧ is_Some (m_block_index st' !! CBlockHeader_GetHash block).
Proof.
  intros Hr Hadm. pose proof (reachable_inv st Hr) as Hinv. split; [done|].
  destruct (add_cases st block Hinv Hadm) as (st' & Hadd & _ & Hsub & Hin).
  exists st'. split_and!; [done|by eapply reach_add|done|done].
Qed.

(** Two example headers on top of each other. *)
Definition header0 : CBlockHeader :=
  {| nVersion := 1; hashPrevBlock := uint256_zero; hashMerkleRoot := replicate 32 3;
     nTime := 1231006505; nBits := 0x1d00ffff; nNonce := 2083236893 |}.
Definition header1 : CBlockHeader :=
  {| nVersion := 1; hashPrevBlock := CBlockHeader_GetHash header0; hashMerkleRoot := replicate 32 4;
     nTime := 1231469665; nBits := 0x1d00ffff; nNonce := 2573394689 |}.
Definition after (st : BlockManager) (h : CBlockHeader) : BlockManager :=
  match AddToBlockIndex st h with Some (st', _) => st' | None => st end.
Definition index1 : BlockManager := after empty_index header0.
Definition index2 : BlockManager := after index1 header1.

Lemma after_reachable st h :
  reachable st → admissible st h → reachable (after st h).
Proof.
  intros Hr Hadm. destruct (add_cases st h (reachable_inv st Hr) Hadm) as (st' & Hadd & _).
  unfold after. rewrite Hadd. by eapply reach_add.
Qed.

Lemma admissible0 : admissible empty_index header0.
Proof. split_and!; [by split|vm_compute; discriminate|done]. Qed.
Lemma admissible1 : admissible index1 header1.
Proof.
  split_and!; [by split|vm_compute; discriminate|]. intros prev Hp.
  assert (nHeight <$> m_block_index index1 !! hashPrevBlock header1 = Some 0) as H0 by (vm_compute; reflexivity).
  rewrite Hp in H0. injection H0 as ->. lia.
Qed.
Lemma index2_reachable : reachable index2.
Proof. apply after_reachable; [apply after_reachable; [constructor|apply admissible0]|apply admissible1]. Qed.

Lemma index2_lookup0 : is_Some (m_block_index index2 !! CBlockHeader_GetHash header0).
Proof. apply (bool_decide_unpack _). vm_compute. exact I. Qed.
Lemma index2_lookup1 : is_Some (m_block_index index2 !! CBlockHeader_GetHash header1).
Proof. apply (bool_decide_unpack _). vm_compute. exact I. Qed.

Lemma block_index_invariant_witness : index_inv index1.
Proof.
  apply (block_index_invariant index1 header1); [|apply admissible1].
  apply after_reachable; [constructor|apply admissible0].
Defined.

(** C30: GetAncestor, jumping along skip pointers, terminates without failing its assertion
    and returns exactly the block that following pprev down to the given height reaches,
    or null when the height is negative or above the block's. *)
Theorem GetAncestor_is_ancestor (st : BlockManager) (p : ptr) (b : CBlockIndex) (height : Z) :
  reachable st → m_block_index st !! p = Some b →
  GetAncestor (m_block_index st) p height = Some (ancestor (m_block_index st) p height) ∧
  (0 ≤ height ≤ nHeight b ↔ is_Some (ancestor (m_block_index st) p height)).
Proof.
  intros Hr Hp. destruct (reachable_inv st Hr) as [Hl Hs _ _ _].
  split; [by apply (GetAncestor_spec _ Hl Hs p b)|]. split.
  - intros Hh. destruct (ancestor_Some _ Hl p b height Hp Hh) as (q & c & -> & _). done.
  - intros [q Hq]. destruct (ancestor_inv _ Hl p height q Hq) as (b' & c & Hb' & _ & _ & Hh). congruence.
Qed.

Lemma GetAncestor_is_ancestor_witness :
  GetAncestor (m_block_index index2) (CBlockHeader_GetHash header1) 0 =
    Some (ancestor (m_block_index index2) (CBlockHeader_GetHash header1) 0).
Proof.
  destruct index2_lookup1 as [b Hb].
  apply (GetAncestor_is_ancestor index2 (CBlockHeader_GetHash header1) b 0 index2_reachable Hb).
Defined.

(** LastCommonAncestor terminates and returns the highest block that is an ancestor of
    both arguments, or null when they share none. *)
Theorem LastCommonAncestor_highest (st : BlockManager) (pa pb : ptr) (a b : CBlockIndex) :
  reachable st → m_block_index st !! pa = Some a → m_block_index st !! pb = Some b →
  ∃ r, LastCommonAncestor (m_block_index st) pa pb = Some r ∧ is_lca (m_block_index st) pa pb r.
Proof.
  intros Hr. destruct (reachable_inv st Hr) as [Hl Hs Hb _ _]. by apply LastCommonAncestor_spec.
Qed.

Lemma LastCommonAncestor_highest_witness :
  ∃ r, LastCommonAncestor (m_block_index index2) (CBlockHeader_GetHash header1) (CBlockHeader_GetHash header0) = Some r.
Proof.
  destruct index2_lookup1 as [b Hb].
  destruct index2_lookup0 as [a Ha].
  destruct (LastCommonAncestor_highest index2 _ _ b a index2_reachable Hb Ha) as (r & Hr & _). by exists r.
Defined.

(** C31: The vector of a CChain implements "the ancestors of the tip": SetTip takes the vector
    of any tip to that of the new one although it stops at the first entry that is already
    right; Contains is ancestry of the tip, Height its height, operator[] its ancestor at a
    height, and FindFork the highest common ancestor with the tip. *)
Theorem CChain_refines_tip (st : BlockManager) (old : option ptr) (tip p : ptr) (bt b : CBlockIndex) (h : Z) :
  reachable st → valid_tip (m_block_index st) old →
  m_block_index st !! tip = Some bt → m_block_index st !! p = Some b →
  let m := m_block_index st in
  let chain := chain_to m (Some tip) in
  SetTip m (chain_to m old) tip = Some chain ∧
  Height chain = nHeight bt ∧
  chain_at chain h = ancestor m tip h ∧
  Contains m chain p = Some (bool_decide (ancestor m tip (nHeight b) = Some p)) ∧
  ∃ r, FindFork m chain (Some p) = Some r ∧ is_lca m p tip r.
Proof.
  intros Hr Hold Ht Hp m chain. destruct (reachable_inv st Hr) as [Hl Hs _ _ _].
  assert (valid_tip m (Some tip)) as Hv by (by exists bt). split_and!.
  - by apply (SetTip_spec m Hl old tip bt).
  - by apply Height_spec.
  - by apply (chain_at_spec m Hl (Some tip)).
  - by apply (Contains_spec m Hl (Some tip)).
  - by apply (FindFork_spec m Hl Hs tip bt p b).
Qed.

Lemma CChain_refines_tip_witness :
  SetTip (m_block_index index2) [] (CBlockHeader_GetHash header1) =
    Some (chain_to (m_block_index index2) (Some (CBlockHeader_GetHash header1))).
Proof.
  destruct index2_lookup1 as [b Hb].
  apply (CChain_refines_tip index2 None _ _ b b 0 index2_reachable I Hb Hb).
Defined.

(** GetBitsProof returns exactly 2^256 / (target + 1), rounded down, computed within 256
    bits, and 0 for a compact target that is zero, negative or overflows; its division is
    never by zero. *)
Theorem GetBitsProof_exact (bits : Z) :
  urange 32 bits → ∃ w, GetBitsProof bits = Some w ∧ wf WIDTH w ∧ val w = bits_work bits.
Proof. apply GetBitsProof_spec. Qed.

Lemma GetBitsProof_exact_witness :
  ∃ w, GetBitsProof 0x1d00ffff = Some w ∧ val w = 0x100010001.
Proof.
  destruct (GetBitsProof_exact 0x1d00ffff) as (w & Hw & _ & Hv); [by split|].
  exists w. split; [done|]. rewrite Hv. vm_compute. reflexivity.
Defined.
