(* ===== verification/Pow.v ===== *)
(** * Proof of work: pow.cpp, consensus/params.h

    The difficulty rules: the target the next block must meet, the transitions a headers
    sync permits, and the check of a hash against a compact target. *)

From S2P Require Import Prelude Endian ArithUint256 Serialize Hash Primitives BlockIndex.
From Stdlib Require Import ZArith Lia.
From stdpp Require Import base option list numbers gmap.

Open Scope Z_scope.
Open Scope kernel_scope.
Import base_uint arith_uint256.

(** ** [Consensus::Params] *)

Record Params := {
  powLimit : uint256;
  fPowAllowMinDifficultyBlocks : bool;
  enforce_BIP94 : bool;
  fPowNoRetargeting : bool;
  nPowTargetSpacing : Z;
  nPowTargetTimespan : Z
}.

Definition DifficultyAdjustmentInterval (params : Params) : Z :=
  Z.quot (nPowTargetTimespan params) (nPowTargetSpacing params).

Section Pow.
Context (m : BlockMap) (params : Params).

(** [bnNew *= n]: the [uint32_t] overload; [bnNew /= n]: the number is converted with
    [base_uint(uint64_t)]. *)
Definition scale (bn : list Z) (num den : Z) : option (list Z) :=
  div WIDTH (mul_u32 WIDTH bn (u32 num)) (of_u64 WIDTH (u64 den)).

Definition cap (bn limit : list Z) : list Z := if gtb WIDTH bn limit then limit else bn.

(** The bits the new target is scaled from: with BIP94, those of the first block of the
    period, which cannot be a minimum-difficulty exception. *)
Definition retarget_bits (pindexLast : ptr) (last : CBlockIndex) : option Z :=
  if enforce_BIP94 params then
    let nHeightFirst := nHeight last - (DifficultyAdjustmentInterval params - 1) in
    first ← mjoin (GetAncestor m pindexLast nHeightFirst);
    first ← m !! first;
    Some (bi_nBits first)
  else Some (bi_nBits last).

Definition CalculateNextWorkRequired (pindexLast : ptr) (nFirstBlockTime : Z) : option Z :=
  last ← m !! pindexLast;
  if fPowNoRetargeting params then Some (bi_nBits last)
  else
    let nActualTimespan := bi_nTime last - nFirstBlockTime in
    let nActualTimespan :=
      if nActualTimespan <? Z.quot (nPowTargetTimespan params) 4
      then Z.quot (nPowTargetTimespan params) 4 else nActualTimespan in
    let nActualTimespan :=
      if nPowTargetTimespan params * 4 <? nActualTimespan
      then nPowTargetTimespan params * 4 else nActualTimespan in
    let bnPowLimit := UintToArith256 (powLimit params) in
    bits ← retarget_bits pindexLast last;
    let bnNew := sc_value (SetCompact bits) in
    bnNew ← scale bnNew nActualTimespan (nPowTargetTimespan params);
    GetCompact (cap bnNew bnPowLimit) false.

(** The walk back to the last block that does not use the special minimum difficulty. *)
Fixpoint last_non_special (fuel : nat) (nProofOfWorkLimit : Z) (pindex : ptr) : option Z :=
  b ← m !! pindex;
  match pprev b with
  | Some prev =>
      if negb (Z.rem (nHeight b) (DifficultyAdjustmentInterval params) =? 0) && (bi_nBits b =? nProofOfWorkLimit)
      then match fuel with O => None | S fuel => last_non_special fuel nProofOfWorkLimit prev end
      else Some (bi_nBits b)
  | None => Some (bi_nBits b)
  end.

Definition GetNextWorkRequired (pindexLast : ptr) (pblock : CBlockHeader) : option Z :=
  last ← m !! pindexLast;
  nProofOfWorkLimit ← GetCompact (UintToArith256 (powLimit params)) false;
  if negb (Z.rem (nHeight last + 1) (DifficultyAdjustmentInterval params) =? 0) then
    if fPowAllowMinDifficultyBlocks params then
      if bi_nTime last + nPowTargetSpacing params * 2 <? nTime pblock then Some nProofOfWorkLimit
      else last_non_special (Z.to_nat (nHeight last)) nProofOfWorkLimit pindexLast
    else Some (bi_nBits last)
  else
    let nHeightFirst := nHeight last - (DifficultyAdjustmentInterval params - 1) in
    if nHeightFirst <? 0 then None
    else
      first ← mjoin (GetAncestor m pindexLast nHeightFirst);
      first ← m !! first;
      CalculateNextWorkRequired pindexLast (bi_nTime first).

Definition PermittedDifficultyTransition (height old_nbits new_nbits : Z) : option bool :=
  if fPowAllowMinDifficultyBlocks params then Some true
  else if Z.rem height (DifficultyAdjustmentInterval params) =? 0 then
    let smallest_timespan := Z.quot (nPowTargetTimespan params) 4 in
    let largest_timespan := nPowTargetTimespan params * 4 in
    let pow_limit := UintToArith256 (powLimit params) in
    let observed_new_target := sc_value (SetCompact new_nbits) in
    largest_difficulty_target ←
      scale (sc_value (SetCompact old_nbits)) largest_timespan (nPowTargetTimespan params);
    maximum ← GetCompact (cap largest_difficulty_target pow_limit) false;
    let maximum_new_target := sc_value (SetCompact maximum) in
    if ltb WIDTH maximum_new_target observed_new_target then Some false
    else
      smallest_difficulty_target ←
        scale (sc_value (SetCompact old_nbits)) smallest_timespan (nPowTargetTimespan params);
      minimum ← GetCompact (cap smallest_difficulty_target pow_limit) false;
      let minimum_new_target := sc_value (SetCompact minimum) in
      Some (negb (gtb WIDTH minimum_new_target observed_new_target))
  else Some (old_nbits =? new_nbits).
End Pow.

Definition DeriveTarget (nBits : Z) (pow_limit : uint256) : option (list Z) :=
  let t := SetCompact nBits in
  if sc_negative t || EqualTo WIDTH (sc_value t) 0 || sc_overflow t
     || gtb WIDTH (sc_value t) (UintToArith256 pow_limit)
  then None else Some (sc_value t).

Definition CheckProofOfWorkImpl (hash : uint256) (nBits : Z) (params : Params) : bool :=
  match DeriveTarget nBits (powLimit params) with
  | None => false
  | Some bnTarget => negb (gtb WIDTH (UintToArith256 hash) bnTarget)
  end.

(** In fuzzing builds [EnableFuzzDeterminism()] replaces the check by one bit of the hash. *)
Definition CheckProofOfWork (EnableFuzzDeterminism : bool) (hash : uint256) (nBits : Z) (params : Params) : bool :=
  if EnableFuzzDeterminism then hash.[31] .& 0x80 =? 0
  else CheckProofOfWorkImpl hash nBits params.

(** ** Numbers of the blobs *)

Import arith_uint256_facts.
#[local] Opaque add sub mul bitnot div of_u64 zero mul_u32.

(** A [uint256] read as a little-endian number. *)
Definition uint256_val (h : uint256) : Z := undigits 8 h.

Lemma undigits_group (l : list Z) n :
  bytes_ok l → length l = (4 * n)%nat →
  undigits 32 (map (λ x, ReadLE32 (drop (x * 4) l)) (seq 0 n)) = undigits 8 l.
Proof.
  revert l. induction n as [|n IH]; intros l Hl Hlen; [by destruct l|].
  cbn [seq map undigits]. rewrite <-seq_shift, map_map. cbn [Nat.mul].
  transitivity (undigits 8 (take 4 l ++ drop 4 l)); [|by rewrite take_drop].
  rewrite undigits_app, length_take_le by lia. unfold ReadLE32 at 1.
  rewrite drop_0. change (8 * Z.of_nat 4) with 32. do 2 f_equal.
  rewrite <-(IH (drop 4 l)); [|by apply Forall_drop|rewrite length_drop; lia].
  f_equal. apply map_ext. intros x. rewrite drop_drop. f_equal.
Qed.

Lemma foldl_insert_map (g : nat → Z) n k :
  (k ≤ n)%nat →
  foldl (λ b x, <[x := g x]> b) (replicate n 0) (seq 0 k) = map g (seq 0 k) ++ replicate (n - k) 0.
Proof.
  induction k as [|k IH]; intros Hk; [by rewrite Nat.sub_0_r|].
  rewrite seq_S, foldl_app, map_app, IH by lia. cbn [foldl map Nat.add].
  replace (n - k)%nat with (S (n - S k)) by lia. cbn [replicate].
  rewrite insert_app_r_alt by (rewrite length_map, length_seq; lia).
  rewrite length_map, length_seq, Nat.sub_diag. cbn [insert list_insert]. by rewrite <-app_assoc.
Qed.

Lemma UintToArith256_ok h : uint256_ok h → WF (UintToArith256 h) ∧ val (UintToArith256 h) = uint256_val h.
Proof.
  intros [Hlen Hok]. unfold UintToArith256.
  assert (zero WIDTH = replicate 8 0) as -> by reflexivity. unfold WIDTH.
  rewrite foldl_insert_map, Nat.sub_diag, app_nil_r by lia. split.
  - split; [by rewrite length_map, length_seq|]. apply Forall_map, Forall_true. intros x.
    pose proof (undigits_range 8 ltac:(lia) (take 4 (drop (x * 4) h))) as Hr.
    assert (bytes_ok (take 4 (drop (x * 4) h))) as Hd by (by apply Forall_take, Forall_drop).
    specialize (Hr Hd). unfold ReadLE32, urange.
    assert (length (take 4 (drop (x * 4) h)) ≤ 4)%nat by (rewrite length_take; lia).
    pose proof (Z.pow_le_mono_r 2 (8 * Z.of_nat (length (take 4 (drop (x * 4) h)))) 32). lia.
  - by apply undigits_group.
Qed.

(** ** Scaling a target *)

Lemma val_scale bn num den `{!WF bn} :
  urange 32 num → 0 < den < 2 ^ 64 → val bn * num < 2 ^ 256 →
  ∃ r, scale bn num den = Some r ∧ WF r ∧ val r = val bn * num / den.
Proof.
  intros Hn Hd Hmul. pose proof (val_range_256 bn). unfold scale, urange in *.
  rewrite !uwrap_small by (unfold urange; lia).
  assert (val (of_u64 WIDTH den) = den) as Hden by (rewrite val_of_u64; apply uwrap_small; unfold urange; lia).
  assert (WF (mul_u32 WIDTH bn num)) by (apply WF_mul_u32; unfold urange; lia || apply _).
  destruct (val_div (mul_u32 WIDTH bn num) (of_u64 WIDTH den)) as (r & Hr & Hwf & Hv); [lia|].
  exists r. split_and!; [done|done|]. rewrite Hv, Hden, val_mul_u32 by (done || unfold urange; lia).
  rewrite Z.mod_small; [done|nia].
Qed.

Lemma val_cap a b `{!WF a, !WF b} : WF (cap a b) ∧ val (cap a b) = Z.min (val a) (val b).
Proof.
  unfold cap. rewrite val_gtb by solve_wf. destruct (Z.ltb_spec (val b) (val a)); split; try done; lia.
Qed.

Record params_ok (params : Params) : Prop := {
  po_limit : uint256_ok (powLimit params);
  po_spacing : 0 < nPowTargetSpacing params ≤ nPowTargetTimespan params;
  po_timespan : nPowTargetTimespan params * 4 < 2 ^ 32;
  po_room : uint256_val (powLimit params) * (nPowTargetTimespan params * 4) < 2 ^ 256
}.

(** The target after a period that took [actual] seconds, and what its compact form keeps. *)
Definition clamp_timespan (params : Params) (actual : Z) : Z :=
  Z.min (nPowTargetTimespan params * 4) (Z.max (nPowTargetTimespan params / 4) actual).
Definition retarget (params : Params) (target timespan : Z) : Z :=
  Z.min (target * timespan / nPowTargetTimespan params) (uint256_val (powLimit params)).

Section Retarget.
Context (params : Params) (Hok : params_ok params).
Let limit := uint256_val (powLimit params).
Let T := nPowTargetTimespan params.

Lemma retarget_step bn timespan `{!WF bn} :
  val bn ≤ limit → 0 ≤ timespan ≤ T * 4 →
  ∃ r c, scale bn timespan T = Some r ∧
    GetCompact (cap r (UintToArith256 (powLimit params))) false = Some c ∧ urange 32 c ∧
    WF (sc_value (SetCompact c)) ∧
    val (sc_value (SetCompact c)) = compact_floor (retarget params (val bn) timespan) ∧
    sc_negative (SetCompact c) = false ∧ sc_overflow (SetCompact c) = false.
Proof.
  intros Hle Hts. destruct Hok as [Hl Hsp Hts4 Hroom]. fold T in Hsp, Hts4, Hroom. fold limit in Hroom.
  destruct (UintToArith256_ok _ Hl) as [Hlw Hlv]. pose proof (val_range_256 bn).
  destruct (val_scale bn timespan T) as (r & Hr & Hrw & Hrv); [unfold urange; lia|lia|nia|].
  destruct (val_cap r (UintToArith256 (powLimit params))) as [Hcw Hcv].
  destruct (compact_encode (cap r (UintToArith256 (powLimit params))) false) as (c & Hc & Hcr & Hv & _ & _ & Hov & Hneg).
  exists r, c. destruct (SetCompact_ok c Hcr) as (Hw & _).
  split_and!; [done..| |by rewrite Hneg|done]. rewrite Hv, Hcv, Hrv, Hlv. done.
Qed.

Lemma retarget_mono t a b : 0 ≤ t → 0 ≤ a ≤ b →
  compact_floor (retarget params t a) ≤ compact_floor (retarget params t b).
Proof.
  intros Ht Hab. destruct Hok as [Hl Hsp _ _]. fold T in Hsp.
  destruct (UintToArith256_ok _ Hl) as [Hlw Hlv]. pose proof (val_range_256 (UintToArith256 (powLimit params))).
  apply compact_floor_mono. unfold retarget. fold T.
  assert (t * a / T ≤ t * b / T) by (apply Z.div_le_mono; nia).
  assert (0 ≤ t * a / T) by (apply Z.div_pos; nia). lia.
Qed.

Lemma clamp_range actual : 0 ≤ T / 4 ≤ clamp_timespan params actual ∧ clamp_timespan params actual ≤ T * 4.
Proof.
  destruct Hok as [_ Hsp _ _]. fold T in Hsp. unfold clamp_timespan. fold T. zlia.
Qed.
End Retarget.

Abbreviation target_of bits := (val (sc_value (SetCompact bits))).

Lemma CalculateNextWorkRequired_spec m params p last first bits :
  params_ok params → fPowNoRetargeting params = false → m !! p = Some last →
  retarget_bits m params p last = Some bits → urange 32 bits → target_of bits ≤ uint256_val (powLimit params) →
  ∃ new, CalculateNextWorkRequired m params p first = Some new ∧ urange 32 new ∧
    WF (sc_value (SetCompact new)) ∧
    target_of new = compact_floor (retarget params (target_of bits) (clamp_timespan params (bi_nTime last - first))) ∧
    sc_negative (SetCompact new) = false ∧ sc_overflow (SetCompact new) = false.
Proof.
  intros Hok Hno Hp Hbits Hr Hle. unfold CalculateNextWorkRequired. rewrite Hp. cbn [mbind option_bind].
  rewrite Hno, Hbits. cbn [mbind option_bind]. destruct (SetCompact_ok bits Hr) as (Hwf & _).
  destruct (clamp_range params Hok (bi_nTime last - first)) as [[H0 H1] H2].
  set (ts := if _ <? (if _ <? _ then _ else _) then _ else _).
  assert (ts = clamp_timespan params (bi_nTime last - first)) as ->.
  { unfold ts, clamp_timespan. destruct Hok as [_ Hsp _ _]. rewrite !Z.quot_div_nonneg by lia.
    destruct (Z.ltb_spec (bi_nTime last - first) (nPowTargetTimespan params / 4));
      destruct (Z.ltb_spec (nPowTargetTimespan params * 4) (nPowTargetTimespan params / 4)) in |- *;
      destruct (Z.ltb_spec (nPowTargetTimespan params * 4) (bi_nTime last - first)); zlia. }
  destruct (retarget_step params Hok (sc_value (SetCompact bits)) _ Hle ltac:(split; [etransitivity; [exact H0|exact H1]|exact H2]))
    as (r & c & -> & Hc & Hrest). cbn [mbind option_bind]. exists c. by rewrite Hc.
Qed.

(** Every outcome of the retarget rule is a permitted transition. *)
Lemma retarget_is_permitted params height bits new actual :
  params_ok params → fPowAllowMinDifficultyBlocks params = false →
  Z.rem height (DifficultyAdjustmentInterval params) = 0 →
  urange 32 bits → target_of bits ≤ uint256_val (powLimit params) →
  WF (sc_value (SetCompact new)) →
  target_of new = compact_floor (retarget params (target_of bits) (clamp_timespan params actual)) →
  PermittedDifficultyTransition params height bits new = Some true.
Proof.
  intros Hok Hmin Hrem Hr Hle Hnw Hnew. unfold PermittedDifficultyTransition. rewrite Hmin, Hrem. cbn [Z.eqb].
  destruct (SetCompact_ok bits Hr) as (Hwf & _). pose proof (val_range_256 (sc_value (SetCompact bits))).
  destruct (clamp_range params Hok actual) as [[H0 H1] H2].
  assert (0 < nPowTargetTimespan params) as HT by (destruct Hok; lia).
  destruct (retarget_step params Hok (sc_value (SetCompact bits)) (nPowTargetTimespan params * 4) Hle)
    as (r & c & -> & Hc & _ & Hw & Hv & _); [lia|]. cbn [mbind option_bind]. rewrite Hc. cbn [mbind option_bind].
  rewrite val_ltb, Hv, Hnew by done.
  pose proof (retarget_mono params Hok (target_of bits) (clamp_timespan params actual) (nPowTargetTimespan params * 4)) as Hmax.
  rewrite (proj2 (Z.ltb_ge _ _)) by (apply Hmax; lia).
  rewrite Z.quot_div_nonneg by lia.
  destruct (retarget_step params Hok (sc_value (SetCompact bits)) (nPowTargetTimespan params / 4) Hle)
    as (r' & c' & -> & Hc' & _ & Hw' & Hv' & _); [lia|]. cbn [mbind option_bind]. rewrite Hc'. cbn [mbind option_bind].
  rewrite val_gtb, Hv', Hnew by done.
  pose proof (retarget_mono params Hok (target_of bits) (nPowTargetTimespan params / 4) (clamp_timespan params actual)) as Hmn.
  by rewrite (proj2 (Z.ltb_ge _ _)) by (apply Hmn; lia).
Qed.

(** ** Properties *)

(** C24: In any reachable block index, for a chain with standard retargeting, the difficulty
    computation cannot fail: away from a period boundary the next block must repeat the
    last bits, and at a boundary its target is the old one scaled by the clamped duration
    of the period that ends, capped at the limit and rounded to compact form; either way
    the step passes PermittedDifficultyTransition, the check applied to headers before
    their ancestors are known.  The target of the last block is within the limit, as that of every
    accepted header is. *)
Theorem next_work_is_permitted (st : BlockManager) (params : Params) (p : ptr) (last : CBlockIndex) (pblock : CBlockHeader) :
  reachable st → m_block_index st !! p = Some last → params_ok params →
  fPowAllowMinDifficultyBlocks params = false → fPowNoRetargeting params = false → enforce_BIP94 params = false →
  urange 32 (bi_nBits last) → target_of (bi_nBits last) ≤ uint256_val (powLimit params) →
  let m := m_block_index st in
  ∃ new, GetNextWorkRequired m params p pblock = Some new ∧
    PermittedDifficultyTransition params (nHeight last + 1) (bi_nBits last) new = Some true ∧
    if Z.rem (nHeight last + 1) (DifficultyAdjustmentInterval params) =? 0 then
      ∃ q first, ancestor m p (nHeight last + 1 - DifficultyAdjustmentInterval params) = Some q ∧ m !! q = Some first ∧
        target_of new = compact_floor (retarget params (target_of (bi_nBits last))
                          (clamp_timespan params (bi_nTime last - bi_nTime first)))
    else new = bi_nBits last.
Proof.
  intros Hr Hp Hok Hmin Hno Hbip Hbits Hle m. destruct (reachable_inv st Hr) as [Hl Hs _ _ _]. fold m in Hl, Hs.
  pose proof (linked_height m Hl p last Hp) as H0.
  destruct (UintToArith256_ok _ (po_limit _ Hok)) as [Hlw _].
  destruct (compact_encode (UintToArith256 (powLimit params)) false) as (lim & Hlim & _).
  assert (0 < DifficultyAdjustmentInterval params) as HI.
  { destruct Hok as [_ Hsp _ _]. apply Z.quot_str_pos. lia. }
  unfold GetNextWorkRequired. fold m in Hp. rewrite Hp. cbn [mbind option_bind]. rewrite Hlim. cbn [mbind option_bind].
  rewrite Hmin. destruct (Z.eqb_spec (Z.rem (nHeight last + 1) (DifficultyAdjustmentInterval params)) 0) as [Hrem|Hrem]; cbn [negb].
  - set (I := DifficultyAdjustmentInterval params) in *.
    assert (I ≤ nHeight last + 1) as HIle.
    { rewrite Z.rem_mod_nonneg in Hrem by lia. apply Z.mod_divide in Hrem; [|lia]. apply Z.divide_pos_le in Hrem; lia. }
    rewrite (proj2 (Z.ltb_ge _ _)) by lia. rewrite (GetAncestor_spec m Hl Hs p last) by done.
    replace (nHeight last - (I - 1)) with (nHeight last + 1 - I) by lia. cbn [mjoin option_join].
    destruct (ancestor_Some m Hl p last (nHeight last + 1 - I) Hp ltac:(lia)) as (q & first & Hq & Hf & _).
    rewrite Hq. cbn [mbind option_bind]. rewrite Hf. cbn [mbind option_bind].
    destruct (CalculateNextWorkRequired_spec m params p last (bi_nTime first) (bi_nBits last))
      as (new & Hnew & _ & Hw & Hv & _); [done..|unfold retarget_bits; by rewrite Hbip|done|done|].
    exists new. split_and!; [done| |by exists q, first].
    by apply (retarget_is_permitted params _ _ _ (bi_nTime last - bi_nTime first)).
  - exists (bi_nBits last). split_and!; [done| |done]. unfold PermittedDifficultyTransition. rewrite Hmin.
    destruct (Z.eqb_spec (Z.rem (nHeight last + 1) (DifficultyAdjustmentInterval params)) 0); [done|].
    by rewrite Z.eqb_refl.
Qed.

(** The main network's rule. *)
Definition main_params : Params := {|
  powLimit := replicate 28 255 ++ replicate 4 0; fPowAllowMinDifficultyBlocks := false; enforce_BIP94 := false;
  fPowNoRetargeting := false; nPowTargetSpacing := 600; nPowTargetTimespan := 1209600 |}.

Lemma main_params_ok : params_ok main_params.
Proof.
  split; [split; [done|]|done|done|by vm_compute]. by repeat constructor.
Qed.

Lemma next_work_is_permitted_witness :
  ∃ new, GetNextWorkRequired (m_block_index index2) main_params (CBlockHeader_GetHash header1) header1 = Some new.
Proof.
  destruct index2_lookup1 as [b Hb].
  assert (bi_nBits b = 0x1d00ffff) as Hbits.
  { assert (bi_nBits <$> m_block_index index2 !! CBlockHeader_GetHash header1 = Some 0x1d00ffff) as H
      by (vm_compute; reflexivity). rewrite Hb in H. by injection H. }
  destruct (next_work_is_permitted index2 main_params _ b header1 index2_reachable Hb main_params_ok)
    as (new & Hnew & _); [done|done|done|rewrite Hbits; by split|rewrite Hbits; vm_compute; discriminate|].
  by exists new.
Defined.

(** C25: The proof-of-work check accepts exactly the hashes, read as little-endian numbers,
    that do not exceed a positive target within the network's limit; the compact forms that
    are negative, zero, overflow 256 bits or exceed the limit are rejected whatever the
    hash. *)
Theorem CheckProofOfWork_exact (hash : uint256) (nBits : Z) (params : Params) :
  uint256_ok hash → uint256_ok (powLimit params) → urange 32 nBits →
  CheckProofOfWork false hash nBits params = true ↔
  Z.testbit nBits 23 = false ∧ 0 < compact_value nBits ≤ uint256_val (powLimit params) ∧
  uint256_val hash ≤ compact_value nBits.
Proof.
  intros Hh Hl Hb. destruct (UintToArith256_ok _ Hh) as [Hhw Hhv]. destruct (UintToArith256_ok _ Hl) as [Hlw Hlv].
  destruct (SetCompact_ok nBits Hb) as (Hw & Hv & Hov & Hneg). pose proof (val_range_256 (UintToArith256 (powLimit params))).
  unfold CheckProofOfWork, CheckProofOfWorkImpl, DeriveTarget.
  rewrite val_EqualTo, val_gtb by (done || unfold urange; lia).
  set (t := SetCompact nBits) in *. set (v := compact_value nBits) in *.
  assert (0 ≤ v) as Hnn.
  { destruct (compact_range nBits Hb). unfold v, compact_value.
    destruct (Z.leb_spec (compact_size nBits) 3); [apply Z.div_pos|apply Z.mul_nonneg_nonneg]; lia. }
  clearbody t v. destruct (Z.leb_spec (2 ^ 256) v) as [Hbig|Hfit].
  { rewrite (proj2 Hov Hbig), orb_true_r. cbn [orb]. split; [done|lia]. }
  rewrite Z.mod_small in Hv by lia. rewrite Hv, Hlv.
  assert (sc_overflow t = false) as -> by (apply not_true_iff_false; rewrite Hov; lia). rewrite orb_false_r.
  assert (sc_negative t = negb (v =? 0) && Z.testbit nBits 23) as ->.
  { apply eq_true_iff_eq. rewrite Hneg, andb_true_iff, negb_true_iff, Z.eqb_neq. done. }
  destruct (Z.eqb_spec v 0) as [->|Hnz]; cbn [negb andb orb]; [split; [done|lia]|].
  destruct (Z.testbit nBits 23); cbn [orb]; [split; [done|by intros [? _]]|].
  destruct (Z.ltb_spec (uint256_val (powLimit params)) v); [split; [done|lia]|].
  rewrite val_gtb, Hhv, Hv by done. rewrite negb_true_iff, Z.ltb_ge. split; [intros; split_and!; (done || lia)|tauto].
Qed.

Lemma CheckProofOfWork_exact_witness :
  CheckProofOfWork false (replicate 26 7 ++ replicate 6 0) 0x1d00ffff main_params = true.
Proof.
  apply CheckProofOfWork_exact; [by split; [|repeat constructor]|apply main_params_ok|by split|].
  split_and!; vm_compute; (reflexivity || discriminate).
Defined.
