(* ===== verification/MedianTime.v ===== *)
(** * The median time past: chain.h, [CBlockIndex::GetMedianTimePast]

    The median of the times of the last eleven blocks exists for every entry of the block
    index, and along a chain whose blocks are later than the median time of their parent (the
    rule of [ContextualCheckBlockHeader]) it never decreases. *)

From S2P Require Import Prelude BlockIndex.
From Stdlib Require Import ZArith Lia.
From stdpp Require Import base option list numbers gmap sorting.

Open Scope Z_scope.
Open Scope kernel_scope.

(** ** Medians *)

(** How many of the times are before [v]. *)
Definition below (v : Z) (l : list Z) : nat := length (filter (λ t, t < v) l).

Lemma below_none (v : Z) (l : list Z) : Forall (λ t, v ≤ t) l → filter (λ t, t < v) l = [].
Proof. induction 1; [done|]. by rewrite filter_cons_False by lia. Qed.

(** The element of a sorted list at [i] is at least [v] when at most [i] elements are below [v]. *)
Lemma sorted_lookup_ge (l : list Z) i x v :
  StronglySorted Z.le l → l !! i = Some x → (v ≤ x ↔ (below v l ≤ i)%nat).
Proof.
  revert i. induction l as [|y l IH]; intros i Hs Hx; [done|]. inversion Hs as [|? ? Hs' Hall]; subst.
  unfold below. rewrite filter_cons. destruct i as [|i].
  - injection Hx as ->. destruct (decide (x < v)) as [Hlt|Hge].
    + cbn [length]. split; lia.
    + split; [|lia]. intros _. rewrite below_none; [cbn; lia|].
      eapply Forall_impl; [exact Hall|]. cbn. intros. lia.
  - destruct (decide (y < v)) as [Hlt|Hge]; cbn [length].
    + rewrite (IH i) by done. unfold below. lia.
    + assert (y ≤ x) by (rewrite Forall_forall in Hall; apply Hall; by eapply list_elem_of_lookup_2).
      assert (filter (λ t, t < v) l = []) as ->; [|cbn; lia].
      apply below_none. eapply Forall_impl; [exact Hall|]. cbn. intros. lia.
Qed.

Definition median (times : list Z) : option Z :=
  let sorted := merge_sort Z.le (rev times) in sorted !! (length sorted / 2)%nat.

Lemma sorted_times times :
  merge_sort Z.le (rev times) ≡ₚ times ∧ StronglySorted Z.le (merge_sort Z.le (rev times)).
Proof.
  split; [rewrite merge_sort_Permutation; symmetry; apply Permutation_rev|].
  apply (StronglySorted_merge_sort Z.le).
Qed.

Lemma median_ge times x v :
  median times = Some x → (v ≤ x ↔ (below v times ≤ length times / 2)%nat).
Proof.
  unfold median. destruct (sorted_times times) as [Hp Hs]. intros Hx.
  rewrite (sorted_lookup_ge _ _ _ v Hs Hx). unfold below. by rewrite Hp.
Qed.

Lemma median_exists times : times ≠ [] → ∃ x, median times = Some x.
Proof.
  intros Hne. apply lookup_lt_is_Some. destruct (sorted_times times) as [Hp _]. rewrite Hp.
  destruct times; [done|]. cbn [length]. apply Nat.div_lt; lia.
Qed.

(** Dropping the oldest time from a full window and adding one above the median cannot lower
    the median; nor can adding it to a window that is not full. *)
Lemma median_advance times t n x :
  median times = Some x → x < t → (length times ≤ S n)%nat →
  ∃ y, median (t :: take n times) = Some y ∧ x ≤ y.
Proof.
  intros Hx Ht Hn. destruct (median_exists (t :: take n times)) as [y Hy]; [done|]. exists y. split; [done|].
  apply (median_ge _ _ _ Hy). unfold below. rewrite filter_cons_False by lia. cbn [length]. rewrite length_take.
  pose proof (proj1 (median_ge _ _ x Hx) ltac:(lia)) as H. unfold below in H.
  assert (le (length (filter (λ t, t < x) (take n times))) (length (filter (λ t, t < x) times))).
  { rewrite <-(take_drop n times) at 2. rewrite filter_app, length_app. lia. }
  assert (length times / 2 ≤ S (n `min` length times) / 2)%nat by (apply Nat.Div0.div_le_mono; lia). lia.
Qed.

(** ** Along a chain *)

Section Chain.
Context (m : BlockMap) (Hlinked : linked m).

(** The median time past of a block, as a number. *)
Definition mtp (p : ptr) : Z := default 0 (GetMedianTimePast m p).

(** Every block is later than the median time past of its parent. *)
Definition times_ok : Prop :=
  ∀ p b q, m !! p = Some b → pprev b = Some q → mtp q < bi_nTime b.

Lemma past_times_S n p b :
  m !! p = Some b → past_times m (S n) (Some p) = rest ← past_times m n (pprev b); Some (bi_nTime b :: rest).
Proof. intros Hp. cbn [past_times]. by rewrite Hp. Qed.

Lemma past_times_total n p : (∀ q, p = Some q → is_Some (m !! q)) → ∃ l, past_times m n p = Some l.
Proof.
  revert p. induction n as [|n IH]; intros [q|] Hp; cbn [past_times]; eauto.
  destruct (Hp q eq_refl) as [b Hb]. rewrite Hb. cbn [mbind option_bind].
  destruct (IH (pprev b)) as [l ->]; [|cbn; eauto]. intros q' Hq'. pose proof (Hlinked q b Hb) as H.
  rewrite Hq' in H. destruct H as (d & Hd & _). eauto.
Qed.

Lemma past_times_take n k p l : past_times m n p = Some l → (k ≤ n)%nat → past_times m k p = Some (take k l).
Proof.
  revert n p l. induction k as [|k IH]; intros n p l Hl Hk; [by destruct p|].
  destruct n as [|n]; [lia|]. destruct p as [q|]; cbn [past_times] in *; [|by injection Hl as <-].
  destruct (m !! q) as [b|]; [|done]. cbn [mbind option_bind] in *.
  destruct (past_times m n (pprev b)) as [l'|] eqn:E; [|done]. injection Hl as <-.
  rewrite (IH n _ l') by (done || lia). done.
Qed.

Lemma past_times_length n p l : past_times m n p = Some l → (length l ≤ n)%nat.
Proof.
  revert p l. induction n as [|n IH]; intros [q|] l Hl; cbn [past_times] in Hl; try (injection Hl as <-; cbn; lia).
  destruct (m !! q) as [b|]; [|done]. cbn [mbind option_bind] in Hl.
  destruct (past_times m n (pprev b)) as [l'|] eqn:E; [|done]. injection Hl as <-. cbn. specialize (IH _ _ E). lia.
Qed.

Lemma GetMedianTimePast_median p l :
  past_times m nMedianTimeSpan (Some p) = Some l → GetMedianTimePast m p = median l.
Proof. intros H. unfold GetMedianTimePast. rewrite H. done. Qed.

Lemma GetMedianTimePast_total p b : m !! p = Some b → GetMedianTimePast m p = Some (mtp p).
Proof.
  intros Hp. destruct (past_times_total nMedianTimeSpan (Some p)) as [l Hl]; [intros ? [= <-]; by eexists|].
  unfold mtp. rewrite (GetMedianTimePast_median p l Hl). destruct (median_exists l) as [x ->]; [|done].
  change nMedianTimeSpan with (S 10) in Hl. rewrite (past_times_S 10 p b Hp) in Hl.
  destruct (past_times m 10 (pprev b)); [|done]. by injection Hl as <-.
Qed.

Lemma mtp_parent_le (Htimes : times_ok) p b q : m !! p = Some b → pprev b = Some q → mtp q ≤ mtp p.
Proof.
  intros Hp Hq. pose proof (Htimes p b q Hp Hq) as Ht. pose proof (Hlinked p b Hp) as H. rewrite Hq in H.
  destruct H as (d & Hd & _).
  destruct (past_times_total nMedianTimeSpan (Some q)) as [l Hl]; [intros ? [= <-]; by eexists|].
  assert (past_times m nMedianTimeSpan (Some p) = Some (bi_nTime b :: take 10 l)) as Hl'.
  { change nMedianTimeSpan with (S 10). rewrite (past_times_S 10 p b Hp), Hq.
    by rewrite (past_times_take _ 10 _ _ Hl) by (unfold nMedianTimeSpan; lia). }
  pose proof (GetMedianTimePast_total q d Hd) as Eq. rewrite (GetMedianTimePast_median q l Hl) in Eq.
  destruct (median_advance l (bi_nTime b) 10 _ Eq Ht (past_times_length _ _ _ Hl)) as (y & Hy & Hle).
  pose proof (GetMedianTimePast_total p b Hp) as Ep. rewrite (GetMedianTimePast_median p _ Hl'), Hy in Ep.
  injection Ep as Ey. lia.
Qed.

Lemma mtp_ancestor_le (Htimes : times_ok) p q h : ancestor m p h = Some q → mtp q ≤ mtp p.
Proof.
  intros Ha. destruct (ancestor_inv m Hlinked p h q Ha) as (b & c & Hp & Hq & Hh & Hle). revert q c h Ha Hq Hh Hle.
  revert p b Hp. apply (parent_ind m Hlinked (λ p b, ∀ q c h, ancestor m p h = Some q → m !! q = Some c →
    nHeight c = h → 0 ≤ h ≤ nHeight b → mtp q ≤ mtp p)).
  intros p b Hp IH q c h Ha Hq Hh Hle. destruct (decide (h = nHeight b)) as [->|].
  - rewrite (ancestor_self m Hlinked p b Hp) in Ha. injection Ha as ->. done.
  - destruct (linked_prev m Hlinked p b Hp ltac:(lia)) as (r & d & Hr & Hd & Hhd).
    rewrite (ancestor_prev m Hlinked p b r h Hp Hr) in Ha by lia.
    pose proof (IH r d Hr Hd Hhd q c h Ha Hq Hh ltac:(lia)). pose proof (mtp_parent_le Htimes p b r Hp Hr). lia.
Qed.
End Chain.
