(* ===== verification/VersionBits.v ===== *)
(** * Version bits deployments (BIP 9): versionbits.cpp, versionbits_impl.h, versionbits.h

    The state of a soft-fork deployment for a block is a function of the chain below it,
    one transition per period of blocks; the code computes it backwards from the tip,
    with a cache per deployment that outlives chain reorganizations and a short cut for
    chains below the start time.  A pointer to a block index entry is its key in the block
    index ([None] is the null pointer), and [None] as a result stands for following a null
    pointer, a failed assertion or a division by zero. *)

From S2P Require Import Prelude ArithUint256 Serialize Hash Primitives BlockIndex MedianTime Pow.
From Stdlib Require Import ZArith Lia.
From stdpp Require Import base option list numbers gmap sorting strings.

Open Scope Z_scope.
Open Scope kernel_scope.

Inductive ThresholdState := DEFINED | STARTED | LOCKED_IN | ACTIVE | FAILED.

#[export] Instance ThresholdState_eq_dec : EqDecision ThresholdState.
Proof. solve_decision. Defined.

Definition StateName (state : ThresholdState) : string :=
  match state with
  | DEFINED => "defined"
  | STARTED => "started"
  | LOCKED_IN => "locked_in"
  | ACTIVE => "active"
  | FAILED => "failed"
  end.

Definition ALWAYS_ACTIVE : Z := -1.
Definition NEVER_ACTIVE : Z := -2.

Abbreviation ThresholdConditionCache := (gmap (option ptr) ThresholdState).

(** [AbstractThresholdConditionChecker]: [Condition] may change a state [X] of the checker's
    own (the caches of other deployments). *)
Record Checker (X : Type) := {
  Condition : ptr → X → option (bool * X);
  BeginTime : Z;
  EndTime : Z;
  MinActivationHeight : Z;
  Period : Z;
  Threshold : Z
}.
Arguments Condition {X}. Arguments BeginTime {X}. Arguments EndTime {X}.
Arguments MinActivationHeight {X}. Arguments Period {X}. Arguments Threshold {X}.

(** [a % b] *)
Definition rem (a b : Z) : option Z := if b =? 0 then None else Some (Z.rem a b).

Section Checker.
Context (m : BlockMap) {X : Type} (c : Checker X).

(** The last block of the period before the one of the block after [p]. *)
Definition period_parent (p : ptr) : option (option ptr) :=
  b ← m !! p;
  r ← rem (nHeight b + 1) (Period c);
  GetAncestor m p (nHeight b - r).

(** Walking back to a block whose state is known; [vToCompute] is a stack. *)
Fixpoint walk_back (fuel : nat) (pindexPrev : option ptr) (vToCompute : list ptr) (cache : ThresholdConditionCache)
    : option (option ptr * list ptr * ThresholdConditionCache) :=
  match cache !! pindexPrev with
  | Some _ => Some (pindexPrev, vToCompute, cache)
  | None =>
      match pindexPrev with
      | None => Some (None, vToCompute, <[None := DEFINED]> cache)
      | Some p =>
          mtp ← GetMedianTimePast m p;
          if mtp <? BeginTime c then Some (Some p, vToCompute, <[Some p := DEFINED]> cache)
          else
            match fuel with
            | O => None
            | S fuel =>
                b ← m !! p;
                prev ← GetAncestor m p (nHeight b - Period c);
                walk_back fuel prev (p :: vToCompute) cache
            end
      end
  end.

Fixpoint count_condition (n : nat) (pindexCount : option ptr) (count : Z) (x : X) : option (Z * X) :=
  match n with
  | O => Some (count, x)
  | S n =>
      p ← pindexCount;
      '(cond, x) ← Condition c p x;
      b ← m !! p;
      count_condition n (pprev b) (if (cond : bool) then count + 1 else count) x
  end.

(** The [switch] on the state. *)
Definition state_next (state : ThresholdState) (pindexPrev : ptr) (x : X) : option (ThresholdState * X) :=
  match state with
  | DEFINED =>
      mtp ← GetMedianTimePast m pindexPrev;
      Some (if BeginTime c <=? mtp then STARTED else DEFINED, x)
  | STARTED =>
      '(count, x) ← count_condition (Z.to_nat (Period c)) (Some pindexPrev) 0 x;
      if Threshold c <=? count then Some (LOCKED_IN, x)
      else
        mtp ← GetMedianTimePast m pindexPrev;
        Some (if EndTime c <=? mtp then FAILED else STARTED, x)
  | LOCKED_IN =>
      b ← m !! pindexPrev;
      Some (if MinActivationHeight c <=? nHeight b + 1 then ACTIVE else LOCKED_IN, x)
  | FAILED => Some (FAILED, x)
  | ACTIVE => Some (ACTIVE, x)
  end.

Fixpoint walk_forward (vToCompute : list ptr) (state : ThresholdState) (cache : ThresholdConditionCache) (x : X)
    : option (ThresholdState * ThresholdConditionCache * X) :=
  match vToCompute with
  | [] => Some (state, cache, x)
  | pindexPrev :: vToCompute =>
      '(stateNext, x) ← state_next state pindexPrev x;
      walk_forward vToCompute stateNext (<[Some pindexPrev := stateNext]> cache) x
  end.

(** Each step back goes down by a period, so the height of the first block is enough fuel. *)
Definition GetStateFor (pindexPrev : option ptr) (cache : ThresholdConditionCache) (x : X)
    : option (ThresholdState * ThresholdConditionCache * X) :=
  if BeginTime c =? ALWAYS_ACTIVE then Some (ACTIVE, cache, x)
  else if BeginTime c =? NEVER_ACTIVE then Some (FAILED, cache, x)
  else
    pindexPrev ← match pindexPrev with Some p => period_parent p | None => Some None end;
    let fuel := match pindexPrev ≫= λ p, m !! p with Some b => Z.to_nat (nHeight b + 1) | None => O end in
    '(pindexPrev, vToCompute, cache) ← walk_back fuel pindexPrev [] cache;
    state ← cache !! pindexPrev;
    walk_forward vToCompute state cache x.

Record BIP9Stats := { period : Z; threshold : Z; elapsed : Z; count : Z; possible : bool }.

(** Counting a block and marking it at its place in the period; [at] throws out of range. *)
Definition mark_signal (cond : bool) (blocks_in_period : Z) (count : Z) (signalling : option (list bool))
    : option (Z * option (list bool)) :=
  if cond then
    match signalling with
    | None => Some (count + 1, None)
    | Some marks =>
        if (0 <=? blocks_in_period) && (blocks_in_period <? Z.of_nat (length marks))
        then Some (count + 1, Some (<[Z.to_nat blocks_in_period := true]> marks))
        else None
    end
  else Some (count, signalling).

Fixpoint statistics_loop (n : nat) (blocks_in_period : Z) (elapsed count : Z) (currentIndex : option ptr)
    (signalling : option (list bool)) (x : X) : option (Z * Z * option (list bool) * X) :=
  match n with
  | O => None
  | S n =>
      let elapsed := elapsed + 1 in
      let blocks_in_period := blocks_in_period - 1 in
      p ← currentIndex;
      '(cond, x) ← Condition c p x;
      '(count, signalling) ← mark_signal cond blocks_in_period count signalling;
      b ← m !! p;
      if 0 <? blocks_in_period then statistics_loop n blocks_in_period elapsed count (pprev b) signalling x
      else Some (elapsed, count, signalling, x)
  end.

(** [signalling_blocks] is filled when [want_signalling]. *)
Definition GetStateStatisticsFor (pindex : option ptr) (want_signalling : bool) (x : X)
    : option (BIP9Stats * option (list bool) * X) :=
  match pindex with
  | None => Some ({| period := u32 (Period c); threshold := u32 (Threshold c); elapsed := 0; count := 0; possible := false |}, None, x)
  | Some p =>
      b ← m !! p;
      r ← rem (nHeight b) (u32 (Period c));
      let blocks_in_period := 1 + r in
      let signalling := if want_signalling then Some (replicate (Z.to_nat blocks_in_period) false) else None in
      '(elapsed, count, signalling, x) ←
        statistics_loop (Z.to_nat blocks_in_period) blocks_in_period 0 0 (Some p) signalling x;
      Some ({| period := u32 (Period c); threshold := u32 (Threshold c); elapsed := elapsed; count := count;
               possible := u32 (elapsed - count) <=? u32 (Period c - Threshold c) |}, signalling, x)
  end.

Fixpoint since_loop (fuel : nat) (initialState : ThresholdState) (pindexPrev : ptr) (previousPeriodParent : option ptr)
    (cache : ThresholdConditionCache) (x : X) : option (ptr * ThresholdConditionCache * X) :=
  match previousPeriodParent with
  | None => Some (pindexPrev, cache, x)
  | Some q =>
      '(state, cache, x) ← GetStateFor (Some q) cache x;
      if decide (state = initialState) then
        match fuel with
        | O => None
        | S fuel =>
            b ← m !! q;
            prev ← GetAncestor m q (nHeight b - Period c);
            since_loop fuel initialState q prev cache x
        end
      else Some (pindexPrev, cache, x)
  end.

Definition GetStateSinceHeightFor (pindexPrev : option ptr) (cache : ThresholdConditionCache) (x : X)
    : option (Z * ThresholdConditionCache * X) :=
  if (BeginTime c =? ALWAYS_ACTIVE) || (BeginTime c =? NEVER_ACTIVE) then Some (0, cache, x)
  else
    '(initialState, cache, x) ← GetStateFor pindexPrev cache x;
    if decide (initialState = DEFINED) then Some (0, cache, x)
    else
      p ← pindexPrev;
      p ← mjoin (period_parent p);
      b ← m !! p;
      prev ← GetAncestor m p (nHeight b - Period c);
      '(p, cache, x) ← since_loop (Z.to_nat (nHeight b + 1)) initialState p prev cache x;
      b ← m !! p;
      Some (nHeight b + 1, cache, x).
End Checker.

(** ** The deployments *)

Definition VERSIONBITS_TOP_BITS : Z := i32 0x20000000.
Definition VERSIONBITS_TOP_MASK : Z := i32 0xE0000000.
Definition VERSIONBITS_NUM_BITS : nat := 29.

Record BIP9Deployment := {
  bit : Z;
  nStartTime : Z;
  nTimeout : Z;
  min_activation_height : Z;
  dep_period : Z;
  dep_threshold : Z
}.

(** The fields of [Consensus::Params] and [CChainParams] that deployments use. *)
Record DeploymentParams := {
  pow_params : Pow.Params;
  vDeployments : list BIP9Deployment;
  MinBIP9WarningHeight : Z;
  IsTestChain : bool
}.

Definition MAX_VERSION_BITS_DEPLOYMENTS : nat := 2.

Definition Mask (dep : BIP9Deployment) : Z := u32 (1 .<< bit dep).

Definition version_signals (dep : BIP9Deployment) (nVersion : Z) : bool :=
  (nVersion .& VERSIONBITS_TOP_MASK =? VERSIONBITS_TOP_BITS) && negb (u32 nVersion .& Mask dep =? 0).

Definition VersionBitsConditionChecker (m : BlockMap) (dep : BIP9Deployment) : Checker unit := {|
  Condition p x := b ← m !! p; Some (version_signals dep (bi_nVersion b), x);
  BeginTime := nStartTime dep;
  EndTime := nTimeout dep;
  MinActivationHeight := min_activation_height dep;
  Period := i32 (dep_period dep);
  Threshold := i32 (dep_threshold dep)
|}.

(** A call on the cache of deployment [id]. *)
Definition deployment_state (m : BlockMap) (dep : BIP9Deployment) (pindexPrev : option ptr) (cache : ThresholdConditionCache)
    : option (ThresholdState * ThresholdConditionCache) :=
  '(state, cache, _) ← GetStateFor m (VersionBitsConditionChecker m dep) pindexPrev cache tt;
  Some (state, cache).

(** The deployments with their caches, in order. *)
Fixpoint ComputeBlockVersion_loop (m : BlockMap) (pindexPrev : option ptr) (deps : list BIP9Deployment)
    (caches : list ThresholdConditionCache) (nVersion : Z) : option (Z * list ThresholdConditionCache) :=
  match deps, caches with
  | dep :: deps, cache :: caches =>
      '(state, cache) ← deployment_state m dep pindexPrev cache;
      let nVersion := if decide (state = LOCKED_IN ∨ state = STARTED) then i32 (u32 nVersion .| Mask dep) else nVersion in
      '(nVersion, caches) ← ComputeBlockVersion_loop m pindexPrev deps caches nVersion;
      Some (nVersion, cache :: caches)
  | _, _ => Some (nVersion, caches)
  end.

Definition ComputeBlockVersion (m : BlockMap) (params : DeploymentParams) (pindexPrev : option ptr)
    (caches : list ThresholdConditionCache) : option (Z * list ThresholdConditionCache) :=
  ComputeBlockVersion_loop m pindexPrev (vDeployments params) caches VERSIONBITS_TOP_BITS.

Definition warning_period (params : DeploymentParams) : Z :=
  if IsTestChain params then i32 (DifficultyAdjustmentInterval (pow_params params)) else 2016.
Definition warning_threshold (params : DeploymentParams) : Z :=
  if IsTestChain params then Z.quot (warning_period params * 3) 4 else 1815.

(** The condition short-circuits: the caches are used only for a block that signals the bit. *)
Definition WarningBitsConditionChecker (m : BlockMap) (params : DeploymentParams) (m_bit : Z)
    : Checker (list ThresholdConditionCache) := {|
  Condition p caches :=
    b ← m !! p;
    if (MinBIP9WarningHeight params <=? nHeight b)
       && (bi_nVersion b .& VERSIONBITS_TOP_MASK =? VERSIONBITS_TOP_BITS)
       && negb ((bi_nVersion b .>> m_bit) .& 1 =? 0)
    then
      '(version, caches) ← ComputeBlockVersion m params (pprev b) caches;
      Some ((version .>> m_bit) .& 1 =? 0, caches)
    else Some (false, caches);
  BeginTime := 0;
  EndTime := 2 ^ 63 - 1;
  MinActivationHeight := 0;
  Period := warning_period params;
  Threshold := warning_threshold params
|}.

(** ** [VersionBitsCache] *)

Record VersionBitsCache := {
  m_warning_caches : list ThresholdConditionCache;
  m_caches : list ThresholdConditionCache
}.

Definition VersionBitsCache_make : VersionBitsCache :=
  {| m_warning_caches := replicate VERSIONBITS_NUM_BITS ∅; m_caches := replicate MAX_VERSION_BITS_DEPLOYMENTS ∅ |}.

Definition Clear (v : VersionBitsCache) : VersionBitsCache :=
  {| m_warning_caches := m_warning_caches v; m_caches := replicate MAX_VERSION_BITS_DEPLOYMENTS ∅ |}.

Section Cache.
Context (m : BlockMap) (params : DeploymentParams).

Definition set_cache (v : VersionBitsCache) (id : nat) (cache : ThresholdConditionCache) : VersionBitsCache :=
  {| m_warning_caches := m_warning_caches v; m_caches := <[id := cache]> (m_caches v) |}.

Definition IsActiveAfter (pindexPrev : option ptr) (pos : nat) (v : VersionBitsCache) : option (bool * VersionBitsCache) :=
  dep ← vDeployments params !! pos;
  cache ← m_caches v !! pos;
  '(state, cache) ← deployment_state m dep pindexPrev cache;
  Some (bool_decide (state = ACTIVE), set_cache v pos cache).

Definition VersionBitsCache_ComputeBlockVersion (pindexPrev : option ptr) (v : VersionBitsCache) : option (Z * VersionBitsCache) :=
  '(version, caches) ← ComputeBlockVersion m params pindexPrev (m_caches v);
  Some (version, {| m_warning_caches := m_warning_caches v; m_caches := caches |}).

Fixpoint CheckUnknownActivations_loop (pindex : option ptr) (bit : Z) (warning caches : list ThresholdConditionCache)
    : option (list (Z * bool) * list ThresholdConditionCache * list ThresholdConditionCache) :=
  match warning with
  | [] => Some ([], [], caches)
  | cache :: warning =>
      '(state, cache, caches) ← GetStateFor m (WarningBitsConditionChecker m params bit) pindex cache caches;
      '(result, warning, caches) ← CheckUnknownActivations_loop pindex (bit + 1) warning caches;
      Some (if decide (state = ACTIVE ∨ state = LOCKED_IN) then (bit, bool_decide (state = ACTIVE)) :: result else result,
            cache :: warning, caches)
  end.

Definition CheckUnknownActivations (pindex : option ptr) (v : VersionBitsCache) : option (list (Z * bool) * VersionBitsCache) :=
  '(result, warning, caches) ← CheckUnknownActivations_loop pindex 0 (m_warning_caches v) (m_caches v);
  Some (result, {| m_warning_caches := warning; m_caches := caches |}).

Record BIP9Info := {
  since : Z;
  current_state : string;
  next_state : string;
  stats : option BIP9Stats;
  signalling_blocks : list bool;
  active_since : option Z
}.

Definition Info (block_index : ptr) (id : nat) (v : VersionBitsCache) : option (BIP9Info * VersionBitsCache) :=
  dep ← vDeployments params !! id;
  cache ← m_caches v !! id;
  let checker := VersionBitsConditionChecker m dep in
  b ← m !! block_index;
  '(current, cache, _) ← GetStateFor m checker (pprev b) cache tt;
  '(next, cache, _) ← GetStateFor m checker (Some block_index) cache tt;
  '(since, cache, _) ← GetStateSinceHeightFor m checker (pprev b) cache tt;
  '(stats, signalling) ←
    (if decide (current = STARTED ∨ current = LOCKED_IN) then
       '(stats, signalling, _) ← GetStateStatisticsFor m checker (Some block_index) true tt;
       Some (Some (if decide (current = LOCKED_IN)
                   then {| period := period stats; threshold := 0; elapsed := elapsed stats; count := count stats; possible := false |}
                   else stats), default [] signalling)
     else Some (None, []));
  Some ({| since := since; current_state := StateName current; next_state := StateName next; stats := stats;
           signalling_blocks := signalling;
           active_since :=
             if decide (current = ACTIVE) then Some since
             else if decide (next = ACTIVE) then Some (nHeight b + 1) else None |}, set_cache v id cache).

Record GBTInfo := { gbt_bit : Z; gbt_mask : Z; gbt_optional_rule : bool }.
Record VBDeploymentInfo := { name : string; optional_rule : bool }.
Definition VersionBitsDeploymentInfo : list VBDeploymentInfo :=
  [{| name := "testdummy"; optional_rule := true |}; {| name := "taproot"; optional_rule := true |}].

Record BIP9GBTStatus := { signalling : gmap string GBTInfo; locked_in : gmap string GBTInfo; active : gmap string GBTInfo }.

(** [std::map::try_emplace] *)
Definition try_emplace (k : string) (i : GBTInfo) (s : gmap string GBTInfo) : gmap string GBTInfo :=
  match s !! k with Some _ => s | None => <[k := i]> s end.

Definition GBT_add (state : ThresholdState) (name : string) (i : GBTInfo) (r : BIP9GBTStatus) : BIP9GBTStatus :=
  match state with
  | DEFINED | FAILED => r
  | STARTED => {| signalling := try_emplace name i (signalling r); locked_in := locked_in r; active := active r |}
  | LOCKED_IN => {| signalling := signalling r; locked_in := try_emplace name i (locked_in r); active := active r |}
  | ACTIVE => {| signalling := signalling r; locked_in := locked_in r; active := try_emplace name i (active r) |}
  end.

Fixpoint GBTStatus_loop (block_index : ptr) (deps : list BIP9Deployment) (infos : list VBDeploymentInfo)
    (caches : list ThresholdConditionCache) (r : BIP9GBTStatus) : option (BIP9GBTStatus * list ThresholdConditionCache) :=
  match deps, infos, caches with
  | dep :: deps, info :: infos, cache :: caches =>
      '(state, cache) ← deployment_state m dep (Some block_index) cache;
      let gbtinfo := {| gbt_bit := bit dep; gbt_mask := Mask dep; gbt_optional_rule := optional_rule info |} in
      '(r, caches) ← GBTStatus_loop block_index deps infos caches (GBT_add state (name info) gbtinfo r);
      Some (r, cache :: caches)
  | _, _, _ => Some (r, caches)
  end.

Definition GBTStatus (block_index : ptr) (v : VersionBitsCache) : option (BIP9GBTStatus * VersionBitsCache) :=
  '(r, caches) ← GBTStatus_loop block_index (vDeployments params) VersionBitsDeploymentInfo (m_caches v)
    {| signalling := ∅; locked_in := ∅; active := ∅ |};
  Some (r, {| m_warning_caches := m_warning_caches v; m_caches := caches |}).
End Cache.

(** ** Reference: one transition per period, from the genesis block *)

Section Reference.
Context (m : BlockMap) {X : Type} (c : Checker X) (cond : ptr → bool).

(** Among the last [n] blocks up to height [h] on the chain of [tip], those that signal. *)
Definition signals (tip : ptr) (h n : Z) : Z :=
  Z.of_nat (length (filter (λ i, (cond <$> ancestor m tip i) = Some true) (seqZ (h - n + 1) n))).

(** The transition at the last block [p] of a period. *)
Definition transition (state : ThresholdState) (p : ptr) (height : Z) : ThresholdState :=
  match state with
  | DEFINED => if BeginTime c <=? mtp m p then STARTED else DEFINED
  | STARTED =>
      if Threshold c <=? signals p height (Period c) then LOCKED_IN
      else if EndTime c <=? mtp m p then FAILED else STARTED
  | LOCKED_IN => if MinActivationHeight c <=? height + 1 then ACTIVE else LOCKED_IN
  | FAILED => FAILED
  | ACTIVE => ACTIVE
  end.

(** The state in period [k] (heights [k * Period] and up) of the chain of [tip]. *)
Fixpoint bip9 (tip : ptr) (k : nat) : ThresholdState :=
  match k with
  | O => DEFINED
  | S k' =>
      let last := Z.of_nat k * Period c - 1 in
      match ancestor m tip last with
      | Some p => transition (bip9 tip k') p last
      | None => bip9 tip k'
      end
  end.

Definition period_after (b : CBlockIndex) : nat := Z.to_nat ((nHeight b + 1) / Period c).

(** The state for the block after [p]. *)
Definition chain_state (p : option ptr) : ThresholdState :=
  match p ≫= λ q, pair q <$> m !! q with
  | Some (q, b) => bip9 q (period_after b)
  | None => DEFINED
  end.

Definition reference_state (p : option ptr) : ThresholdState :=
  if BeginTime c =? ALWAYS_ACTIVE then ACTIVE
  else if BeginTime c =? NEVER_ACTIVE then FAILED
  else chain_state p.

(** The keys of a cache: the parents of first blocks of periods. *)
Definition boundary (q : option ptr) : Prop :=
  match q with
  | None => True
  | Some p => ∃ b, m !! p = Some b ∧ (nHeight b + 1) mod Period c = 0
  end.

Definition cache_ok (cache : ThresholdConditionCache) : Prop :=
  ∀ q s, cache !! q = Some s → boundary q ∧ s = chain_state q.
End Reference.

Lemma filter_ext_elem {A} (P Q : A → Prop) `{∀ x, Decision (P x)} `{∀ x, Decision (Q x)} (l : list A) :
  (∀ x, x ∈ l → P x ↔ Q x) → filter P l = filter Q l.
Proof.
  induction l as [|x l IH]; intros Hext; [done|]. rewrite !filter_cons, IH by (intros; apply Hext; by right).
  destruct (decide (P x)), (decide (Q x)); try done; exfalso; specialize (Hext x); set_solver.
Qed.

Section Theory.
Context (m : BlockMap) (Hlinked : linked m) (Hskips : skips_ok m) (Htimes : times_ok m).
Context {X : Type} (c : Checker X) (cond : ptr → bool) (I : X → Prop) (HP : 0 < Period c).
Context (Hcond : ∀ p b x, m !! p = Some b → I x → ∃ x', Condition c p x = Some (cond p, x') ∧ I x').

Lemma seqZ_snoc a n : 0 ≤ n → seqZ a (n + 1) = seqZ a n ++ [a + n].
Proof. intros Hn. rewrite seqZ_app by lia. f_equal. Qed.

Lemma signals_ext tip tip' h n :
  (∀ i, i ≤ h → ancestor m tip i = ancestor m tip' i) → signals m cond tip h n = signals m cond tip' h n.
Proof.
  intros H. unfold signals. do 2 f_equal. apply filter_ext_elem.
  intros i Hi%elem_of_seqZ. by rewrite H by lia.
Qed.

Lemma bip9_ext tip tip' k :
  (∀ i, i < Z.of_nat k * Period c → ancestor m tip i = ancestor m tip' i) →
  bip9 m c cond tip k = bip9 m c cond tip' k.
Proof.
  induction k as [|k IH]; intros H; [done|]. cbn [bip9]. rewrite (H (_ - 1)) by lia.
  rewrite IH by (intros; apply H; nia). done.
Qed.

Lemma bip9_ancestor tip q h k :
  ancestor m tip h = Some q → Z.of_nat k * Period c ≤ h + 1 → bip9 m c cond tip k = bip9 m c cond q k.
Proof. intros Ha Hk. apply bip9_ext. intros i Hi. apply (ancestor_trans m Hlinked tip q h i Ha). lia. Qed.

Lemma chain_state_Some p b : m !! p = Some b → chain_state m c cond (Some p) = bip9 m c cond p (period_after c b).
Proof. intros Hp. unfold chain_state. cbn [mbind option_bind]. by rewrite Hp. Qed.

Lemma period_after_bounds b : 0 ≤ nHeight b →
  Z.of_nat (period_after c b) * Period c ≤ nHeight b + 1 < (Z.of_nat (period_after c b) + 1) * Period c.
Proof.
  intros Hh. unfold period_after. rewrite Z2Nat.id by (apply Z.div_pos; lia).
  pose proof (Z.div_mod (nHeight b + 1) (Period c) ltac:(lia)). pose proof (Z.mod_pos_bound (nHeight b + 1) (Period c) HP). nia.
Qed.

Lemma period_after_eq b k : 0 ≤ nHeight b → nHeight b + 1 = Z.of_nat k * Period c → period_after c b = k.
Proof. intros Hh E. pose proof (period_after_bounds b Hh). nia. Qed.

(** All blocks of a period share the state of its first block. *)
Lemma period_parent_spec p b :
  m !! p = Some b →
  ∃ q, period_parent m c p = Some q ∧ boundary m c q ∧ chain_state m c cond q = chain_state m c cond (Some p) ∧
    q = ancestor m p (Z.of_nat (period_after c b) * Period c - 1) ∧
    match q with
    | Some p' => ∃ b', m !! p' = Some b' ∧ nHeight b' + 1 = Z.of_nat (period_after c b) * Period c
    | None => period_after c b = O
    end.
Proof.
  intros Hp. pose proof (linked_height m Hlinked p b Hp) as Hh. unfold period_parent, rem.
  rewrite Hp. cbn [mbind option_bind]. destruct (Z.eqb_spec (Period c) 0); [lia|]. cbn [mbind option_bind].
  rewrite (GetAncestor_spec m Hlinked Hskips p b) by done. eexists. split; [done|].
  rewrite Z.rem_mod_nonneg by lia. rewrite (chain_state_Some p b Hp).
  pose proof (period_after_bounds b Hh) as Hk. set (k := period_after c b) in *.
  assert (nHeight b - (nHeight b + 1) mod Period c = Z.of_nat k * Period c - 1) as ->.
  { unfold k, period_after. rewrite Z2Nat.id by (apply Z.div_pos; lia).
    pose proof (Z.div_mod (nHeight b + 1) (Period c) ltac:(lia)). nia. }
  destruct (decide (k = 0%nat)) as [->|Hk0]; [by rewrite ancestor_neg by lia|].
  destruct (ancestor_Some m Hlinked p b (Z.of_nat k * Period c - 1) Hp) as (q & d & Ha & Hq & Hd); [nia|].
  rewrite Ha. cbn [boundary]. split_and!.
  - exists d. split; [done|]. rewrite Hd. replace (_ - 1 + 1) with (Z.of_nat k * Period c) by lia. apply Z.mod_mul. lia.
  - rewrite (chain_state_Some q d Hq), (period_after_eq d k) by nia. symmetry.
    apply (bip9_ancestor p q _ k Ha). lia.
  - done.
  - exists d. split; [done|]. lia.
Qed.

(** The boundary before a boundary. *)
Lemma previous_boundary p b :
  m !! p = Some b → (nHeight b + 1) mod Period c = 0 →
  ∃ q, GetAncestor m p (nHeight b - Period c) = Some q ∧ boundary m c q ∧
    chain_state m c cond (Some p) = transition m c cond (chain_state m c cond q) p (nHeight b) ∧
    Period c ≤ nHeight b + 1 ∧
    match q with
    | Some p' => ∃ b', m !! p' = Some b' ∧ nHeight b' = nHeight b - Period c
    | None => nHeight b + 1 = Period c
    end.
Proof.
  intros Hp Hmod. pose proof (linked_height m Hlinked p b Hp) as Hh.
  rewrite (GetAncestor_spec m Hlinked Hskips p b) by done. eexists. split; [done|].
  apply Z.mod_divide in Hmod as [j Hj]; [|lia].
  assert (1 ≤ j) as Hj1 by nia. destruct (Z_of_nat_complete (j - 1) ltac:(lia)) as [k Hk].
  rewrite (chain_state_Some p b Hp), (period_after_eq b (S k)) by nia.
  cbn [bip9]. replace (Z.of_nat (S k) * Period c - 1) with (nHeight b) by nia.
  rewrite (ancestor_self m Hlinked p b Hp).
  destruct (decide (k = 0%nat)) as [->|Hk0].
  { rewrite ancestor_neg by nia. split_and!; try done; nia. }
  destruct (ancestor_Some m Hlinked p b (nHeight b - Period c) Hp) as (q & d & Ha & Hq & Hd); [nia|].
  rewrite Ha. cbn [boundary]. split_and!.
  - exists d. split; [done|]. rewrite Hd. replace (_ - _ + 1) with (Z.of_nat k * Period c) by nia. apply Z.mod_mul. lia.
  - rewrite (chain_state_Some q d Hq), (period_after_eq d k) by nia. f_equal. apply (bip9_ancestor p q _ k Ha). nia.
  - nia.
  - by exists d.
Qed.

(** ** The computation *)

Lemma count_condition_spec n p b k x :
  m !! p = Some b → Z.of_nat n ≤ nHeight b + 1 → I x →
  ∃ x', count_condition m c n (Some p) k x = Some (k + signals m cond p (nHeight b) (Z.of_nat n), x') ∧ I x'.
Proof.
  revert p b k x. induction n as [|n IH]; intros p b k x Hp Hn HI.
  { exists x. split; [|done]. unfold signals. cbn. by rewrite Z.add_0_r. }
  cbn [count_condition mbind option_bind]. destruct (Hcond p b x Hp HI) as (x1 & -> & HI1).
  cbn [mbind option_bind]. rewrite Hp. cbn [mbind option_bind].
  assert (Hself : signals m cond p (nHeight b) (Z.of_nat (S n)) =
    signals m cond p (nHeight b - 1) (Z.of_nat n) + Z.b2z (cond p)).
  { unfold signals. replace (Z.of_nat (S n)) with (Z.of_nat n + 1) by lia.
    replace (nHeight b - (Z.of_nat n + 1) + 1) with (nHeight b - 1 - Z.of_nat n + 1) by lia.
    rewrite seqZ_snoc by lia. rewrite filter_app, length_app, filter_cons, filter_nil.
    replace (_ + Z.of_nat n) with (nHeight b) by lia. rewrite (ancestor_self m Hlinked p b Hp). cbn [fmap option_fmap option_map].
    destruct (cond p); [rewrite decide_True by done|rewrite decide_False by done]; cbn [length Z.b2z]; lia. }
  destruct n as [|n].
  { exists x1. split; [|done]. cbn [count_condition]. rewrite Hself. unfold signals at 1. rewrite seqZ_nil by lia.
    cbn [filter list_filter length]. destruct (cond p); cbn [Z.b2z]; do 2 f_equal; lia. }
  destruct (linked_prev m Hlinked p b Hp ltac:(lia)) as (q & d & Hq & Hd & Hhd). rewrite Hq.
  destruct (IH q d (if cond p then k + 1 else k) x1 Hd ltac:(lia) HI1) as (x2 & -> & HI2).
  exists x2. split; [|done]. rewrite Hself, Hhd, (signals_ext p q).
  - destruct (cond p); cbn [Z.b2z]; do 2 f_equal; lia.
  - intros i Hi. apply (ancestor_prev m Hlinked p b q i Hp Hq). lia.
Qed.

Lemma state_next_spec state p b x :
  m !! p = Some b → Period c ≤ nHeight b + 1 → I x →
  ∃ x', state_next m c state p x = Some (transition m c cond state p (nHeight b), x') ∧ I x'.
Proof.
  intros Hp Hh HI. unfold state_next, transition. rewrite (GetMedianTimePast_total m Hlinked p b Hp), Hp.
  destruct state; cbn [mbind option_bind]; try by exists x.
  destruct (count_condition_spec (Z.to_nat (Period c)) p b 0 x Hp ltac:(lia) HI) as (x' & -> & HI').
  cbn [mbind option_bind]. rewrite Z.add_0_l, Z2Nat.id by lia. exists x'. by case_match.
Qed.

(** The short cut: below the start time every earlier state is DEFINED. *)
Lemma defined_before_start p b :
  m !! p = Some b → mtp m p < BeginTime c → chain_state m c cond (Some p) = DEFINED.
Proof.
  intros Hp Ht. rewrite (chain_state_Some p b Hp). generalize (period_after c b). intros k.
  induction k as [|k IH]; [done|]. cbn [bip9]. destruct (ancestor m p _) as [q|] eqn:Ha; [|done].
  rewrite IH. cbn [transition]. pose proof (mtp_ancestor_le m Hlinked Htimes p q _ Ha).
  by rewrite (proj2 (Z.leb_gt _ _)) by lia.
Qed.

(** [vToCompute] leads from a known boundary up to the one asked for. *)
Fixpoint leads (q : option ptr) (v : list ptr) (tip : option ptr) : Prop :=
  match v with
  | [] => q = tip
  | p :: v => (∃ b, m !! p = Some b ∧ Period c ≤ nHeight b + 1 ∧ boundary m c (Some p) ∧
      chain_state m c cond (Some p) = transition m c cond (chain_state m c cond q) p (nHeight b)) ∧ leads (Some p) v tip
  end.

Lemma cache_ok_insert cache q :
  cache_ok m c cond cache → boundary m c q → cache_ok m c cond (<[q := chain_state m c cond q]> cache).
Proof. intros Hc Hq q' s. rewrite lookup_insert_Some. intros [[<- <-]|[_ Hs]]; [done|by apply Hc]. Qed.

Lemma walk_back_spec fuel q v tip cache :
  cache_ok m c cond cache → boundary m c q → leads q v tip →
  (∀ p b, q = Some p → m !! p = Some b → nHeight b + 1 ≤ Z.of_nat fuel) →
  ∃ q' v' cache', walk_back m c fuel q v cache = Some (q', v', cache') ∧ cache_ok m c cond cache' ∧
    leads q' v' tip ∧ cache' !! q' = Some (chain_state m c cond q').
Proof.
  revert q v. induction fuel as [|fuel IH]; intros q v Hc Hq Hl Hfuel; cbn [walk_back];
    destruct (cache !! q) as [s|] eqn:E.
  1, 3: exists q, v, cache; split_and!; try done; destruct (Hc q s E) as [_ ->]; done.
  all: destruct q as [p|].
  2, 4: eexists _, _, _; split_and!; [done|by apply (cache_ok_insert cache None)|done|by rewrite lookup_insert_eq].
  all: destruct Hq as (b & Hp & Hmod); rewrite (GetMedianTimePast_total m Hlinked p b Hp); cbn [mbind option_bind].
  all: destruct (Z.ltb_spec (mtp m p) (BeginTime c)) as [Ht|Ht].
  1, 3: pose proof (defined_before_start p b Hp Ht) as Hd; eexists _, _, _;
    split_and!; [done|rewrite <-Hd; apply cache_ok_insert; [done|by exists b]|done|by rewrite lookup_insert_eq, Hd].
  { pose proof (linked_height m Hlinked p b Hp). specialize (Hfuel p b eq_refl Hp). lia. }
  rewrite Hp. cbn [mbind option_bind].
  destruct (previous_boundary p b Hp Hmod) as (q & -> & Hq & Htr & HPb & Hqb). cbn [mbind option_bind].
  apply IH; try done.
  - split; [|done]. exists b. split_and!; try done. by exists b.
  - intros p' b' -> Hp'. destruct Hqb as (b'' & Hb'' & Hh). specialize (Hfuel p b eq_refl Hp). simplify_eq. lia.
Qed.

Lemma walk_forward_spec v q tip cache x :
  cache_ok m c cond cache → leads q v tip → I x →
  ∃ cache' x', walk_forward m c v (chain_state m c cond q) cache x = Some (chain_state m c cond tip, cache', x') ∧
    cache_ok m c cond cache' ∧ I x'.
Proof.
  revert q cache x. induction v as [|p v IH]; intros q cache x Hc Hl HI; cbn [leads walk_forward] in *.
  { subst. by exists cache, x. }
  destruct Hl as [(b & Hp & HPb & Hb & Htr) Hl].
  destruct (state_next_spec (chain_state m c cond q) p b x Hp HPb HI) as (x' & -> & HI').
  cbn [mbind option_bind]. rewrite <-Htr. apply IH; [by apply cache_ok_insert|done|done].
Qed.

(** [GetStateFor] returns the reference state, whatever valid cache it starts from. *)
Lemma GetStateFor_spec p cache x :
  (∀ q, p = Some q → is_Some (m !! q)) → cache_ok m c cond cache → I x →
  ∃ cache' x', GetStateFor m c p cache x = Some (reference_state m c cond p, cache', x') ∧
    cache_ok m c cond cache' ∧ I x'.
Proof.
  intros Hp Hc HI. unfold GetStateFor, reference_state.
  destruct (_ =? ALWAYS_ACTIVE); [by exists cache, x|]. destruct (_ =? NEVER_ACTIVE); [by exists cache, x|].
  assert (∃ q, match p with Some p => period_parent m c p | None => Some None end = Some q ∧ boundary m c q ∧
    chain_state m c cond q = chain_state m c cond p) as (q & -> & Hq & Hst).
  { destruct p as [p|]; [|by exists None]. destruct (Hp p eq_refl) as [b Hb].
    destruct (period_parent_spec p b Hb) as (q & ? & ? & ? & _). by exists q. }
  cbn [mbind option_bind]. rewrite <-Hst.
  destruct (walk_back_spec (match q ≫= λ p, m !! p with Some b => Z.to_nat (nHeight b + 1) | None => O end) q [] q cache)
    as (q' & v & cache' & -> & Hc' & Hl & Hlk); try done.
  { intros p' b -> Hb. cbn [mbind option_bind]. rewrite Hb. lia. }
  cbn [mbind option_bind]. rewrite Hlk. cbn [mbind option_bind]. by apply walk_forward_spec.
Qed.

(** ** Progress *)

Definition rank (s : ThresholdState) : Z :=
  match s with DEFINED => 0 | STARTED => 1 | LOCKED_IN => 2 | ACTIVE => 3 | FAILED => 3 end.

Lemma transition_rank s p h :
  transition m c cond s p h = s ∨ rank s < rank (transition m c cond s p h).
Proof. destruct s; cbn [transition]; repeat case_match; (by left) || (right; cbn; lia). Qed.

(** No state is left and entered again. *)
Lemma bip9_rank tip j k :
  (j ≤ k)%nat → bip9 m c cond tip j = bip9 m c cond tip k ∨ rank (bip9 m c cond tip j) < rank (bip9 m c cond tip k).
Proof.
  induction 1 as [|k Hk IH]; [by left|].
  assert (bip9 m c cond tip k = bip9 m c cond tip (S k) ∨ rank (bip9 m c cond tip k) < rank (bip9 m c cond tip (S k))) as Hs.
  { cbn [bip9]. destruct (ancestor m tip _) as [p|]; [|by left].
    destruct (transition_rank (bip9 m c cond tip k) p (Z.of_nat (S k) * Period c - 1)); auto. }
  destruct IH as [-> | IH]; [done|]. destruct Hs as [<- | Hs]; [by right|]. right. lia.
Qed.

(** ** Since when *)

Lemma since_loop_spec fuel s p j r br cache x :
  s ≠ DEFINED → BeginTime c ≠ ALWAYS_ACTIVE → BeginTime c ≠ NEVER_ACTIVE →
  m !! r = Some br → nHeight br + 1 = Z.of_nat j * Period c → ancestor m p (nHeight br) = Some r →
  (1 ≤ j ≤ fuel)%nat → bip9 m c cond p j = s → cache_ok m c cond cache → I x →
  ∃ r' b' j' cache' x', since_loop m c fuel s r (ancestor m r (nHeight br - Period c)) cache x = Some (r', cache', x') ∧
    m !! r' = Some b' ∧ nHeight b' + 1 = Z.of_nat j' * Period c ∧ (1 ≤ j' ≤ j)%nat ∧
    bip9 m c cond p j' = s ∧ bip9 m c cond p (pred j') ≠ s ∧ cache_ok m c cond cache' ∧ I x'.
Proof.
  intros Hs Ha1 Ha2. revert j r br cache x. induction fuel as [|fuel IH]; intros j r br cache x Hr Hh Ha Hj Hbip Hc HI; [lia|].
  cbn [since_loop]. destruct j as [|j]; [lia|]. destruct (ancestor m r _) as [q|] eqn:Hq.
  2: { exists r, br, (S j), cache, x. split_and!; try done; try lia. cbn [pred].
    destruct j as [|j]; [by cbn|]. destruct (ancestor_Some m Hlinked r br (nHeight br - Period c) Hr) as (? & ? & ? & _); [nia|]. congruence. }
  destruct (ancestor_inv m Hlinked r _ q Hq) as (b1 & d & _ & Hd & Hhd & ? & ?).
  destruct (GetStateFor_spec (Some q) cache x) as (cache1 & x1 & -> & Hc1 & HI1); [|done|done|].
  { intros ? [= <-]. by exists d. }
  cbn [mbind option_bind].
  assert (Hhd' : nHeight d + 1 = Z.of_nat j * Period c) by nia.
  assert (Hqs : reference_state m c cond (Some q) = bip9 m c cond p j).
  { unfold reference_state. rewrite (proj2 (Z.eqb_neq _ _) Ha1), (proj2 (Z.eqb_neq _ _) Ha2).
    rewrite (chain_state_Some q d Hd), (period_after_eq d j) by lia. symmetry. apply (bip9_ancestor p q (nHeight d)); [|lia].
    rewrite (ancestor_trans m Hlinked p r (nHeight br)) by (done || lia). by rewrite Hhd. }
  rewrite Hqs. destruct (decide _) as [He|Hne].
  - rewrite Hd. cbn [mbind option_bind]. rewrite (GetAncestor_spec m Hlinked Hskips q d) by done. cbn [mbind option_bind].
    destruct (IH j q d cache1 x1) as (r' & b' & j' & cache' & x' & E & ? & ? & ? & ? & ? & ? & ?); try done; try lia.
    + rewrite (ancestor_trans m Hlinked p r (nHeight br)) by (done || lia). by rewrite Hhd.
    + exists r', b', j', cache', x'. split_and!; try done; lia.
  - exists r, br, (S j), cache1, x1. split_and!; try done; lia.
Qed.

(** The first height of the state. *)
Definition since_ref (p : ptr) (b : CBlockIndex) (h : Z) : Prop :=
  let s := bip9 m c cond p (period_after c b) in
  if decide (s = DEFINED) then h = 0
  else ∃ k, h = Z.of_nat k * Period c ∧ (k ≤ period_after c b)%nat ∧ bip9 m c cond p k = s ∧
    ∀ i, (i < k)%nat → bip9 m c cond p i ≠ s.

Lemma GetStateSinceHeightFor_spec p b cache x :
  m !! p = Some b → BeginTime c ≠ ALWAYS_ACTIVE → BeginTime c ≠ NEVER_ACTIVE → cache_ok m c cond cache → I x →
  ∃ h cache' x', GetStateSinceHeightFor m c (Some p) cache x = Some (h, cache', x') ∧ since_ref p b h ∧
    cache_ok m c cond cache' ∧ I x'.
Proof.
  intros Hp Ha1 Ha2 Hc HI. unfold GetStateSinceHeightFor, since_ref.
  rewrite (proj2 (Z.eqb_neq _ _) Ha1), (proj2 (Z.eqb_neq _ _) Ha2). cbn [orb].
  destruct (GetStateFor_spec (Some p) cache x) as (cache1 & x1 & -> & Hc1 & HI1); [by intros ? [= <-]; exists b|done|done|].
  cbn [mbind option_bind]. unfold reference_state.
  rewrite (proj2 (Z.eqb_neq _ _) Ha1), (proj2 (Z.eqb_neq _ _) Ha2), (chain_state_Some p b Hp).
  set (s := bip9 m c cond p (period_after c b)). destruct (decide (s = DEFINED)) as [|Hs]; [by eexists _, _, _|].
  destruct (period_parent_spec p b Hp) as (q & -> & Hq & Hst & Hanc & Hqb). cbn [mjoin option_join].
  destruct q as [r|]; [|exfalso; apply Hs; unfold s; by rewrite Hqb]. destruct Hqb as (br & Hr & Hhr). cbn [mbind option_bind].
  rewrite Hr. cbn [mbind option_bind]. rewrite (GetAncestor_spec m Hlinked Hskips r br) by done. cbn [mbind option_bind].
  pose proof (linked_height m Hlinked r br Hr).
  destruct (since_loop_spec (Z.to_nat (nHeight br + 1)) s p (period_after c b) r br cache1 x1)
    as (r' & b' & k & cache' & x' & -> & Hr' & Hh' & Hk & Hbk & Hprev & Hc' & HI'); try done.
  { rewrite Hanc. f_equal. lia. }
  { nia. }
  cbn [mbind option_bind]. rewrite Hr'. cbn [mbind option_bind]. eexists _, _, _. split_and!; try done.
  exists k. split_and!; try done; [lia|]. intros i Hi Heq.
  destruct (bip9_rank p i (pred k)) as [E|E]; [lia|congruence|].
  destruct (bip9_rank p (pred k) k) as [E'|E']; [lia|congruence|]. rewrite Heq, Hbk in *. lia.
Qed.

(** ** Every deployment is decided *)

Lemma bip9_step tip b k :
  m !! tip = Some b → Z.of_nat (S k) * Period c ≤ nHeight b + 1 →
  ∃ p, ancestor m tip (Z.of_nat (S k) * Period c - 1) = Some p ∧
    bip9 m c cond tip (S k) = transition m c cond (bip9 m c cond tip k) p (Z.of_nat (S k) * Period c - 1).
Proof.
  intros Htip Hk. destruct (ancestor_Some m Hlinked tip b (Z.of_nat (S k) * Period c - 1) Htip) as (p & ? & Ha & _); [nia|].
  exists p. split; [done|]. cbn [bip9]. by rewrite Ha.
Qed.

(** Times only grow along the boundaries. *)
Lemma boundary_times tip h h' p p' : ancestor m tip h = Some p → ancestor m tip h' = Some p' → h ≤ h' → mtp m p ≤ mtp m p'.
Proof.
  intros Hp Hp' Hh. apply (mtp_ancestor_le m Hlinked Htimes p' p h).
  rewrite <-(ancestor_trans m Hlinked tip p' h'); done.
Qed.

Lemma bip9_decided tip b p j k :
  m !! tip = Some b → (1 ≤ j)%nat → ancestor m tip (Z.of_nat j * Period c - 1) = Some p →
  BeginTime c ≤ mtp m p → EndTime c ≤ mtp m p → (j + 2 ≤ k)%nat →
  Z.of_nat k * Period c ≤ nHeight b + 1 → MinActivationHeight c ≤ Z.of_nat k * Period c →
  bip9 m c cond tip k = ACTIVE ∨ bip9 m c cond tip k = FAILED.
Proof.
  intros Htip Hj Hp Hstart Hend Hjk Hk Hmin.
  assert (H1 : 1 ≤ rank (bip9 m c cond tip j)).
  { destruct j as [|j]; [lia|]. destruct (bip9_step tip b j Htip ltac:(nia)) as (p' & Hp' & ->).
    rewrite Hp in Hp'. injection Hp' as <-. destruct (bip9 m c cond tip j); cbn [transition]; repeat case_match; cbn; lia. }
  assert (H2 : 2 ≤ rank (bip9 m c cond tip (S j))).
  { destruct (bip9_step tip b j Htip ltac:(nia)) as (p' & Hp' & ->).
    pose proof (boundary_times tip _ _ p p' Hp Hp' ltac:(nia)).
    destruct (bip9 m c cond tip j); cbn [transition rank] in *; repeat case_match; cbn; lia. }
  assert (H3 : 3 ≤ rank (bip9 m c cond tip k)).
  { destruct k as [|k]; [lia|]. destruct (bip9_step tip b k Htip Hk) as (p' & Hp' & ->).
    assert (2 ≤ rank (bip9 m c cond tip k)) by (destruct (bip9_rank tip (S j) k) as [<- | ?]; lia).
    generalize dependent (Z.of_nat (S k) * Period c). intros h Hk Hmin _.
    destruct (bip9 m c cond tip k); cbn [transition rank] in *; repeat case_match; cbn; lia. }
  destruct (bip9 m c cond tip k); cbn in H3; (lia || auto).
Qed.

(** ** Statistics *)

Definition marks (p : ptr) (h n : Z) : list bool :=
  (λ i, bool_decide ((cond <$> ancestor m p i) = Some true)) <$> seqZ (h - n + 1) n.

Lemma marks_ext p q h n :
  (∀ i, i ≤ h → ancestor m p i = ancestor m q i) → marks p h n = marks q h n.
Proof.
  intros H. unfold marks. apply list_fmap_ext. intros i x Hx%list_elem_of_lookup_2%elem_of_seqZ. by rewrite H by lia.
Qed.

Lemma marks_snoc p b n : m !! p = Some b → 0 ≤ n → marks p (nHeight b) (n + 1) = marks p (nHeight b - 1) n ++ [cond p].
Proof.
  intros Hp Hn. unfold marks. replace (nHeight b - (n + 1) + 1) with (nHeight b - 1 - n + 1) by lia.
  rewrite seqZ_snoc, fmap_app by done. f_equal. cbn [fmap list_fmap].
  replace (_ + n) with (nHeight b) by lia. rewrite (ancestor_self m Hlinked p b Hp). cbn. by destruct (cond p).
Qed.

Lemma signals_marks p h n : signals m cond p h n = Z.of_nat (length (filter (λ x, x = true) (marks p h n))).
Proof.
  unfold signals, marks. f_equal. induction (seqZ (h - n + 1) n) as [|i l IH]; [done|].
  cbn [fmap list_fmap]. rewrite !filter_cons. case_decide as E1; case_decide as E2; cbn [length]; rewrite ?IH; try done.
  - by rewrite bool_decide_eq_true_2 in E2.
  - by apply bool_decide_eq_true in E2.
Qed.

Lemma mark_signal_spec (b want : bool) n k tail :
  mark_signal b (Z.of_nat (S n) - 1) k (if want then Some (replicate (S n) false ++ tail) else None) =
  Some (k + Z.b2z b, if want then Some (replicate n false ++ b :: tail) else None).
Proof.
  assert (Hr : replicate (S n) false ++ tail = replicate n false ++ false :: tail) by by rewrite replicate_S_end, <-app_assoc.
  unfold mark_signal. replace (Z.of_nat (S n) - 1) with (Z.of_nat n) by lia.
  destruct b, want; cbn [Z.b2z]; rewrite ?Z.add_0_r, ?Hr; try done.
  rewrite length_app, length_replicate. cbn [length]. destruct (Z.leb_spec 0 (Z.of_nat n)); [|lia].
  destruct (Z.ltb_spec (Z.of_nat n) (Z.of_nat (n + S (length tail)))); [|lia]. cbn [andb]. rewrite Nat2Z.id.
  do 3 f_equal. by rewrite insert_app_r_alt, length_replicate, Nat.sub_diag by (rewrite length_replicate; lia).
Qed.

Lemma statistics_step n p b e k tail (want : bool) x :
  m !! p = Some b → I x →
  ∃ x', statistics_loop m c (S n) (Z.of_nat (S n)) e k (Some p)
      (if want then Some (replicate (S n) false ++ tail) else None) x =
    (let signalling := if want then Some (replicate n false ++ cond p :: tail) else None in
     if 0 <? Z.of_nat n then statistics_loop m c n (Z.of_nat n) (e + 1) (k + Z.b2z (cond p)) (pprev b) signalling x'
     else Some (e + 1, k + Z.b2z (cond p), signalling, x')) ∧ I x'.
Proof.
  intros Hp HI. destruct (Hcond p b x Hp HI) as (x' & E & HI'). exists x'. split; [|done].
  cbn [statistics_loop mbind option_bind]. rewrite E. cbn [mbind option_bind]. rewrite mark_signal_spec.
  cbn [mbind option_bind]. rewrite Hp. cbn [mbind option_bind]. by replace (Z.of_nat (S n) - 1) with (Z.of_nat n) by lia.
Qed.

Lemma statistics_loop_spec n p b e k tail (want : bool) x :
  m !! p = Some b → Z.of_nat (S n) ≤ nHeight b + 1 → I x →
  ∃ x', statistics_loop m c (S n) (Z.of_nat (S n)) e k (Some p)
      (if want then Some (replicate (S n) false ++ tail) else None) x =
    Some (e + Z.of_nat (S n), k + signals m cond p (nHeight b) (Z.of_nat (S n)),
      if want then Some (marks p (nHeight b) (Z.of_nat (S n)) ++ tail) else None, x') ∧ I x'.
Proof.
  revert p b e k tail x. induction n as [|n IH]; intros p b e k tail x Hp Hn HI.
  - destruct (statistics_step 0 p b e k tail want x Hp HI) as (x1 & -> & HI1). change (Z.of_nat 1) with (0 + 1). rewrite (signals_marks p), (marks_snoc p b 0) by done.
    unfold marks. rewrite seqZ_nil by lia. exists x1. split; [|done]. by destruct (cond p).
  - destruct (statistics_step (S n) p b e k tail want x Hp HI) as (x1 & -> & HI1).
    cbn zeta. rewrite (proj2 (Z.ltb_lt 0 (Z.of_nat (S n)))) by lia.
    destruct (linked_prev m Hlinked p b Hp ltac:(lia)) as (q & d & Hq & Hd & Hhd). rewrite Hq.
    destruct (IH q d (e + 1) (k + Z.b2z (cond p)) (cond p :: tail) x1 Hd ltac:(lia) HI1) as (x2 & -> & HI2).
    exists x2. split; [|done]. replace (Z.of_nat (S (S n))) with (Z.of_nat (S n) + 1) by lia.
    assert (Hanc : ∀ i, i ≤ nHeight b - 1 → ancestor m p i = ancestor m q i).
    { intros i Hi. apply (ancestor_prev m Hlinked p b q i Hp Hq). lia. }
    rewrite !signals_marks, (marks_snoc p b), (marks_ext p q) by (done || lia). rewrite Hhd.
    rewrite filter_app, length_app, <-app_assoc. cbn [app]. rewrite <-(Z.add_assoc e 1), (Z.add_comm 1), Nat2Z.inj_add, <-Z.add_assoc, (Z.add_comm (Z.b2z _)).
    by destruct (cond p).
Qed.

(** The statistics of the period up to a block. *)
Lemma GetStateStatisticsFor_spec p b (want : bool) x :
  m !! p = Some b → urange 31 (Period c) → I x →
  let n := nHeight b mod Period c + 1 in
  ∃ x', GetStateStatisticsFor m c (Some p) want x =
    Some ({| period := Period c; threshold := u32 (Threshold c); elapsed := n; count := signals m cond p (nHeight b) n;
             possible := u32 (n - signals m cond p (nHeight b) n) <=? u32 (Period c - Threshold c) |},
          if want then Some (marks p (nHeight b) n) else None, x') ∧ I x'.
Proof.
  intros Hp HPr HI n. pose proof (linked_height m Hlinked p b Hp). unfold GetStateStatisticsFor, rem.
  rewrite Hp. cbn [mbind option_bind]. assert (u32 (Period c) = Period c) as ->.
  { apply uwrap_small. unfold urange in *. lia. }
  destruct (Z.eqb_spec (Period c) 0); [lia|]. cbn [mbind option_bind]. rewrite Z.rem_mod_nonneg by lia.
  pose proof (Z.mod_pos_bound (nHeight b) (Period c) HP). pose proof (Z.mod_le (nHeight b) (Period c) ltac:(done) HP).
  rewrite Z.add_comm. fold n. destruct (Z_of_nat_complete (n - 1) ltac:(lia)) as [j Hj].
  assert (n = Z.of_nat (S j)) as E by lia.
  destruct (statistics_loop_spec j p b 0 0 [] want x Hp ltac:(lia) HI) as (x' & E' & HI').
  rewrite app_nil_r in E'. rewrite app_nil_r in E'. rewrite E, Nat2Z.id, E'. cbn [mbind option_bind].
  rewrite !Z.add_0_l. by exists x'.
Qed.
End Theory.

(** ** The block index may grow *)

Section Growth.
Context (m m' : BlockMap) (Hlinked : linked m) (Hlinked' : linked m') (Hsub : m ⊆ m').

Lemma past_times_mono n p : (∀ q, p = Some q → is_Some (m !! q)) → past_times m' n p = past_times m n p.
Proof.
  revert p. induction n as [|n IH]; intros [q|] Hp; cbn [past_times]; try done.
  destruct (Hp q eq_refl) as [b Hb]. rewrite Hb, (lookup_weaken _ _ _ _ Hb Hsub). cbn [mbind option_bind].
  rewrite IH; [done|]. intros q' Hq'. pose proof (Hlinked q b Hb) as H. rewrite Hq' in H. destruct H as (d & ? & _). by exists d.
Qed.

Lemma mtp_mono p b : m !! p = Some b → mtp m' p = mtp m p.
Proof.
  intros Hp. unfold mtp, GetMedianTimePast. rewrite past_times_mono; [done|]. intros ? [= <-]. by exists b.
Qed.

Context {X : Type} (c c' : Checker X) (cond cond' : ptr → bool).
Context (Hbegin : BeginTime c' = BeginTime c) (Hend : EndTime c' = EndTime c)
  (Hmin : MinActivationHeight c' = MinActivationHeight c) (Hperiod : Period c' = Period c) (Hthr : Threshold c' = Threshold c).
Context (Hcond : ∀ p b, m !! p = Some b → cond' p = cond p).

Lemma signals_mono p b h n : m !! p = Some b → signals m' cond' p h n = signals m cond p h n.
Proof.
  intros Hp. unfold signals. do 2 f_equal. apply filter_ext_elem. intros i _.
  rewrite (ancestor_mono m m' Hlinked Hsub p b) by done. destruct (ancestor m p i) as [q|] eqn:Ha; [|done].
  destruct (ancestor_inv m Hlinked p i q Ha) as (? & d & _ & Hd & _). cbn. by rewrite (Hcond q d Hd).
Qed.

Lemma bip9_mono tip b k : m !! tip = Some b → bip9 m' c' cond' tip k = bip9 m c cond tip k.
Proof.
  intros Htip. induction k as [|k IH]; [done|]. cbn [bip9].
  rewrite Hperiod, (ancestor_mono m m' Hlinked Hsub tip b), IH by done.
  destruct (ancestor m tip _) as [p|] eqn:Ha; [|done].
  destruct (ancestor_inv m Hlinked tip _ p Ha) as (? & d & _ & Hd & _).
  unfold transition. rewrite Hbegin, Hend, Hmin, Hthr, Hperiod, (mtp_mono p d Hd), (signals_mono p d) by done. done.
Qed.

Lemma chain_state_mono q : (∀ p, q = Some p → is_Some (m !! p)) → chain_state m' c' cond' q = chain_state m c cond q.
Proof.
  destruct q as [p|]; [|done]. intros Hq. destruct (Hq p eq_refl) as [b Hp]. unfold chain_state. cbn [mbind option_bind].
  rewrite Hp, (lookup_weaken _ _ _ _ Hp Hsub). cbn. unfold period_after. rewrite Hperiod. by eapply bip9_mono.
Qed.

Lemma cache_ok_mono cache : cache_ok m c cond cache → cache_ok m' c' cond' cache.
Proof.
  intros Hc q s Hq. destruct (Hc q s Hq) as [Hb ->].
  split; [|symmetry; apply chain_state_mono; intros p ->; destruct Hb as (b & ? & _); by exists b].
  destruct q as [p|]; [|done]. destruct Hb as (b & Hp & Hm). exists b. rewrite Hperiod. split; [|done].
  by eapply lookup_weaken.
Qed.
End Growth.

(** ** The deployments *)

Definition dep_ok (dep : BIP9Deployment) : Prop := 0 < dep_period dep < 2 ^ 31 ∧ 0 ≤ bit dep < 32.

(** What a block of the chain signals, and the state of a deployment. *)
Definition dep_cond (m : BlockMap) (dep : BIP9Deployment) (p : ptr) : bool :=
  match m !! p with Some b => version_signals dep (bi_nVersion b) | None => false end.
Definition dep_state (m : BlockMap) (dep : BIP9Deployment) (p : option ptr) : ThresholdState :=
  reference_state m (VersionBitsConditionChecker m dep) (dep_cond m dep) p.
Definition dep_cache_ok (m : BlockMap) (dep : BIP9Deployment) (cache : ThresholdConditionCache) : Prop :=
  cache_ok m (VersionBitsConditionChecker m dep) (dep_cond m dep) cache.

Definition caches_ok (m : BlockMap) (params : DeploymentParams) (caches : list ThresholdConditionCache) : Prop :=
  Forall2 (dep_cache_ok m) (vDeployments params) caches.

(** The version that signals for the deployments that are started or locked in. *)
Definition version_step (m : BlockMap) (p : option ptr) (nVersion : Z) (dep : BIP9Deployment) : Z :=
  if decide (dep_state m dep p = LOCKED_IN ∨ dep_state m dep p = STARTED) then i32 (u32 nVersion .| Mask dep) else nVersion.
Definition block_version (m : BlockMap) (params : DeploymentParams) (p : option ptr) : Z :=
  foldl (version_step m p) VERSIONBITS_TOP_BITS (vDeployments params).

(** A bit that the block signals although no known deployment asks for it. *)
Definition unknown_signal (m : BlockMap) (params : DeploymentParams) (m_bit : Z) (p : ptr) : bool :=
  match m !! p with
  | Some b =>
      (MinBIP9WarningHeight params <=? nHeight b)
      && (bi_nVersion b .& VERSIONBITS_TOP_MASK =? VERSIONBITS_TOP_BITS)
      && negb ((bi_nVersion b .>> m_bit) .& 1 =? 0)
      && ((block_version m params (pprev b) .>> m_bit) .& 1 =? 0)
  | None => false
  end.
Definition warning_state (m : BlockMap) (params : DeploymentParams) (m_bit : Z) (p : option ptr) : ThresholdState :=
  reference_state m (WarningBitsConditionChecker m params m_bit) (unknown_signal m params m_bit) p.
Definition warning_cache_ok (m : BlockMap) (params : DeploymentParams) (m_bit : Z) (cache : ThresholdConditionCache) : Prop :=
  cache_ok m (WarningBitsConditionChecker m params m_bit) (unknown_signal m params m_bit) cache.

Definition valid_index (m : BlockMap) : Prop := linked m ∧ skips_ok m ∧ times_ok m.
Definition in_index (m : BlockMap) (p : option ptr) : Prop := ∀ q, p = Some q → is_Some (m !! q).

Lemma in_index_Some m p b : m !! p = Some b → in_index m (Some p).
Proof. intros Hp q [= <-]. by exists b. Qed.

Section Deployments.
Context (m : BlockMap) (Hm : valid_index m).

Lemma i32_small x : 0 ≤ x < 2 ^ 31 → i32 x = x.
Proof. intros Hx. apply swrap_small; unfold srange; lia. Qed.

Lemma dep_Condition dep p b (x : unit) :
  m !! p = Some b → True →
  ∃ x', Condition (VersionBitsConditionChecker m dep) p x = Some (dep_cond m dep p, x') ∧ True.
Proof. intros Hp _. exists x. cbn. unfold dep_cond. by rewrite Hp. Qed.

Lemma dep_period_pos dep : dep_ok dep → 0 < Period (VersionBitsConditionChecker m dep).
Proof. intros [H _]. cbn. rewrite i32_small; lia. Qed.

Lemma deployment_state_spec dep p cache :
  dep_ok dep → in_index m p → dep_cache_ok m dep cache →
  ∃ cache', deployment_state m dep p cache = Some (dep_state m dep p, cache') ∧ dep_cache_ok m dep cache'.
Proof.
  intros Hd Hp Hc. destruct Hm as (Hl & Hs & Ht).
  destruct (GetStateFor_spec m Hl Hs Ht _ _ (λ _, True) (dep_period_pos dep Hd) (dep_Condition dep) p cache tt Hp Hc I)
    as (cache' & x' & E & Hc' & _).
  exists cache'. unfold deployment_state. rewrite E. done.
Qed.

Lemma ComputeBlockVersion_loop_spec p deps caches v :
  Forall dep_ok deps → in_index m p → Forall2 (dep_cache_ok m) deps caches →
  ∃ caches', ComputeBlockVersion_loop m p deps caches v = Some (foldl (version_step m p) v deps, caches') ∧
    Forall2 (dep_cache_ok m) deps caches'.
Proof.
  intros Hd Hp Hc. revert v. induction Hc as [|dep cache deps caches Hdc Hc IH]; intros v; [by exists []|].
  inversion Hd as [|? ? Hd1 Hd2]; subst. cbn [ComputeBlockVersion_loop foldl].
  destruct (deployment_state_spec dep p cache Hd1 Hp Hdc) as (cache' & -> & Hdc'). cbn [mbind option_bind].
  fold (version_step m p v dep). destruct (IH Hd2 (version_step m p v dep)) as (caches' & E & Hc').
  rewrite E. cbn [mbind option_bind]. exists (cache' :: caches'). by split; [|constructor].
Qed.

Context (params : DeploymentParams) (Hparams : Forall dep_ok (vDeployments params)).

Lemma ComputeBlockVersion_spec p caches :
  in_index m p → caches_ok m params caches →
  ∃ caches', ComputeBlockVersion m params p caches = Some (block_version m params p, caches') ∧ caches_ok m params caches'.
Proof. intros. by apply ComputeBlockVersion_loop_spec. Qed.

Lemma parent_in_index p b : m !! p = Some b → in_index m (pprev b).
Proof.
  intros Hp q Hq. destruct Hm as (Hl & _). pose proof (Hl p b Hp) as H. rewrite Hq in H. destruct H as (d & ? & _). by exists d.
Qed.

Lemma warning_Condition m_bit p b caches :
  m !! p = Some b → caches_ok m params caches →
  ∃ caches', Condition (WarningBitsConditionChecker m params m_bit) p caches = Some (unknown_signal m params m_bit p, caches') ∧
    caches_ok m params caches'.
Proof.
  intros Hp Hc. cbn [Condition WarningBitsConditionChecker]. unfold unknown_signal. rewrite Hp. cbn [mbind option_bind].
  destruct (_ && _ && _); [|by exists caches].
  destruct (ComputeBlockVersion_spec (pprev b) caches (parent_in_index p b Hp) Hc) as (caches' & -> & Hc').
  by exists caches'.
Qed.

Lemma CheckUnknownActivations_loop_spec p m_bit warning caches :
  0 < warning_period params → in_index m p → caches_ok m params caches →
  (∀ i cache, warning !! i = Some cache → warning_cache_ok m params (m_bit + Z.of_nat i) cache) →
  ∃ warning' caches', CheckUnknownActivations_loop m params p m_bit warning caches =
      Some (omap (λ b, match warning_state m params b p with
                       | ACTIVE => Some (b, true) | LOCKED_IN => Some (b, false) | _ => None end)
              (seqZ m_bit (Z.of_nat (length warning))), warning', caches') ∧
    length warning' = length warning ∧ caches_ok m params caches' ∧
    (∀ i cache, warning' !! i = Some cache → warning_cache_ok m params (m_bit + Z.of_nat i) cache).
Proof.
  intros HP Hp. revert m_bit caches. induction warning as [|cache warning IH]; intros m_bit caches Hc Hw.
  { exists [], caches. split_and!; try done. }
  destruct Hm as (Hl & Hs & Ht). cbn [CheckUnknownActivations_loop].
  destruct (GetStateFor_spec m Hl Hs Ht (WarningBitsConditionChecker m params m_bit) (unknown_signal m params m_bit) (caches_ok m params) HP
    (warning_Condition m_bit) p cache caches Hp) as (cache' & caches1 & -> & Hcache' & Hc1); [|done|].
  { pose proof (Hw 0%nat cache eq_refl) as H. rewrite Z.add_0_r in H. exact H. }
  cbn [mbind option_bind]. destruct (IH (m_bit + 1) caches1 Hc1) as (warning' & caches' & -> & Hlen & Hc' & Hw').
  { intros i cache1 Hi. specialize (Hw (S i) cache1 Hi). replace (m_bit + 1 + Z.of_nat i) with (m_bit + Z.of_nat (S i)) by lia. done. }
  cbn [mbind option_bind]. exists (cache' :: warning'), caches'. split_and!; [|cbn; lia|done|].
  - cbn [length]. rewrite (seqZ_cons m_bit) by lia. replace (Z.pred (Z.of_nat (S (length warning)))) with (Z.of_nat (length warning)) by lia.
    cbn [omap list_omap]. fold (warning_state m params m_bit p). unfold Z.succ.
    by destruct (warning_state m params m_bit p).
  - intros [|i] cache1 Hi; [injection Hi as <-; by rewrite Z.add_0_r|].
    specialize (Hw' i cache1 Hi). replace (m_bit + Z.of_nat (S i)) with (m_bit + 1 + Z.of_nat i) by lia. done.
Qed.
End Deployments.

Section DeploymentGrowth.
Context (m m' : BlockMap) (Hlinked : linked m) (Hlinked' : linked m') (Hsub : m ⊆ m') (params : DeploymentParams).

Lemma dep_cond_mono dep p b : m !! p = Some b → dep_cond m' dep p = dep_cond m dep p.
Proof. intros Hp. unfold dep_cond. by rewrite Hp, (lookup_weaken _ _ _ _ Hp Hsub). Qed.

Lemma dep_state_mono dep p : in_index m p → dep_state m' dep p = dep_state m dep p.
Proof.
  intros Hp. unfold dep_state, reference_state. cbn [BeginTime VersionBitsConditionChecker]. case_match; [done|]. case_match; [done|].
  apply chain_state_mono; try done. apply dep_cond_mono.
Qed.

Lemma dep_cache_ok_mono dep cache : dep_cache_ok m dep cache → dep_cache_ok m' dep cache.
Proof. apply cache_ok_mono; try done. apply dep_cond_mono. Qed.

Lemma block_version_mono p : in_index m p → block_version m' params p = block_version m params p.
Proof.
  intros Hp. unfold block_version. generalize VERSIONBITS_TOP_BITS. induction (vDeployments params) as [|dep deps IH]; intros v; [done|].
  cbn [foldl]. unfold version_step at 2 4. rewrite dep_state_mono by done. apply IH.
Qed.

Lemma unknown_signal_mono m_bit p b : m !! p = Some b → unknown_signal m' params m_bit p = unknown_signal m params m_bit p.
Proof.
  intros Hp. unfold unknown_signal. rewrite Hp, (lookup_weaken _ _ _ _ Hp Hsub).
  rewrite block_version_mono; [done|]. intros q Hq. pose proof (Hlinked p b Hp) as H. rewrite Hq in H.
  destruct H as (d & ? & _). by exists d.
Qed.

Lemma warning_cache_ok_mono m_bit cache : warning_cache_ok m params m_bit cache → warning_cache_ok m' params m_bit cache.
Proof. apply cache_ok_mono; try done. apply unknown_signal_mono. Qed.
End DeploymentGrowth.

(** The contents of a [VersionBitsCache] are right for the index [m]. *)
Definition versionbits_ok (m : BlockMap) (params : DeploymentParams) (v : VersionBitsCache) : Prop :=
  caches_ok m params (m_caches v) ∧ length (m_warning_caches v) = VERSIONBITS_NUM_BITS ∧
  ∀ i cache, m_warning_caches v !! i = Some cache → warning_cache_ok m params (Z.of_nat i) cache.

Definition vb_params_ok (params : DeploymentParams) : Prop :=
  length (vDeployments params) = MAX_VERSION_BITS_DEPLOYMENTS ∧ Forall dep_ok (vDeployments params) ∧
  0 < warning_period params.

Lemma versionbits_ok_mono m m' params v :
  linked m → linked m' → m ⊆ m' → versionbits_ok m params v → versionbits_ok m' params v.
Proof.
  intros Hl Hl' Hsub (Hc & Hlen & Hw). split_and!; [|done|].
  - eapply Forall2_impl; [exact Hc|]. intros dep cache. by apply dep_cache_ok_mono.
  - intros i cache Hi. apply (warning_cache_ok_mono m m'); auto.
Qed.

Lemma empty_cache_ok {X} m (c : Checker X) cond : cache_ok m c cond ∅.
Proof. intros q s. by rewrite lookup_empty. Qed.

(** New caches, and caches after [Clear], are right. *)
Lemma versionbits_ok_make m params : vb_params_ok params → versionbits_ok m params VersionBitsCache_make.
Proof.
  intros (Hl & _). split_and!; [|done|].
  - unfold caches_ok. cbn [m_caches VersionBitsCache_make]. rewrite <-Hl. clear Hl. induction (vDeployments params); [constructor|].
    cbn [length replicate]. constructor; [apply empty_cache_ok|done].
  - cbn [m_warning_caches VersionBitsCache_make]. intros i cache [-> _]%lookup_replicate. apply empty_cache_ok.
Qed.

Section CacheTheory.
Context (m : BlockMap) (params : DeploymentParams) (Hm : valid_index m) (Hparams : vb_params_ok params).

Lemma IsActiveAfter_spec p pos dep v :
  in_index m p → vDeployments params !! pos = Some dep → versionbits_ok m params v →
  ∃ v', IsActiveAfter m params p pos v = Some (bool_decide (dep_state m dep p = ACTIVE), v') ∧ versionbits_ok m params v'.
Proof.
  intros Hp Hdep (Hc & Hlen & Hw). destruct Hparams as (_ & Hd & _). unfold IsActiveAfter. rewrite Hdep. cbn [mbind option_bind].
  destruct (Forall2_lookup_l _ _ _ _ _ Hc Hdep) as (cache & Hcache & Hok). rewrite Hcache. cbn [mbind option_bind].
  destruct (deployment_state_spec m Hm dep p cache) as (cache' & -> & Hok'); [by eapply Forall_lookup_1|done|done|].
  cbn [mbind option_bind]. eexists. split; [done|]. split_and!; [|done|done].
  cbn [m_caches set_cache]. unfold caches_ok in *.
  rewrite <-(list_insert_id (vDeployments params) pos dep Hdep). by apply Forall2_insert.
Qed.

Lemma VersionBitsCache_ComputeBlockVersion_spec p v :
  in_index m p → versionbits_ok m params v →
  ∃ v', VersionBitsCache_ComputeBlockVersion m params p v = Some (block_version m params p, v') ∧ versionbits_ok m params v'.
Proof.
  intros Hp (Hc & Hlen & Hw). destruct Hparams as (_ & Hd & _). unfold VersionBitsCache_ComputeBlockVersion.
  destruct (ComputeBlockVersion_spec m Hm params Hd p (m_caches v) Hp Hc) as (caches' & -> & Hc'). by eexists.
Qed.

(** The warnings: the bits whose unknown deployment is locked in or active. *)
Definition unknown_activations (p : option ptr) : list (Z * bool) :=
  omap (λ b, match warning_state m params b p with
             | ACTIVE => Some (b, true) | LOCKED_IN => Some (b, false) | _ => None end)
    (seqZ 0 (Z.of_nat VERSIONBITS_NUM_BITS)).

Lemma CheckUnknownActivations_spec p v :
  in_index m p → versionbits_ok m params v →
  ∃ v', CheckUnknownActivations m params p v = Some (unknown_activations p, v') ∧ versionbits_ok m params v'.
Proof.
  intros Hp (Hc & Hlen & Hw). destruct Hparams as (_ & Hd & HP). unfold CheckUnknownActivations.
  destruct (CheckUnknownActivations_loop_spec m Hm params Hd p 0 (m_warning_caches v) (m_caches v) HP Hp Hc Hw)
    as (warning' & caches' & -> & Hlen' & Hc' & Hw'). cbn [mbind option_bind]. rewrite Hlen. eexists. split; [done|].
  split_and!; [done|cbn; lia|done].
Qed.
End CacheTheory.

Lemma Clear_ok m params v : vb_params_ok params → versionbits_ok m params v → versionbits_ok m params (Clear v).
Proof. intros Hp (_ & Hlen & Hw). by destruct (versionbits_ok_make m params Hp) as (Hc & _). Qed.

(** ** Properties *)

(** C32: The cached version-bits queries compute the BIP 9 state machine.  Let the caches be right for
    an earlier state [st0] of the block index, whatever chain was active then.  On any later state
    [st] whose blocks are later than the median time past of their parents, each query, with its walk
    back to a cached period and its short cut below the start time, returns without following a null
    pointer what one transition per period from the genesis block yields: whether a deployment is
    active, the version of a new block, and the unknown bits that are locked in or active (whose
    checker consults and fills the caches of the known deployments); and the caches it leaves are
    right again. *)
Theorem versionbits_cache_transparent (st0 st : BlockManager) (params : DeploymentParams) (v : VersionBitsCache)
    (p : option ptr) (pos : nat) (dep : BIP9Deployment)
    (Hst0 : reachable st0) (Hst : reachable st) (Hsub : m_block_index st0 ⊆ m_block_index st)
    (Htimes : times_ok (m_block_index st)) (Hparams : vb_params_ok params)
    (Hv : versionbits_ok (m_block_index st0) params v) (Hp : in_index (m_block_index st) p)
    (Hdep : vDeployments params !! pos = Some dep) :
  let m := m_block_index st in
  (∃ v', IsActiveAfter m params p pos v = Some (bool_decide (dep_state m dep p = ACTIVE), v') ∧ versionbits_ok m params v') ∧
  (∃ v', VersionBitsCache_ComputeBlockVersion m params p v = Some (block_version m params p, v') ∧ versionbits_ok m params v') ∧
  (∃ v', CheckUnknownActivations m params p v = Some (unknown_activations m params p, v') ∧ versionbits_ok m params v').
Proof.
  intros m. destruct (reachable_inv st Hst) as [Hl Hs _ _ _]. destruct (reachable_inv st0 Hst0) as [Hl0 _ _ _ _].
  assert (Hm : valid_index m) by done. apply (versionbits_ok_mono _ m) in Hv; [|done..].
  split_and!; [by apply IsActiveAfter_spec|by apply VersionBitsCache_ComputeBlockVersion_spec|by apply CheckUnknownActivations_spec].
Qed.

(** C33: Every deployment is decided.  Once the median time past at the end of some period [j] of the
    chain has reached both the start time and the timeout, the state two periods later and ever after
    is ACTIVE or FAILED, as soon as the minimum activation height is reached; no deployment stays
    STARTED or LOCKED_IN forever. *)
Theorem deployment_decided (st : BlockManager) (dep : BIP9Deployment) (cache : ThresholdConditionCache)
    (tip p : ptr) (b : CBlockIndex) (j : nat)
    (Hst : reachable st) (Htimes : times_ok (m_block_index st)) (Hdep : dep_ok dep)
    (Hcache : dep_cache_ok (m_block_index st) dep cache) (Htip : m_block_index st !! tip = Some b)
    (Hj : (1 ≤ j)%nat) (Hp : ancestor (m_block_index st) tip (Z.of_nat j * dep_period dep - 1) = Some p)
    (Hstart : nStartTime dep ≤ mtp (m_block_index st) p) (Hend : nTimeout dep ≤ mtp (m_block_index st) p)
    (Hlater : Z.of_nat (j + 2) * dep_period dep ≤ nHeight b + 1)
    (Hmin : min_activation_height dep ≤ (nHeight b + 1) / dep_period dep * dep_period dep) :
  ∃ state cache', deployment_state (m_block_index st) dep (Some tip) cache = Some (state, cache') ∧
    (state = ACTIVE ∨ state = FAILED).
Proof.
  destruct (reachable_inv st Hst) as [Hl Hs _ _ _]. set (m := m_block_index st) in *.
  destruct (deployment_state_spec m ltac:(done) dep (Some tip) cache Hdep) as (cache' & E & _); [by eapply in_index_Some|done|].
  eexists _, cache'. split; [exact E|]. unfold dep_state, reference_state.
  case_match; [by left|]. case_match; [by right|].
  rewrite (chain_state_Some m _ _ tip b Htip). pose proof (linked_height m Hl tip b Htip) as Hh.
  pose proof (dep_period_pos m dep Hdep) as HP. destruct Hdep as [Hdp _].
  assert (EP : Period (VersionBitsConditionChecker m dep) = dep_period dep) by (apply i32_small; lia).
  pose proof (period_after_bounds (VersionBitsConditionChecker m dep) HP b Hh) as Hk.
  apply (bip9_decided m Hl Htimes _ _ HP tip b p j); rewrite ?EP in *; try done; try lia.
  - nia.
  - cbn [MinActivationHeight VersionBitsConditionChecker]. unfold period_after. rewrite EP, Z2Nat.id; [done|]. apply Z.div_pos; lia.
Qed.

(** ** Examples *)

Definition header2 : CBlockHeader :=
  {| nVersion := 0x20000001; hashPrevBlock := CBlockHeader_GetHash header1; hashMerkleRoot := replicate 32 5;
     nTime := 1231469744; nBits := 0x1d00ffff; nNonce := 1639830024 |}.
Definition index3 : BlockManager := after index2 header2.
Definition tip3 : ptr := CBlockHeader_GetHash header2.

Lemma admissible2 : admissible index2 header2.
Proof.
  split_and!; [by split|vm_compute; discriminate|]. intros prev Hp.
  assert (nHeight <$> m_block_index index2 !! hashPrevBlock header2 = Some 1) as H0 by (vm_compute; reflexivity).
  rewrite Hp in H0. injection H0 as ->. lia.
Qed.
Lemma index3_reachable : reachable index3.
Proof. apply after_reachable; [apply index2_reachable|apply admissible2]. Qed.

Lemma index3_tip : ∃ b, m_block_index index3 !! tip3 = Some b ∧ nHeight b = 2.
Proof.
  assert (nHeight <$> m_block_index index3 !! tip3 = Some 2) as H by (vm_compute; reflexivity).
  destruct (m_block_index index3 !! tip3) as [b|]; [|done]. exists b. by injection H.
Qed.

Definition times_check (m : BlockMap) : bool :=
  forallb (λ '(_, b), match pprev b with Some q => mtp m q <? bi_nTime b | None => true end) (map_to_list m).
Lemma times_check_ok m : times_check m = true → times_ok m.
Proof.
  intros H p b q Hp Hq. unfold times_check in H. rewrite forallb_forall in H. specialize (H (p, b)). cbn in H. rewrite Hq in H.
  apply Z.ltb_lt, H. apply list_elem_of_In. by apply elem_of_map_to_list.
Qed.
Lemma index3_times : times_ok (m_block_index index3).
Proof. apply times_check_ok. vm_compute. reflexivity. Qed.

Definition quick_deployment : BIP9Deployment :=
  {| bit := 0; nStartTime := 1231006505; nTimeout := 1231006505; min_activation_height := 2; dep_period := 1; dep_threshold := 1 |}.
Definition never_deployment : BIP9Deployment :=
  {| bit := 28; nStartTime := NEVER_ACTIVE; nTimeout := NEVER_ACTIVE; min_activation_height := 0; dep_period := 2016; dep_threshold := 1815 |}.
Definition quick_params : DeploymentParams :=
  {| pow_params := main_params; vDeployments := [never_deployment; quick_deployment]; MinBIP9WarningHeight := 0; IsTestChain := false |}.

Lemma quick_params_ok : vb_params_ok quick_params.
Proof. split_and!; [done| |done]. repeat constructor; cbn; lia. Qed.

Lemma versionbits_cache_transparent_witness :
  ∃ v', IsActiveAfter (m_block_index index3) quick_params (Some tip3) 1 VersionBitsCache_make =
    Some (bool_decide (dep_state (m_block_index index3) quick_deployment (Some tip3) = ACTIVE), v').
Proof.
  destruct (versionbits_cache_transparent index3 index3 quick_params VersionBitsCache_make (Some tip3) 1 quick_deployment
    index3_reachable index3_reachable) as ((v' & E & _) & _).
  - reflexivity.
  - exact index3_times.
  - exact quick_params_ok.
  - apply versionbits_ok_make. exact quick_params_ok.
  - destruct index3_tip as (b & Hb & _). exact (in_index_Some _ _ b Hb).
  - reflexivity.
  - exists v'. exact E.
Defined.

Lemma deployment_decided_witness :
  ∃ state cache', deployment_state (m_block_index index3) quick_deployment (Some tip3) ∅ = Some (state, cache') ∧
    (state = ACTIVE ∨ state = FAILED).
Proof.
  destruct index3_tip as (b & Hb & Hh).
  apply (deployment_decided index3 quick_deployment ∅ tip3 (CBlockHeader_GetHash header0) b 1).
  - exact index3_reachable.
  - exact index3_times.
  - split; cbn; lia.
  - apply empty_cache_ok.
  - exact Hb.
  - lia.
  - vm_compute. reflexivity.
  - apply (bool_decide_unpack _). vm_compute. exact I.
  - apply (bool_decide_unpack _). vm_compute. exact I.
  - rewrite Hh. vm_compute. discriminate.
  - rewrite Hh. vm_compute. discriminate.
Defined.
