(* ===== verification/Headers.v ===== *)
(** * Accepting block headers: validation.cpp, consensus/validation.h, deploymentstatus.h

    [AcceptBlockHeader] and the checks it makes.  A check returns the reason it records in the
    validation state, or nothing when it passes; [None] stands for following a null pointer or
    a failed assertion.  The theory shows that the headers accepted from a genesis block form a
    tree rooted at it in which every other header meets the rules of proof of work, difficulty
    and time. *)

From S2P Require Import Prelude ArithUint256 Serialize Hash Primitives BlockIndex MedianTime Pow VersionBits.
From Stdlib Require Import ZArith Lia.
From stdpp Require Import base option list numbers gmap strings.

Open Scope Z_scope.
Open Scope kernel_scope.
Import base_uint arith_uint256 arith_uint256_facts.

(** ** Validation states *)

Inductive BlockValidationResult :=
  | BLOCK_RESULT_UNSET | BLOCK_CONSENSUS | BLOCK_CACHED_INVALID | BLOCK_INVALID_HEADER | BLOCK_MUTATED
  | BLOCK_MISSING_PREV | BLOCK_INVALID_PREV | BLOCK_TIME_FUTURE | BLOCK_HEADER_LOW_WORK.

Inductive TxValidationResult :=
  | TX_RESULT_UNSET | TX_CONSENSUS | TX_INPUTS_NOT_STANDARD | TX_NOT_STANDARD | TX_MISSING_INPUTS | TX_PREMATURE_SPEND
  | TX_WITNESS_MUTATED | TX_WITNESS_STRIPPED | TX_CONFLICT | TX_MEMPOOL_POLICY | TX_NO_MEMPOOL | TX_RECONSIDERABLE | TX_UNKNOWN.

Inductive ModeState := M_VALID | M_INVALID | M_ERROR.

Record ValidationState (Result : Type) := {
  m_mode : ModeState;
  m_result : Result;
  m_reject_reason : string
}.
Arguments m_mode {_}. Arguments m_result {_}. Arguments m_reject_reason {_}.

(** [Invalid] and [Error] return false besides the changed state. *)
Definition Invalid {R} (result : R) (reject_reason : string) (s : ValidationState R) : ValidationState R :=
  {| m_mode := match m_mode s with M_ERROR => M_ERROR | _ => M_INVALID end;
     m_result := result; m_reject_reason := reject_reason |}.
Definition Error {R} (reject_reason : string) (s : ValidationState R) : ValidationState R :=
  {| m_mode := M_ERROR; m_result := m_result s;
     m_reject_reason := match m_mode s with M_VALID => reject_reason | _ => m_reject_reason s end |}.

(** A check: the arguments of its call of [Invalid], or success. *)
Abbreviation verdict := (option (BlockValidationResult * string)).

(** ** Buried deployments *)

Inductive BuriedDeployment := DEPLOYMENT_HEIGHTINCB | DEPLOYMENT_CLTV | DEPLOYMENT_DERSIG | DEPLOYMENT_CSV | DEPLOYMENT_SEGWIT.

Record ConsensusParams := {
  deployments : DeploymentParams;
  hashGenesisBlock : uint256;
  nSubsidyHalvingInterval : Z;
  script_flag_exceptions : gmap uint256 Z;
  BIP34Height : Z;
  BIP34Hash : uint256;
  BIP65Height : Z;
  BIP66Height : Z;
  CSVHeight : Z;
  SegwitHeight : Z;
  signet_blocks : bool;
  signet_challenge : bytes
}.
Definition pow (params : ConsensusParams) : Pow.Params := pow_params (deployments params).

Definition DeploymentHeight (params : ConsensusParams) (dep : BuriedDeployment) : Z :=
  match dep with
  | DEPLOYMENT_HEIGHTINCB => BIP34Height params
  | DEPLOYMENT_CLTV => BIP65Height params
  | DEPLOYMENT_DERSIG => BIP66Height params
  | DEPLOYMENT_CSV => CSVHeight params
  | DEPLOYMENT_SEGWIT => SegwitHeight params
  end.

Definition DeploymentActiveAfter (params : ConsensusParams) (prev : option CBlockIndex) (dep : BuriedDeployment) : bool :=
  DeploymentHeight params dep <=? match prev with None => 0 | Some b => nHeight b + 1 end.

(** ** The checks *)

Definition MAX_TIMEWARP : Z := 600.
Definition MAX_FUTURE_BLOCK_TIME : Z := 2 * 60 * 60.

Definition CheckBlockHeader (params : ConsensusParams) (block : CBlockHeader) (fCheckPOW : bool) : verdict :=
  if fCheckPOW && negb (CheckProofOfWork false (CBlockHeader_GetHash block) (nBits block) (pow params))
  then Some (BLOCK_INVALID_HEADER, "high-hash")
  else None.

(** [%08x] *)
Definition hex_digit (d : Z) : string :=
  default "" (["0"; "1"; "2"; "3"; "4"; "5"; "6"; "7"; "8"; "9"; "a"; "b"; "c"; "d"; "e"; "f"]%string !! Z.to_nat d).
Definition hex8 (x : Z) : string := foldl (λ s d, hex_digit d +:+ s) "" (digits 4 8 x).

(** [now] is the clock in nanoseconds. *)
Definition ContextualCheckBlockHeader (params : ConsensusParams) (m : BlockMap) (now : Z) (block : CBlockHeader) (pindexPrev : ptr)
    : option verdict :=
  prev ← m !! pindexPrev;
  let height := nHeight prev + 1 in
  required ← GetNextWorkRequired m (pow params) pindexPrev block;
  if negb (nBits block =? required) then Some (Some (BLOCK_INVALID_HEADER, "bad-diffbits"))
  else
    mtp ← GetMedianTimePast m pindexPrev;
    if nTime block <=? mtp then Some (Some (BLOCK_INVALID_HEADER, "time-too-old"))
    else
      r ← (if enforce_BIP94 (pow params) then rem height (DifficultyAdjustmentInterval (pow params)) else Some 1);
      if (r =? 0) && (nTime block <? bi_nTime prev - MAX_TIMEWARP)
      then Some (Some (BLOCK_INVALID_HEADER, "time-timewarp-attack"))
      else if now + MAX_FUTURE_BLOCK_TIME * 10 ^ 9 <? nTime block * 10 ^ 9
      then Some (Some (BLOCK_TIME_FUTURE, "time-too-new"))
      else if ((nVersion block <? 2) && DeploymentActiveAfter params (Some prev) DEPLOYMENT_HEIGHTINCB)
           || ((nVersion block <? 3) && DeploymentActiveAfter params (Some prev) DEPLOYMENT_DERSIG)
           || ((nVersion block <? 4) && DeploymentActiveAfter params (Some prev) DEPLOYMENT_CLTV)
      then Some (Some (BLOCK_INVALID_HEADER, "bad-version(0x" +:+ hex8 (u32 (nVersion block)) +:+ ")"))
      else Some None.

Definition AcceptBlockHeader (params : ConsensusParams) (now : Z) (min_pow_checked : bool) (block : CBlockHeader)
    (st : BlockManager) : option (BlockManager * (BlockValidationResult * string + ptr)) :=
  let hash := CBlockHeader_GetHash block in
  let add :=
    if negb min_pow_checked then Some (st, inl (BLOCK_HEADER_LOW_WORK, "too-little-chainwork"))
    else '(st, p) ← AddToBlockIndex st block; Some (st, inr p) in
  if decide (hash = hashGenesisBlock params) then add
  else
    match m_block_index st !! hash with
    | Some pindex =>
        if negb (nStatus pindex .& BLOCK_FAILED_VALID =? 0) then Some (st, inl (BLOCK_CACHED_INVALID, "duplicate-invalid"))
        else Some (st, inr hash)
    | None =>
        match CheckBlockHeader params block true with
        | Some e => Some (st, inl e)
        | None =>
            match m_block_index st !! hashPrevBlock block with
            | None => Some (st, inl (BLOCK_MISSING_PREV, "prev-blk-not-found"))
            | Some prev =>
                if negb (nStatus prev .& BLOCK_FAILED_VALID =? 0) then Some (st, inl (BLOCK_INVALID_PREV, "bad-prevblk"))
                else
                  v ← ContextualCheckBlockHeader params (m_block_index st) now block (hashPrevBlock block);
                  match v with
                  | Some e => Some (st, inl e)
                  | None => add
                  end
            end
        end
    end.

(** The last accepted header, or the reason the first bad one was rejected for; [clock] is the time
    when a number of headers are left. *)
Fixpoint ProcessNewBlockHeaders (params : ConsensusParams) (clock : nat → Z) (min_pow_checked : bool) (headers : list CBlockHeader)
    (pindex : option ptr) (st : BlockManager) : option (BlockManager * (BlockValidationResult * string + option ptr)) :=
  match headers with
  | [] => Some (st, inr pindex)
  | header :: headers =>
      '(st, r) ← AcceptBlockHeader params (clock (length headers)) min_pow_checked header st;
      match r with
      | inl e => Some (st, inl e)
      | inr p => ProcessNewBlockHeaders params clock min_pow_checked headers (Some p) st
      end
  end.

Definition GetBlockHeader (b : CBlockIndex) : CBlockHeader :=
  {| nVersion := bi_nVersion b; hashPrevBlock := default uint256_zero (pprev b); hashMerkleRoot := bi_hashMerkleRoot b;
     nTime := bi_nTime b; nBits := bi_nBits b; nNonce := bi_nNonce b |}.

(** ** The required work depends on the ancestors only *)

Section Growth.
Context (m m' : BlockMap) (Hl : linked m) (Hs : skips_ok m) (Hl' : linked m') (Hs' : skips_ok m') (Hsub : m ⊆ m').
Context (params : Pow.Params).

Lemma GetAncestor_mono p b h : m !! p = Some b → GetAncestor m' p h = GetAncestor m p h.
Proof.
  intros Hp. rewrite (GetAncestor_spec m Hl Hs p b), (GetAncestor_spec m' Hl' Hs' p b) by (done || by eapply lookup_weaken).
  by rewrite (ancestor_mono m m' Hl Hsub p b).
Qed.

(** The entry an ancestor pointer leads to. *)
Lemma ancestor_entry_mono p b h :
  m !! p = Some b →
  (first ← mjoin (GetAncestor m' p h); m' !! first) = (first ← mjoin (GetAncestor m p h); m !! first).
Proof.
  intros Hp. rewrite (GetAncestor_mono p b) by done. rewrite (GetAncestor_spec m Hl Hs p b) by done. cbn [mjoin option_join].
  destruct (ancestor m p h) as [q|] eqn:Ha; [|done]. destruct (ancestor_inv m Hl p h q Ha) as (? & d & _ & Hd & _).
  cbn [mbind option_bind]. by rewrite Hd, (lookup_weaken _ _ _ _ Hd Hsub).
Qed.

Lemma last_non_special_mono fuel limit p b :
  m !! p = Some b → last_non_special m' params fuel limit p = last_non_special m params fuel limit p.
Proof.
  revert p b. induction fuel as [|fuel IH]; intros p b Hp; cbn [last_non_special];
    rewrite Hp, (lookup_weaken _ _ _ _ Hp Hsub); cbn [mbind option_bind]; [done|].
  pose proof (Hl p b Hp) as H. destruct (pprev b) as [q|]; [|done]. destruct H as (d & Hd & _).
  case_match; [|done]. by apply (IH q d).
Qed.

Lemma retarget_bits_mono p b : m !! p = Some b → retarget_bits m' params p b = retarget_bits m params p b.
Proof.
  intros Hp. unfold retarget_bits. destruct (enforce_BIP94 params); [|done].
  set (h := nHeight b - _). pose proof (ancestor_entry_mono p b h Hp) as E.
  destruct (mjoin (GetAncestor m' p h)) as [q'|], (mjoin (GetAncestor m p h)) as [q|]; cbn [mbind option_bind] in *; rewrite ?E; done || (by rewrite <-E).
Qed.

Lemma GetNextWorkRequired_mono p b block :
  m !! p = Some b → GetNextWorkRequired m' params p block = GetNextWorkRequired m params p block.
Proof.
  intros Hp. unfold GetNextWorkRequired. rewrite Hp, (lookup_weaken _ _ _ _ Hp Hsub). cbn [mbind option_bind].
  destruct (GetCompact _ false) as [limit|]; [|done]. cbn [mbind option_bind].
  rewrite (last_non_special_mono _ _ p b Hp). case_match; [done|]. case_match; [done|].
  set (h := nHeight b - _). pose proof (ancestor_entry_mono p b h Hp) as E.
  assert (EC : ∀ t, CalculateNextWorkRequired m' params p t = CalculateNextWorkRequired m params p t).
  { intros t. unfold CalculateNextWorkRequired. rewrite Hp, (lookup_weaken _ _ _ _ Hp Hsub). cbn [mbind option_bind].
    by rewrite (retarget_bits_mono p b Hp). }
  destruct (mjoin (GetAncestor m' p h)) as [q'|], (mjoin (GetAncestor m p h)) as [q|]; cbn [mbind option_bind] in *;
    rewrite ?E; try done; try (by rewrite <-E); destruct (m !! q); cbn [mbind option_bind]; done || apply EC.
Qed.
End Growth.

(** ** The required work can always be computed *)

(** A compact target that is representable and within the limit. *)
Definition bits_ok (params : Pow.Params) (bits : Z) : Prop :=
  urange 32 bits ∧ val (sc_value (SetCompact bits)) ≤ uint256_val (powLimit params).

Section Total.
Context (m : BlockMap) (Hl : linked m) (Hs : skips_ok m) (params : Pow.Params) (Hok : Pow.params_ok params).
Context (Hbits : ∀ p b, m !! p = Some b → bits_ok params (bi_nBits b)).

Lemma interval_pos : 0 < DifficultyAdjustmentInterval params.
Proof. destruct Hok as [_ Hsp _ _]. apply Z.quot_str_pos. lia. Qed.

Lemma last_non_special_total fuel limit p b :
  m !! p = Some b → nHeight b ≤ Z.of_nat fuel → ∃ r, last_non_special m params fuel limit p = Some r.
Proof.
  revert p b. induction fuel as [|fuel IH]; intros p b Hp Hf; cbn [last_non_special]; rewrite Hp; cbn [mbind option_bind];
    pose proof (Hl p b Hp) as H; destruct (pprev b) as [q|]; try by eexists.
  - destruct H as (d & _ & ? & ?). lia.
  - destruct H as (d & Hd & ? & ?). case_match; [|by eexists]. apply (IH q d); [done|lia].
Qed.

Lemma CalculateNextWorkRequired_total p b t :
  m !! p = Some b → DifficultyAdjustmentInterval params ≤ nHeight b + 1 →
  ∃ r, CalculateNextWorkRequired m params p t = Some r.
Proof.
  intros Hp Hh. pose proof interval_pos. destruct (fPowNoRetargeting params) eqn:Hno.
  { unfold CalculateNextWorkRequired. rewrite Hp. cbn [mbind option_bind]. rewrite Hno. by eexists. }
  assert (∃ bits, retarget_bits m params p b = Some bits ∧ bits_ok params bits) as (bits & Hr & Hu & Hle).
  { unfold retarget_bits. destruct (enforce_BIP94 params); [|exists (bi_nBits b); split; [done|by apply (Hbits p)]].
    rewrite (GetAncestor_spec m Hl Hs p b) by done. cbn [mjoin option_join].
    destruct (ancestor_Some m Hl p b (nHeight b - (DifficultyAdjustmentInterval params - 1)) Hp ltac:(lia)) as (q & d & -> & Hd & _).
    cbn [mbind option_bind]. rewrite Hd. exists (bi_nBits d). split; [done|by apply (Hbits q)]. }
  destruct (CalculateNextWorkRequired_spec m params p b t bits Hok Hno Hp Hr Hu Hle) as (new & Hnew & _). by exists new.
Qed.

Lemma GetNextWorkRequired_total p b block : m !! p = Some b → ∃ r, GetNextWorkRequired m params p block = Some r.
Proof.
  intros Hp. unfold GetNextWorkRequired. rewrite Hp. cbn [mbind option_bind]. pose proof interval_pos as HI.
  pose proof (linked_height m Hl p b Hp) as H0. destruct (UintToArith256_ok _ (po_limit _ Hok)) as [Hlw _].
  destruct (compact_encode (UintToArith256 (powLimit params)) false) as (lim & -> & _). cbn [mbind option_bind].
  destruct (Z.eqb_spec (Z.rem (nHeight b + 1) (DifficultyAdjustmentInterval params)) 0) as [Hrem|Hrem]; cbn [negb].
  - assert (DifficultyAdjustmentInterval params ≤ nHeight b + 1) as HIle.
    { rewrite Z.rem_mod_nonneg in Hrem by lia. apply Z.mod_divide in Hrem; [|lia]. apply Z.divide_pos_le in Hrem; lia. }
    rewrite (proj2 (Z.ltb_ge _ _)) by lia. rewrite (GetAncestor_spec m Hl Hs p b) by done. cbn [mjoin option_join].
    destruct (ancestor_Some m Hl p b (nHeight b - (DifficultyAdjustmentInterval params - 1)) Hp ltac:(lia)) as (q & d & -> & Hd & _).
    cbn [mbind option_bind]. rewrite Hd. cbn [mbind option_bind]. by apply (CalculateNextWorkRequired_total p b).
  - case_match; [|by eexists]. case_match; [by eexists|]. apply (last_non_special_total _ _ p b Hp). lia.
Qed.
End Total.

(** ** The new entry *)

Lemma link_fields m hash block b :
  link_pprev m hash block (CBlockIndex_make block) = Some b →
  bi_nVersion b = nVersion block ∧ bi_hashMerkleRoot b = hashMerkleRoot block ∧ bi_nTime b = nTime block ∧
  bi_nBits b = nBits block ∧ bi_nNonce b = nNonce block ∧
  pprev b = (_ ← m !! hashPrevBlock block; Some (hashPrevBlock block)) ∧
  (∀ prev, m !! hashPrevBlock block = Some prev → nHeight b = i32 (nHeight prev + 1)).
Proof.
  unfold link_pprev. destruct (m !! hashPrevBlock block) as [prev|].
  - cbn zeta. unfold BuildSkip. cbn [pprev set_parent]. destruct (GetAncestor _ _ _); [|done].
    cbn [mbind option_bind]. intros [= <-]. split_and!; try done. by intros ? [= <-].
  - intros [= <-]. by split_and!.
Qed.

Lemma AddToBlockIndex_entry st block st' p :
  m_block_index st !! CBlockHeader_GetHash block = None → hashPrevBlock block ≠ CBlockHeader_GetHash block →
  AddToBlockIndex st block = Some (st', p) →
  ∃ b, m_block_index st' = <[CBlockHeader_GetHash block := b]> (m_block_index st) ∧ p = CBlockHeader_GetHash block ∧
    bi_nVersion b = nVersion block ∧ bi_hashMerkleRoot b = hashMerkleRoot block ∧ bi_nTime b = nTime block ∧
    bi_nBits b = nBits block ∧ bi_nNonce b = nNonce block ∧
    pprev b = (_ ← m_block_index st !! hashPrevBlock block; Some (hashPrevBlock block)) ∧
    (∀ prev, m_block_index st !! hashPrevBlock block = Some prev → nHeight b = i32 (nHeight prev + 1)).
Proof.
  intros Hnew Hself. unfold AddToBlockIndex. rewrite Hnew. set (hash := CBlockHeader_GetHash block) in *.
  destruct (link_pprev _ _ _ _) as [b0|] eqn:E0; [|done]. apply link_fields in E0.
  rewrite lookup_insert_ne in E0 by done. cbn [mbind option_bind].
  destruct (GetBlockProof b0) as [w|]; [|done]. cbn [mbind option_bind].
  set (tm := match _ with Some p => Z.max _ _ | None => _ end). set (wk := add _ _ _).
  destruct (RaiseValidity_same (set_totals b0 tm wk) BLOCK_VALID_TREE) as (s & r & ->); [by vm_compute|].
  cbn [mbind option_bind]. set (b := set_nStatus _ s).
  rewrite insert_insert_eq. destruct (match m_best_header st with None => _ | Some _ => _ end); [|done].
  cbn [mbind option_bind]. intros [= <- <-]. exists b. cbn [m_block_index].
  cbn [b set_nStatus set_totals bi_nVersion bi_hashMerkleRoot bi_nTime bi_nBits bi_nNonce pprev nHeight].
  destruct E0 as (-> & -> & -> & -> & -> & -> & ?). by split_and!.
Qed.

(** ** The header tree *)

(** The rules a header with parent [q] meets. *)
Definition header_rules (params : ConsensusParams) (m : BlockMap) (p : ptr) (b : CBlockIndex) : Prop :=
  ∃ q prev, pprev b = Some q ∧ m !! q = Some prev ∧
    CheckProofOfWork false p (bi_nBits b) (pow params) = true ∧
    GetNextWorkRequired m (pow params) q (GetBlockHeader b) = Some (bi_nBits b) ∧
    mtp m q < bi_nTime b ∧
    (enforce_BIP94 (pow params) = true → nHeight b mod DifficultyAdjustmentInterval (pow params) = 0 →
       bi_nTime prev - MAX_TIMEWARP ≤ bi_nTime b) ∧
    (bi_nVersion b < 2 → nHeight b < BIP34Height params) ∧ (bi_nVersion b < 3 → nHeight b < BIP66Height params) ∧
    (bi_nVersion b < 4 → nHeight b < BIP65Height params).

Record header_tree (params : ConsensusParams) (st : BlockManager) : Prop := {
  ht_index : index_inv st;
  ht_root : ∃ g, m_block_index st !! hashGenesisBlock params = Some g ∧ pprev g = None;
  ht_hash : ∀ p b, m_block_index st !! p = Some b → CBlockHeader_GetHash (GetBlockHeader b) = p;
  ht_bits : ∀ p b, m_block_index st !! p = Some b → bits_ok (pow params) (bi_nBits b);
  ht_rules : ∀ p b, m_block_index st !! p = Some b → p ≠ hashGenesisBlock params → header_rules params (m_block_index st) p b
}.

Lemma tree_times params st : header_tree params st → times_ok (m_block_index st).
Proof.
  intros [Hi (g & Hg & Hgp) _ _ Hr] p b q Hp Hq. destruct (decide (p = hashGenesisBlock params)) as [->|Hne].
  - rewrite Hg in Hp. injection Hp as <-. congruence.
  - destruct (Hr p b Hp Hne) as (q' & prev & Hq' & _ & _ & _ & Ht & _). rewrite Hq in Hq'. by injection Hq' as <-.
Qed.

Lemma header_rules_mono params m m' p b :
  linked m → skips_ok m → linked m' → skips_ok m' → m ⊆ m' → header_rules params m p b → header_rules params m' p b.
Proof.
  intros Hl Hs Hl' Hs' Hsub (q & prev & Hq & Hprev & Hpow & Hwork & Ht & Hrest). exists q, prev. split_and!; try done; try apply Hrest.
  - by eapply lookup_weaken.
  - by rewrite (GetNextWorkRequired_mono m m' Hl Hs Hl' Hs' Hsub _ q prev).
  - by rewrite (mtp_mono m m' Hl Hsub q prev).
Qed.

(** The check of proof of work includes the one of the target. *)
Lemma pow_bits_ok params hash bits :
  Pow.params_ok params → urange 32 bits → CheckProofOfWork false hash bits params = true → bits_ok params bits.
Proof.
  intros Hok Hb Hc. split; [done|]. unfold CheckProofOfWork, CheckProofOfWorkImpl, DeriveTarget in Hc.
  destruct (_ || gtb _ _ _) eqn:E; [done|]. apply orb_false_iff in E as [_ E].
  destruct (UintToArith256_ok _ (po_limit _ Hok)) as [Hlw Hlv]. destruct (SetCompact_ok bits Hb) as (Hw & _).
  rewrite val_gtb in E by done. apply Z.ltb_ge in E. by rewrite <-Hlv.
Qed.

(** What a header that passes the checks on top of [q] meets. *)
Lemma ContextualCheckBlockHeader_rules params m now block q prev b :
  m !! q = Some prev → 0 ≤ nHeight prev → hashPrevBlock block = q → GetBlockHeader b = block → nHeight b = nHeight prev + 1 →
  pprev b = Some q → 0 < DifficultyAdjustmentInterval (pow params) → linked m →
  CheckBlockHeader params block true = None → ContextualCheckBlockHeader params m now block q = Some None →
  header_rules params m (CBlockHeader_GetHash block) b.
Proof.
  intros Hq Hh0 Hpb Hb Hh Hpp HI Hl Hc. unfold ContextualCheckBlockHeader. rewrite Hq. cbn [mbind option_bind].
  destruct (GetNextWorkRequired _ _ _ _) as [required|] eqn:Ew; [|done]. cbn [mbind option_bind].
  destruct (Z.eqb_spec (nBits block) required) as [Hbits|]; [|done]. cbn [negb].
  rewrite (GetMedianTimePast_total m Hl q prev Hq). cbn [mbind option_bind].
  destruct (Z.leb_spec (nTime block) (mtp m q)) as [|Ht]; [done|].
  assert (HB : (if enforce_BIP94 (pow params) then rem (nHeight prev + 1) (DifficultyAdjustmentInterval (pow params)) else Some 1) =
    Some (if enforce_BIP94 (pow params) then nHeight b mod DifficultyAdjustmentInterval (pow params) else 1)).
  { destruct (enforce_BIP94 (pow params)); [|done]. unfold rem. rewrite (proj2 (Z.eqb_neq _ _)) by lia.
    by rewrite Z.rem_mod_nonneg, Hh by lia. }
  rewrite HB. cbn [mbind option_bind]. destruct (_ && _) eqn:E94; [done|]. destruct (_ <? nTime block * _); [done|].
  destruct (_ || _ || _) eqn:Ev; [done|]. intros _. exists q, prev. subst block. cbn [nBits nTime nVersion GetBlockHeader] in *.
  unfold CheckBlockHeader in Hc. cbn [andb nBits GetBlockHeader] in Hc. destruct (CheckProofOfWork _ _ _ _) eqn:Ep; [|done].
  unfold DeploymentActiveAfter, DeploymentHeight in Ev. apply orb_false_iff in Ev as [[E1 E2]%orb_false_iff E3].
  split_and!; try done; try (by rewrite Ew, Hbits).
  - intros He Hm. rewrite He, Hm in E94. cbn in E94. apply Z.ltb_ge in E94. done.
  - intros Hv. rewrite (proj2 (Z.ltb_lt _ _) Hv) in E1. cbn in E1. apply Z.leb_gt in E1. lia.
  - intros Hv. rewrite (proj2 (Z.ltb_lt _ _) Hv) in E2. cbn in E2. apply Z.leb_gt in E2. lia.
  - intros Hv. rewrite (proj2 (Z.ltb_lt _ _) Hv) in E3. cbn in E3. apply Z.leb_gt in E3. lia.
Qed.

Section Accept.
Context (params : ConsensusParams) (Hpow : Pow.params_ok (pow params)).

(** A well-formed header whose parent, if known, is not at the last height that fits an [int]. *)
Definition acceptable (st : BlockManager) (block : CBlockHeader) : Prop :=
  urange 32 (nBits block) ∧ ∀ prev, m_block_index st !! hashPrevBlock block = Some prev → nHeight prev < 2 ^ 31 - 1.

Lemma ContextualCheckBlockHeader_total st now block prev :
  header_tree params st → m_block_index st !! hashPrevBlock block = Some prev →
  ∃ v, ContextualCheckBlockHeader params (m_block_index st) now block (hashPrevBlock block) = Some v.
Proof.
  intros [[Hl Hs _ _ _] _ _ Hb _] Hprev. unfold ContextualCheckBlockHeader. rewrite Hprev. cbn [mbind option_bind].
  destruct (GetNextWorkRequired_total _ Hl Hs _ Hpow Hb _ _ block Hprev) as [r ->]. cbn [mbind option_bind].
  case_match; [by eexists|]. rewrite (GetMedianTimePast_total _ Hl _ _ Hprev). cbn [mbind option_bind].
  case_match; [by eexists|]. pose proof (interval_pos _ Hpow).
  assert (∃ r, (if enforce_BIP94 (pow params) then rem (nHeight prev + 1) (DifficultyAdjustmentInterval (pow params)) else Some 1) = Some r)
    as [? ->].
  { unfold rem. destruct (enforce_BIP94 _); [|by eexists]. rewrite (proj2 (Z.eqb_neq _ _)) by lia. by eexists. }
  cbn [mbind option_bind]. repeat case_match; by eexists.
Qed.

(** Adding a header that passed the checks keeps the tree. *)
Lemma header_tree_add st now block prev st' p :
  header_tree params st → acceptable st block → m_block_index st !! CBlockHeader_GetHash block = None →
  m_block_index st !! hashPrevBlock block = Some prev →
  CheckBlockHeader params block true = None →
  ContextualCheckBlockHeader params (m_block_index st) now block (hashPrevBlock block) = Some None →
  AddToBlockIndex st block = Some (st', p) → index_inv st' → m_block_index st ⊆ m_block_index st' →
  header_tree params st'.
Proof.
  intros [[Hl Hs _ _ _] (g & Hg & Hgp) Hhash Hbits Hrules] [Hnb Hroom] Hnew Hprev Hc Hcc Hadd Hinv' Hsub.
  assert (Hself : hashPrevBlock block ≠ CBlockHeader_GetHash block) by congruence.
  destruct (AddToBlockIndex_entry st block st' p Hnew Hself Hadd) as (b & Hm' & -> & E1 & E2 & E3 & E4 & E5 & E6 & E7).
  rewrite Hprev in E6. cbn [mbind option_bind] in E6. specialize (E7 prev Hprev).
  pose proof (linked_height _ Hl _ _ Hprev) as H0. specialize (Hroom prev Hprev).
  rewrite (swrap_small 32) in E7 by (unfold srange; lia).
  assert (Hb : GetBlockHeader b = block).
  { unfold GetBlockHeader. rewrite E1, E2, E3, E4, E5, E6. by destruct block. }
  pose proof (ContextualCheckBlockHeader_rules params _ now block _ prev b Hprev H0 eq_refl Hb E7 E6 (interval_pos _ Hpow) Hl Hc Hcc) as Hrb.
  pose proof Hinv' as [Hl' Hs' _ _ _].
  assert (Hcases : ∀ p b', m_block_index st' !! p = Some b' → (p = CBlockHeader_GetHash block ∧ b' = b) ∨ m_block_index st !! p = Some b').
  { intros p b'. rewrite Hm', lookup_insert_Some. naive_solver. }
  split; [done|exists g; split; [by eapply lookup_weaken|done]|..].
  - intros p b' [[-> ->]|Hp]%Hcases; [by rewrite Hb|by apply Hhash].
  - intros p b' [[-> ->]|Hp]%Hcases; [|by eapply Hbits]. rewrite E4. apply (pow_bits_ok _ (CBlockHeader_GetHash block)); [done..|].
    unfold CheckBlockHeader in Hc. cbn [andb] in Hc. by destruct (CheckProofOfWork _ _ _ _).
  - intros p b' [[-> ->]|Hp]%Hcases Hne; eapply (header_rules_mono params (m_block_index st)); try done. by apply Hrules.
Qed.

(** Heights grow by at most one. *)
Definition heights_grow (st st' : BlockManager) : Prop :=
  ∀ p b, m_block_index st' !! p = Some b → m_block_index st !! p = Some b ∨
    ∃ q c, m_block_index st !! q = Some c ∧ nHeight b = nHeight c + 1.

Lemma heights_grow_refl st : heights_grow st st.
Proof. intros p b. auto. Qed.
#[local] Hint Resolve heights_grow_refl : core.

Lemma heights_grow_add st block prev st' p :
  linked (m_block_index st) → acceptable st block → m_block_index st !! CBlockHeader_GetHash block = None →
  m_block_index st !! hashPrevBlock block = Some prev → AddToBlockIndex st block = Some (st', p) → heights_grow st st'.
Proof.
  intros Hl [_ Hroom] Hnew Hprev Hadd. assert (Hself : hashPrevBlock block ≠ CBlockHeader_GetHash block) by congruence.
  destruct (AddToBlockIndex_entry st block st' p Hnew Hself Hadd) as (b & Hm' & _ & _ & _ & _ & _ & _ & _ & E7).
  pose proof (linked_height _ Hl _ _ Hprev). specialize (E7 prev Hprev). specialize (Hroom prev Hprev).
  rewrite (swrap_small 32) in E7 by (unfold srange; lia).
  intros q c. rewrite Hm', lookup_insert_Some. intros [[_ <-]|[_ ?]]; [right|by left]. by exists (hashPrevBlock block), prev.
Qed.

Lemma AcceptBlockHeader_spec now min_pow_checked block st :
  header_tree params st → acceptable st block →
  ∃ st' r, AcceptBlockHeader params now min_pow_checked block st = Some (st', r) ∧ header_tree params st' ∧
    m_block_index st ⊆ m_block_index st' ∧ heights_grow st st' ∧
    match r with
    | inl _ => st' = st
    | inr p => p = CBlockHeader_GetHash block ∧ is_Some (m_block_index st' !! p)
    end.
Proof.
  intros Ht Hacc. pose proof Ht as [Hi (g & Hg & Hgp) _ _ _]. unfold AcceptBlockHeader.
  destruct (decide _) as [Hgen|Hgen].
  { destruct min_pow_checked; cbn [negb]; [|eexists _, _; split_and!; done || auto].
    unfold AddToBlockIndex. rewrite Hgen, Hg. cbn [mbind option_bind]. eexists _, _. split_and!; done || auto. }
  destruct (m_block_index st !! CBlockHeader_GetHash block) as [known|] eqn:Hnew.
  { case_match; eexists _, _; split_and!; done || auto. }
  destruct (CheckBlockHeader params block true) eqn:Hc; [eexists _, _; split_and!; done || auto|].
  destruct (m_block_index st !! hashPrevBlock block) as [prev|] eqn:Hprev; [|eexists _, _; split_and!; done || auto].
  case_match; [eexists _, _; split_and!; done || auto|].
  destruct (ContextualCheckBlockHeader_total st now block prev Ht Hprev) as [v Hv]. rewrite Hv. cbn [mbind option_bind].
  destruct v; [eexists _, _; split_and!; done || auto|]. destruct min_pow_checked; cbn [negb]; [|eexists _, _; split_and!; done || auto].
  assert (Hadm : admissible st block).
  { destruct Hacc as [? Hroom]. split_and!; [done|congruence|done]. }
  destruct (add_cases st block Hi Hadm) as (st' & Hadd & Hinv' & Hsub & Hin). rewrite Hadd. cbn [mbind option_bind].
  pose proof (heights_grow_add st block prev st' _ ltac:(apply Hi) Hacc Hnew Hprev Hadd).
  eexists _, _. split_and!; try done. by apply (header_tree_add st now block prev st' (CBlockHeader_GetHash block)).
Qed.

(** Room for [n] more heights. *)
Definition roomy (n : nat) (st : BlockManager) : Prop :=
  ∀ p b, m_block_index st !! p = Some b → nHeight b + Z.of_nat n < 2 ^ 31.

Lemma ProcessNewBlockHeaders_spec clock min_pow_checked headers pindex st :
  header_tree params st → roomy (S (length headers)) st → Forall (λ h, urange 32 (nBits h)) headers →
  ∃ st' r, ProcessNewBlockHeaders params clock min_pow_checked headers pindex st = Some (st', r) ∧
    header_tree params st' ∧ m_block_index st ⊆ m_block_index st'.
Proof.
  intros Ht Hr Hh. revert pindex st Ht Hr. induction Hh as [|h headers Hh Hhs IH]; intros pindex st Ht Hr; cbn [ProcessNewBlockHeaders].
  { by eexists _, _. }
  destruct (AcceptBlockHeader_spec (clock (length headers)) min_pow_checked h st Ht) as (st1 & r & -> & Ht1 & Hsub1 & Hg & _).
  { split; [done|]. intros prev Hp. specialize (Hr _ _ Hp). cbn [length] in Hr. lia. }
  cbn [mbind option_bind]. destruct r as [e|p]; [by eexists _, _|].
  destruct (IH (Some p) st1 Ht1) as (st2 & r & -> & Ht2 & Hsub2).
  { intros q b [Hq|(q' & c & Hq' & ->)]%Hg; [specialize (Hr _ _ Hq)|specialize (Hr _ _ Hq')]; cbn [length] in Hr; lia. }
  eexists _, _. split_and!; try done. by etransitivity.
Qed.

(** The index of a new node: the genesis block alone. *)
Lemma header_tree_genesis genesis st p :
  CBlockHeader_GetHash genesis = hashGenesisBlock params → hashPrevBlock genesis = uint256_zero →
  hashGenesisBlock params ≠ uint256_zero → bits_ok (pow params) (nBits genesis) →
  AddToBlockIndex empty_index genesis = Some (st, p) → header_tree params st.
Proof.
  intros Hh Hp Hne Hb Hadd.
  assert (Hadm : admissible empty_index genesis).
  { destruct Hb as [Hb _]. split_and!; [done|congruence|]. cbn [m_block_index empty_index]. intros prev. by rewrite lookup_empty. }
  destruct (add_cases empty_index genesis (reachable_inv _ reach_init) Hadm) as (st' & Hadd' & Hinv & _ & _).
  rewrite Hadd in Hadd'. injection Hadd' as <- ->.
  destruct (AddToBlockIndex_entry empty_index genesis st (CBlockHeader_GetHash genesis) (lookup_empty _) ltac:(congruence) Hadd)
    as (b & Hm & _ & E1 & E2 & E3 & E4 & E5 & E6 & _).
  cbn [m_block_index empty_index] in Hm, E6. rewrite lookup_empty in E6. cbn [mbind option_bind] in E6.
  assert (Hcases : ∀ p b', m_block_index st !! p = Some b' → p = CBlockHeader_GetHash genesis ∧ b' = b).
  { intros p b'. rewrite Hm, lookup_insert_Some, lookup_empty. naive_solver. }
  split; [done|exists b; rewrite <-Hh, Hm; by rewrite lookup_insert_eq|..].
  - intros p b' [-> ->]%Hcases. f_equal. unfold GetBlockHeader. rewrite E1, E2, E3, E4, E5, E6.
    change (default uint256_zero None) with uint256_zero. rewrite <-Hp. by destruct genesis.
  - intros p b' [-> ->]%Hcases. by rewrite E4.
  - intros p b' [-> ->]%Hcases Hne'. congruence.
Qed.
End Accept.

(** Every block descends from the genesis block. *)
Lemma tree_descends params st p b :
  header_tree params st → m_block_index st !! p = Some b → ancestor (m_block_index st) p 0 = Some (hashGenesisBlock params).
Proof.
  intros [[Hl _ _ _ _] _ _ _ Hr] Hp. set (m := m_block_index st) in *. pose proof (linked_height m Hl p b Hp).
  destruct (ancestor_Some m Hl p b 0 Hp ltac:(lia)) as (q & c & Ha & Hq & Hc). rewrite Ha. f_equal.
  destruct (decide (q = hashGenesisBlock params)) as [|Hne]; [done|].
  destruct (Hr q c Hq Hne) as (q' & ? & Hq' & _). by rewrite (linked_root m Hl q c Hq Hc) in Hq'.
Qed.

(** ** Properties *)

(** The states of the block index of a node that starts from a genesis block and processes headers. *)
Inductive header_session (params : ConsensusParams) : BlockManager → Prop :=
| session_genesis genesis st p :
    CBlockHeader_GetHash genesis = hashGenesisBlock params → hashPrevBlock genesis = uint256_zero →
    hashGenesisBlock params ≠ uint256_zero → bits_ok (pow params) (nBits genesis) →
    AddToBlockIndex empty_index genesis = Some (st, p) → header_session params st
| session_accept st now min_pow_checked block st' r :
    header_session params st → acceptable st block →
    AcceptBlockHeader params now min_pow_checked block st = Some (st', r) → header_session params st'.

Lemma session_tree params st : Pow.params_ok (pow params) → header_session params st → header_tree params st.
Proof.
  intros Hpow. induction 1 as [genesis st p H1 H2 H3 H4 H5|st now mp block st' r Hs IH Hacc E].
  - by apply (header_tree_genesis params genesis st p).
  - destruct (AcceptBlockHeader_spec params Hpow now mp block st IH Hacc) as (st1 & r1 & E1 & Ht & _). congruence.
Qed.

(** C1: The headers a node accepts form a valid tree.  In every state reached from a genesis block
    by processing headers, all entries descend from the genesis block, each is stored under the
    hash of its header, and every other entry has a hash below its target, exactly the difficulty
    that the rules demand after its parent, a time later than the median time past of its parent
    (and, under BIP 94, not far before the last block of the previous period), and a version its
    height allows.  Processing one more header, with fields of their widths and a parent below the
    largest height, cannot crash, keeps all entries, and leaves the index as it was when the header
    is rejected.  The chain's proof-of-work parameters are sane ([params_ok]: a limit that fits,
    a positive spacing and timespan). *)
Theorem headers_form_valid_tree (params : ConsensusParams) (st : BlockManager) (now : Z) (min_pow_checked : bool)
    (block : CBlockHeader) (Hpow : Pow.params_ok (pow params)) (Hst : header_session params st) (Hacc : acceptable st block) :
  let m := m_block_index st in
  (∀ p b, m !! p = Some b →
     ancestor m p 0 = Some (hashGenesisBlock params) ∧ CBlockHeader_GetHash (GetBlockHeader b) = p ∧
     (p = hashGenesisBlock params ∨ header_rules params m p b)) ∧
  ∃ st' r, AcceptBlockHeader params now min_pow_checked block st = Some (st', r) ∧ header_session params st' ∧
    m ⊆ m_block_index st' ∧
    match r with inl _ => st' = st | inr p => p = CBlockHeader_GetHash block ∧ is_Some (m_block_index st' !! p) end.
Proof.
  intros m. pose proof (session_tree params st Hpow Hst) as Ht. split.
  - intros p b Hp. split_and!; [by eapply tree_descends|by eapply ht_hash|].
    destruct (decide (p = hashGenesisBlock params)); [by left|right]. by apply (ht_rules params st Ht).
  - destruct (AcceptBlockHeader_spec params Hpow now min_pow_checked block st Ht Hacc) as (st' & r & E & _ & Hsub & _ & Hr).
    exists st', r. split_and!; try done. by eapply session_accept.
Qed.

(** ** The main network *)

(** A hash as it is written: most significant byte first. *)
Definition uint256_of_hex (x : Z) : uint256 := digits 8 32 x.

Definition main_testdummy : BIP9Deployment :=
  {| bit := 28; nStartTime := NEVER_ACTIVE; nTimeout := 2 ^ 63 - 1; min_activation_height := 0; dep_threshold := 1815; dep_period := 2016 |}.
Definition main_taproot : BIP9Deployment :=
  {| bit := 2; nStartTime := 1619222400; nTimeout := 1628640000; min_activation_height := 709632; dep_threshold := 1815; dep_period := 2016 |}.

Definition main_consensus : ConsensusParams := {|
  deployments := {| pow_params := main_params; vDeployments := [main_testdummy; main_taproot];
                    MinBIP9WarningHeight := 483840; IsTestChain := false |};
  hashGenesisBlock := uint256_of_hex 0x000000000019d6689c085ae165831e934ff763ae46a2a6c172b3f1b60a8ce26f;
  nSubsidyHalvingInterval := 210000;
  script_flag_exceptions := {[
    uint256_of_hex 0x00000000000002dc756eebf4f49723ed8d30cc28a5f108eb94b1ba88ac4f9c22 := 0;
    uint256_of_hex 0x0000000000000000000f14c35b2d841e986ab5441de8c585d5ffe55ea1e395ad := (1 .<< 0) .| (1 .<< 11) ]};
  BIP34Height := 227931; BIP34Hash := uint256_of_hex 0x000000000000024b89b42a942fe0d9fea3bb44ab7bd1b19115dd6a759c0808b8;
  BIP65Height := 388381; BIP66Height := 363725; CSVHeight := 419328; SegwitHeight := 481824;
  signet_blocks := false; signet_challenge := [] |}.

(** The headers of its first two blocks. *)
Definition main_genesis : CBlockHeader :=
  {| nVersion := 1; hashPrevBlock := uint256_zero;
     hashMerkleRoot := uint256_of_hex 0x4a5e1e4baab89f3a32518a88c31bc87f618f76673e2cc77ab2127b7afdeda33b;
     nTime := 1231006505; nBits := 0x1d00ffff; nNonce := 2083236893 |}.
Definition main_block1 : CBlockHeader :=
  {| nVersion := 1; hashPrevBlock := hashGenesisBlock main_consensus;
     hashMerkleRoot := uint256_of_hex 0x0e3e2357e806b6cdb1f70b54c3a3a17b6714ee1f0e68bebb44a74b1efd512098;
     nTime := 1231469665; nBits := 0x1d00ffff; nNonce := 2573394689 |}.
Definition main_index : BlockManager := after empty_index main_genesis.

Lemma main_session : header_session main_consensus main_index.
Proof.
  apply (session_genesis main_consensus main_genesis main_index (hashGenesisBlock main_consensus)).
  - vm_compute. reflexivity.
  - reflexivity.
  - vm_compute. discriminate.
  - split; [by split|]. vm_compute. discriminate.
  - vm_compute. reflexivity.
Qed.

Lemma headers_form_valid_tree_witness :
  ∃ st', AcceptBlockHeader main_consensus (1231469744 * 10 ^ 9) true main_block1 main_index =
      Some (st', inr (CBlockHeader_GetHash main_block1)) ∧ header_session main_consensus st'.
Proof.
  destruct (headers_form_valid_tree main_consensus main_index (1231469744 * 10 ^ 9) true main_block1)
    as (_ & st' & r & E & Hs & _ & Hr).
  - exact main_params_ok.
  - exact main_session.
  - split; [by split|]. intros prev Hp.
    assert (nHeight <$> m_block_index main_index !! hashPrevBlock main_block1 = Some 0) as H0 by (vm_compute; reflexivity).
    rewrite Hp in H0. injection H0 as ->. lia.
  - destruct r as [e|p].
    + assert (H : match AcceptBlockHeader main_consensus (1231469744 * 10 ^ 9) true main_block1 main_index with
        | Some (_, inl _) => false | _ => true end = true) by (vm_compute; reflexivity).
      rewrite E in H. discriminate H.
    + exists st'. destruct Hr as [-> _]. split; [exact E|exact Hs].
Defined.
