(* ===== verification/CoinsList.v ===== *)
(** * Cache entries and the list of flagged entries: coins.h

    A [CCoinsViewCache] keeps its coins in an [unordered_map] whose nodes never move, and
    threads the DIRTY or FRESH entries on a circular doubly linked list through a sentinel.
    A node address is modelled by [pair_ptr]: the sentinel or the entry at a key.  Every
    access through a pointer can fail ([bad_pointer]), and every [Assert]/[Assume] is
    checked, so "the operation returns" includes that no assertion fails and that no
    dangling pointer is followed.  The theory shows that [AddFlags], [SetClean], [erase] and
    [clear] maintain a well-formed ring that holds exactly the flagged entries. *)

From S2P Require Import Prelude Serialize Hash Primitives.
From Stdlib Require Import ZArith Lia.
From stdpp Require Import base option list numbers gmap.

Open Scope Z_scope.
Open Scope kernel_scope.

(** ** Failures *)

Inductive failure :=
  | assertion_failed
  | bad_pointer
  | fuel_exhausted
  | overwrite_unspent      (* logic_error of AddCoin *)
  | fresh_misapplied       (* logic_error of BatchWrite *)
  | flags_not_cleared      (* logic_error of Sync *)
  | database_error         (* runtime_error of the database *)
  | value_out_of_range     (* runtime_error of GetValueOut *)
  | aborted.               (* std::abort *)

Abbreviation res := (sum failure).

Definition Assert (b : bool) : res unit := if b then inr tt else inl assertion_failed.
Definition Assume (b : bool) : res unit := Assert b.
Definition some {A} (x : option A) : res A := match x with Some a => inr a | None => inl bad_pointer end.

(** [TrySub(i, j)]: the new value of [i] and the result. *)
Definition TrySub (i j : Z) : Z * bool := if i <? j then (i, false) else (i - j, true).

(** [Assume(TrySub(i, j))]. *)
Definition sub_assumed (i j : Z) : res Z := let '(i, ok) := TrySub i j in _ ← Assume ok; inr i.

(** ** Coins *)

Record Coin := { out : CTxOut; fCoinBase : bool; coin_nHeight : Z }.

#[export] Instance Coin_eq_dec : EqDecision Coin.
Proof. solve_decision. Defined.

(** The height is a 31-bit field. *)
Definition Coin_make (o : CTxOut) (nHeightIn : Z) (fCoinBaseIn : bool) : Coin :=
  {| out := o; fCoinBase := fCoinBaseIn; coin_nHeight := uwrap 31 nHeightIn |}.
Definition coinEmpty : Coin := {| out := CTxOut_null; fCoinBase := false; coin_nHeight := 0 |}.
Definition Coin_Clear (c : Coin) : Coin := {| out := CTxOut_null; fCoinBase := false; coin_nHeight := 0 |}.
Definition IsSpent (c : Coin) : bool := CTxOut_IsNull (out c).

(** What [std::move] leaves behind: the script is emptied, the integers stay. *)
Definition Coin_moved (c : Coin) : Coin :=
  {| out := {| nValue := nValue (out c); scriptPubKey := [] |};
     fCoinBase := fCoinBase c; coin_nHeight := coin_nHeight c |}.

(** A 64-bit platform. *)
Definition sizeof_void_p : Z := 8.
Definition MallocUsage (alloc : Z) : Z :=
  if alloc =? 0 then 0
  else if sizeof_void_p =? 8 then ((alloc + 31) .>> 4) .<< 4
  else ((alloc + 15) .>> 3) .<< 3.
Definition script_direct : Z := 36.

(** The capacity of a coin's script is taken to be its size.  That is what a script has that was
    copied from a transaction, read into an empty script, moved or cleared (prevector.h, and
    [CScript::clear], which gives memory back); only a copy assignment over a longer script, which
    takes two coins of different scripts at one outpoint, would keep a larger capacity. *)
Definition DynamicMemoryUsage (c : Coin) : Z :=
  let size := Z.of_nat (length (scriptPubKey (out c))) in
  MallocUsage (if size <=? script_direct then 0 else size).

(** ** Entries *)

Inductive pair_ptr := Sentinel | Pair (k : COutPoint).

#[export] Instance pair_ptr_eq_dec : EqDecision pair_ptr.
Proof. solve_decision. Defined.

Definition DIRTY : Z := 1 .<< 0.
Definition FRESH : Z := 1 .<< 1.

Record CCoinsCacheEntry := {
  m_prev : option pair_ptr; m_next : option pair_ptr; m_flags : Z; coin : Coin }.

Definition entry_of_coin (c : Coin) : CCoinsCacheEntry :=
  {| m_prev := None; m_next := None; m_flags := 0; coin := c |}.
Definition entry_default : CCoinsCacheEntry := entry_of_coin coinEmpty.

Definition set_prev (p : option pair_ptr) (e : CCoinsCacheEntry) : CCoinsCacheEntry :=
  {| m_prev := p; m_next := m_next e; m_flags := m_flags e; coin := coin e |}.
Definition set_next (p : option pair_ptr) (e : CCoinsCacheEntry) : CCoinsCacheEntry :=
  {| m_prev := m_prev e; m_next := p; m_flags := m_flags e; coin := coin e |}.
Definition set_flags (f : Z) (e : CCoinsCacheEntry) : CCoinsCacheEntry :=
  {| m_prev := m_prev e; m_next := m_next e; m_flags := f; coin := coin e |}.
Definition set_coin (c : Coin) (e : CCoinsCacheEntry) : CCoinsCacheEntry :=
  {| m_prev := m_prev e; m_next := m_next e; m_flags := m_flags e; coin := c |}.

Definition IsDirty (e : CCoinsCacheEntry) : bool := negb (m_flags e .& DIRTY =? 0).
Definition IsFresh (e : CCoinsCacheEntry) : bool := negb (m_flags e .& FRESH =? 0).

(** The map with the sentinel of its list: [cacheCoins] and [m_sentinel]. *)
Abbreviation CCoinsMap := (gmap COutPoint CCoinsCacheEntry).
Record Ring := { m_sentinel : CCoinsCacheEntry; cacheCoins : CCoinsMap }.

Definition deref (p : pair_ptr) (m : Ring) : option CCoinsCacheEntry :=
  match p with Sentinel => Some (m_sentinel m) | Pair k => cacheCoins m !! k end.
Definition store (p : pair_ptr) (e : CCoinsCacheEntry) (m : Ring) : Ring :=
  match p with
  | Sentinel => {| m_sentinel := e; cacheCoins := cacheCoins m |}
  | Pair k => {| m_sentinel := m_sentinel m; cacheCoins := <[k := e]> (cacheCoins m) |}
  end.
(** [p->second.f = ...]. *)
Definition assign (p : pair_ptr) (f : CCoinsCacheEntry → CCoinsCacheEntry) (m : Ring) : res Ring :=
  e ← some (deref p m); inr (store p (f e) m).

(** [Next()] and [Prev()], only to be called on flagged entries. *)
Definition Next (e : CCoinsCacheEntry) : res pair_ptr := _ ← Assume (negb (m_flags e =? 0)); some (m_next e).
Definition Prev (e : CCoinsCacheEntry) : res pair_ptr := _ ← Assume (negb (m_flags e =? 0)); some (m_prev e).

(** The ring of a new cache. *)
Definition SelfRef : CCoinsCacheEntry :=
  {| m_prev := Some Sentinel; m_next := Some Sentinel; m_flags := DIRTY; coin := coinEmpty |}.
Definition Ring_empty : Ring := {| m_sentinel := SelfRef; cacheCoins := ∅ |}.

Definition AddFlags (flags : Z) (p : pair_ptr) (m : Ring) : res Ring :=
  _ ← Assume (negb (flags .& (DIRTY .| FRESH) =? 0));
  e ← some (deref p m);
  m ← (if m_flags e =? 0 then
         _ ← Assume (bool_decide (m_prev e = None) && bool_decide (m_next e = None));
         m ← assign p (set_prev (m_prev (m_sentinel m))) m;
         m ← assign p (set_next (Some Sentinel)) m;
         m ← assign Sentinel (set_prev (Some p)) m;
         e ← some (deref p m);
         q ← some (m_prev e);
         assign q (set_next (Some p)) m
       else inr m);
  e ← some (deref p m);
  _ ← Assume (negb (bool_decide (m_prev e = None)) && negb (bool_decide (m_next e = None)));
  inr (store p (set_flags (m_flags e .| flags) e) m).

Definition SetDirty (k : COutPoint) (m : Ring) : res Ring := AddFlags DIRTY (Pair k) m.
Definition SetFresh (k : COutPoint) (m : Ring) : res Ring := AddFlags FRESH (Pair k) m.

Definition SetClean (k : COutPoint) (m : Ring) : res Ring :=
  e ← some (deref (Pair k) m);
  if m_flags e =? 0 then inr m else
  n ← some (m_next e);
  m ← assign n (set_prev (m_prev e)) m;
  e ← some (deref (Pair k) m);
  p ← some (m_prev e);
  m ← assign p (set_next (m_next e)) m;
  assign (Pair k) (λ e, set_prev None (set_next None (set_flags 0 e))) m.

(** [cacheCoins.erase(it)]: the destructor of the entry calls [SetClean]. *)
Definition erase (k : COutPoint) (m : Ring) : res Ring :=
  m ← SetClean k m;
  inr {| m_sentinel := m_sentinel m; cacheCoins := delete k (cacheCoins m) |}.

(** [cacheCoins.clear()] destroys the entries one by one. *)
Fixpoint erase_all (ks : list COutPoint) (m : Ring) : res Ring :=
  match ks with
  | [] => inr m
  | k :: ks => m ← erase k m; erase_all ks m
  end.
Definition clear (m : Ring) : res Ring := erase_all (map fst (map_to_list (cacheCoins m))) m.

(** ** The ring: links and contents of a node *)

Definition nx (m : Ring) (p : pair_ptr) : option pair_ptr := deref p m ≫= m_next.
Definition pv (m : Ring) (p : pair_ptr) : option pair_ptr := deref p m ≫= m_prev.
Definition info (m : Ring) (p : pair_ptr) : option (Z * Coin) := (λ e, (m_flags e, coin e)) <$> deref p m.

(** The contents of the map without the links: flags and coin of every entry. *)
Definition data (m : Ring) : gmap COutPoint (Z * Coin) := (λ e, (m_flags e, coin e)) <$> cacheCoins m.

#[global] Arguments data _ : simpl never.
#[global] Arguments store _ _ _ : simpl never.

(** [l] is a chain of consecutive nodes starting after [p]. *)
Fixpoint path (m : Ring) (p : pair_ptr) (l : list pair_ptr) : Prop :=
  match l with
  | [] => True
  | q :: l => nx m p = Some q ∧ pv m q = Some p ∧ path m q l
  end.

(** The ring holds exactly the flagged entries, in the order [ks]; the others have null links. *)
Definition ring (m : Ring) (ks : list COutPoint) : Prop :=
  NoDup ks ∧ path m Sentinel (map Pair ks ++ [Sentinel]) ∧
  ∀ x f c, info m x = Some (f, c) →
    (f ≠ 0 ↔ x ∈ Sentinel :: map Pair ks) ∧ (f = 0 → pv m x = None ∧ nx m x = None).

(** Runs the binds of the error monad whose first computation has a known result. *)
Ltac step := cbn [mbind sum_mbind].

Lemma data_info m k : data m !! k = info m (Pair k).
Proof. unfold data, info. by rewrite lookup_fmap. Qed.

Lemma deref_store p q e m : deref p (store q e m) = if decide (p = q) then Some e else deref p m.
Proof.
  destruct p, q; simpl; repeat case_decide; simplify_eq; try done.
  - by rewrite lookup_insert_eq.
  - rewrite lookup_insert_ne; congruence.
Qed.

Lemma info_Some m p x : info m p = Some x → is_Some (deref p m).
Proof. unfold info. destruct (deref p m); [eauto|done]. Qed.

(** The observable effect of an assignment to a member. *)
Lemma assign_prev p v m :
  is_Some (deref p m) →
  ∃ m', assign p (set_prev v) m = inr m' ∧
    (∀ x, nx m' x = nx m x) ∧ (∀ x, pv m' x = if decide (x = p) then v else pv m x) ∧
    (∀ x, info m' x = info m x).
Proof.
  intros [e He]. unfold assign. rewrite He. eexists. split; [done|].
  unfold nx, pv, info.
  split_and!; intros x; rewrite deref_store; case_decide; subst; rewrite ?He; done.
Qed.

Lemma assign_next p v m :
  is_Some (deref p m) →
  ∃ m', assign p (set_next v) m = inr m' ∧
    (∀ x, nx m' x = if decide (x = p) then v else nx m x) ∧ (∀ x, pv m' x = pv m x) ∧
    (∀ x, info m' x = info m x).
Proof.
  intros [e He]. unfold assign. rewrite He. eexists. split; [done|].
  unfold nx, pv, info.
  split_and!; intros x; rewrite deref_store; case_decide; subst; rewrite ?He; done.
Qed.

Lemma deref_same m m' p :
  (∀ x, info m' x = info m x) → is_Some (deref p m) → is_Some (deref p m').
Proof.
  intros H [e He]. specialize (H p). unfold info in H. rewrite He in H.
  destruct (deref p m'); [eauto|done].
Qed.

Lemma path_snoc m p l q :
  path m p (l ++ [q]) ↔
  path m p l ∧ nx m (default p (list.last l)) = Some q ∧ pv m q = Some (default p (list.last l)).
Proof.
  revert p. induction l as [|a l IH]; intros p; simpl; [tauto|].
  rewrite IH. destruct l as [|b l]; simpl; [tauto|].
  destruct (list.last (b :: l)) eqn:E; [simpl; tauto|]. by apply last_None in E.
Qed.

Lemma path_app m p l1 q l2 :
  path m p (l1 ++ q :: l2) ↔ path m p (l1 ++ [q]) ∧ path m q l2.
Proof. revert p. induction l1 as [|a l1 IH]; intros p; simpl; [tauto|]. rewrite IH. tauto. Qed.

Lemma path_frame m m' p l :
  (∀ x, x ∈ removelast (p :: l) → nx m' x = nx m x) → (∀ x, x ∈ l → pv m' x = pv m x) →
  path m p l → path m' p l.
Proof.
  revert p. induction l as [|q l IH]; intros p Hn Hp; [done|].
  intros (H1 & H2 & H3). split_and!.
  - rewrite Hn; [done|]. simpl. destruct l; set_solver.
  - rewrite Hp; [done|set_solver].
  - apply IH; [|set_solver|done]. intros x Hx. apply Hn. simpl in *. set_solver.
Qed.

Lemma removelast_snoc {A} (l : list A) x : removelast (l ++ [x]) = l.
Proof. rewrite removelast_app by done. by rewrite app_nil_r. Qed.

Lemma removelast_elem {A} (x : A) l : x ∈ removelast l → x ∈ l.
Proof.
  destruct l as [|a l _] using rev_ind; [done|]. rewrite removelast_snoc. set_solver.
Qed.

Lemma last_or_not_removelast {A} (p : A) l :
  NoDup (p :: l) → default p (list.last l) ∉ removelast (p :: l).
Proof.
  intros ND. destruct l as [|a l _] using rev_ind; [simpl; set_solver|].
  rewrite last_snoc. change (p :: l ++ [a]) with ((p :: l) ++ [a]) in *.
  rewrite removelast_snoc. apply NoDup_app in ND as (_ & ND & _). set_solver.
Qed.

Lemma NoDup_ptrs ks : NoDup ks → NoDup (Sentinel :: map Pair ks).
Proof.
  intros. apply NoDup_cons. split; [intros (k & [=] & _)%list_elem_of_fmap|].
  apply NoDup_fmap; [|done]. by intros ?? [= ->].
Qed.

Lemma Pair_elem k ks : Pair k ∈ Sentinel :: map Pair ks ↔ k ∈ ks.
Proof. rewrite elem_of_cons, list_elem_of_fmap. split; [intros [[=]|(k' & [= ->] & ?)]; done|eauto]. Qed.

(** The contents after writing flags and coin of one node. *)
Lemma store_node p e m :
  is_Some (deref p m) → nx m p = m_next e → pv m p = m_prev e →
  (∀ x, nx (store p e m) x = nx m x) ∧ (∀ x, pv (store p e m) x = pv m x) ∧
  (∀ x, info (store p e m) x = if decide (x = p) then Some (m_flags e, coin e) else info m x).
Proof.
  intros [e' He] Hn Hp. unfold nx, pv, info in *. rewrite He in Hn, Hp. simpl in Hn, Hp.
  split_and!; intros x; rewrite deref_store; case_decide; subst; rewrite ?He; simpl; congruence.
Qed.

(** Linking an unflagged node before the sentinel. *)
Lemma link_node k m ks :
  ring m ks → k ∉ ks → is_Some (deref (Pair k) m) →
  ∃ m', (m ← assign (Pair k) (set_prev (m_prev (m_sentinel m))) m;
         m ← assign (Pair k) (set_next (Some Sentinel)) m;
         m ← assign Sentinel (set_prev (Some (Pair k))) m;
         e ← some (deref (Pair k) m);
         q ← some (m_prev e);
         assign q (set_next (Some (Pair k))) m) = inr m' ∧
    path m' Sentinel (map Pair (ks ++ [k]) ++ [Sentinel]) ∧
    (∀ x, info m' x = info m x) ∧
    (∀ x, x ∉ Sentinel :: map Pair (ks ++ [k]) → pv m' x = pv m x ∧ nx m' x = nx m x).
Proof.
  intros (ND & Hpath & _) Hk Hd.
  apply path_snoc in Hpath as (Hpath & Hlast & Hsent).
  pose proof (last_or_not_removelast _ _ (NoDup_ptrs ks ND)) as Hnot.
  set (a := default Sentinel (list.last (map Pair ks))) in *.
  assert (Ha : a ∈ Sentinel :: map Pair ks).
  { unfold a. destruct (list.last _) eqn:E; simpl; [|set_solver].
    apply last_Some_elem_of in E. set_solver. }
  assert (Hak : a ≠ Pair k) by (intros ->; by apply Pair_elem in Ha).
  change (m_prev (m_sentinel m)) with (pv m Sentinel). rewrite Hsent.
  destruct (assign_prev (Pair k) (Some a) m Hd) as (m1 & -> & N1 & P1 & I1). step.
  destruct (assign_next (Pair k) (Some Sentinel) m1) as (m2 & -> & N2 & P2 & I2);
    [by apply (deref_same m)|]. step.
  destruct (assign_prev Sentinel (Some (Pair k)) m2) as (m3 & -> & N3 & P3 & I3); [done|]. step.
  assert (I : ∀ x, info m3 x = info m x) by (intros; by rewrite I3, I2, I1).
  assert (Hq : pv m3 (Pair k) = Some a).
  { rewrite P3, decide_False, P2, P1, decide_True by done. done. }
  destruct (deref_same _ _ _ I Hd) as [e He]. unfold pv in Hq. rewrite He in *. cbn [mbind option_bind] in Hq.
  cbn [some]. step. rewrite Hq. cbn [some]. step.
  destruct (assign_next a (Some (Pair k)) m3) as (m4 & -> & N4 & P4 & I4).
  { apply (deref_same m m3 a I). unfold nx in Hlast. destruct (deref a m); [eauto|done]. }
  assert (N : ∀ x, nx m4 x = if decide (x = a) then Some (Pair k) else
                             if decide (x = Pair k) then Some Sentinel else nx m x).
  { intros x. rewrite N4, N3, N2. repeat case_decide; done. }
  assert (P : ∀ x, pv m4 x = if decide (x = Sentinel) then Some (Pair k) else
                             if decide (x = Pair k) then Some a else pv m x).
  { intros x. rewrite P4, P3, P2, P1. repeat case_decide; done. }
  exists m4. split; [done|]. rewrite map_app. split_and!.
  - assert (Hpath' : path m4 Sentinel (map Pair ks)).
    { apply (path_frame m); [..|done].
      + intros x Hx. rewrite N, !decide_False; [done| |intros ->; done].
        intros ->. apply Hk, Pair_elem. by apply removelast_elem.
      + intros x Hx. rewrite P, !decide_False; [done| |].
        * intros ->. apply Hk, Pair_elem. set_solver.
        * intros ->. by apply NoDup_ptrs, NoDup_cons in ND as [? _]. }
    cbn [map]. rewrite !path_snoc, last_snoc. fold a. rewrite !N, !P. cbn.
    split_and!; repeat case_decide; congruence || done.
  - intros x. by rewrite I4.
  - intros x Hx. cbn [map] in Hx. rewrite N, P, !decide_False by set_solver. done.
Qed.

Lemma path_links m p l q x :
  x ∈ l → path m p (l ++ [q]) → is_Some (pv m x) ∧ is_Some (nx m x).
Proof.
  intros (l1 & l2 & ->)%list_elem_of_split. rewrite <-app_assoc. cbn [app].
  rewrite path_app, path_snoc. intros ((_ & _ & Hp) & H2).
  destruct l2; destruct H2 as [Hn _]; rewrite Hp, Hn; eauto.
Qed.

Lemma data_store k e m :
  data (store (Pair k) e m) = <[k := (m_flags e, coin e)]> (data m).
Proof. unfold data. simpl. by rewrite fmap_insert. Qed.

Lemma data_ext m m' : (∀ x, info m' x = info m x) → data m' = data m.
Proof. intros H. apply map_eq. intros k. by rewrite !data_info, H. Qed.

(** Raising flags of a node that is on the ring. *)
Lemma flag_node k fl m ks f c :
  NoDup ks → path m Sentinel (map Pair ks ++ [Sentinel]) → k ∈ ks → fl ≠ 0 →
  info m (Pair k) = Some (f, c) →
  (∀ x g d, x ≠ Pair k → info m x = Some (g, d) →
    (g ≠ 0 ↔ x ∈ Sentinel :: map Pair ks) ∧ (g = 0 → pv m x = None ∧ nx m x = None)) →
  ∃ m', (e ← some (deref (Pair k) m);
         _ ← Assume (negb (bool_decide (m_prev e = None)) && negb (bool_decide (m_next e = None)));
         inr (store (Pair k) (set_flags (m_flags e .| fl) e) m)) = inr m' ∧
    ring m' ks ∧ data m' = <[k := (f .| fl, c)]> (data m).
Proof.
  intros ND Hpath Hk Hfl Hi Hoth.
  destruct (path_links m Sentinel (map Pair ks) Sentinel (Pair k)) as [[p Hp] [n Hn]];
    [by apply list_elem_of_fmap_2|done|].
  unfold info in Hi. destruct (deref (Pair k) m) as [e|] eqn:He; [|done].
  unfold pv, nx in Hp, Hn. rewrite He in Hp, Hn. simpl in Hp, Hn, Hi. simplify_eq.
  cbn [some]. step. rewrite Hp, Hn. cbn -[store]. eexists. split; [done|].
  destruct (store_node (Pair k) (set_flags (m_flags e .| fl) e) m) as (N & P & I);
    [by rewrite He|unfold nx; by rewrite He|unfold pv; by rewrite He|].
  split; [|by rewrite data_store].
  split_and!; [done|apply (path_frame m); auto|].
  intros x g d. rewrite I, N, P. case_decide; [|by apply Hoth].
  intros [= <- <-]. subst x. rewrite Pair_elem. split; [|intros [_ ?]%Z.lor_eq_0_iff; done].
  split; [done|]. intros _ [_ ?]%Z.lor_eq_0_iff. done.
Qed.

Lemma AddFlags_spec fl k m ks f c :
  ring m ks → data m !! k = Some (f, c) → fl = DIRTY ∨ fl = FRESH →
  ∃ m', AddFlags fl (Pair k) m = inr m' ∧
    ring m' (if f =? 0 then ks ++ [k] else ks) ∧ data m' = <[k := (f .| fl, c)]> (data m).
Proof.
  intros Hr Hd Hfl. rewrite data_info in Hd. unfold AddFlags.
  assert (fl ≠ 0) by (destruct Hfl; subst; done).
  replace (negb (fl .& (DIRTY .| FRESH) =? 0)) with true by (destruct Hfl; subst; done).
  cbn [Assume Assert]. step.
  pose proof (info_Some _ _ _ Hd) as Hsome. destruct Hsome as [e He].
  pose proof Hr as (ND & Hpath & Hinfo). pose proof (Hinfo _ _ _ Hd) as [Hin Hnull].
  rewrite Pair_elem in Hin. pose proof Hd as Hd'. unfold info in Hd'.
  rewrite He in Hd' |- *. cbn [some]. step. simpl in Hd'. simplify_eq.
  destruct (Z.eqb_spec (m_flags e) 0) as [E|E]; step.
  - destruct (Hnull E) as [Hp Hn]. unfold pv, nx in Hp, Hn. rewrite He in Hp, Hn. simpl in Hp, Hn.
    rewrite Hp, Hn. cbn [bool_decide decide_rel andb]. cbn [Assume Assert]. step.
    assert (k ∉ ks) by (rewrite <-Hin; lia).
    destruct (link_node k m ks Hr) as (m1 & -> & Hpath1 & I1 & Hoff); [done|by rewrite He|]. step.
    rewrite <-(data_ext m m1) by done. apply flag_node; try done.
    + apply NoDup_app. split_and!; [done|set_solver|apply NoDup_singleton].
    + set_solver.
    + by rewrite I1.
    + intros x g d Hx Hg. rewrite I1 in Hg. destruct (Hinfo _ _ _ Hg) as [A B].
      rewrite map_app. split; [rewrite A; cbn [map]; set_solver|].
      intros ->. destruct (Hoff x) as [-> ->]; [|auto].
      rewrite map_app. cbn [map]. intros Hx'. apply A; [|done]. set_solver.
  - apply flag_node; try done; [by apply Hin|]. intros x g d _. apply Hinfo.
Qed.

(** The neighbours of a node of the ring, and the ring that joins them. *)
Lemma unlink_node k m l1 l2 :
  NoDup (l1 ++ k :: l2) → path m Sentinel (map Pair (l1 ++ k :: l2) ++ [Sentinel]) →
  ∃ p n, pv m (Pair k) = Some p ∧ nx m (Pair k) = Some n ∧ nx m p = Some (Pair k) ∧ pv m n = Some (Pair k) ∧
    p ∈ Sentinel :: map Pair (l1 ++ l2) ∧ n ∈ Sentinel :: map Pair (l1 ++ l2) ∧
    ∀ m', (∀ x, x ≠ Pair k → nx m' x = if decide (x = p) then Some n else nx m x) →
          (∀ x, x ≠ Pair k → pv m' x = if decide (x = n) then Some p else pv m x) →
          path m' Sentinel (map Pair (l1 ++ l2) ++ [Sentinel]).
Proof.
  intros ND Hpath. pose proof (NoDup_ptrs _ ND) as ND'.
  rewrite map_app in ND'. rewrite map_app, <-app_assoc in Hpath. cbn [map app] in Hpath, ND'.
  apply path_app in Hpath as [Hpath1 Hpath2]. apply path_snoc in Hpath1 as (Hpath1 & Hn1 & Hp1).
  pose proof (last_or_not_removelast Sentinel (map Pair l1)) as Hnot.
  set (p := default Sentinel (list.last (map Pair l1))) in *.
  assert (Hq : ∃ n l, map Pair l2 ++ [Sentinel] = n :: l) by (destruct l2; simpl; eauto).
  destruct Hq as (n & l & Hl). rewrite Hl in Hpath2. destruct Hpath2 as (Hn2 & Hp2 & Hpath2).
  assert (Hpin : p ∈ Sentinel :: map Pair l1).
  { unfold p. destruct (list.last _) eqn:E; simpl; [|set_solver].
    apply last_Some_elem_of in E. set_solver. }
  assert (Hnin : ∀ x, x ∈ n :: l ↔ x = Sentinel ∨ x ∈ map Pair l2) by (intros x; rewrite <-Hl; set_solver).
  change (Sentinel :: map Pair l1 ++ Pair k :: map Pair l2)
    with ((Sentinel :: map Pair l1) ++ Pair k :: map Pair l2) in ND'.
  apply NoDup_app in ND' as (ND1 & Hdis & [Hk2 ND2]%NoDup_cons).
  assert (NDl : NoDup (n :: l)).
  { rewrite <-Hl. apply NoDup_app. split_and!; [done|set_solver|apply NoDup_singleton]. }
  assert (Hnl : n ∉ l) by (apply NoDup_cons in NDl; tauto).
  assert (Hk1 : Pair k ∉ Sentinel :: map Pair l1) by (intros H; apply (Hdis _ H), elem_of_cons; auto).
  assert (Hdis2 : ∀ x, x ∈ Sentinel :: map Pair l1 → x ∉ map Pair l2)
    by (intros x H H2; apply (Hdis _ H), elem_of_cons; auto).
  assert (Hkn : ∀ x, x ∈ n :: l → x ≠ Pair k) by (intros x [->|H]%Hnin E; [done|by subst]).
  clear Hdis. exists p, n. rewrite map_app. split_and!; try done.
  { rewrite elem_of_cons in Hpin |- *. rewrite elem_of_app. tauto. }
  { rewrite elem_of_cons, elem_of_app. destruct (proj1 (Hnin n)); [by left|auto..]. }
  intros m' N P. rewrite <-app_assoc, Hl, path_app, path_snoc. fold p.
  rewrite (N p), (P n), !decide_True; [|done..|apply Hkn; by left|intros E; by rewrite E in Hpin].
  split_and!; try done.
  - apply (path_frame m); [..|done]; intros x Hx.
    + rewrite N, decide_False; [done|intros ->; by apply Hnot|].
      intros ->. by apply removelast_elem in Hx.
    + rewrite P, decide_False; [done| |intros ->; apply Hk1; by right].
      intros ->. destruct (proj1 (Hnin n)) as [->|]; [by left| |].
      * by apply NoDup_cons in ND1 as [? _].
      * by apply (Hdis2 n); [right|].
  - apply (path_frame m); [..|done]; intros x Hx.
    + rewrite <-Hl, removelast_snoc in Hx.
      rewrite N, decide_False; [done|intros ->; by apply (Hdis2 p)|by intros ->].
    + rewrite P, decide_False; [done|by intros ->|apply Hkn; by right].
Qed.

Lemma store_ne k e m x :
  x ≠ Pair k →
  nx (store (Pair k) e m) x = nx m x ∧ pv (store (Pair k) e m) x = pv m x ∧
  info (store (Pair k) e m) x = info m x.
Proof. intros Hx. unfold nx, pv, info. by rewrite deref_store, decide_False. Qed.

(** Writing an unflagged node that is not on the ring. *)
Lemma store_unlinked k e m ks :
  NoDup ks → path m Sentinel (map Pair ks ++ [Sentinel]) → k ∉ ks →
  m_prev e = None → m_next e = None → m_flags e = 0 →
  (∀ x g d, x ≠ Pair k → info m x = Some (g, d) →
    (g ≠ 0 ↔ x ∈ Sentinel :: map Pair ks) ∧ (g = 0 → pv m x = None ∧ nx m x = None)) →
  ring (store (Pair k) e m) ks.
Proof.
  intros ND Hpath Hk Hp Hn Hf Hoth.
  assert (Hne : ∀ x, x ∈ Sentinel :: map Pair ks → x ≠ Pair k) by (intros x Hx ->; by apply Pair_elem in Hx).
  split_and!; [done| |].
  - apply (path_frame m); [..|done]; intros x Hx; apply store_ne, Hne.
    + rewrite app_comm_cons, removelast_snoc in Hx. done.
    + apply elem_of_app in Hx as [?|?%list_elem_of_singleton]; [by right|subst; by left].
  - intros x g d. destruct (decide (x = Pair k)) as [->|Hx].
    + unfold info, pv, nx. rewrite deref_store, decide_True by done. cbn. rewrite Hp, Hn, Hf.
      intros [= <- <-]. rewrite Pair_elem. done.
    + destruct (store_ne k e m x Hx) as (-> & -> & ->). by apply Hoth.
Qed.

(** Unlinking a flagged entry and clearing its flags. *)
Lemma SetClean_flagged k m l1 l2 f c :
  ring m (l1 ++ k :: l2) → data m !! k = Some (f, c) →
  ∃ m', SetClean k m = inr m' ∧ ring m' (l1 ++ l2) ∧ data m' = <[k := (0, c)]> (data m).
Proof.
  intros (ND & Hpath & Hinfo) Hd. rewrite data_info in Hd.
  assert (Hf : f ≠ 0) by (apply (Hinfo _ _ _ Hd), Pair_elem; set_solver).
  destruct (unlink_node k m l1 l2 ND Hpath) as (p & n & Hp & Hn & Hnp & Hpn & Hpin & Hnin & Hjoin).
  assert (Hks : k ∉ l1 ++ l2).
  { apply NoDup_app in ND as (_ & ? & [??]%NoDup_cons). set_solver. }
  assert (Hpk : p ≠ Pair k) by (intros ->; by apply Pair_elem in Hpin).
  assert (Hnk : n ≠ Pair k) by (intros ->; by apply Pair_elem in Hnin).
  unfold SetClean. pose proof Hd as Hd'. pose proof Hn as Hn'. pose proof Hp as Hp'.
  unfold info, pv, nx in Hd', Hp', Hn'.
  destruct (deref (Pair k) m) as [e|] eqn:He; [|done]. cbn in Hd', Hp', Hn'. simplify_eq.
  cbn [some]. step. destruct (Z.eqb_spec (m_flags e) 0) as [|_]; [done|]. rewrite Hn', Hp'. cbn [some]. step.
  destruct (assign_prev n (Some p) m) as (m1 & -> & N1 & P1 & I1).
  { unfold pv in Hpn. destruct (deref n m); [eauto|done]. }
  step. destruct (deref_same _ _ _ I1 (ex_intro _ _ He)) as [e1 He1].
  assert (m_next e1 = Some n ∧ m_prev e1 = Some p) as [En Ep].
  { pose proof (N1 (Pair k)) as A. pose proof (P1 (Pair k)) as B. rewrite decide_False in B by done.
    rewrite Hn in A. rewrite Hp in B. unfold nx, pv in A, B. rewrite He1 in A, B. done. }
  rewrite He1. cbn [some]. step. rewrite Ep, En. cbn [some]. step.
  destruct (assign_next p (Some n) m1) as (m2 & -> & N2 & P2 & I2).
  { apply (deref_same m); [done|]. unfold nx in Hnp. destruct (deref p m); [eauto|done]. }
  step. destruct (deref_same m m2 (Pair k)) as [e2 He2]; [intros; by rewrite I2, I1|by rewrite He|].
  unfold assign. rewrite He2. cbn [some]. step. eexists. split; [done|].
  assert (Hc : coin e2 = coin e).
  { assert (A : info m2 (Pair k) = info m (Pair k)) by by rewrite I2, I1.
    unfold info in A. rewrite He2, He in A. by injection A. }
  rewrite data_store. cbn [coin m_flags set_prev set_next set_flags].
  rewrite Hc, (data_ext m m2) by (intros; by rewrite I2, I1). split; [|done].
  apply store_unlinked; try done.
  - apply NoDup_app in ND as (? & ? & [??]%NoDup_cons). apply NoDup_app. set_solver.
  - apply Hjoin; intros x Hx; [by rewrite N2, N1|by rewrite P2, P1].
  - intros x g d Hx Hg. rewrite I2, I1 in Hg. destruct (Hinfo _ _ _ Hg) as [A B].
    rewrite map_app in A, Hpin, Hnin |- *. cbn [map] in A.
    assert (A' : g ≠ 0 ↔ x ∈ Sentinel :: map Pair l1 ++ map Pair l2).
    { rewrite A, !elem_of_cons, !elem_of_app, elem_of_cons. tauto. }
    split; [done|]. intros ->. rewrite P2, P1, N2, N1, !decide_False; [auto|..]; intros ->; tauto.
Qed.

(** ** The operations on the ring and the contents *)

Lemma ring_elem m ks k f c : ring m ks → data m !! k = Some (f, c) → f ≠ 0 ↔ k ∈ ks.
Proof.
  intros (_ & _ & H) Hd. rewrite data_info in Hd. rewrite <-Pair_elem. by destruct (H _ _ _ Hd).
Qed.

Lemma ring_lookup m ks k : ring m ks → k ∈ ks → is_Some (data m !! k).
Proof.
  intros (_ & Hpath & _) Hk. rewrite data_info.
  destruct (path_links m Sentinel (map Pair ks) Sentinel (Pair k)) as [[p Hp] _];
    [by apply list_elem_of_fmap_2|done|].
  unfold pv in Hp. unfold info. destruct (deref (Pair k) m); [eauto|done].
Qed.

Lemma filter_all {A} (P : A → Prop) `{!∀ x, Decision (P x)} (l : list A) :
  (∀ x, x ∈ l → P x) → filter P l = l.
Proof.
  induction l as [|x l IH]; intros HP; [done|].
  rewrite filter_cons_True by (apply HP; by left). f_equal. apply IH. intros. apply HP. by right.
Qed.

Lemma SetClean_spec k m ks f c :
  ring m ks → data m !! k = Some (f, c) →
  ∃ m', SetClean k m = inr m' ∧ ring m' (filter (.≠ k) ks) ∧ data m' = <[k := (0, c)]> (data m).
Proof.
  intros Hr Hd. destruct (decide (k ∈ ks)) as [Hk|Hk].
  - apply list_elem_of_split in Hk as (l1 & l2 & ->).
    pose proof Hr as (ND & _). apply NoDup_app in ND as (_ & ND1 & [ND2 _]%NoDup_cons).
    replace (filter (.≠ k) (l1 ++ k :: l2)) with (l1 ++ l2); [by eapply SetClean_flagged|].
    rewrite filter_app, filter_cons_False by auto.
    rewrite !filter_all; [done|..]; intros x Hx ->; set_solver.
  - assert (f = 0) by (pose proof (ring_elem _ _ _ _ _ Hr Hd); destruct (decide (f = 0)); tauto). subst f.
    exists m. rewrite filter_all by (intros x Hx ->; done).
    split_and!; [|done|by rewrite insert_id]. rewrite data_info in Hd. unfold SetClean, info in *.
    destruct (deref (Pair k) m); [|done]. simpl in Hd. cbn [some]. step. injection Hd as E _. by rewrite E.
Qed.

Lemma erase_spec k m ks f c :
  ring m ks → data m !! k = Some (f, c) →
  ∃ m', erase k m = inr m' ∧ ring m' (filter (.≠ k) ks) ∧ data m' = delete k (data m).
Proof.
  intros Hr Hd. destruct (SetClean_spec k m ks f c Hr Hd) as (m1 & E & (ND & Hpath & Hinfo) & D).
  unfold erase. rewrite E. step. eexists. split; [done|].
  set (m2 := Build_Ring _ _).
  assert (Hk : k ∉ filter (.≠ k) ks) by (rewrite list_elem_of_filter; naive_solver).
  assert (Hne : ∀ x, x ≠ Pair k → deref x m2 = deref x m1).
  { intros [|k'] Hx; [done|]. simpl. apply lookup_delete_ne. congruence. }
  assert (Hk2 : deref (Pair k) m2 = None) by apply lookup_delete_eq.
  split.
  - split_and!; [done| |].
    + apply (path_frame m1); [..|done]; intros x Hx; unfold nx, pv; rewrite Hne; try done; intros ->.
      * rewrite app_comm_cons, removelast_snoc in Hx. by apply Pair_elem in Hx.
      * apply Hk, Pair_elem. set_solver.
    + intros x g d. destruct (decide (x = Pair k)) as [->|Hx].
      * unfold info. by rewrite Hk2.
      * unfold info, pv, nx. rewrite Hne by done. apply Hinfo.
  - unfold data, m2 in *. cbn [cacheCoins]. rewrite fmap_delete. fold (data m1).
    unfold data. rewrite D. apply delete_insert_eq.
Qed.

Lemma erase_all_spec ks' m ks :
  ring m ks → NoDup ks' → (∀ k, is_Some (data m !! k) ↔ k ∈ ks') →
  ∃ m', erase_all ks' m = inr m' ∧ ring m' [] ∧ data m' = ∅.
Proof.
  revert m ks. induction ks' as [|k ks' IH]; intros m ks Hr ND Hdom; simpl.
  - assert (data m = ∅) as He.
    { apply map_eq. intros k. rewrite lookup_empty. apply eq_None_not_Some. rewrite Hdom. set_solver. }
    exists m. split_and!; [done| |done]. replace [] with ks; [done|].
    destruct ks as [|k ks]; [done|]. destruct (ring_lookup m (k :: ks) k Hr) as [? H]; [by left|].
    by rewrite He in H.
  - apply NoDup_cons in ND as [Hk ND].
    destruct (proj2 (Hdom k)) as [[f c] Hd]; [by left|].
    destruct (erase_spec k m ks f c Hr Hd) as (m1 & -> & Hr1 & D1). step.
    apply (IH m1 _ Hr1 ND). intros k'. rewrite D1. destruct (decide (k = k')) as [<-|].
    + rewrite lookup_delete_eq. split; [by intros []|done].
    + rewrite lookup_delete_ne, Hdom, elem_of_cons by done. naive_solver.
Qed.

Lemma clear_spec m ks : ring m ks → ∃ m', clear m = inr m' ∧ ring m' [] ∧ data m' = ∅.
Proof.
  intros Hr. apply (erase_all_spec _ m ks); [done|apply NoDup_fst_map_to_list|].
  intros k. unfold data. rewrite lookup_fmap, fmap_is_Some. split.
  - intros [e He]. apply list_elem_of_fmap. exists (k, e). split; [done|]. by apply elem_of_map_to_list.
  - intros ([k' e] & -> & He)%list_elem_of_fmap. apply elem_of_map_to_list in He. eauto.
Qed.

Lemma emplace_spec k c m ks :
  ring m ks → data m !! k = None →
  ring (store (Pair k) (entry_of_coin c) m) ks ∧
  data (store (Pair k) (entry_of_coin c) m) = <[k := (0, c)]> (data m).
Proof.
  intros Hr Hd. split; [|by rewrite data_store]. pose proof Hr as (ND & Hpath & Hinfo).
  apply store_unlinked; try done; [|intros; by eapply Hinfo].
  intros Hk. destruct (ring_lookup m ks k Hr Hk). congruence.
Qed.

Lemma set_coin_spec k c m ks e :
  ring m ks → deref (Pair k) m = Some e →
  ring (store (Pair k) (set_coin c e) m) ks ∧
  data (store (Pair k) (set_coin c e) m) = <[k := (m_flags e, c)]> (data m).
Proof.
  intros (ND & Hpath & Hinfo) He. split; [|by rewrite data_store].
  destruct (store_node (Pair k) (set_coin c e) m) as (N & P & I);
    [by rewrite He|unfold nx; by rewrite He|unfold pv; by rewrite He|].
  split_and!; [done|by apply (path_frame m)|].
  intros x g d. rewrite I, N, P. case_decide; [|apply Hinfo]. subst x. intros [= <- <-].
  apply (Hinfo _ _ (coin e)). unfold info. by rewrite He.
Qed.

Lemma ring_empty : ring Ring_empty [] ∧ data Ring_empty = ∅.
Proof.
  split; [|done]. split_and!; [constructor|done|].
  intros [|k] f c; cbn; [|by rewrite lookup_empty]. intros [= <- <-]. split; [|done].
  split; [intros; by left|done].
Qed.

(** The first node of a chain that ends at the sentinel. *)
Definition head_ptr (ks : list COutPoint) : pair_ptr := match ks with [] => Sentinel | k :: _ => Pair k end.

Lemma ring_begin m ks : ring m ks → nx m Sentinel = Some (head_ptr ks) ∧ m_flags (m_sentinel m) ≠ 0.
Proof.
  intros (_ & Hpath & Hinfo). split.
  - destruct ks; apply Hpath.
  - apply (Hinfo Sentinel _ (coin (m_sentinel m))); [done|by left].
Qed.

Lemma ring_next m l1 k l2 : ring m (l1 ++ k :: l2) → nx m (Pair k) = Some (head_ptr l2).
Proof.
  intros (_ & Hpath & _). rewrite map_app, <-app_assoc in Hpath. cbn [map app] in Hpath.
  apply path_app in Hpath as [_ Hpath]. destruct l2; apply Hpath.
Qed.

Lemma ring_length m ks : ring m ks → (length ks ≤ size (cacheCoins m))%nat.
Proof.
  intros Hr. pose proof Hr as (ND & _).
  replace (size (cacheCoins m)) with (size (dom (data m))).
  - rewrite <-(size_list_to_set (C := gset COutPoint) ks) by done.
    apply subseteq_size. intros k Hk. apply elem_of_list_to_set in Hk.
    by apply elem_of_dom, (ring_lookup m ks).
  - unfold data. by rewrite dom_fmap_L, size_dom.
Qed.

Lemma data_lookup m k f c :
  data m !! k = Some (f, c) ↔ ∃ e, deref (Pair k) m = Some e ∧ m_flags e = f ∧ coin e = c.
Proof.
  rewrite data_info. unfold info. destruct (deref (Pair k) m) as [e|]; simpl; [|naive_solver].
  split; [intros [= <- <-]; eauto|]. by intros (? & [= ->] & <- & <-).
Qed.

Lemma data_lookup_None m k : data m !! k = None ↔ deref (Pair k) m = None.
Proof. rewrite data_info. unfold info. by rewrite fmap_None. Qed.

(** The sum of a quantity over the entries of a map. *)
Definition msum (f : Z * Coin → Z) (D : gmap COutPoint (Z * Coin)) : Z := map_fold (λ _ x acc, f x + acc) 0 D.

Lemma msum_insert f D k x : D !! k = None → msum f (<[k := x]> D) = f x + msum f D.
Proof. intros. unfold msum. rewrite map_fold_insert_L; [done| |done]. intros; lia. Qed.

Lemma msum_delete f D k x : D !! k = Some x → msum f D = f x + msum f (delete k D).
Proof.
  intros. rewrite <-(insert_delete_id D k x) at 1 by done. by rewrite msum_insert by apply lookup_delete_eq.
Qed.

Lemma msum_update f D k x y : D !! k = Some x → msum f (<[k := y]> D) = msum f D - f x + f y.
Proof.
  intros H. rewrite (msum_delete f D k x H), <-insert_delete_eq, msum_insert by apply lookup_delete_eq. lia.
Qed.

Lemma msum_nonneg f D : (∀ x, 0 ≤ f x) → 0 ≤ msum f D.
Proof.
  intros Hf. unfold msum. apply (map_fold_weak_ind (λ acc _, 0 ≤ acc)); [done|].
  intros k x m acc _ ?. specialize (Hf x). lia.
Qed.

Lemma msum_le f D k x : (∀ x, 0 ≤ f x) → D !! k = Some x → f x ≤ msum f D.
Proof. intros Hf H. rewrite (msum_delete f D k x H). pose proof (msum_nonneg f (delete k D) Hf). lia. Qed.
