(* ===== verification/Coins.v ===== *)
(** * Views of the set of unspent outputs: coins.h, coins.cpp

    [CCoinsView] is the interface of a view (the virtual methods of the C++ class); a cache
    is a view over another view, so caches stack.  The state of a view is passed explicitly,
    and the state of a cache contains the state of its base, which only the cache reaches.
    [LawfulView] states what a view promises: it behaves as a finite map from outpoints to
    unspent coins, and writing a batch applies the dirty entries.  The theory proves that a
    cache over a lawful view is a lawful view, that every public operation implements the
    operation on the map, and that [SanityCheck] passes in every reachable state. *)

From S2P Require Import Prelude Serialize Hash Primitives Script CoinsList.
From Stdlib Require Import ZArith Lia.
From stdpp Require Import base option list numbers gmap.

Open Scope Z_scope.
Open Scope kernel_scope.

(** ** The cursor over the flagged entries of a cache *)

Record CoinsViewCacheCursor := { cur_dirty_count : Z; cur_ring : Ring; m_will_erase : bool }.

Definition Begin (cur : CoinsViewCacheCursor) : res pair_ptr := Next (m_sentinel (cur_ring cur)).
Definition WillErase (cur : CoinsViewCacheCursor) (e : CCoinsCacheEntry) : bool :=
  m_will_erase cur || IsSpent (coin e).

Definition NextAndMaybeErase (k : COutPoint) (cur : CoinsViewCacheCursor) : res (pair_ptr * CoinsViewCacheCursor) :=
  e ← some (deref (Pair k) (cur_ring cur));
  next_entry ← Next e;
  d ← sub_assumed (cur_dirty_count cur) (Z.b2z (IsDirty e));
  r ← (if m_will_erase cur then inr (cur_ring cur)
       else if IsSpent (coin e) then
         _ ← Assert (DynamicMemoryUsage (coin e) =? 0);
         erase k (cur_ring cur)
       else SetClean k (cur_ring cur));
  inr (next_entry, {| cur_dirty_count := d; cur_ring := r; m_will_erase := m_will_erase cur |}).

(** [for (it = cursor.Begin(); it != cursor.End(); it = cursor.NextAndMaybeErase( *it))]
    with a body that may change the cursor's entry and a state of its own, and what is done
    after the increment.  The ring has no more nodes than the map. *)
Section loop.
  Context {A : Type}.
  Variable body : COutPoint → CCoinsCacheEntry → CoinsViewCacheCursor → A → res (CoinsViewCacheCursor * A).
  Variable after : A → res A.

Fixpoint cursor_loop (fuel : nat) (it : pair_ptr) (cur : CoinsViewCacheCursor) (a : A) : res (CoinsViewCacheCursor * A) :=
  match it with
  | Sentinel => inr (cur, a)
  | Pair k =>
      match fuel with
      | O => inl fuel_exhausted
      | S fuel =>
          e ← some (deref (Pair k) (cur_ring cur));
          '(cur, a) ← body k e cur a;
          '(it, cur) ← NextAndMaybeErase k cur;
          a ← after a;
          cursor_loop fuel it cur a
      end
  end.

Definition cursor_for (cur : CoinsViewCacheCursor) (a : A) : res (CoinsViewCacheCursor * A) :=
  it ← Begin cur; cursor_loop (size (cacheCoins (cur_ring cur))) it cur a.
End loop.

(** ** The interface of a view *)

Class CCoinsView (S : Type) := {
  view_GetCoin : COutPoint → S → res (option Coin * S);
  view_PeekCoin : COutPoint → S → res (option Coin);
  view_HaveCoin : COutPoint → S → res (bool * S);
  view_GetBestBlock : S → res (uint256 * S);
  view_GetHeadBlocks : S → res (list uint256);
  view_BatchWrite : CoinsViewCacheCursor → uint256 → S → res (CoinsViewCacheCursor * S)
}.

(** The methods of the base class: an empty view that discards what is written. *)
Definition null_BatchWrite (cur : CoinsViewCacheCursor) (hashBlock : uint256) (s : unit) : res (CoinsViewCacheCursor * unit) :=
  cursor_for (λ _ _ cur s, inr (cur, s)) inr cur s.

Definition null_view : CCoinsView unit := {|
  view_GetCoin := λ _ s, inr (None, s);
  view_PeekCoin := λ _ _, inr None;
  view_HaveCoin := λ _ s, inr (false, s);
  view_GetBestBlock := λ s, inr (uint256_zero, s);
  view_GetHeadBlocks := λ _, inr [];
  view_BatchWrite := null_BatchWrite |}.

(** A view that forwards to its base and aborts on a database error while reading. *)
Definition ExecuteBackedWrapper {A} (func : res A) : res A :=
  match func with inl database_error => inl aborted | r => r end.

Record CCoinsViewErrorCatcher (S : Type) := ErrorCatcher { catcher_base : S }.
Arguments ErrorCatcher {S}.
Arguments catcher_base {S}.

#[export] Instance CCoinsViewErrorCatcher_view {S} `{CCoinsView S} : CCoinsView (CCoinsViewErrorCatcher S) := {|
  view_GetCoin := λ o s,
    ExecuteBackedWrapper ('(c, b) ← view_GetCoin o (catcher_base s); inr (c, ErrorCatcher b));
  view_PeekCoin := λ o s, ExecuteBackedWrapper (view_PeekCoin o (catcher_base s));
  view_HaveCoin := λ o s,
    ExecuteBackedWrapper ('(r, b) ← view_HaveCoin o (catcher_base s); inr (r, ErrorCatcher b));
  view_GetBestBlock := λ s, '(h, b) ← view_GetBestBlock (catcher_base s); inr (h, ErrorCatcher b);
  view_GetHeadBlocks := λ s, view_GetHeadBlocks (catcher_base s);
  view_BatchWrite := λ cur h s, '(cur, b) ← view_BatchWrite cur h (catcher_base s); inr (cur, ErrorCatcher b) |}.

(** ** The cache *)

(** The dynamic type of a cache selects [FetchCoinFromBase]. *)
Inductive cache_class := CacheClass | OverlayClass.

Record CCoinsViewCache (S : Type) := {
  dynamic_class : cache_class;
  hashBlock : uint256;
  coins_ring : Ring;
  cachedCoinsUsage : Z;
  m_dirty_count : Z;
  base : S
}.
Arguments dynamic_class {S}. Arguments hashBlock {S}. Arguments coins_ring {S}.
Arguments cachedCoinsUsage {S}. Arguments m_dirty_count {S}. Arguments base {S}.

Section Cache.
  Context {S : Type} `{!CCoinsView S}.
  Implicit Types c : CCoinsViewCache S.

Definition CCoinsViewCache_make (cls : cache_class) (baseIn : S) : CCoinsViewCache S :=
  {| dynamic_class := cls; hashBlock := uint256_zero; coins_ring := Ring_empty;
     cachedCoinsUsage := 0; m_dirty_count := 0; base := baseIn |}.

Definition set_hashBlock (h : uint256) c : CCoinsViewCache S :=
  {| dynamic_class := dynamic_class c; hashBlock := h; coins_ring := coins_ring c;
     cachedCoinsUsage := cachedCoinsUsage c; m_dirty_count := m_dirty_count c; base := base c |}.
Definition set_ring (r : Ring) c : CCoinsViewCache S :=
  {| dynamic_class := dynamic_class c; hashBlock := hashBlock c; coins_ring := r;
     cachedCoinsUsage := cachedCoinsUsage c; m_dirty_count := m_dirty_count c; base := base c |}.
Definition set_usage (u : Z) c : CCoinsViewCache S :=
  {| dynamic_class := dynamic_class c; hashBlock := hashBlock c; coins_ring := coins_ring c;
     cachedCoinsUsage := u; m_dirty_count := m_dirty_count c; base := base c |}.
Definition set_dirty_count (d : Z) c : CCoinsViewCache S :=
  {| dynamic_class := dynamic_class c; hashBlock := hashBlock c; coins_ring := coins_ring c;
     cachedCoinsUsage := cachedCoinsUsage c; m_dirty_count := d; base := base c |}.
Definition set_base (b : S) c : CCoinsViewCache S :=
  {| dynamic_class := dynamic_class c; hashBlock := hashBlock c; coins_ring := coins_ring c;
     cachedCoinsUsage := cachedCoinsUsage c; m_dirty_count := m_dirty_count c; base := b |}.

Definition find (o : COutPoint) c : option CCoinsCacheEntry := cacheCoins (coins_ring c) !! o.

Definition PeekCoin (o : COutPoint) c : res (option Coin) :=
  match find o c with
  | Some e => inr (if IsSpent (coin e) then None else Some (coin e))
  | None => view_PeekCoin o (base c)
  end.

Definition FetchCoinFromBase (o : COutPoint) c : res (option Coin * CCoinsViewCache S) :=
  match dynamic_class c with
  | CacheClass => '(r, b) ← view_GetCoin o (base c); inr (r, set_base b c)
  | OverlayClass => r ← view_PeekCoin o (base c); inr (r, c)
  end.

(** The entry found, or [None] for [cacheCoins.end()]. *)
Definition FetchCoin (o : COutPoint) c : res (option CCoinsCacheEntry * CCoinsViewCache S) :=
  match find o c with
  | Some e => inr (Some e, c)
  | None =>
      let c := set_ring (store (Pair o) entry_default (coins_ring c)) c in
      '(r, c) ← FetchCoinFromBase o c;
      match r with
      | Some coin =>
          let e := set_coin coin entry_default in
          let c := set_ring (store (Pair o) e (coins_ring c)) c in
          let c := set_usage (cachedCoinsUsage c + DynamicMemoryUsage coin) c in
          _ ← Assert (negb (IsSpent coin));
          inr (Some e, c)
      | None =>
          r ← erase o (coins_ring c);
          inr (None, set_ring r c)
      end
  end.

Definition unspent_entry (r : option CCoinsCacheEntry) : option Coin :=
  match r with
  | Some e => if IsSpent (coin e) then None else Some (coin e)
  | None => None
  end.

Definition GetCoin (o : COutPoint) c : res (option Coin * CCoinsViewCache S) :=
  '(r, c) ← FetchCoin o c; inr (unspent_entry r, c).

Definition AccessCoin (o : COutPoint) c : res (Coin * CCoinsViewCache S) :=
  '(r, c) ← FetchCoin o c;
  inr (match r with None => coinEmpty | Some e => coin e end, c).

Definition HaveCoin (o : COutPoint) c : res (bool * CCoinsViewCache S) :=
  '(r, c) ← FetchCoin o c;
  inr (match r with None => false | Some e => negb (IsSpent (coin e)) end, c).

Definition HaveCoinInCache (o : COutPoint) c : bool :=
  match find o c with None => false | Some e => negb (IsSpent (coin e)) end.

Definition GetBestBlock c : res (uint256 * CCoinsViewCache S) :=
  c ← (if uint256_IsNull (hashBlock c) then
         '(h, b) ← view_GetBestBlock (base c); inr (set_hashBlock h (set_base b c))
       else inr c);
  inr (hashBlock c, c).

Definition SetBestBlock (hashBlockIn : uint256) c : CCoinsViewCache S := set_hashBlock hashBlockIn c.

Definition AddCoin (o : COutPoint) (new : Coin) (possible_overwrite : bool) c : res (CCoinsViewCache S) :=
  _ ← Assert (negb (IsSpent new));
  if IsUnspendable (scriptPubKey (out new)) then inr c else
  let '(it, inserted, c) :=
    match find o c with
    | Some e => (e, false, c)
    | None => (entry_default, true, set_ring (store (Pair o) entry_default (coins_ring c)) c)
    end in
  fresh ← (if possible_overwrite then inr false
           else if negb (IsSpent (coin it)) then inl overwrite_unspent
           else inr (negb (IsDirty it)));
  c ← (if (inserted : bool) then inr c else
         d ← sub_assumed (m_dirty_count c) (Z.b2z (IsDirty it));
         u ← sub_assumed (cachedCoinsUsage c) (DynamicMemoryUsage (coin it));
         inr (set_usage u (set_dirty_count d c)));
  r ← assign (Pair o) (set_coin new) (coins_ring c);
  r ← SetDirty o r;
  let c := set_dirty_count (m_dirty_count c + 1) c in
  r ← (if (fresh : bool) then SetFresh o r else inr r);
  inr (set_usage (cachedCoinsUsage c + DynamicMemoryUsage new) (set_ring r c)).

Definition EmplaceCoinInternalDANGER (o : COutPoint) (new : Coin) c : res (CCoinsViewCache S) :=
  let mem_usage := DynamicMemoryUsage new in
  match find o c with
  | Some _ => inr c
  | None =>
      r ← SetDirty o (store (Pair o) (entry_of_coin new) (coins_ring c));
      inr (set_usage (cachedCoinsUsage c + mem_usage)
             (set_dirty_count (m_dirty_count c + 1) (set_ring r c)))
  end.

(** The result, and what [*moveout] receives when it is given. *)
Definition SpendCoin (o : COutPoint) (moveout : bool) c : res (bool * option Coin * CCoinsViewCache S) :=
  '(r, c) ← FetchCoin o c;
  match r with
  | None => inr (false, None, c)
  | Some e =>
      d ← sub_assumed (m_dirty_count c) (Z.b2z (IsDirty e));
      u ← sub_assumed (cachedCoinsUsage c) (DynamicMemoryUsage (coin e));
      let c := set_usage u (set_dirty_count d c) in
      r ← (if moveout then assign (Pair o) (λ e, set_coin (Coin_moved (coin e)) e) (coins_ring c)
           else inr (coins_ring c));
      let moved := if moveout then Some (coin e) else None in
      if IsFresh e then
        r ← erase o r;
        inr (true, moved, set_ring r c)
      else
        r ← SetDirty o r;
        let c := set_dirty_count (m_dirty_count c + 1) c in
        r ← assign (Pair o) (λ e, set_coin (Coin_Clear (coin e)) e) r;
        inr (true, moved, set_ring r c)
  end.

(** Moves the coin out of the cursor's entry if it will be erased, else copies it. *)
Definition take_coin (k : COutPoint) (e : CCoinsCacheEntry) (cur : CoinsViewCacheCursor) : res (CoinsViewCacheCursor * Coin) :=
  if WillErase cur e then
    r ← assign (Pair k) (set_coin (Coin_moved (coin e))) (cur_ring cur);
    inr ({| cur_dirty_count := cur_dirty_count cur; cur_ring := r; m_will_erase := m_will_erase cur |}, coin e)
  else inr (cur, coin e).

(** One iteration of [BatchWrite]: entry [e] at [k] of the child, [us] the parent. *)
Definition BatchWrite_entry (k : COutPoint) (e : CCoinsCacheEntry) (cur : CoinsViewCacheCursor)
    (us : CCoinsViewCache S) : res (CoinsViewCacheCursor * CCoinsViewCache S) :=
  if negb (IsDirty e) then inr (cur, us) else
  match find k us with
  | None =>
      let us := set_ring (store (Pair k) entry_default (coins_ring us)) us in
      if IsFresh e && IsSpent (coin e) then
        r ← erase k (coins_ring us);
        inr (cur, set_ring r us)
      else
        _ ← Assert (DynamicMemoryUsage (coin entry_default) =? 0);
        '(cur, new) ← take_coin k e cur;
        r ← assign (Pair k) (set_coin new) (coins_ring us);
        r ← SetDirty k r;
        let us := set_dirty_count (m_dirty_count us + 1) us in
        let us := set_usage (cachedCoinsUsage us + DynamicMemoryUsage new) us in
        r ← (if IsFresh e then SetFresh k r else inr r);
        inr (cur, set_ring r us)
  | Some itUs =>
      if IsFresh e && negb (IsSpent (coin itUs)) then inl fresh_misapplied else
      if IsFresh itUs && IsSpent (coin e) then
        d ← sub_assumed (m_dirty_count us) (Z.b2z (IsDirty itUs));
        u ← sub_assumed (cachedCoinsUsage us) (DynamicMemoryUsage (coin itUs));
        r ← erase k (coins_ring us);
        inr (cur, set_ring r (set_usage u (set_dirty_count d us)))
      else
        u ← sub_assumed (cachedCoinsUsage us) (DynamicMemoryUsage (coin itUs));
        '(cur, new) ← take_coin k e cur;
        r ← assign (Pair k) (set_coin new) (coins_ring us);
        let us := set_usage (u + DynamicMemoryUsage new) us in
        if negb (IsDirty itUs) then
          r ← SetDirty k r;
          inr (cur, set_ring r (set_dirty_count (m_dirty_count us + 1) us))
        else inr (cur, set_ring r us)
  end.

Definition BatchWrite (cur : CoinsViewCacheCursor) (hashBlockIn : uint256) (us : CCoinsViewCache S)
    : res (CoinsViewCacheCursor * CCoinsViewCache S) :=
  '(cur, us) ← cursor_for BatchWrite_entry inr cur us;
  inr (cur, SetBestBlock hashBlockIn us).

(** The write of the flagged entries to the base that [Flush] and [Sync] share. *)
Definition write_base (will_erase : bool) c : res (CCoinsViewCache S) :=
  let cur := {| cur_dirty_count := m_dirty_count c; cur_ring := coins_ring c; m_will_erase := will_erase |} in
  '(cur, b) ← view_BatchWrite cur (hashBlock c) (base c);
  _ ← Assume (cur_dirty_count cur =? 0);
  inr (set_base b (set_dirty_count (cur_dirty_count cur) (set_ring (cur_ring cur) c))).

(** The memory of the map is released and a new empty map constructed. *)
Definition ReallocateCache c : res (CCoinsViewCache S) :=
  _ ← Assert (Nat.eqb (size (cacheCoins (coins_ring c))) 0);
  inr (set_ring {| m_sentinel := m_sentinel (coins_ring c); cacheCoins := ∅ |} c).

Definition Flush (reallocate_cache : bool) c : res (CCoinsViewCache S) :=
  c ← write_base true c;
  r ← clear (coins_ring c);
  c ← (if reallocate_cache then ReallocateCache (set_ring r c) else inr (set_ring r c));
  inr (set_usage 0 c).

Definition Sync c : res (CCoinsViewCache S) :=
  c ← write_base false c;
  n ← Next (m_sentinel (coins_ring c));
  if decide (n = Sentinel) then inr c else inl flags_not_cleared.

Definition Reset c : res (CCoinsViewCache S) :=
  r ← clear (coins_ring c);
  inr (SetBestBlock uint256_zero (set_dirty_count 0 (set_usage 0 (set_ring r c)))).

Definition Uncache (o : COutPoint) c : res (CCoinsViewCache S) :=
  match find o c with
  | None => inr c
  | Some e =>
      if IsDirty e then inr c else
      u ← sub_assumed (cachedCoinsUsage c) (DynamicMemoryUsage (coin e));
      r ← erase o (coins_ring c);
      inr (set_ring r (set_usage u c))
  end.

Definition GetCacheSize c : Z := u32 (Z.of_nat (size (cacheCoins (coins_ring c)))).

(** ** The internal check of a cache *)

Definition entry_sane (e : CCoinsCacheEntry) : bool :=
  if IsSpent (coin e) then IsDirty e && negb (IsFresh e) else IsDirty e || negb (IsFresh e).

(** The walk over the ring; the result is the number of entries met. *)
Fixpoint SanityCheck_walk (fuel : nat) (it : pair_ptr) (r : Ring) (count_linked : Z) : res Z :=
  match it with
  | Sentinel => inr count_linked
  | Pair k =>
      match fuel with
      | O => inl fuel_exhausted
      | Datatypes.S fuel =>
          e ← some (deref it r);
          n ← Next e; ne ← some (deref n r); np ← Prev ne;
          _ ← Assert (bool_decide (np = it));
          p ← Prev e; pe ← some (deref p r); pn ← Next pe;
          _ ← Assert (bool_decide (pn = it));
          _ ← Assert (IsDirty e);
          SanityCheck_walk fuel n r (count_linked + 1)
      end
  end.

Definition SanityCheck c : res unit :=
  let entries := map snd (map_to_list (cacheCoins (coins_ring c))) in
  _ ← Assert (forallb entry_sane entries);
  let recomputed_usage := foldr (λ e acc, DynamicMemoryUsage (coin e) + acc) 0 entries in
  let count_dirty := foldr (λ e acc, Z.b2z (IsDirty e) + acc) 0 entries in
  it ← Next (m_sentinel (coins_ring c));
  count_linked ← SanityCheck_walk (length entries) it (coins_ring c) 0;
  _ ← Assert ((count_dirty =? count_linked) && (count_dirty =? m_dirty_count c));
  Assert (recomputed_usage =? cachedCoinsUsage c).

#[export] Instance CCoinsViewCache_view : CCoinsView (CCoinsViewCache S) := {|
  view_GetCoin := GetCoin;
  view_PeekCoin := PeekCoin;
  view_HaveCoin := HaveCoin;
  view_GetBestBlock := GetBestBlock;
  view_GetHeadBlocks := λ c, view_GetHeadBlocks (base c);
  view_BatchWrite := BatchWrite |}.

End Cache.

(** ** What a view promises *)

(** The coins a view may hold: what the rules for transactions admit and [AddCoin] keeps. *)
Definition coin_ok (c : Coin) : Prop :=
  0 ≤ nValue (out c) ≤ MAX_MONEY ∧ urange 31 (coin_nHeight c) ∧
  bytes_ok (scriptPubKey (out c)) ∧ Z.of_nat (length (scriptPubKey (out c))) ≤ MAX_SCRIPT_SIZE.

Definition dirty (f : Z) : bool := negb (f .& DIRTY =? 0).
Definition fresh (f : Z) : bool := negb (f .& FRESH =? 0).

(** An entry with flags [f] and coin [x] over a base whose coin is [u]. *)
Definition entry_ok (u : option Coin) (f : Z) (x : Coin) : Prop :=
  0 ≤ f < 4 ∧
  (if IsSpent x then dirty f = true ∧ fresh f = false ∧ scriptPubKey (out x) = []
   else coin_ok x ∧ (dirty f = false → f = 0)) ∧
  (dirty f = false → u = Some x) ∧ (fresh f = true → u = None).

(** The coin seen through the entries [D] over a base that shows [u]. *)
Definition over (D : gmap COutPoint (Z * Coin)) (u : COutPoint → option Coin) (o : COutPoint) : option Coin :=
  match D !! o with
  | Some (_, x) => if IsSpent x then None else Some x
  | None => u o
  end.

Definition entries_ok (u : COutPoint → option Coin) (D : gmap COutPoint (Z * Coin)) : Prop :=
  ∀ o f x, D !! o = Some (f, x) → outpoint_ok o ∧ entry_ok (u o) f x.

(** A cursor over a well-formed ring with the right count. *)
Definition cursor_ok (cur : CoinsViewCacheCursor) : Prop :=
  ∃ ks, ring (cur_ring cur) ks ∧ cur_dirty_count cur = Z.of_nat (length ks).

(** The entries after an iteration that does not erase the cache. *)
Definition cleaned (D : gmap COutPoint (Z * Coin)) : gmap COutPoint (Z * Coin) :=
  omap (λ '(_, x), if IsSpent x then None else Some (0, x)) D.

Definition drained (cur cur' : CoinsViewCacheCursor) : Prop :=
  cur_dirty_count cur' = 0 ∧
  if m_will_erase cur then ∃ ks, ring (cur_ring cur') ks
  else ring (cur_ring cur') [] ∧ data (cur_ring cur') = cleaned (data (cur_ring cur)).

Class LawfulView (S : Type) `{!CCoinsView S} := {
  coin_at : S → COutPoint → option Coin;
  best_block : S → uint256;
  view_inv : S → Prop;
  same_view : S → S → Prop :=
    λ s s', view_inv s' ∧ best_block s' = best_block s ∧ ∀ o, outpoint_ok o → coin_at s' o = coin_at s o;
  law_unspent s o x : view_inv s → outpoint_ok o → coin_at s o = Some x → IsSpent x = false ∧ coin_ok x;
  law_best_ok s : view_inv s → uint256_ok (best_block s);
  law_GetCoin s o : view_inv s → outpoint_ok o →
    ∃ s', view_GetCoin o s = inr (coin_at s o, s') ∧ same_view s s';
  law_PeekCoin s o : view_inv s → outpoint_ok o → view_PeekCoin o s = inr (coin_at s o);
  law_HaveCoin s o : view_inv s → outpoint_ok o →
    ∃ s', view_HaveCoin o s = inr (bool_decide (is_Some (coin_at s o)), s') ∧ same_view s s';
  law_GetBestBlock s : view_inv s → ∃ s', view_GetBestBlock s = inr (best_block s, s') ∧ same_view s s';
  law_BatchWrite s cur h :
    view_inv s → cursor_ok cur → entries_ok (coin_at s) (data (cur_ring cur)) →
    uint256_ok h → uint256_IsNull h = false →
    ∃ cur' s', view_BatchWrite cur h s = inr (cur', s') ∧ drained cur cur' ∧
      view_inv s' ∧ best_block s' = h ∧
      ∀ o, outpoint_ok o → coin_at s' o = over (data (cur_ring cur)) (coin_at s) o
}.

(** ** Flags *)

Lemma flags_cases f : 0 ≤ f < 4 → f = 0 ∨ f = 1 ∨ f = 2 ∨ f = 3.
Proof. lia. Qed.

Lemma entry_flagged u f x : entry_ok u f x → (f ≠ 0 ↔ dirty f = true).
Proof.
  intros (Hf & Hx & _). destruct (flags_cases f Hf) as [-> | [-> | [-> | ->]]]; try done.
  destruct (IsSpent x); [by destruct Hx|]. destruct Hx as [_ Hx]. by specialize (Hx eq_refl).
Qed.

Lemma usage_nonneg x : 0 ≤ DynamicMemoryUsage x.
Proof.
  unfold DynamicMemoryUsage, MallocUsage. repeat case_match; try lia.
  all: apply Z.shiftl_nonneg, Z.shiftr_nonneg; lia.
Qed.

Lemma usage_empty x : scriptPubKey (out x) = [] → DynamicMemoryUsage x = 0.
Proof. intros H. unfold DynamicMemoryUsage. by rewrite H. Qed.

Lemma Assert_true b : b = true → Assert b = inr tt.
Proof. by intros ->. Qed.

Lemma sub_assumed_ok i j : j ≤ i → sub_assumed i j = inr (i - j).
Proof.
  intros. unfold sub_assumed, TrySub. destruct (Z.ltb_spec i j); [lia|]. done.
Qed.

(** ** The iteration over a cursor *)

Lemma cleaned_lookup D o :
  cleaned D !! o = '(_, x) ← D !! o; if IsSpent x then None else Some (0, x).
Proof. unfold cleaned. by rewrite lookup_omap. Qed.

(** The state of the iteration when the entries [ks] of [D] remain. *)
Definition loop_inv (D : gmap COutPoint (Z * Coin)) (ks : list COutPoint) (cur : CoinsViewCacheCursor) : Prop :=
  cur_dirty_count cur = Z.of_nat (length ks) ∧
  (∀ k, k ∈ ks → data (cur_ring cur) !! k = D !! k) ∧
  if m_will_erase cur then ∃ l, ring (cur_ring cur) (l ++ ks)
  else ring (cur_ring cur) ks ∧ ∀ o, o ∉ ks → data (cur_ring cur) !! o = cleaned D !! o.

(** What the body may do to the cursor. *)
Definition moved (k : COutPoint) (e : CCoinsCacheEntry) (cur cur' : CoinsViewCacheCursor) : Prop :=
  cur' = cur ∨
  WillErase cur e = true ∧
  cur' = {| cur_dirty_count := cur_dirty_count cur;
            cur_ring := store (Pair k) (set_coin (Coin_moved (coin e)) e) (cur_ring cur);
            m_will_erase := m_will_erase cur |}.

Lemma moved_entry k e cur cur' L :
  ring (cur_ring cur) L → deref (Pair k) (cur_ring cur) = Some e → moved k e cur cur' →
  ring (cur_ring cur') L ∧ cur_dirty_count cur' = cur_dirty_count cur ∧ m_will_erase cur' = m_will_erase cur ∧
  (∀ o, o ≠ k → data (cur_ring cur') !! o = data (cur_ring cur) !! o) ∧
  ∃ e', deref (Pair k) (cur_ring cur') = Some e' ∧ m_flags e' = m_flags e ∧
    IsSpent (coin e') = IsSpent (coin e) ∧
    (scriptPubKey (out (coin e)) = [] → scriptPubKey (out (coin e')) = []) ∧
    (WillErase cur e = false → coin e' = coin e).
Proof.
  intros Hr He [->|[HW ->]]; [split_and!; eauto 10|]. cbn [cur_ring cur_dirty_count m_will_erase].
  destruct (set_coin_spec k (Coin_moved (coin e)) _ _ e Hr He) as [Hr' D].
  split_and!; try done.
  - intros o Ho. by rewrite D, lookup_insert_ne.
  - eexists. rewrite deref_store, decide_True by done. split_and!; try done. by rewrite HW.
Qed.

Lemma NextAndMaybeErase_spec D k ks e f x cur cur' :
  D !! k = Some (f, x) → dirty f = true → (IsSpent x = true → scriptPubKey (out x) = []) →
  loop_inv D (k :: ks) cur → deref (Pair k) (cur_ring cur) = Some e → moved k e cur cur' →
  ∃ cur'', NextAndMaybeErase k cur' = inr (head_ptr ks, cur'') ∧ loop_inv D ks cur'' ∧
    m_will_erase cur'' = m_will_erase cur.
Proof.
  intros HD Hdirty Hscript (Hcount & Hdata & Hring) He Hmoved.
  assert (HL : ∃ l, ring (cur_ring cur) (l ++ k :: ks) ∧ (m_will_erase cur = false → l = [])).
  { destruct (m_will_erase cur); [destruct Hring as [l ?]; by exists l|]. exists []. by destruct Hring. }
  destruct HL as (l & Hr & Hl).
  assert (m_flags e = f ∧ coin e = x) as [<- <-].
  { specialize (Hdata k ltac:(by left)). rewrite HD in Hdata.
    apply data_lookup in Hdata as (e1 & He1 & <- & <-). by simplify_eq. }
  destruct (moved_entry k e cur cur' _ Hr He Hmoved)
    as (Hr' & Hc' & Hw' & Hoth & e' & He' & Hf' & Hs' & Hscript' & Hcoin').
  assert (Hflag : m_flags e ≠ 0) by (intros E; by rewrite E in Hdirty).
  unfold NextAndMaybeErase. rewrite He'. cbn [some]. step.
  pose proof (ring_next _ _ _ _ Hr') as Hn. unfold nx in Hn. rewrite He' in Hn. cbn in Hn.
  unfold Next. rewrite Hf', (proj2 (Z.eqb_neq _ _) Hflag), Hn. cbn [negb Assume Assert some]. step.
  change (IsDirty e') with (dirty (m_flags e')). rewrite Hf', Hdirty. cbn [Z.b2z].
  cbn [length] in Hcount. rewrite sub_assumed_ok by lia. step. rewrite Hw', Hs'.
  assert (Hd' : data (cur_ring cur') !! k = Some (m_flags e, coin e')) by (apply data_lookup; eauto).
  pose proof Hr' as (ND & _).
  destruct (m_will_erase cur) eqn:HW.
  { step. eexists. split_and!; [done| |done]. split_and!; cbn; [lia| |].
    - intros k' Hk'. rewrite Hoth, Hdata; [done|by right|]. intros ->.
      apply NoDup_app in ND as (_ & _ & [? _]%NoDup_cons). done.
    - exists (l ++ [k]). by rewrite <-app_assoc. }
  rewrite (Hl eq_refl) in *. cbn [app] in *. apply NoDup_cons in ND as [Hk ND].
  destruct Hring as [_ Hout].
  assert (Hfil : filter (.≠ k) (k :: ks) = ks).
  { rewrite filter_cons_False by auto. apply filter_all. by intros ? ? ->. }
  destruct (IsSpent (coin e)) eqn:Hsp.
  - rewrite usage_empty by auto. cbn [Z.eqb Assert]. step.
    destruct (erase_spec k _ _ _ _ Hr' Hd') as (r & -> & Hr2 & D2). step. rewrite Hfil in Hr2.
    eexists. split_and!; [done| |done]. split_and!; cbn; [lia| |split; [done|]].
    + intros k' Hk'. rewrite D2, lookup_delete_ne, Hoth by congruence. apply Hdata. by right.
    + intros o Ho. rewrite D2. destruct (decide (o = k)) as [->|Hne].
      * by rewrite lookup_delete_eq, cleaned_lookup, HD; cbn; rewrite Hsp.
      * rewrite lookup_delete_ne, Hoth by done. apply Hout. set_solver.
  - destruct (SetClean_spec k _ _ _ _ Hr' Hd') as (r & -> & Hr2 & D2). step. rewrite Hfil in Hr2.
    rewrite (Hcoin' ltac:(unfold WillErase; by rewrite HW, Hsp)) in D2.
    eexists. split_and!; [done| |done]. split_and!; cbn; [lia| |split; [done|]].
    + intros k' Hk'. rewrite D2, lookup_insert_ne, Hoth by congruence. apply Hdata. by right.
    + intros o Ho. rewrite D2. destruct (decide (o = k)) as [->|Hne].
      * by rewrite lookup_insert_eq, cleaned_lookup, HD; cbn; rewrite Hsp.
      * rewrite lookup_insert_ne, Hoth by done. apply Hout. set_solver.
Qed.

Lemma cursor_loop_spec {A} (body : COutPoint → CCoinsCacheEntry → CoinsViewCacheCursor → A → res (CoinsViewCacheCursor * A))
    (after : A → res A) (I : list COutPoint → A → Prop) D ks fuel cur a :
  (∀ k e cur a ks, I (k :: ks) a → deref (Pair k) (cur_ring cur) = Some e →
    D !! k = Some (m_flags e, coin e) →
    ∃ cur' a1 a2, body k e cur a = inr (cur', a1) ∧ after a1 = inr a2 ∧ moved k e cur cur' ∧ I ks a2) →
  (∀ k f x, k ∈ ks → D !! k = Some (f, x) →
    dirty f = true ∧ (IsSpent x = true → scriptPubKey (out x) = [])) →
  loop_inv D ks cur → I ks a → (length ks ≤ fuel)%nat →
  ∃ cur' a', cursor_loop body after fuel (head_ptr ks) cur a = inr (cur', a') ∧ I [] a' ∧
    loop_inv D [] cur' ∧ m_will_erase cur' = m_will_erase cur.
Proof.
  intros Hbody. revert fuel cur a.
  induction ks as [|k ks IH]; intros fuel cur a Hok Hinv HI Hfuel; [destruct fuel; cbn; eauto 10|].
  destruct fuel as [|fuel]; cbn [length] in Hfuel; [lia|].
  pose proof Hinv as (_ & Hdata & Hring). specialize (Hdata k ltac:(by left)).
  assert (HL : ∃ L, ring (cur_ring cur) L ∧ k ∈ L).
  { destruct (m_will_erase cur); [destruct Hring as [l ?]; exists (l ++ k :: ks)|exists (k :: ks)];
      split; try apply Hring; done || set_solver. }
  destruct HL as (L & HL & HkL).
  destruct (ring_lookup _ _ _ HL HkL) as [[f x] HD]. rewrite Hdata in HD.
  rewrite HD in Hdata. apply data_lookup in Hdata as (e & He & <- & <-).
  destruct (Hok k _ _ ltac:(by left) HD) as [Hd Hs].
  destruct (Hbody k e cur a ks HI He HD) as (cur1 & a1 & a2 & Hb & Ha & Hmv & HI').
  destruct (NextAndMaybeErase_spec D k ks e _ _ cur cur1 HD Hd Hs Hinv He Hmv) as (cur2 & HN & Hinv2 & HW).
  destruct (IH fuel cur2 a2) as (cur3 & a3 & E & H1 & H2 & H3); [|done..|lia|].
  { intros k' f' x' Hk'. apply Hok. by right. }
  exists cur3, a3. split_and!; try done; [|congruence].
  cbn [cursor_loop head_ptr]. rewrite He. cbn [some]. step. rewrite Hb. step. rewrite HN. step.
  rewrite Ha. step. done.
Qed.

Lemma cursor_for_spec {A} (body : COutPoint → CCoinsCacheEntry → CoinsViewCacheCursor → A → res (CoinsViewCacheCursor * A))
    (after : A → res A) (I : list COutPoint → A → Prop) u cur a :
  (∀ k e cur' a ks, I (k :: ks) a → deref (Pair k) (cur_ring cur') = Some e →
    data (cur_ring cur) !! k = Some (m_flags e, coin e) → dirty (m_flags e) = true →
    ∃ cur'' a1 a2, body k e cur' a = inr (cur'', a1) ∧ after a1 = inr a2 ∧ moved k e cur' cur'' ∧ I ks a2) →
  cursor_ok cur → entries_ok u (data (cur_ring cur)) →
  (∀ ks, ring (cur_ring cur) ks → I ks a) →
  ∃ cur' a', cursor_for body after cur a = inr (cur', a') ∧ I [] a' ∧ drained cur cur'.
Proof.
  intros Hbody (ks & Hr & Hc) Hok HI.
  destruct (ring_begin _ _ Hr) as [Hn Hfl]. unfold cursor_for, Begin, Next.
  rewrite (proj2 (Z.eqb_neq _ _) Hfl). cbn [negb Assume Assert]. step.
  unfold nx in Hn. cbn in Hn. rewrite Hn. cbn [some]. step.
  assert (Hflag : ∀ k f x, k ∈ ks → data (cur_ring cur) !! k = Some (f, x) →
     dirty f = true ∧ (IsSpent x = true → scriptPubKey (out x) = [])).
  { intros k f x Hk HD. destruct (Hok _ _ _ HD) as [_ HE].
    split; [by eapply entry_flagged, ring_elem|]. destruct HE as (_ & HE & _).
    intros E. rewrite E in HE. apply HE. }
  set (J := λ l a, I l a ∧ ∀ k, k ∈ l → k ∈ ks).
  destruct (cursor_loop_spec body after J (data (cur_ring cur)) ks
              (size (cacheCoins (cur_ring cur))) cur a) as (cur' & a' & E & [H1 _] & (H2 & _ & H3) & H4).
  - intros k e cur1 a1 l [HJ Hl] He HD. destruct (Hbody k e cur1 a1 l HJ He HD) as (? & ? & ? & ? & ? & ? & ?).
    { by eapply Hflag; [apply Hl; left|]. }
    do 3 eexists. split_and!; try done. split; [done|]. intros k' Hk'. apply Hl. by right.
  - done.
  - split_and!; [done|done|]. destruct (m_will_erase cur); [by exists []|]. split; [done|].
    intros o Ho. rewrite cleaned_lookup. destruct (data (cur_ring cur) !! o) as [[f x]|] eqn:HD; [|done].
    destruct (Hok _ _ _ HD) as [_ HE]. cbn.
    assert (dirty f = false).
    { apply not_true_is_false. intros E. by eapply Ho, ring_elem, entry_flagged. }
    destruct HE as (_ & HE & _). destruct (IsSpent x); [by destruct HE; congruence|].
    destruct HE as [_ HE]. by rewrite HE.
  - split; auto.
  - by apply ring_length.
  - exists cur', a'. split_and!; [done..|]. rewrite H4 in H3. split; [done|].
    destruct (m_will_erase cur); [destruct H3 as [l ?]; eauto|]. destruct H3 as [? H3]. split; [done|].
    apply map_eq. intros o. apply H3. set_solver.
Qed.

(** ** Updating the entries *)

Lemma entries_ok_insert u D o f x :
  entries_ok u D → outpoint_ok o → entry_ok (u o) f x → entries_ok u (<[o := (f, x)]> D).
Proof.
  intros HD Ho HE o' f' x'. destruct (decide (o = o')) as [<-|Hne].
  - rewrite lookup_insert_eq. by intros [= <- <-].
  - rewrite lookup_insert_ne by done. apply HD.
Qed.

Lemma entries_ok_delete u D o : entries_ok u D → entries_ok u (delete o D).
Proof. intros HD o' f' x' [_ H]%lookup_delete_Some. by apply HD. Qed.

Lemma entries_ok_base u u' D :
  entries_ok u D → (∀ o, outpoint_ok o → u' o = u o) → entries_ok u' D.
Proof. intros HD Hu o f x H. destruct (HD _ _ _ H). rewrite Hu by done. done. Qed.

Lemma over_insert D u o f x o' :
  over (<[o := (f, x)]> D) u o' =
  if decide (o' = o) then (if IsSpent x then None else Some x) else over D u o'.
Proof.
  unfold over. case_decide as E; [subst; by rewrite lookup_insert_eq|].
  by rewrite lookup_insert_ne by done.
Qed.

Lemma over_delete D u o o' : over (delete o D) u o' = if decide (o' = o) then u o else over D u o'.
Proof.
  unfold over. case_decide as E; [subst; by rewrite lookup_delete_eq|].
  by rewrite lookup_delete_ne by done.
Qed.

Lemma add_length u f x ks (o : COutPoint) :
  entry_ok u f x →
  Z.of_nat (length (if f =? 0 then ks ++ [o] else ks)) = Z.of_nat (length ks) - Z.b2z (dirty f) + 1.
Proof.
  intros HE%entry_flagged. destruct (Z.eqb_spec f 0) as [->|Hf].
  { rewrite length_app. change (dirty 0) with false. cbn. lia. }
  rewrite (proj1 HE Hf). cbn. lia.
Qed.

Lemma NoDup_filter_ne (o : COutPoint) ks :
  NoDup ks → Z.of_nat (length (filter (.≠ o) ks)) = Z.of_nat (length ks) - Z.b2z (bool_decide (o ∈ ks)).
Proof.
  induction 1 as [|k ks Hk ND IH]; [done|]. rewrite filter_cons.
  destruct (decide (k ≠ o)) as [E|E]; cbn [length].
  - destruct (decide (o ∈ ks)) as [Ho|Ho].
    + rewrite bool_decide_eq_true_2 in IH |- * by set_solver. cbn in *. lia.
    + rewrite bool_decide_eq_false_2 in IH |- * by set_solver. cbn in *. lia.
  - assert (k = o) as -> by (by destruct (decide (k = o))).
    rewrite bool_decide_eq_true_2 by set_solver. rewrite bool_decide_eq_false_2 in IH by done. cbn in *. lia.
Qed.

Lemma erase_length u f x y m ks o :
  ring m ks → data m !! o = Some (f, x) → entry_ok u f y →
  Z.of_nat (length (filter (.≠ o) ks)) = Z.of_nat (length ks) - Z.b2z (dirty f) ∧
  (Z.b2z (dirty f) ≤ Z.of_nat (length ks)).
Proof.
  intros Hr HD HE%entry_flagged. pose proof (ring_elem _ _ _ _ _ Hr HD) as Hin.
  pose proof Hr as (ND & _). rewrite NoDup_filter_ne by done.
  assert (bool_decide (o ∈ ks) = dirty f) as ->.
  { apply eq_true_iff_eq. rewrite bool_decide_eq_true. tauto. }
  split; [done|]. destruct (dirty f) eqn:E; cbn; [|lia].
  destruct ks; cbn; [|lia]. exfalso. assert (o ∈ []) by tauto. set_solver.
Qed.

Lemma assign_coin_spec g new o r ks f x :
  ring r ks → data r !! o = Some (f, x) →
  (∀ e, m_flags e = f → coin e = x → g e = set_coin new e) →
  ∃ r', assign (Pair o) g r = inr r' ∧ ring r' ks ∧ data r' = <[o := (f, new)]> (data r).
Proof.
  intros Hr (e & He & <- & <-)%data_lookup Hg. unfold assign. rewrite He. cbn [some]. step.
  rewrite Hg by done. eexists. split; [done|]. by apply set_coin_spec.
Qed.

(** Entries under the flag operations of the code. *)
Lemma flags_or f g : 0 ≤ f < 4 → 0 ≤ g < 4 → 0 ≤ f .| g < 4.
Proof.
  intros Hf Hg. change 4 with (2 ^ 2). apply (lor_range 2); [lia|exact Hf|exact Hg].
Qed.

Lemma dirty_DIRTY f : dirty (f .| DIRTY) = true.
Proof. unfold dirty. rewrite (land_bit_eqb _ 0), Z.lor_spec by lia. apply orb_true_r. Qed.

Lemma dirty_FRESH f : dirty (f .| FRESH) = dirty f.
Proof. unfold dirty. rewrite !(land_bit_eqb _ 0), Z.lor_spec by lia. apply orb_false_r. Qed.

Lemma fresh_DIRTY f : fresh (f .| DIRTY) = fresh f.
Proof. unfold fresh. rewrite !(land_bit_eqb _ 1), Z.lor_spec by lia. apply orb_false_r. Qed.

Lemma fresh_FRESH f : fresh (f .| FRESH) = true.
Proof. unfold fresh. rewrite (land_bit_eqb _ 1), Z.lor_spec by lia. apply orb_true_r. Qed.

Lemma entry_ok_written u f new :
  0 ≤ f < 4 → dirty f = true → IsSpent new = false → coin_ok new →
  (fresh f = true → u = None) → entry_ok u f new.
Proof.
  intros Hf Hd Hs Hc Hfr. split_and!; try done; [lia..| |congruence]. rewrite Hs. split; [done|congruence].
Qed.

(** ** The cache implements the map *)

Section Theory.
  Context {S : Type} `{!CCoinsView S} `{!LawfulView S}.
  Implicit Types c : CCoinsViewCache S.

Definition usage (x : Z * Coin) : Z := DynamicMemoryUsage x.2.

(** Reads the members of an updated cache. *)
Ltac fields :=
  cbn [dynamic_class hashBlock coins_ring cachedCoinsUsage m_dirty_count base
       set_hashBlock set_ring set_usage set_dirty_count set_base SetBestBlock].

(** The coins seen through a cache. *)
Definition cview c : COutPoint → option Coin := over (data (coins_ring c)) (coin_at (base c)).
Definition cbest c : uint256 := if uint256_IsNull (hashBlock c) then best_block (base c) else hashBlock c.

Definition cinv (ks : list COutPoint) c : Prop :=
  ring (coins_ring c) ks ∧ m_dirty_count c = Z.of_nat (length ks) ∧
  cachedCoinsUsage c = msum usage (data (coins_ring c)) ∧
  entries_ok (coin_at (base c)) (data (coins_ring c)) ∧
  view_inv (base c) ∧ uint256_ok (hashBlock c).
Definition cache_inv c : Prop := ∃ ks, cinv ks c.

(** The cache after an operation that only fills caches. *)
Definition same_cache c c' : Prop :=
  cache_inv c' ∧ dynamic_class c' = dynamic_class c ∧ cbest c' = cbest c ∧
  (uint256_IsNull (hashBlock c) = false → hashBlock c' = hashBlock c) ∧
  ∀ o, outpoint_ok o → cview c' o = cview c o.

Lemma usage_pos (x : Z * Coin) : 0 ≤ usage x.
Proof. apply usage_nonneg. Qed.

Lemma usage_pair f x : usage (f, x) = DynamicMemoryUsage x.
Proof. done. Qed.

Lemma same_cache_refl c : cache_inv c → same_cache c c.
Proof. intros. unfold same_cache. auto. Qed.

Lemma cview_unspent c o x : cache_inv c → outpoint_ok o → cview c o = Some x → IsSpent x = false ∧ coin_ok x.
Proof.
  intros (ks & _ & _ & _ & HD & Hb & _) Ho. unfold cview, over.
  destruct (data (coins_ring c) !! o) as [[f y]|] eqn:E; [|by apply law_unspent].
  destruct (HD _ _ _ E) as [_ (_ & HE & _)]. destruct (IsSpent y) eqn:Hs; [done|].
  intros [= <-]. by destruct HE.
Qed.

Lemma find_data c o : find o c = None ↔ data (coins_ring c) !! o = None.
Proof. unfold find. by rewrite data_lookup_None. Qed.

Lemma find_data_Some c o e : find o c = Some e → data (coins_ring c) !! o = Some (m_flags e, coin e).
Proof. intros H. apply data_lookup. eauto. Qed.

(** Both ways to fetch from the base give its coin. *)
Lemma FetchCoinFromBase_spec c o :
  view_inv (base c) → outpoint_ok o →
  ∃ b, FetchCoinFromBase o c = inr (coin_at (base c) o, set_base b c) ∧ same_view (base c) b.
Proof.
  intros Hb Ho. unfold FetchCoinFromBase. destruct (dynamic_class c) eqn:E.
  - destruct (law_GetCoin (base c) o Hb Ho) as (b & -> & Hs). step. eauto.
  - rewrite law_PeekCoin by done. step. exists (base c). split; [by destruct c|]. by split_and!.
Qed.

(** A new entry for a coin of the base. *)
Lemma fetch_insert c ks o x b :
  cinv ks c → outpoint_ok o → data (coins_ring c) !! o = None →
  coin_at (base c) o = Some x → same_view (base c) b →
  let r := store (Pair o) (set_coin x entry_default) (store (Pair o) entry_default (coins_ring c)) in
  let c' := set_usage (cachedCoinsUsage c + DynamicMemoryUsage x) (set_ring r (set_base b c)) in
  cinv ks c' ∧ find o c' = Some (set_coin x entry_default) ∧ same_cache c c'.
Proof.
  intros (Hr & Hd & Hu & HD & Hb & Hh) Ho Hn Hx (Hb' & Hbest & Hsame) r c'.
  destruct (law_unspent _ _ _ Hb Ho Hx) as [Hs Hok].
  destruct (emplace_spec o coinEmpty (coins_ring c) ks Hr Hn) as [Hr1 D1].
  destruct (set_coin_spec o x _ ks entry_default Hr1) as [Hr2 D2]; [by rewrite deref_store, decide_True|].
  change (store (Pair o) (entry_of_coin coinEmpty)) with (store (Pair o) entry_default) in *.
  fold r in Hr2, D2. rewrite D1, insert_insert_eq in D2. cbn in D2.
  assert (Hi : cinv ks c').
  { split_and!; try done; cbn [cachedCoinsUsage set_usage coins_ring set_ring base set_base c'].
    - rewrite D2, msum_insert, usage_pair by done. lia.
    - rewrite D2. apply (entries_ok_base (coin_at (base c))); [|done].
      apply entries_ok_insert; [done..|]. rewrite Hx. split_and!; try done. by rewrite Hs. }
  unfold same_cache. split_and!; [done| |by exists ks|done| |done|].
  - cbn. apply lookup_insert_eq.
  - unfold cbest. cbn. by rewrite Hbest.
  - intros o' Ho'. unfold cview. cbn. rewrite D2, over_insert, Hs. unfold over.
    case_decide; [subst; by rewrite Hn, Hx|]. by rewrite Hsame.
Qed.

(** The provisional entry is erased when the base has no coin. *)
Lemma fetch_erase c ks o b :
  cinv ks c → data (coins_ring c) !! o = None → same_view (base c) b →
  ∃ r, erase o (store (Pair o) entry_default (coins_ring c)) = inr r ∧
    let c' := set_ring r (set_base b c) in
    cinv ks c' ∧ find o c' = None ∧ same_cache c c'.
Proof.
  intros (Hr & Hd & Hu & HD & Hb & Hh) Hn (Hb' & Hbest & Hsame).
  destruct (emplace_spec o coinEmpty (coins_ring c) ks Hr Hn) as [Hr1 D1].
  destruct (erase_spec o _ ks 0 coinEmpty Hr1) as (r & E & Hr2 & D2); [by rewrite D1, lookup_insert_eq|].
  exists r. split; [done|]. rewrite filter_all in Hr2.
  2:{ intros k Hk ->. destruct (ring_lookup _ _ _ Hr Hk). congruence. }
  rewrite D1, delete_insert_id in D2 by done. cbn zeta.
  assert (Hi : cinv ks (set_ring r (set_base b c))).
  { split_and!; try done; cbn; rewrite D2; [done|]. by apply (entries_ok_base (coin_at (base c))). }
  unfold same_cache. split_and!; [done| |by exists ks|done| |done|].
  - apply find_data. cbn. by rewrite D2.
  - unfold cbest. cbn. by rewrite Hbest.
  - intros o' Ho'. unfold cview. cbn. rewrite D2. unfold over. by rewrite Hsame.
Qed.

Lemma FetchCoin_spec c ks o :
  cinv ks c → outpoint_ok o →
  ∃ r c', FetchCoin o c = inr (r, c') ∧ cinv ks c' ∧ find o c' = r ∧ same_cache c c' ∧
    unspent_entry r = cview c o.
Proof.
  intros Hi Ho. pose proof Hi as (Hr & _ & _ & HD & Hb & _). unfold FetchCoin.
  destruct (find o c) as [e|] eqn:E.
  - exists (Some e), c. split_and!; try done; [by apply same_cache_refl; exists ks|].
    unfold cview, over, unspent_entry. by rewrite (find_data_Some _ _ _ E).
  - apply find_data in E. set (c1 := set_ring _ c).
    destruct (FetchCoinFromBase_spec c1 o Hb Ho) as (b & -> & Hs). step.
    change (base c1) with (base c) in *.
    assert (Hview : cview c o = coin_at (base c) o) by (unfold cview, over; by rewrite E).
    destruct (coin_at (base c) o) as [x|] eqn:Hx.
    + destruct (fetch_insert c ks o x b Hi Ho E Hx Hs) as (H1 & H2 & H3).
      destruct (law_unspent _ _ _ Hb Ho Hx) as [Hsp _].
      rewrite Assert_true by (by rewrite Hsp). step. do 2 eexists. split; [done|].
      split_and!; try done. rewrite Hview. cbn. by rewrite Hsp.
    + destruct (fetch_erase c ks o b Hi E Hs) as (r & Hr' & H1 & H2 & H3).
      cbn [coins_ring set_base c1 set_ring]. rewrite Hr'. step. do 2 eexists. split; [done|].
      split_and!; try done.
Qed.

(** Writing a coin at an existing entry: [coin = new], [SetDirty] and possibly [SetFresh]. *)
Lemma write_coin r ks o f x new (fr : bool) :
  ring r ks → data r !! o = Some (f, x) → 0 ≤ f < 4 →
  ∃ r1 r2 r3 f', assign (Pair o) (set_coin new) r = inr r1 ∧ SetDirty o r1 = inr r2 ∧
    (if fr then SetFresh o r2 else inr r2) = inr r3 ∧
    ring r3 (if f =? 0 then ks ++ [o] else ks) ∧ data r3 = <[o := (f', new)]> (data r) ∧
    0 ≤ f' < 4 ∧ dirty f' = true ∧ fresh f' = fr || fresh f.
Proof.
  intros Hr HD Hf.
  destruct (assign_coin_spec (set_coin new) new o r ks f x Hr HD) as (r1 & E1 & Hr1 & D1); [done|].
  destruct (AddFlags_spec DIRTY o r1 ks f new Hr1) as (r2 & E2 & Hr2 & D2);
    [by rewrite D1, lookup_insert_eq|by left|].
  rewrite D1, insert_insert_eq in D2. exists r1, r2.
  assert (Hf2 : 0 ≤ f .| DIRTY < 4) by (apply flags_or; [done|by split]).
  destruct fr.
  - destruct (AddFlags_spec FRESH o r2 _ (f .| DIRTY) new Hr2) as (r3 & E3 & Hr3 & D3);
      [by rewrite D2, lookup_insert_eq|by right|].
    assert (Hz : (f .| DIRTY =? 0) = false).
    { apply Z.eqb_neq. intros E. pose proof (dirty_DIRTY f) as H. by rewrite E in H. }
    rewrite Hz in Hr3. rewrite D2, insert_insert_eq in D3.
    exists r3, (f .| DIRTY .| FRESH). split_and!; try done; try (apply flags_or; [done|by split]).
    + by rewrite dirty_FRESH, dirty_DIRTY.
    + by rewrite fresh_FRESH.
  - exists r2, (f .| DIRTY). split_and!; try done; try lia; [apply dirty_DIRTY|apply fresh_DIRTY].
Qed.

(** The coins after setting one. *)
Definition upd (u : COutPoint → option Coin) (o : COutPoint) (x : option Coin) : COutPoint → option Coin :=
  λ o', if decide (o' = o) then x else u o'.

(** The entry that [AddCoin] finds or inserts. *)
Lemma emplace_or_find c ks o :
  cinv ks c →
  ∃ it inserted r,
    match find o c with
    | Some e => (e, false, c)
    | None => (entry_default, true, set_ring (store (Pair o) entry_default (coins_ring c)) c)
    end = (it, inserted, set_ring r c) ∧
    ring r ks ∧ data r = <[o := (m_flags it, coin it)]> (data (coins_ring c)) ∧
    (if (inserted : bool) then it = entry_default ∧ data (coins_ring c) !! o = None
     else data (coins_ring c) !! o = Some (m_flags it, coin it)).
Proof.
  intros (Hr & _). destruct (find o c) as [e|] eqn:E.
  - apply find_data_Some in E. exists e, false, (coins_ring c).
    split_and!; [by destruct c|done|by rewrite insert_id|done].
  - apply find_data in E. destruct (emplace_spec o coinEmpty _ ks Hr E) as [Hr1 D1].
    eexists entry_default, true, _. split_and!; try done.
Qed.

(** What is known of that entry, [f] and [x] being its flags and coin. *)
Lemma added_entry c ks o f x (inserted possible_overwrite : bool) :
  cinv ks c → (possible_overwrite = true ∨ cview c o = None) →
  (if inserted then f = 0 ∧ x = coinEmpty ∧ data (coins_ring c) !! o = None
   else data (coins_ring c) !! o = Some (f, x)) →
  0 ≤ f < 4 ∧ (fresh f = true → coin_at (base c) o = None) ∧
  (possible_overwrite = false → IsSpent x = true ∧ (dirty f = false → coin_at (base c) o = None)) ∧
  Z.of_nat (length (if f =? 0 then ks ++ [o] else ks)) = Z.of_nat (length ks) - Z.b2z (dirty f) + 1 ∧
  Z.b2z (dirty f) ≤ Z.of_nat (length ks) ∧ DynamicMemoryUsage x ≤ msum usage (data (coins_ring c)).
Proof.
  intros Hi Hpo Hins. pose proof Hi as (Hr & _ & _ & HD & _).
  unfold cview, over in Hpo. destruct inserted.
  - destruct Hins as (-> & -> & Hn). rewrite Hn in Hpo. change (dirty 0) with false.
    split_and!; try done; try lia.
    + intros ->. by destruct Hpo.
    + cbn [Z.eqb]. rewrite length_app. cbn. lia.
    + cbn. lia.
    + apply (msum_nonneg usage), usage_pos.
  - rewrite Hins in Hpo. destruct (HD _ _ _ Hins) as [_ HE]. pose proof HE as (Hf & HE2 & HE3 & HE4).
    split_and!; try done; [lia..| |by eapply add_length|by eapply erase_length|].
    + intros ->. destruct Hpo as [|Hpo]; [done|]. destruct (IsSpent x); [|done].
      split; [done|]. destruct HE2. congruence.
    + by apply (msum_le usage _ o (f, x) usage_pos).
Qed.

Lemma AddCoin_spec c o new possible_overwrite :
  cache_inv c → outpoint_ok o → IsSpent new = false → coin_ok new →
  IsUnspendable (scriptPubKey (out new)) = false →
  (possible_overwrite = true ∨ cview c o = None) →
  ∃ c', AddCoin o new possible_overwrite c = inr c' ∧ cache_inv c' ∧
    dynamic_class c' = dynamic_class c ∧ hashBlock c' = hashBlock c ∧ base c' = base c ∧
    ∀ o', cview c' o' = upd (cview c) o (Some new) o'.
Proof.
  intros [ks Hi] Ho Hs Hok Hun Hpo. pose proof Hi as (Hr & Hd & Hu & HD & Hb & Hh).
  unfold AddCoin. rewrite Hs, Hun. cbn [negb Assert]. step.
  destruct (emplace_or_find c ks o Hi) as (it & inserted & r & -> & Hr1 & D1 & Hins).
  destruct (added_entry c ks o (m_flags it) (coin it) inserted possible_overwrite Hi Hpo)
    as (Hf & Hfr & Hnew & Hlen & Hle & Hle2).
  { destruct inserted; [|done]. by destruct Hins as [-> ?]. }
  change (IsDirty it) with (dirty (m_flags it)).
  set (f := m_flags it) in *. set (x := coin it) in *.
  set (fr := negb possible_overwrite && negb (dirty f)).
  replace (if possible_overwrite then _ else _) with (inr fr : res bool).
  2:{ unfold fr. destruct possible_overwrite; [done|]. destruct Hnew as [-> _]; done. }
  step.
  replace (if inserted then _ else _) with
    (inr (set_usage (msum usage (data (coins_ring c)) - (if inserted then 0 else DynamicMemoryUsage x))
        (set_dirty_count (Z.of_nat (length ks) - Z.b2z (dirty f)) (set_ring r c))) : res (CCoinsViewCache S)).
  2:{ rewrite <-Hu, <-Hd in *. destruct inserted.
      - destruct Hins as [-> _]. change (dirty f) with false. cbn [Z.b2z]. rewrite !Z.sub_0_r. by destruct c.
      - cbn [m_dirty_count set_ring cachedCoinsUsage]. by rewrite !sub_assumed_ok. }
  step. cbn [coins_ring set_usage set_dirty_count set_ring].
  destruct (write_coin r ks o f x new fr Hr1) as (r1 & r2 & r3 & f' & -> & E2 & E3 & Hr3 & D3 & Hf' & Hd' & Hfr');
    [by rewrite D1, lookup_insert_eq|done|].
  step. rewrite E2. step. rewrite E3. step. eexists. split; [done|].
  rewrite D1, insert_insert_eq in D3.
  split_and!; try done; [|intros o'; unfold cview, upd; cbn; by rewrite D3, over_insert, Hs].
  exists (if f =? 0 then ks ++ [o] else ks). split_and!; try done; fields; rewrite D3.
  - destruct inserted; cbv iota.
    + destruct Hins as [_ Hn]. rewrite msum_insert, usage_pair by done. lia.
    + rewrite (msum_update _ _ _ _ _ Hins), !usage_pair. lia.
  - apply entries_ok_insert; [done..|]. apply entry_ok_written; try done.
    rewrite Hfr'. unfold fr. destruct possible_overwrite; [done|].
    destruct (dirty f); [done|]. intros _. by apply Hnew.
Qed.

Lemma entry_ok_spent u f : 0 ≤ f < 4 → dirty f = true → fresh f = false → entry_ok u f coinEmpty.
Proof. intros Hf Hd Hfr. split_and!; try done; [lia..|congruence|congruence]. Qed.

(** The ring after an entry was spent: erased if FRESH, else dirty and cleared. *)
Lemma spend_ring r ks o f x y u :
  ring r ks → data r !! o = Some (f, x) → entry_ok u f y →
  ∃ r' ks', (if fresh f then erase o r
             else r ← SetDirty o r; assign (Pair o) (λ e, set_coin (Coin_Clear (coin e)) e) r) = inr r' ∧
    ring r' ks' ∧
    Z.of_nat (length ks') = Z.of_nat (length ks) - Z.b2z (dirty f) + Z.b2z (negb (fresh f)) ∧
    data r' = (if fresh f then delete o (data r) else <[o := (f .| DIRTY, coinEmpty)]> (data r)).
Proof.
  intros Hr HD HE. destruct (fresh f) eqn:Hfr.
  - destruct (erase_spec o r ks f x Hr HD) as (r' & E & Hr' & D').
    exists r', (filter (.≠ o) ks). split_and!; try done.
    destruct (erase_length u f x y r ks o Hr HD HE) as [-> _]. cbn. lia.
  - destruct (AddFlags_spec DIRTY o r ks f x Hr HD) as (r1 & E1 & Hr1 & D1); [by left|].
    destruct (assign_coin_spec (λ e, set_coin (Coin_Clear (coin e)) e) coinEmpty o r1 _ (f .| DIRTY) x Hr1)
      as (r2 & E2 & Hr2 & D2); [by rewrite D1, lookup_insert_eq|done|].
    unfold SetDirty. rewrite E1. step. do 2 eexists. split_and!; [done..| |].
    + rewrite (add_length u f y) by done. cbn. lia.
    + by rewrite D2, D1, insert_insert_eq.
Qed.

Lemma spent_cache c ks ks' o f x r :
  cinv ks c → outpoint_ok o → data (coins_ring c) !! o = Some (f, x) → ring r ks' →
  Z.of_nat (length ks') = Z.of_nat (length ks) - Z.b2z (dirty f) + Z.b2z (negb (fresh f)) →
  data r = (if fresh f then delete o (data (coins_ring c))
            else <[o := (f .| DIRTY, coinEmpty)]> (data (coins_ring c))) →
  let c' := set_ring r (set_usage (cachedCoinsUsage c - DynamicMemoryUsage x)
    (set_dirty_count (m_dirty_count c - Z.b2z (dirty f) + Z.b2z (negb (fresh f))) c)) in
  cinv ks' c' ∧ ∀ o', cview c' o' = upd (cview c) o None o'.
Proof.
  intros (Hr & Hd & Hu & HD & Hb & Hh) Ho Hx Hr' Hlen D' c'.
  destruct (HD _ _ _ Hx) as [_ (Hf & _ & _ & Hfr)]. unfold cinv, c', cview, upd. fields. rewrite D'.
  destruct (fresh f) eqn:E.
  - rewrite (msum_delete usage _ _ _ Hx), usage_pair in Hu.
    split_and!; try done; [lia..|by apply entries_ok_delete|].
    intros o'. rewrite over_delete. case_decide; [by apply Hfr|done].
  - rewrite (msum_update usage _ _ _ _ Hx), !usage_pair. change (DynamicMemoryUsage coinEmpty) with 0.
    split_and!; try done; [lia..| |].
    + apply entries_ok_insert; [done..|]. apply entry_ok_spent.
      * apply flags_or; [done|by split].
      * apply dirty_DIRTY.
      * by rewrite fresh_DIRTY.
    + intros o'. by rewrite over_insert.
Qed.

Lemma SpendCoin_spec c o moveout :
  cache_inv c → outpoint_ok o →
  ∃ b mv c', SpendCoin o moveout c = inr (b, mv, c') ∧ cache_inv c' ∧
    dynamic_class c' = dynamic_class c ∧ cbest c' = cbest c ∧
    (uint256_IsNull (hashBlock c) = false → hashBlock c' = hashBlock c) ∧
    (∀ o', outpoint_ok o' → cview c' o' = upd (cview c) o None o') ∧
    (is_Some (cview c o) → b = true) ∧
    (moveout = true → (x ← mv; if IsSpent x then None else Some x) = cview c o) ∧
    (is_Some mv ↔ b = true ∧ moveout = true).
Proof.
  intros [ks Hi] Ho. unfold SpendCoin.
  destruct (FetchCoin_spec c ks o Hi Ho) as (r & c1 & -> & Hi1 & Hfind & (_ & Hcls & Hbest & Hhash & Hview) & Hr). step.
  pose proof Hi1 as (Hr1 & Hd1 & Hu1 & HD1 & Hb1 & Hh1).
  destruct r as [e|].
  2:{ cbn in Hr. do 3 eexists. split; [done|]. split_and!; try done; [by exists ks| |rewrite <-Hr; by intros []|split; [by intros []|by intros []]].
      intros o' Ho'. rewrite Hview by done. unfold upd. case_decide; [by subst|done]. }
  apply find_data_Some in Hfind. destruct (HD1 _ _ _ Hfind) as [_ HE].
  destruct (erase_length _ _ _ _ _ _ _ Hr1 Hfind HE) as [_ Hle].
  pose proof (msum_le usage _ _ _ usage_pos Hfind) as Hle2. rewrite usage_pair in Hle2.
  rewrite !sub_assumed_ok by (change (IsDirty e) with (dirty (m_flags e)); lia). step. fields.
  assert (HM : ∃ r1 x1, (if moveout then assign (Pair o) (λ e, set_coin (Coin_moved (coin e)) e) (coins_ring c1)
                         else inr (coins_ring c1)) = inr r1 ∧ ring r1 ks ∧
      data r1 = <[o := (m_flags e, x1)]> (data (coins_ring c1)) ∧ IsSpent x1 = IsSpent (coin e)).
  { destruct moveout.
    - destruct (assign_coin_spec (λ e, set_coin (Coin_moved (coin e)) e) (Coin_moved (coin e)) o _ ks _ _ Hr1 Hfind)
        as (r1 & ? & ? & ?); [by intros e' _ ->|]. by exists r1, (Coin_moved (coin e)).
    - exists (coins_ring c1), (coin e). by rewrite insert_id. }
  destruct HM as (r1 & x1 & -> & Hr2 & D2 & Hs1). step.
  change (IsDirty e) with (dirty (m_flags e)). change (IsFresh e) with (fresh (m_flags e)).
  set (f := m_flags e) in *. set (x := coin e) in *.
  destruct (spend_ring r1 ks o f x1 x _ Hr2 ltac:(by rewrite D2, lookup_insert_eq) HE)
    as (r2 & ks' & E & Hr3 & Hlen & D3).
  rewrite D2, insert_insert_eq, delete_insert_eq in D3.
  destruct (spent_cache c1 ks ks' o f x r2 Hi1 Ho Hfind Hr3 Hlen D3) as [Hi' Hv'].
  match type of Hi' with cinv _ ?c' => exists true, (if moveout then Some x else None), c' end.
  split; [|split; [by eexists|]].
  { destruct (fresh f); [rewrite E; step; by rewrite Z.add_0_r|].
    apply bind_inr in E as (r1' & -> & E). step. rewrite E. step. done. }
  split_and!; try done.
  - intros o' Ho'. rewrite Hv'. unfold upd. case_decide; [done|]. by apply Hview.
  - intros ->. rewrite <-Hr. done.
  - destruct moveout; split; try done; by intros [].
Qed.

(** An entry that moves to another level keeps its coin. *)
Lemma entry_ok_move v u f g x :
  entry_ok v f x → 0 ≤ g < 4 → dirty g = true →
  (fresh g = true → u = None) → (IsSpent x = true → fresh g = false) → entry_ok u g x.
Proof.
  intros (_ & Hx & _) Hg Hd Hfr Hs. split_and!; try done; [lia..| |congruence].
  destruct (IsSpent x); [|destruct Hx; split; [done|congruence]]. destruct Hx as (_ & _ & ?). auto.
Qed.

Lemma take_coin_spec k e cur :
  deref (Pair k) (cur_ring cur) = Some e →
  ∃ cur', take_coin k e cur = inr (cur', coin e) ∧ moved k e cur cur'.
Proof.
  intros He. unfold take_coin, moved. destruct (WillErase cur e).
  - unfold assign. rewrite He. cbn [some]. step. eauto 10.
  - eauto.
Qed.

(** The parent has no entry: the child's entry is moved up. *)
Lemma BatchWrite_entry_new c ks k e cur :
  cinv ks c → outpoint_ok k → deref (Pair k) (cur_ring cur) = Some e →
  entry_ok (cview c k) (m_flags e) (coin e) → dirty (m_flags e) = true → find k c = None →
  ∃ cur' r d u ks', BatchWrite_entry k e cur c = inr (cur', set_ring r (set_usage u (set_dirty_count d c))) ∧
    moved k e cur cur' ∧ cinv ks' (set_ring r (set_usage u (set_dirty_count d c))) ∧
    ∀ o, over (data r) (coin_at (base c)) o = upd (cview c) k (if IsSpent (coin e) then None else Some (coin e)) o.
Proof.
  intros (Hr & Hd & Hu & HD & Hb & Hh) Hk He HE Hdirty Hn. unfold BatchWrite_entry.
  change (IsDirty e) with (dirty (m_flags e)). change (IsFresh e) with (fresh (m_flags e)).
  rewrite Hdirty, Hn. cbn [negb]. apply find_data in Hn.
  assert (Hv : cview c k = coin_at (base c) k) by (unfold cview, over; by rewrite Hn).
  assert (Hsf : IsSpent (coin e) = true → fresh (m_flags e) = false).
  { intros E. destruct HE as (_ & HE & _). rewrite E in HE. apply HE. }
  replace (fresh (m_flags e) && IsSpent (coin e)) with false.
  2:{ destruct (IsSpent (coin e)); [by rewrite Hsf|by rewrite andb_false_r]. }
  change (DynamicMemoryUsage (coin entry_default) =? 0) with true. cbn [Assert]. step.
  destruct (take_coin_spec k e cur He) as (cur' & -> & Hmv). step. fields.
  destruct (emplace_spec k coinEmpty _ ks Hr Hn) as [Hr1 D1].
  change (entry_of_coin coinEmpty) with entry_default in Hr1, D1.
  destruct (write_coin _ ks k 0 coinEmpty (coin e) (fresh (m_flags e)) Hr1)
    as (r1 & r2 & r3 & f' & -> & E2 & E3 & Hr3 & D3 & Hf' & Hd' & Hfr'); [by rewrite D1, lookup_insert_eq|done|].
  step. rewrite E2. step. rewrite E3. step. rewrite D1, insert_insert_eq in D3.
  exists cur', r3, (m_dirty_count c + 1), (cachedCoinsUsage c + DynamicMemoryUsage (coin e)), (ks ++ [k]).
  split; [done|]. split; [done|]. split; [|intros o; by rewrite D3, over_insert].
  unfold cinv. fields. rewrite D3. split_and!; try done.
  - rewrite length_app. cbn. lia.
  - rewrite msum_insert, usage_pair by done. lia.
  - apply entries_ok_insert; [done..|]. eapply entry_ok_move; try done; rewrite Hfr', orb_false_r; [|done].
    rewrite <-Hv. apply HE.
Qed.

Lemma mark_dirty r ks k g x u y :
  ring r ks → data r !! k = Some (g, x) → entry_ok u g y →
  ∃ r' ks' g', (if dirty g then inr r else SetDirty k r) = inr r' ∧ ring r' ks' ∧
    data r' = <[k := (g', x)]> (data r) ∧ 0 ≤ g' < 4 ∧ dirty g' = true ∧ fresh g' = fresh g ∧
    Z.of_nat (length ks') = Z.of_nat (length ks) + Z.b2z (negb (dirty g)).
Proof.
  intros Hr HD HE. pose proof HE as (Hg & _). destruct (dirty g) eqn:Hdg.
  - exists r, ks, g. rewrite insert_id by done. split_and!; try done; cbn; lia.
  - destruct (AddFlags_spec DIRTY k r ks g x Hr HD) as (r' & ? & ? & D2); [by left|].
    exists r', (if g =? 0 then ks ++ [k] else ks), (g .| DIRTY).
    split_and!; try done; try (apply flags_or; [done|by split]).
    + apply dirty_DIRTY.
    + apply fresh_DIRTY.
    + rewrite (add_length _ g y) by done. rewrite Hdg. cbn. lia.
Qed.

(** The parent has an entry: it is erased, or takes the child's coin. *)
Lemma BatchWrite_entry_old c ks k e cur :
  cinv ks c → outpoint_ok k → deref (Pair k) (cur_ring cur) = Some e →
  entry_ok (cview c k) (m_flags e) (coin e) → dirty (m_flags e) = true → is_Some (find k c) →
  ∃ cur' r d u ks', BatchWrite_entry k e cur c = inr (cur', set_ring r (set_usage u (set_dirty_count d c))) ∧
    moved k e cur cur' ∧ cinv ks' (set_ring r (set_usage u (set_dirty_count d c))) ∧
    ∀ o, over (data r) (coin_at (base c)) o = upd (cview c) k (if IsSpent (coin e) then None else Some (coin e)) o.
Proof.
  intros Hi Hk He HE Hdirty [p Hp]. pose proof Hi as (Hr & Hd & Hu & HD & Hb & Hh).
  unfold BatchWrite_entry. rewrite Hp.
  change (IsDirty e) with (dirty (m_flags e)). change (IsFresh e) with (fresh (m_flags e)).
  change (IsDirty p) with (dirty (m_flags p)). change (IsFresh p) with (fresh (m_flags p)).
  rewrite Hdirty. cbn [negb]. apply find_data_Some in Hp. set (g := m_flags p) in *. set (y := coin p) in *.
  assert (Hv : cview c k = if IsSpent y then None else Some y) by (unfold cview, over; by rewrite Hp).
  replace (fresh (m_flags e) && negb (IsSpent y)) with false.
  2:{ destruct HE as (_ & _ & _ & HE). rewrite Hv in HE. destruct (fresh (m_flags e)), (IsSpent y); try done.
      by specialize (HE eq_refl). }
  destruct (HD _ _ _ Hp) as [_ HP]. pose proof HP as (Hg & HP2 & HP3 & HP4).
  pose proof (msum_le usage _ _ _ usage_pos Hp) as Hle. rewrite usage_pair in Hle.
  destruct (erase_length _ _ _ _ _ _ _ Hr Hp HP) as [Hlen Hle2].
  destruct (fresh g && IsSpent (coin e)) eqn:Hdel.
  - apply andb_true_iff in Hdel as [Hfr Hs]. rewrite !sub_assumed_ok by lia. step. rewrite Hs.
    destruct (erase_spec k _ _ _ _ Hr Hp) as (r & -> & Hr' & D'). step.
    do 4 eexists. exists (filter (.≠ k) ks). split; [done|]. split; [by left|].
    unfold cinv. fields. rewrite D'. rewrite (msum_delete usage _ _ _ Hp), usage_pair in Hu.
    split; [split_and!; try done; [lia..|by apply entries_ok_delete]|].
    intros o. rewrite over_delete. unfold upd, cview. case_decide; [by apply HP4|done].
  - rewrite sub_assumed_ok by lia. step.
    destruct (take_coin_spec k e cur He) as (cur' & -> & Hmv). step.
    destruct (assign_coin_spec (set_coin (coin e)) (coin e) k _ ks g y Hr Hp) as (r & -> & Hr1 & D1); [done|].
    step. fields.
    destruct (mark_dirty r ks k g (coin e) _ y Hr1 ltac:(by rewrite D1, lookup_insert_eq) HP)
      as (r' & ks' & g' & E & Hr' & D' & Hg' & Hd' & Hf' & Hlen'). rewrite D1, insert_insert_eq in D'.
    exists cur', r', (m_dirty_count c + Z.b2z (negb (dirty g))),
      (cachedCoinsUsage c - DynamicMemoryUsage y + DynamicMemoryUsage (coin e)), ks'.
    split; [|split; [done|split; [|intros o; by rewrite D', over_insert]]].
    { destruct (dirty g); [injection E as ->; by rewrite Z.add_0_r|]. cbn [negb]. rewrite E. step. done. }
    unfold cinv. fields. rewrite D', (msum_update usage _ _ _ _ Hp), !usage_pair.
    split_and!; try done; [lia..|]. apply entries_ok_insert; [done..|].
    eapply entry_ok_move; try done; rewrite Hf'; [done|]. intros Hs. rewrite Hs in Hdel. by destruct (fresh g).
Qed.

Lemma BatchWrite_spec c cur h :
  cache_inv c → cursor_ok cur → entries_ok (cview c) (data (cur_ring cur)) →
  uint256_ok h → uint256_IsNull h = false →
  ∃ cur' c', BatchWrite cur h c = inr (cur', c') ∧ drained cur cur' ∧ cache_inv c' ∧ cbest c' = h ∧
    dynamic_class c' = dynamic_class c ∧ base c' = base c ∧
    ∀ o, cview c' o = over (data (cur_ring cur)) (cview c) o.
Proof.
  intros Hinv Hcur HD Hh Hnull. set (D := data (cur_ring cur)) in *.
  set (I := λ ks a, NoDup ks ∧ cache_inv a ∧ dynamic_class a = dynamic_class c ∧ base a = base c ∧
    ∀ o, cview a o = if bool_decide (o ∈ ks) then cview c o else over D (cview c) o).
  destruct (cursor_for_spec BatchWrite_entry inr I (cview c) cur c) as (cur' & c' & E & HI & Hdr); [|done..| |].
  - intros k e cur1 a ks (ND & [ka Ha] & Hcls & Hbase & Hv) He HDk Hdirty. fold D in HDk.
    apply NoDup_cons in ND as [Hk ND].
    pose proof (HD _ _ _ HDk) as [Hok HE].
    assert (HE' : entry_ok (cview a k) (m_flags e) (coin e)).
    { rewrite Hv, bool_decide_eq_true_2 by (by left). done. }
    assert (HB : ∃ cur' r d u ks', BatchWrite_entry k e cur1 a = inr (cur', set_ring r (set_usage u (set_dirty_count d a))) ∧
      moved k e cur1 cur' ∧ cinv ks' (set_ring r (set_usage u (set_dirty_count d a))) ∧
      ∀ o, over (data r) (coin_at (base a)) o = upd (cview a) k (if IsSpent (coin e) then None else Some (coin e)) o).
    { destruct (find k a) eqn:Ef; [eapply BatchWrite_entry_old|eapply BatchWrite_entry_new]; eauto. }
    destruct HB as (cur2 & r & d & u & ks' & -> & Hmv & Hi & Hview).
    do 3 eexists. split; [done|]. split; [done|]. split; [done|].
    split_and!; try done; [by exists ks'|]. intros o. unfold cview at 1. fields. rewrite Hview. unfold upd.
    case_decide as Ho; [subst o; rewrite bool_decide_eq_false_2 by done; unfold over; by rewrite HDk|].
    rewrite Hv. destruct (decide (o ∈ ks)).
    + rewrite !bool_decide_eq_true_2 by set_solver. done.
    + rewrite !bool_decide_eq_false_2 by set_solver. done.
  - intros ks Hr. pose proof Hr as (ND & _). split_and!; try done. intros o. case_bool_decide as Ho; [done|].
    unfold over. destruct (D !! o) as [[f x]|] eqn:HDo; [|done].
    pose proof (HD _ _ _ HDo) as [_ HE].
    assert (Hf : dirty f = false).
    { apply not_true_is_false. intros Ef. by eapply Ho, ring_elem, entry_flagged. }
    destruct HE as (_ & HE & Hu & _). rewrite (Hu Hf). destruct (IsSpent x); [destruct HE; congruence|done].
  - destruct HI as (_ & [ks Hi] & Hcls & Hbase & Hv). unfold BatchWrite. rewrite E. step.
    do 2 eexists. split; [done|]. unfold cbest. fields. rewrite Hnull. split_and!; try done.
    exists ks. destruct Hi as (? & ? & ? & ? & ? & _). by split_and!.
Qed.

(** ** Reading *)

Lemma GetCoin_spec c o :
  cache_inv c → outpoint_ok o → ∃ c', GetCoin o c = inr (cview c o, c') ∧ same_cache c c'.
Proof.
  intros [ks Hi] Ho. destruct (FetchCoin_spec c ks o Hi Ho) as (r & c' & E & _ & _ & Hs & Hr).
  exists c'. unfold GetCoin. rewrite E. step. by rewrite Hr.
Qed.

Lemma PeekCoin_spec c o : cache_inv c → outpoint_ok o → PeekCoin o c = inr (cview c o).
Proof.
  intros (ks & _ & _ & _ & _ & Hb & _) Ho. unfold PeekCoin, cview, over. destruct (find o c) as [e|] eqn:E.
  - apply find_data_Some in E. by rewrite E.
  - apply find_data in E. rewrite E. by apply law_PeekCoin.
Qed.

Lemma HaveCoin_spec c o :
  cache_inv c → outpoint_ok o →
  ∃ c', HaveCoin o c = inr (bool_decide (is_Some (cview c o)), c') ∧ same_cache c c'.
Proof.
  intros [ks Hi] Ho. destruct (FetchCoin_spec c ks o Hi Ho) as (r & c' & E & _ & _ & Hs & Hr).
  exists c'. unfold HaveCoin. rewrite E. step. rewrite <-Hr. split; [|done].
  destruct r as [e|]; cbn; [|done]. by destruct (IsSpent (coin e)).
Qed.

(** The spent coin that [AccessCoin] returns for a missing output is the empty one. *)
Lemma AccessCoin_spec c o :
  cache_inv c → outpoint_ok o →
  ∃ x c', AccessCoin o c = inr (x, c') ∧ same_cache c c' ∧
    cview c o = if IsSpent x then None else Some x.
Proof.
  intros [ks Hi] Ho. destruct (FetchCoin_spec c ks o Hi Ho) as (r & c' & E & _ & _ & Hs & Hr).
  unfold AccessCoin. rewrite E. step. do 2 eexists. split; [done|]. split; [done|]. rewrite <-Hr. by destruct r.
Qed.

Lemma GetBestBlock_spec c :
  cache_inv c → ∃ c', GetBestBlock c = inr (cbest c, c') ∧ same_cache c c'.
Proof.
  intros [ks Hi]. unfold GetBestBlock, cbest. destruct (uint256_IsNull (hashBlock c)) eqn:E.
  - pose proof Hi as (Hr & Hd & Hu & HD & Hb & Hh).
    destruct (law_GetBestBlock (base c) Hb) as (b & -> & Hb' & Hbest & Hsame). step.
    eexists. split; [done|]. unfold same_cache, cbest, cview. fields. rewrite E. split_and!; try done.
    + exists ks. unfold cinv. fields. split_and!; try done; [by eapply entries_ok_base|by apply law_best_ok].
    + rewrite Hbest. by destruct (uint256_IsNull (best_block (base c))).
    + intros o Ho. unfold over. by rewrite Hsame.
  - step. exists c. split; [done|]. apply same_cache_refl. by exists ks.
Qed.

Lemma cbest_ok c : cache_inv c → uint256_ok (cbest c).
Proof.
  intros (ks & _ & _ & _ & _ & Hb & Hh). unfold cbest. destruct (uint256_IsNull _); [by apply law_best_ok|done].
Qed.

#[export] Instance CCoinsViewCache_lawful : LawfulView (CCoinsViewCache S).
Proof.
  refine {| coin_at := cview; best_block := cbest; view_inv := cache_inv |}.
  - intros. by eapply cview_unspent.
  - intros. by apply cbest_ok.
  - intros c o Hi Ho. destruct (GetCoin_spec c o Hi Ho) as (c' & ? & (? & ? & ? & ? & ?)). by exists c'.
  - intros. by apply PeekCoin_spec.
  - intros c o Hi Ho. destruct (HaveCoin_spec c o Hi Ho) as (c' & ? & (? & ? & ? & ? & ?)). by exists c'.
  - intros c Hi. destruct (GetBestBlock_spec c Hi) as (c' & ? & (? & ? & ? & ? & ?)). by exists c'.
  - intros c cur h Hi Hcur HD Hh Hn.
    destruct (BatchWrite_spec c cur h Hi Hcur HD Hh Hn) as (cur' & c' & ? & ? & ? & ? & _ & _ & ?).
    exists cur', c'. auto.
Defined.

(** ** Writing to the base *)

Lemma write_base_spec c (will_erase : bool) :
  cache_inv c → uint256_IsNull (hashBlock c) = false →
  ∃ c', write_base will_erase c = inr c' ∧ m_dirty_count c' = 0 ∧
    dynamic_class c' = dynamic_class c ∧ hashBlock c' = hashBlock c ∧ cachedCoinsUsage c' = cachedCoinsUsage c ∧
    (if will_erase then ∃ ks, ring (coins_ring c') ks
     else ring (coins_ring c') [] ∧ data (coins_ring c') = cleaned (data (coins_ring c))) ∧
    view_inv (base c') ∧ best_block (base c') = hashBlock c ∧
    ∀ o, outpoint_ok o → coin_at (base c') o = cview c o.
Proof.
  intros (ks & Hr & Hd & Hu & HD & Hb & Hh) Hnull. unfold write_base.
  set (cur := {| cur_dirty_count := _ |}).
  destruct (law_BatchWrite (base c) cur (hashBlock c) Hb) as (cur' & b & -> & (Hc & Hdr) & H1 & H2 & H3);
    [by exists ks|done..|].
  step. rewrite Hc. cbn [Z.eqb Assume Assert]. step. eexists. split; [done|]. fields. split_and!; done.
Qed.

Lemma Flush_spec c reallocate_cache :
  cache_inv c → uint256_IsNull (hashBlock c) = false →
  ∃ c', Flush reallocate_cache c = inr c' ∧ cache_inv c' ∧ cacheCoins (coins_ring c') = ∅ ∧
    dynamic_class c' = dynamic_class c ∧ hashBlock c' = hashBlock c ∧ best_block (base c') = hashBlock c ∧
    ∀ o, outpoint_ok o → coin_at (base c') o = cview c o ∧ cview c' o = cview c o.
Proof.
  intros Hi Hnull. unfold Flush.
  destruct (write_base_spec c true Hi Hnull) as (c1 & -> & Hd & Hcls & Hh & _ & [ks Hr] & Hb & Hbest & Hv). step.
  destruct (clear_spec _ _ Hr) as (r & -> & Hr' & D'). step.
  assert (Hempty : cacheCoins r = ∅) by (by apply fmap_empty_inv in D').
  replace (if reallocate_cache then _ else _) with (inr (set_ring r c1) : res (CCoinsViewCache S)).
  2:{ destruct reallocate_cache; [|done]. unfold ReallocateCache. fields. rewrite Hempty, map_size_empty.
      cbn [Nat.eqb Assert]. step. rewrite <-Hempty. by destruct r. }
  step. eexists. split; [done|]. fields. unfold cview at 2. fields. rewrite D'.
  split_and!; try done; [|intros o Ho; unfold over; rewrite lookup_empty; auto].
  exists []. unfold cinv. fields. rewrite D', Hh. destruct Hi as (ks' & _ & _ & _ & _ & _ & ?).
  split_and!; try done.
Qed.

Lemma cleaned_ok u u' D :
  entries_ok u D → (∀ o, outpoint_ok o → u' o = over D u o) → entries_ok u' (cleaned D).
Proof.
  intros HD Hu o f x. rewrite cleaned_lookup. destruct (D !! o) as [[g y]|] eqn:E; cbn; [|done].
  destruct (HD _ _ _ E) as [Ho (_ & HE & _)]. destruct (IsSpent y) eqn:Hs; [done|]. intros [= <- <-].
  split; [done|]. destruct HE as [HE _]. split_and!; try done; [by rewrite Hs|].
  intros _. rewrite Hu by done. unfold over. by rewrite E, Hs.
Qed.

Lemma cleaned_usage D u : entries_ok u D → msum usage (cleaned D) = msum usage D.
Proof.
  revert u. induction D as [|o [f x] D Hn IH] using map_ind; intros u HD; [done|].
  assert (HD' : entries_ok u D).
  { intros o' f' x' H. apply HD. rewrite lookup_insert_ne by congruence. done. }
  rewrite (msum_insert usage D), usage_pair by done. rewrite <-(IH u HD').
  destruct (HD o f x (lookup_insert_eq _ _ _)) as [_ (_ & HE & _)]. unfold cleaned.
  destruct (IsSpent x) eqn:Hs.
  - destruct HE as (_ & _ & HE). rewrite usage_empty by done.
    rewrite omap_insert_None by (by rewrite Hs). rewrite delete_id; [done|]. by rewrite lookup_omap, Hn.
  - rewrite omap_insert_Some with (y := (0, x)) by (by rewrite Hs).
    rewrite msum_insert, usage_pair; [done|]. by rewrite lookup_omap, Hn.
Qed.

Lemma Sync_spec c :
  cache_inv c → uint256_IsNull (hashBlock c) = false →
  ∃ c', Sync c = inr c' ∧ cache_inv c' ∧ m_dirty_count c' = 0 ∧
    dynamic_class c' = dynamic_class c ∧ hashBlock c' = hashBlock c ∧ best_block (base c') = hashBlock c ∧
    ∀ o, outpoint_ok o → coin_at (base c') o = cview c o ∧ cview c' o = cview c o.
Proof.
  intros Hi Hnull. unfold Sync.
  destruct (write_base_spec c false Hi Hnull) as (c1 & -> & Hd & Hcls & Hh & Hu & [Hr D] & Hb & Hbest & Hv). step.
  destruct (ring_begin _ _ Hr) as [Hn Hf]. unfold Next, nx in *. cbn in Hn.
  rewrite (proj2 (Z.eqb_neq _ _) Hf), Hn. cbn [negb Assume Assert some head_ptr]. step.
  rewrite decide_True by done. destruct Hi as (ks & _ & _ & Hu' & HD & _ & Hh').
  exists c1. split_and!; try done.
  - exists []. unfold cinv. rewrite D, Hd, Hh, Hu, (cleaned_usage _ _ HD). split_and!; try done.
    by eapply cleaned_ok.
  - intros o Ho. split; [by apply Hv|]. unfold cview at 1. rewrite D. unfold over at 1. rewrite cleaned_lookup.
    rewrite Hv by done. unfold cview, over. destruct (data (coins_ring c) !! o) as [[f x]|]; [|done]. cbn.
    destruct (IsSpent x) eqn:E; cbn; by rewrite ?E.
Qed.

(** ** The remaining operations *)

Lemma make_spec (cls : cache_class) (b : S) :
  view_inv b → cache_inv (CCoinsViewCache_make cls b) ∧ cbest (CCoinsViewCache_make cls b) = best_block b ∧
  ∀ o, cview (CCoinsViewCache_make cls b) o = coin_at b o.
Proof.
  intros Hb. destruct ring_empty as [Hr D]. split_and!; [|done|].
  - exists []. unfold cinv. cbn [CCoinsViewCache_make base coins_ring m_dirty_count cachedCoinsUsage hashBlock].
    rewrite D. split_and!; try done. apply uint256_zero_ok.
  - intros o. unfold cview, over. cbn. by rewrite D, lookup_empty.
Qed.

Lemma Reset_spec c :
  cache_inv c → ∃ c', Reset c = inr c' ∧ cache_inv c' ∧ base c' = base c ∧ cbest c' = best_block (base c) ∧
    ∀ o, cview c' o = coin_at (base c) o.
Proof.
  intros (ks & Hr & _ & _ & _ & Hb & _). unfold Reset.
  destruct (clear_spec _ _ Hr) as (r & -> & Hr' & D'). step. eexists. split; [done|].
  unfold cview, over. fields. rewrite D'. split_and!; try done.
  exists []. unfold cinv. fields. rewrite D'. split_and!; try done. apply uint256_zero_ok.
Qed.

Lemma Uncache_spec c o :
  cache_inv c → ∃ c', Uncache o c = inr c' ∧ base c' = base c ∧ same_cache c c'.
Proof.
  intros Hi. pose proof Hi as (ks & Hr & Hd & Hu & HD & Hb & Hh). unfold Uncache.
  destruct (find o c) as [e|] eqn:E; [|exists c; auto using same_cache_refl].
  change (IsDirty e) with (dirty (m_flags e)).
  destruct (dirty (m_flags e)) eqn:Hdirty; [exists c; auto using same_cache_refl|].
  apply find_data_Some in E. destruct (HD _ _ _ E) as [Ho HE]. pose proof HE as (_ & Hx & Hu' & _).
  pose proof (msum_le usage _ _ _ usage_pos E) as Hle. rewrite usage_pair in Hle.
  rewrite sub_assumed_ok by lia. step.
  destruct (erase_spec o _ _ _ _ Hr E) as (r & -> & Hr' & D'). step. eexists. split; [done|]. split; [done|].
  unfold same_cache, cview. fields. rewrite D'. split_and!; try done.
  - exists (filter (.≠ o) ks). unfold cinv. fields. rewrite D'.
    destruct (erase_length _ _ _ _ _ _ _ Hr E HE) as [Hlen _]. rewrite Hdirty in Hlen. cbn [Z.b2z] in Hlen.
    rewrite (msum_delete usage _ _ _ E), usage_pair in Hu.
    split_and!; try done; [lia..|by apply entries_ok_delete].
  - intros o' _. rewrite over_delete. case_decide; [|done]. subst o'. unfold over. rewrite E, (Hu' Hdirty).
    destruct (IsSpent (coin e)); [destruct Hx; congruence|done].
Qed.

Lemma Emplace_spec c o new :
  cache_inv c → outpoint_ok o → IsSpent new = false → coin_ok new →
  ∃ c', EmplaceCoinInternalDANGER o new c = inr c' ∧ cache_inv c' ∧ base c' = base c ∧ cbest c' = cbest c ∧
    ∀ o', cview c' o' = if decide (find o c = None) then upd (cview c) o (Some new) o' else cview c o'.
Proof.
  intros Hi Ho Hs Hok. pose proof Hi as (ks & Hr & Hd & Hu & HD & Hb & Hh). unfold EmplaceCoinInternalDANGER.
  destruct (find o c) as [e|] eqn:E; [by exists c|]. apply find_data in E.
  destruct (emplace_spec o new _ ks Hr E) as [Hr1 D1].
  destruct (AddFlags_spec DIRTY o _ ks 0 new Hr1) as (r & E2 & Hr2 & D2); [by rewrite D1, lookup_insert_eq|by left|].
  unfold SetDirty. rewrite E2. step. rewrite D1, insert_insert_eq in D2. eexists. split; [done|].
  unfold cview. fields. rewrite D2. split_and!; try done.
  - exists (ks ++ [o]). unfold cinv. fields. rewrite D2, msum_insert, usage_pair by done.
    split_and!; try done; [rewrite length_app; cbn; lia|lia|].
    apply entries_ok_insert; [done..|]. by apply entry_ok_written.
  - intros o'. rewrite over_insert, Hs, (decide_True (P := None = None)) by done. done.
Qed.

Lemma SetBestBlock_spec c h :
  cache_inv c → uint256_ok h → uint256_IsNull h = false →
  cache_inv (SetBestBlock h c) ∧ cbest (SetBestBlock h c) = h ∧ ∀ o, cview (SetBestBlock h c) o = cview c o.
Proof.
  intros (ks & ? & ? & ? & ? & ? & _) Hh Hn. unfold cbest. fields. rewrite Hn. split_and!; try done.
  exists ks. by split_and!.
Qed.

(** ** [SanityCheck] passes *)

Lemma entry_sane_ok u e : entry_ok u (m_flags e) (coin e) → entry_sane e = true.
Proof.
  intros (Hf & Hx & _). unfold entry_sane.
  change (IsDirty e) with (dirty (m_flags e)). change (IsFresh e) with (fresh (m_flags e)).
  destruct (IsSpent (coin e)); [by destruct Hx as (-> & -> & _)|]. destruct Hx as [_ Hx].
  destruct (dirty (m_flags e)); [done|]. by rewrite Hx.
Qed.

Lemma entries_sum (g : Z * Coin → Z) r :
  foldr (λ e acc, g (m_flags e, coin e) + acc) 0 (map snd (map_to_list (cacheCoins r))) = msum g (data r).
Proof.
  unfold msum, data. rewrite map_fold_fmap, map_fold_foldr. rewrite foldr_fmap.
  apply foldr_ext; [|done..]. by intros [k e] acc.
Qed.

Lemma count_dirty D ks u :
  entries_ok u D → NoDup ks → (∀ k f x, D !! k = Some (f, x) → (f ≠ 0 ↔ k ∈ ks)) →
  (∀ k, k ∈ ks → is_Some (D !! k)) →
  msum (λ p, Z.b2z (dirty p.1)) D = Z.of_nat (length ks).
Proof.
  revert ks u. induction D as [|o [f x] D Hn IH] using map_ind; intros ks u HD ND Hks Hdom.
  - destruct ks as [|k ks]; [done|]. destruct (Hdom k) as [? H]; [by left|]. by rewrite lookup_empty in H.
  - rewrite msum_insert by done. cbn [fst].
    destruct (HD o f x (lookup_insert_eq _ _ _)) as [_ HE].
    pose proof (Hks o f x (lookup_insert_eq _ _ _)) as Hin. rewrite (entry_flagged _ _ _ HE) in Hin.
    rewrite (IH (filter (.≠ o) ks) u).
    + rewrite NoDup_filter_ne by done.
      replace (bool_decide (o ∈ ks)) with (dirty f); [lia|].
      apply eq_true_iff_eq. by rewrite bool_decide_eq_true.
    + intros k g y H. apply HD. rewrite lookup_insert_ne by congruence. done.
    + by apply NoDup_filter.
    + intros k g y H. rewrite list_elem_of_filter, (Hks k g y) by (rewrite lookup_insert_ne by congruence; done).
      split; [intros; split; [congruence|done]|tauto].
    + intros k [Hk Hin']%list_elem_of_filter. specialize (Hdom k Hin'). by rewrite lookup_insert_ne in Hdom.
Qed.

Lemma SanityCheck_walk_spec r l ks fuel n :
  ring r (l ++ ks) → (∀ k f x, k ∈ ks → data r !! k = Some (f, x) → dirty f = true) → (length ks ≤ fuel)%nat →
  SanityCheck_walk fuel (head_ptr ks) r n = inr (n + Z.of_nat (length ks)).
Proof.
  revert l fuel n. induction ks as [|k ks IH]; intros l fuel n Hr Hd Hfuel.
  { destruct fuel; cbn; by rewrite Z.add_0_r. }
  destruct fuel as [|fuel]; cbn [length] in *; [lia|].
  destruct (ring_lookup r _ k Hr) as [[f x] HD]; [set_solver|].
  pose proof (Hd k f x ltac:(by left) HD) as Hdirty.
  apply data_lookup in HD as (e & He & Hf & _).
  assert (Hflag : f ≠ 0) by (by intros ->).
  pose proof Hr as (ND & Hpath & Hinfo).
  destruct (unlink_node k r l ks ND Hpath) as (p & q & Hp & Hq & Hpk & Hqk & Hpin & Hqin & _).
  pose proof (ring_next _ _ _ _ Hr) as Hq'. rewrite Hq in Hq'. injection Hq' as ->.
  assert (Hnode : ∀ y, y ∈ Sentinel :: map Pair (l ++ ks) → nx r y ≠ None →
    ∃ e, deref y r = Some e ∧ m_flags e ≠ 0).
  { intros y Hy Hn. unfold nx in Hn. destruct (deref y r) as [ey|] eqn:E; [|done]. exists ey. split; [done|].
    apply (Hinfo y _ (coin ey)); [unfold info; by rewrite E|]. rewrite map_app in *. set_solver. }
  destruct (Hnode p Hpin) as (ep & Ep & Fp); [by rewrite Hpk|].
  destruct (Hnode (head_ptr ks) Hqin) as (eq & Eq & Fq).
  { destruct ks as [|k' ks']; cbn [head_ptr]; [by rewrite (proj1 (ring_begin _ _ Hr))|].
    rewrite (ring_next r (l ++ [k]) k' ks'); [done|by rewrite <-app_assoc]. }
  unfold nx, pv in Hp, Hq, Hpk, Hqk. rewrite He in Hp, Hq. rewrite Ep in Hpk. rewrite Eq in Hqk.
  cbn in Hp, Hq, Hpk, Hqk.
  cbn [SanityCheck_walk head_ptr]. rewrite He. cbn [some]. step.
  unfold Next, Prev. subst f. rewrite !(proj2 (Z.eqb_neq _ _) Hflag). cbn [negb Assume Assert]. step.
  rewrite Hq. cbn [some]. step. rewrite Eq. cbn [some]. step. rewrite (proj2 (Z.eqb_neq _ _) Fq), Hqk.
  cbn [negb Assume Assert some]. step. rewrite bool_decide_eq_true_2 by done. cbn [Assert]. step.
  rewrite Hp. cbn [some]. step. rewrite Ep. cbn [some]. step. rewrite (proj2 (Z.eqb_neq _ _) Fp), Hpk.
  cbn [negb Assume Assert some]. step. rewrite bool_decide_eq_true_2 by done. cbn [Assert]. step.
  change (IsDirty e) with (dirty (m_flags e)). rewrite Hdirty. cbn [Assert]. step.
  rewrite (IH (l ++ [k])).
  - f_equal. lia.
  - by rewrite <-app_assoc.
  - intros k' f' x' Hk'. apply Hd. by right.
  - lia.
Qed.

Lemma SanityCheck_spec c : cache_inv c → SanityCheck c = inr tt.
Proof.
  intros (ks & Hr & Hd & Hu & HD & _). unfold SanityCheck.
  rewrite (Assert_true (forallb _ _)).
  2:{ apply forallb_forall. intros e ([k e'] & E & He)%list_elem_of_In%list_elem_of_fmap. cbn in E. subst e'.
      apply elem_of_map_to_list in He. eapply entry_sane_ok, HD, find_data_Some, He. }
  step. destruct (ring_begin _ _ Hr) as [Hn Hf]. unfold Next, nx in *. cbn in Hn.
  rewrite (proj2 (Z.eqb_neq _ _) Hf), Hn. cbn [negb Assume Assert some]. step.
  assert (Hdirty : ∀ k f x, k ∈ ks → data (coins_ring c) !! k = Some (f, x) → dirty f = true).
  { intros k f x Hk H. eapply entry_flagged; [by apply HD|]. by eapply ring_elem. }
  rewrite (SanityCheck_walk_spec _ [] ks _ 0) by (done || (rewrite length_map, length_map_to_list; by apply ring_length)).
  step. pose proof (entries_sum usage (coins_ring c)) as H1.
  pose proof (entries_sum (λ p, Z.b2z (dirty p.1)) (coins_ring c)) as H2. cbn [fst] in H2.
  change (λ e acc, DynamicMemoryUsage (coin e) + acc) with (λ e acc, usage (m_flags e, coin e) + acc).
  change (λ e acc, Z.b2z (IsDirty e) + acc) with (λ e acc, Z.b2z (dirty (m_flags e)) + acc).
  rewrite H1, H2, (count_dirty _ ks _ HD), Hu, Hd, !Z.eqb_refl; [done|apply Hr|..].
  - intros k f x H. by eapply ring_elem.
  - intros k Hk. by eapply ring_lookup.
Qed.

End Theory.

(** ** Sequences of operations

    [op] is a call on a cache, [exec] runs it, and [spec_next] and [spec_reply] are its meaning on the
    abstract state: the map of unspent coins, the best block, and whether the cache holds a
    best block of its own (which [Flush] and [Sync] hand to the base). *)

Inductive op :=
  | OpAdd (o : COutPoint) (new : Coin) (possible_overwrite : bool)
  | OpSpend (o : COutPoint) (moveout : bool)
  | OpGet (o : COutPoint)
  | OpAccess (o : COutPoint)
  | OpHave (o : COutPoint)
  | OpUncache (o : COutPoint)
  | OpGetBest
  | OpSetBest (h : uint256)
  | OpSync
  | OpFlush (reallocate_cache : bool).

(** What a call returns; [RSpend] with what [*moveout] received, [RAccess] with the coin referred to. *)
Inductive reply :=
  | RUnit
  | RBool (b : bool)
  | RCoin (x : option Coin)
  | RHash (h : uint256)
  | RSpend (spent : bool) (moved : option Coin)
  | RAccess (x : Coin).

(** A spent coin stands for no coin. *)
Definition unspent (x : Coin) : option Coin := if IsSpent x then None else Some x.

Definition exec {S} `{!CCoinsView S} (p : op) (c : CCoinsViewCache S) : res (reply * CCoinsViewCache S) :=
  match p with
  | OpAdd o new po => c ← AddCoin o new po c; inr (RUnit, c)
  | OpSpend o moveout => '(b, mv, c) ← SpendCoin o moveout c; inr (RSpend b mv, c)
  | OpGet o => '(x, c) ← GetCoin o c; inr (RCoin x, c)
  | OpAccess o => '(x, c) ← AccessCoin o c; inr (RAccess x, c)
  | OpHave o => '(b, c) ← HaveCoin o c; inr (RBool b, c)
  | OpUncache o => c ← Uncache o c; inr (RUnit, c)
  | OpGetBest => '(h, c) ← GetBestBlock c; inr (RHash h, c)
  | OpSetBest h => inr (RUnit, SetBestBlock h c)
  | OpSync => c ← Sync c; inr (RUnit, c)
  | OpFlush reallocate => c ← Flush reallocate c; inr (RUnit, c)
  end.

Fixpoint run {S} `{!CCoinsView S} (ops : list op) (c : CCoinsViewCache S) : res (list reply * CCoinsViewCache S) :=
  match ops with
  | [] => inr ([], c)
  | p :: ops => '(r, c) ← exec p c; '(rs, c) ← run ops c; inr (r :: rs, c)
  end.

Record utxo := { coins : COutPoint → option Coin; tip : uint256; own_tip : bool }.

(** What a call does to the map. *)
Definition spec_next (p : op) (s : utxo) : utxo :=
  match p with
  | OpAdd o new _ =>
      if IsUnspendable (scriptPubKey (out new)) then s
      else {| coins := upd (coins s) o (Some new); tip := tip s; own_tip := own_tip s |}
  | OpSpend o _ => {| coins := upd (coins s) o None; tip := tip s; own_tip := own_tip s |}
  | OpSetBest h => {| coins := coins s; tip := h; own_tip := true |}
  | _ => s
  end.

(** Which answers the map allows.  Every answer is determined but two: for an output that is not in
    the map, [SpendCoin] may also say true and move a spent coin out, when the cache still has the
    entry of an output spent before; and [AccessCoin] may refer to any spent coin. *)
Definition spec_reply (p : op) (s : utxo) (r : reply) : Prop :=
  match p, r with
  | OpSpend o moveout, RSpend b moved =>
      match coins s o with
      | Some x => b = true ∧ moved = if moveout then Some x else None
      | None => moved ≫= unspent = None ∧ (is_Some moved ↔ b = true ∧ moveout = true)
      end
  | OpGet o, RCoin x => x = coins s o
  | OpAccess o, RAccess x => unspent x = coins s o
  | OpHave o, RBool b => b = bool_decide (is_Some (coins s o))
  | OpGetBest, RHash h => h = tip s
  | (OpAdd _ _ _ | OpUncache _ | OpSetBest _ | OpSync | OpFlush _), RUnit => True
  | _, _ => False
  end.

Fixpoint spec_final (ops : list op) (s : utxo) : utxo :=
  match ops with [] => s | p :: ops => spec_final ops (spec_next p s) end.
Fixpoint spec_replies (ops : list op) (s : utxo) (rs : list reply) : Prop :=
  match ops, rs with
  | [], [] => True
  | p :: ops, r :: rs => spec_reply p s r ∧ spec_replies ops (spec_next p s) rs
  | _, _ => False
  end.

(** The callers' obligations: well-formed arguments; a spendable coin is only added without
    [possible_overwrite] where none is; a best block is set before the cache is written. *)
Definition op_ok (p : op) (s : utxo) : Prop :=
  match p with
  | OpAdd o new po =>
      outpoint_ok o ∧ IsSpent new = false ∧
      (IsUnspendable (scriptPubKey (out new)) = false → coin_ok new ∧ (po = true ∨ coins s o = None))
  | OpSpend o _ | OpGet o | OpAccess o | OpHave o => outpoint_ok o
  | OpUncache _ | OpGetBest => True
  | OpSetBest h => uint256_ok h ∧ uint256_IsNull h = false
  | OpSync | OpFlush _ => own_tip s = true
  end.

Fixpoint ops_ok (ops : list op) (s : utxo) : Prop :=
  match ops with
  | [] => True
  | p :: ops => op_ok p s ∧ ops_ok ops (spec_next p s)
  end.

Section Ops.
  Context {S : Type} `{!CCoinsView S} `{!LawfulView S}.
  Implicit Types c : CCoinsViewCache S.

(** The cache [c] implements the abstract state [s]. *)
Definition implements c (s : utxo) : Prop :=
  cache_inv c ∧ (∀ o, outpoint_ok o → cview c o = coins s o) ∧ cbest c = tip s ∧
  (own_tip s = true → uint256_IsNull (hashBlock c) = false).

Lemma implements_same c c' s :
  implements c s → same_cache c c' → implements c' s.
Proof.
  intros (_ & Hv & Hb & Ho) (Hi & _ & Hb' & Hh' & Hv'). split_and!; try done.
  - intros o Hok. by rewrite Hv', Hv.
  - by rewrite Hb'.
  - intros Hs. rewrite Hh'; auto.
Qed.
Lemma AddCoin_implements c s o new po :
  implements c s → op_ok (OpAdd o new po) s →
  ∃ c', AddCoin o new po c = inr c' ∧ implements c' (spec_next (OpAdd o new po) s).
Proof.
  intros Himp (Ho & Hs & Hok). cbn.
  destruct (IsUnspendable (scriptPubKey (out new))) eqn:Hun.
  { exists c. split; [|done]. unfold AddCoin. rewrite Hs, Hun. done. }
  destruct (Hok eq_refl) as [Hnew Hpo]. clear Hok. rename Hnew into Hok.
  destruct Himp as (Hi & Hv & Hb & Htip).
  destruct (AddCoin_spec c o new po Hi Ho Hs Hok Hun) as (c' & E & Hi' & _ & Hh' & Hb' & Hv').
  { by rewrite Hv. }
  exists c'. split; [done|]. split_and!; cbn; try done.
  - intros o' Ho'. rewrite Hv'. unfold upd. case_decide; auto.
  - unfold cbest. rewrite Hh', Hb'. exact Hb.
  - by rewrite Hh'.
Qed.

Lemma SpendCoin_implements c s o moveout :
  implements c s → outpoint_ok o →
  ∃ b mv c', SpendCoin o moveout c = inr (b, mv, c') ∧ spec_reply (OpSpend o moveout) s (RSpend b mv) ∧
    implements c' (spec_next (OpSpend o moveout) s).
Proof.
  intros (Hi & Hv & Hb & Htip) Ho.
  destruct (SpendCoin_spec c o moveout Hi Ho) as (b & mv & c' & E & Hi' & _ & Hb' & Hh' & Hv' & Hs & Hmv & His).
  exists b, mv, c'. split; [done|]. split.
  - cbn. rewrite Hv in Hs, Hmv by done. destruct (coins s o) as [x|] eqn:Hx.
    + rewrite Hs in * by by eexists. split; [done|]. destruct moveout.
      * specialize (Hmv eq_refl). destruct mv as [y|]; [|done]. cbn in Hmv. by destruct (IsSpent y); simplify_eq.
      * destruct mv; [|done]. by destruct (proj1 His ltac:(by eexists)).
    + split; [|done]. destruct moveout; [by apply Hmv|]. destruct mv; [|done]. by destruct (proj1 His ltac:(by eexists)).
  - split_and!; cbn; try done.
    + intros o' Ho'. rewrite Hv' by done. unfold upd. case_decide; auto.
    + by rewrite Hb'.
    + intros Hs'. rewrite Hh'; auto.
Qed.

Lemma written_implements c c' s :
  implements c s → own_tip s = true →
  cache_inv c' → hashBlock c' = hashBlock c → (∀ o, outpoint_ok o → cview c' o = cview c o) → implements c' s.
Proof.
  intros (Hi & Hv & Hb & Htip) Hs Hi' Hh' Hv'. split_and!; try done.
  - intros o Ho. by rewrite Hv', Hv.
  - rewrite <-Hb. unfold cbest. rewrite Hh', Htip by done. done.
  - by rewrite Hh'.
Qed.

Lemma exec_implements c s p :
  implements c s → op_ok p s →
  ∃ r c', exec p c = inr (r, c') ∧ spec_reply p s r ∧ implements c' (spec_next p s).
Proof.
  intros Himp Hok. pose proof Himp as (Hi & Hv & Hb & Htip). destruct p; cbn [exec op_ok spec_reply spec_next] in *.
  - destruct (AddCoin_implements c s o new possible_overwrite Himp Hok) as (c' & -> & H). step. by exists RUnit, c'.
  - destruct (SpendCoin_implements c s o moveout Himp Hok) as (b & mv & c' & -> & E & H). step. by exists (RSpend b mv), c'.
  - destruct (GetCoin_spec c o Hi Hok) as (c' & -> & H). step. eexists (RCoin _), c'. rewrite Hv by done.
    split; [done|]. split; [done|]. by eapply implements_same.
  - destruct (AccessCoin_spec c o Hi Hok) as (x & c' & -> & H & E). step. exists (RAccess x), c'. split; [done|].
    split; [|by eapply implements_same]. unfold unspent. by rewrite <-E, Hv.
  - destruct (HaveCoin_spec c o Hi Hok) as (c' & -> & H). step. eexists (RBool _), c'. rewrite Hv by done.
    split; [done|]. split; [done|]. by eapply implements_same.
  - destruct (Uncache_spec c o Hi) as (c' & -> & _ & H). step. exists RUnit, c'.
    split; [done|]. split; [done|]. by eapply implements_same.
  - destruct (GetBestBlock_spec c Hi) as (c' & -> & H). step. exists (RHash (tip s)), c'. rewrite Hb.
    split; [done|]. split; [done|]. by eapply implements_same.
  - destruct Hok as [Hh Hn]. destruct (SetBestBlock_spec c h Hi Hh Hn) as (H1 & H2 & H3).
    eexists RUnit, _. split; [done|]. split; [done|]. split_and!; cbn; try done.
  - destruct (Sync_spec c Hi (Htip Hok)) as (c' & -> & H1 & _ & _ & H2 & _ & H3). step. exists RUnit, c'.
    split; [done|]. split; [done|]. eapply written_implements; try done. intros. by apply H3.
  - destruct (Flush_spec c reallocate_cache Hi (Htip Hok)) as (c' & -> & H1 & _ & _ & H2 & _ & H3). step. exists RUnit, c'.
    split; [done|]. split; [done|]. eapply written_implements; try done. intros. by apply H3.
Qed.

Lemma run_implements ops c s :
  implements c s → ops_ok ops s →
  ∃ rs c', run ops c = inr (rs, c') ∧ spec_replies ops s rs ∧ implements c' (spec_final ops s).
Proof.
  revert c s. induction ops as [|p ops IH]; intros c s Himp Hok; [by exists [], c|].
  destruct Hok as [Hp Hok]. destruct (exec_implements c s p Himp Hp) as (r & c1 & E & Hr & H1).
  destruct (IH c1 _ H1 Hok) as (rs & c2 & E2 & Hrs & H2). exists (r :: rs), c2. cbn [run spec_final].
  rewrite E. step. rewrite E2. step. done.
Qed.

(** The abstract state of a new cache over [b]. *)
Definition initial (b : S) : utxo := {| coins := coin_at b; tip := best_block b; own_tip := false |}.

Lemma make_implements cls b : view_inv b → implements (CCoinsViewCache_make cls b) (initial b).
Proof. intros Hb. destruct (make_spec cls b Hb) as (H1 & H2 & H3). split_and!; try done. Qed.

End Ops.

(** C20: A coins cache is a map of unspent outputs.  Let [b] be any lawful view (a database, or
    another cache).  Every sequence of calls on a new cache over [b] that meets the callers'
    obligations returns, without a failed assertion, a dangling pointer or an exception, and every
    call does and answers what it does on the plain map of unspent coins; [Uncache], [Sync] and
    [Flush] change nothing that can be seen.  The one answer that the map leaves open is that of
    [SpendCoin] for an output that is not in it: the call changes nothing, but its result may be
    false or, for an output spent before, true, with a spent coin moved out.  For an output in the
    map the result is true and, when [moveout] is given, the coin is moved out. *)
Theorem coins_cache_refines_map {S} `{!CCoinsView S} `{!LawfulView S} (cls : cache_class) (b : S) (ops : list op)
    (Hb : view_inv b) (Hops : ops_ok ops (initial b)) :
  ∃ rs c', run ops (CCoinsViewCache_make cls b) = inr (rs, c') ∧ spec_replies ops (initial b) rs ∧
    (∀ o, outpoint_ok o → PeekCoin o c' = inr (coins (spec_final ops (initial b)) o)).
Proof.
  destruct (run_implements ops _ _ (make_implements cls b Hb) Hops) as (rs & c' & E & Hr & Hi & Hv & _).
  exists rs, c'. split; [done|]. split; [done|]. intros o Ho. rewrite PeekCoin_spec by done. by rewrite Hv.
Qed.

(** C21: The data structure of a coins cache is sound after every sequence of calls: the links of
    the list of flagged entries are consistent, the list holds exactly the dirty entries, only the
    admissible combinations of spent, DIRTY and FRESH occur, and the running counts of dirty
    entries and of memory are right; [SanityCheck] finds nothing. *)
Theorem coins_cache_sane {S} `{!CCoinsView S} `{!LawfulView S} (cls : cache_class) (b : S) (ops : list op)
    (rs : list reply) (c' : CCoinsViewCache S)
    (Hb : view_inv b) (Hops : ops_ok ops (initial b)) (Hrun : run ops (CCoinsViewCache_make cls b) = inr (rs, c')) :
  SanityCheck c' = inr tt.
Proof.
  destruct (run_implements ops _ _ (make_implements cls b Hb) Hops) as (rs1 & c1 & E & _ & Hi & _).
  rewrite Hrun in E. injection E as -> ->. by apply SanityCheck_spec.
Qed.

(** C22: Flushing persists the map.  After any admissible sequence of calls that set a best block,
    [Flush] succeeds, leaves the cache empty, and the base view then holds exactly the coins and the
    best block that the cache showed. *)
Theorem coins_cache_flush {S} `{!CCoinsView S} `{!LawfulView S} (cls : cache_class) (b : S) (ops : list op)
    (rs : list reply) (c : CCoinsViewCache S) (reallocate_cache : bool)
    (Hb : view_inv b) (Hops : ops_ok ops (initial b)) (Hrun : run ops (CCoinsViewCache_make cls b) = inr (rs, c))
    (Htip : own_tip (spec_final ops (initial b)) = true) :
  ∃ c', Flush reallocate_cache c = inr c' ∧ GetCacheSize c' = 0 ∧ m_dirty_count c' = 0 ∧
    view_inv (base c') ∧ best_block (base c') = tip (spec_final ops (initial b)) ∧
    ∀ o, outpoint_ok o → coin_at (base c') o = coins (spec_final ops (initial b)) o.
Proof.
  destruct (run_implements ops _ _ (make_implements cls b Hb) Hops) as (rs1 & c1 & E & _ & Hi & Hv & Hbest & Hown).
  rewrite Hrun in E. injection E as -> ->. specialize (Hown Htip).
  destruct (Flush_spec c1 reallocate_cache Hi Hown) as (c' & E & Hi' & He & _ & _ & Hb' & Hv').
  exists c'. pose proof Hi' as (ks & Hr & Hd & _ & _ & Hbase & _).
  assert (ks = []) as ->.
  { pose proof (ring_length _ _ Hr) as Hl. rewrite He, map_size_empty in Hl. by destruct ks; [|cbn in Hl; lia]. }
  split_and!; try done.
  - unfold GetCacheSize. by rewrite He, map_size_empty.
  - rewrite Hb', <-Hbest. unfold cbest. by rewrite Hown.
  - intros o Ho. destruct (Hv' o Ho) as [-> _]. by apply Hv.
Qed.
