(* ===== verification/CoinsProgram.v ===== *)
(** * Programs on a coins view: coins.cpp

    The code that validates and connects blocks works on a [CCoinsViewCache] through six methods.
    A [prog] is such code: a tree of calls with what is done with each answer.  [on_cache] runs it
    on a cache as modelled in [Coins]; [wp] states what it does to the map of unspent outputs the
    cache stands for.  [on_cache_wp] connects the two, so that the theorems about blocks are proved
    on the plain map and hold of the cache with its flags, its list and its base. *)

From S2P Require Import Prelude Serialize Hash Primitives Script CoinsList Coins.
From Stdlib Require Import ZArith Lia.
From stdpp Require Import base option list numbers gmap.

Open Scope Z_scope.
Open Scope kernel_scope.

(** ** Calls and programs *)

Inductive coins_call :=
  | call_AddCoin (o : COutPoint) (new : Coin) (possible_overwrite : bool)
  | call_SpendCoin (o : COutPoint) (moveout : bool)
  | call_AccessCoin (o : COutPoint)
  | call_HaveCoin (o : COutPoint)
  | call_GetBestBlock
  | call_SetBestBlock (h : uint256).

Definition answer (e : coins_call) : Set :=
  match e with
  | call_AddCoin _ _ _ | call_SetBestBlock _ => unit
  | call_SpendCoin _ _ => bool * option Coin
  | call_AccessCoin _ => Coin
  | call_HaveCoin _ => bool
  | call_GetBestBlock => uint256
  end.

Inductive prog (A : Type) : Type :=
  | Return (a : A)
  | Raise (f : failure)
  | Call (e : coins_call) (k : answer e → prog A).
Arguments Return {_}. Arguments Raise {_}. Arguments Call {_}.

#[export] Instance prog_ret : MRet prog := λ A a, Return a.
#[export] Instance prog_bind : MBind prog := λ A B f,
  fix bind p := match p with Return a => f a | Raise e => Raise e | Call e k => Call e (λ r, bind (k r)) end.

Definition call (e : coins_call) : prog (answer e) := Call e Return.
Definition AddCoin' (o : COutPoint) (new : Coin) (possible_overwrite : bool) : prog unit := call (call_AddCoin o new possible_overwrite).
Definition SpendCoin' (o : COutPoint) (moveout : bool) : prog (bool * option Coin) := call (call_SpendCoin o moveout).
Definition AccessCoin' (o : COutPoint) : prog Coin := call (call_AccessCoin o).
Definition HaveCoin' (o : COutPoint) : prog bool := call (call_HaveCoin o).
Definition GetBestBlock' : prog uint256 := call call_GetBestBlock.
Definition SetBestBlock' (h : uint256) : prog unit := call (call_SetBestBlock h).

(** Failures that do not involve the view. *)
Definition of_res {A} (r : res A) : prog A := match r with inl f => Raise f | inr a => Return a end.
Definition checked (b : bool) : prog unit := of_res (Assert b).
Definition or_fail {A} (f : failure) (x : option A) : prog A := match x with Some a => Return a | None => Raise f end.

(** ** Transactions on a view *)

(** The loop over [tx.vout] of [AddCoins], from output [i] on. *)
Fixpoint AddCoins_loop (txid : uint256) (nHeight : Z) (fCoinbase check_for_overwrite : bool) (i : Z) (outs : list CTxOut)
    : prog unit :=
  match outs with
  | [] => mret ()
  | o :: outs =>
      let op := {| op_hash := txid; op_n := u32 i |} in
      overwrite ← (if check_for_overwrite then HaveCoin' op else mret fCoinbase);
      _ ← AddCoin' op (Coin_make o nHeight fCoinbase) overwrite;
      AddCoins_loop txid nHeight fCoinbase check_for_overwrite (i + 1) outs
  end.
Definition AddCoins `{!ABI} (tx : CTransaction) (nHeight : Z) (check_for_overwrite : bool) : prog unit :=
  AddCoins_loop (ComputeHash tx) nHeight (IsCoinBase tx) check_for_overwrite 0 (vout tx).

Fixpoint HaveInputs_loop (ins : list CTxIn) : prog bool :=
  match ins with
  | [] => mret true
  | i :: ins => have ← HaveCoin' (prevout i); if (have : bool) then HaveInputs_loop ins else mret false
  end.
Definition HaveInputs (tx : CTransaction) : prog bool :=
  if IsCoinBase tx then mret true else HaveInputs_loop (vin tx).

Definition MIN_TRANSACTION_OUTPUT_WEIGHT : Z := WITNESS_SCALE_FACTOR * GetSerializeSize CTxOutF CTxOut_null.
Definition MAX_OUTPUTS_PER_BLOCK : Z := MAX_BLOCK_WEIGHT / MIN_TRANSACTION_OUTPUT_WEIGHT.

Fixpoint AccessByTxid_loop (fuel : nat) (txid : uint256) (n : Z) : prog Coin :=
  match fuel with
  | O => Raise fuel_exhausted
  | S fuel =>
      if n <? MAX_OUTPUTS_PER_BLOCK then
        alternate ← AccessCoin' {| op_hash := txid; op_n := n |};
        if IsSpent alternate then AccessByTxid_loop fuel txid (u32 (n + 1)) else mret alternate
      else mret coinEmpty
  end.
Definition AccessByTxid (txid : uint256) : prog Coin :=
  AccessByTxid_loop (Z.to_nat MAX_OUTPUTS_PER_BLOCK + 1) txid 0.

(** ** Running a program on a cache *)

Section Run.
Context {S : Type} `{!CCoinsView S}.

Definition perform (e : coins_call) (c : CCoinsViewCache S) : res (answer e * CCoinsViewCache S) :=
  match e with
  | call_AddCoin o new po => c ← AddCoin o new po c; inr ((), c)
  | call_SpendCoin o moveout => SpendCoin o moveout c
  | call_AccessCoin o => AccessCoin o c
  | call_HaveCoin o => HaveCoin o c
  | call_GetBestBlock => GetBestBlock c
  | call_SetBestBlock h => inr ((), SetBestBlock h c)
  end.

Fixpoint on_cache {A} (p : prog A) (c : CCoinsViewCache S) : res (A * CCoinsViewCache S) :=
  match p with
  | Return a => inr (a, c)
  | Raise f => inl f
  | Call e k => '(r, c) ← perform e c; on_cache (k r) c
  end.

(** A sequence of programs is run one after the other. *)
Lemma on_cache_bind {A B} (p : prog A) (f : A → prog B) c :
  on_cache (p ≫= f) c = ('(a, c) ← on_cache p c; on_cache (f a) c).
Proof.
  revert c. induction p as [a|e|e k IH]; intros c; cbn; [done|done|].
  destruct (perform e c) as [|[r c1]]; cbn; [done|]. apply IH.
Qed.
End Run.

(** ** What a program does to the map of coins *)

(** The callers' obligations and the answers and effects of a call on the map of unspent outputs. *)
Definition call_ok (e : coins_call) (s : utxo) : Prop :=
  match e with
  | call_AddCoin o new po => op_ok (OpAdd o new po) s
  | call_SpendCoin o _ | call_AccessCoin o | call_HaveCoin o => outpoint_ok o
  | call_GetBestBlock => True
  | call_SetBestBlock h => op_ok (OpSetBest h) s
  end.

(** What [SpendCoin] answers for a coin that is not there is left open, as is the spent coin that
    [AccessCoin] answers. *)
Definition call_spec (e : coins_call) (s : utxo) : answer e → utxo → Prop :=
  match e with
  | call_AddCoin o new po => λ _ s', s' = spec_next (OpAdd o new po) s
  | call_SpendCoin o moveout => λ '(b, mv) s',
      s' = spec_next (OpSpend o moveout) s ∧ (is_Some (coins s o) → b = true) ∧
      (moveout = true → mv ≫= unspent = coins s o)
  | call_AccessCoin o => λ x s', s' = s ∧ unspent x = coins s o
  | call_HaveCoin o => λ b s', s' = s ∧ b = bool_decide (is_Some (coins s o))
  | call_GetBestBlock => λ h s', s' = s ∧ h = tip s
  | call_SetBestBlock h => λ _ s', s' = spec_next (OpSetBest h) s
  end.

(** From the map [s] the program returns, with a result and a map that satisfy [Q]. *)
Fixpoint wp {A} (p : prog A) (s : utxo) (Q : A → utxo → Prop) : Prop :=
  match p with
  | Return a => Q a s
  | Raise _ => False
  | Call e k => call_ok e s ∧ ∀ r s', call_spec e s r s' → wp (k r) s' Q
  end.

Lemma wp_bind {A B} (p : prog A) (f : A → prog B) s Q :
  wp p s (λ a s', wp (f a) s' Q) → wp (p ≫= f) s Q.
Proof. revert s. induction p as [a|e|e k IH]; intros s; cbn; [done|done|]. intros [? H]. split; auto. Qed.

Lemma wp_mono {A} (p : prog A) s (Q Q' : A → utxo → Prop) :
  wp p s Q → (∀ a s', Q a s' → Q' a s') → wp p s Q'.
Proof. revert s. induction p as [a|e|e k IH]; intros s; cbn; [auto|done|]. intros [? H] HQ. split; eauto. Qed.

Lemma wp_bind_mono {A B} (p : prog A) (f : A → prog B) s R Q :
  wp p s R → (∀ a s', R a s' → wp (f a) s' Q) → wp (p ≫= f) s Q.
Proof. intros. apply wp_bind. by eapply wp_mono. Qed.

Lemma wp_and {A} (p : prog A) s (Q Q' : A → utxo → Prop) :
  wp p s Q → wp p s Q' → wp p s (λ a s', Q a s' ∧ Q' a s').
Proof. revert s. induction p as [a|e|e k IH]; intros s; cbn; [auto|done|]. intros [? H] [_ H']. split; auto. Qed.

Section Refinement.
Context {S : Type} `{!CCoinsView S} `{!LawfulView S}.
Implicit Types c : CCoinsViewCache S.

Lemma perform_spec e c s :
  implements c s → call_ok e s → ∃ r c' s', perform e c = inr (r, c') ∧ call_spec e s r s' ∧ implements c' s'.
Proof.
  intros Himp Hok. pose proof Himp as (Hi & Hv & Hb & Htip). destruct e; cbn [perform call_ok call_spec answer] in *.
  - destruct (AddCoin_implements c s o new possible_overwrite Himp Hok) as (c' & -> & H). eexists (), c', _. by split_and!.
  - destruct (SpendCoin_spec c o moveout Hi Hok) as (b & mv & c' & -> & Hi' & _ & Hb' & Hh' & Hv' & Hs & Hmv & _).
    eexists (b, mv), c', _. split; [done|]. split; [split; [done|split]|].
    + by rewrite <-Hv.
    + intros ->. rewrite <-Hv by done. by apply Hmv.
    + split; [done|]. split; [|split; [by rewrite Hb'|intros Ht; rewrite Hh'; auto]].
      intros o' Ho'. cbn. rewrite Hv' by done. unfold upd. case_decide; auto.
  - destruct (AccessCoin_spec c o Hi Hok) as (x & c' & -> & H & E). exists x, c', s. split_and!; try done.
    + unfold unspent. by rewrite <-E, Hv.
    + by eapply implements_same.
  - destruct (HaveCoin_spec c o Hi Hok) as (c' & -> & H). eexists _, c', s. split_and!; try done.
    + by rewrite Hv.
    + by eapply implements_same.
  - destruct (GetBestBlock_spec c Hi) as (c' & -> & H). eexists _, c', s. split_and!; try done. by eapply implements_same.
  - destruct Hok as [Hh Hn]. destruct (SetBestBlock_spec c h Hi Hh Hn) as (H1 & H2 & H3).
    eexists (), _, _. split; [done|]. split; [done|]. by split_and!.
Qed.

(** A program that returns on the map returns on every cache that implements the map. *)
Lemma on_cache_wp {A} (p : prog A) c s Q :
  implements c s → wp p s Q → ∃ a c' s', on_cache p c = inr (a, c') ∧ implements c' s' ∧ Q a s'.
Proof.
  revert c s. induction p as [a|f|e k IH]; intros c s Himp; cbn; [by eauto 10|done|]. intros [Hok H].
  destruct (perform_spec e c s Himp Hok) as (r & c1 & s1 & -> & Hs & H1). cbn. eapply IH; eauto.
Qed.
End Refinement.
