(* ===== verification/Compressor.v ===== *)
(** * Compact form of amounts, scripts and outputs: compressor.h, compressor.cpp

    The coins database stores outputs in this form. *)

From S2P Require Import Prelude Serialize Hash Primitives Script PubKey CoinsList Coins.
From Stdlib Require Import ZArith Lia.
From stdpp Require Import base option list numbers.

Open Scope Z_scope.
Open Scope kernel_scope.

Section Compressor.
  Context `{SECP : !Secp256k1}.

(** ** Scripts *)

Definition at_ (script : bytes) (i : nat) : Z := nth i script 0.

Definition IsToKeyID (script : bytes) : option bytes :=
  if (length script =? 25)%nat && (at_ script 0 =? OP_DUP) && (at_ script 1 =? OP_HASH160)
     && (at_ script 2 =? 20) && (at_ script 23 =? OP_EQUALVERIFY) && (at_ script 24 =? OP_CHECKSIG)
  then Some (take 20 (drop 3 script)) else None.

Definition IsToScriptID (script : bytes) : option bytes :=
  if (length script =? 23)%nat && (at_ script 0 =? OP_HASH160) && (at_ script 1 =? 20)
     && (at_ script 22 =? OP_EQUAL)
  then Some (take 20 (drop 2 script)) else None.

Definition IsToPubKey (script : bytes) : option bytes :=
  if (length script =? 35)%nat && (at_ script 0 =? 33) && (at_ script 34 =? OP_CHECKSIG)
     && ((at_ script 1 =? 0x02) || (at_ script 1 =? 0x03))
  then Some (CPubKey_Set (take 33 (drop 1 script)))
  else if (length script =? 67)%nat && (at_ script 0 =? 65) && (at_ script 66 =? OP_CHECKSIG)
     && (at_ script 1 =? 0x04)
  then
    let pubkey := CPubKey_Set (take 65 (drop 1 script)) in
    if CPubKey_IsFullyValid pubkey then Some pubkey else None
  else None.

Definition CompressScript (script : bytes) : option bytes :=
  match IsToKeyID script with
  | Some keyID => Some (0x00 :: keyID)
  | None =>
      match IsToScriptID script with
      | Some scriptID => Some (0x01 :: scriptID)
      | None =>
          match IsToPubKey script with
          | Some pubkey =>
              let tail := take 32 (drop 1 pubkey) in
              if (at_ pubkey 0 =? 0x02) || (at_ pubkey 0 =? 0x03) then Some (at_ pubkey 0 :: tail)
              else if at_ pubkey 0 =? 0x04 then Some ((0x04 .| (at_ pubkey 64 .& 0x01)) :: tail)
              else None
          | None => None
          end
      end
  end.

Definition GetSpecialScriptSize (nSize : Z) : Z :=
  if (nSize =? 0) || (nSize =? 1) then 20
  else if (nSize =? 2) || (nSize =? 3) || (nSize =? 4) || (nSize =? 5) then 32
  else 0.

(** [None] is the result false.  The assertion on the size of the decompressed key is
    [Decompress_size] below. *)
Definition DecompressScript (nSize : Z) (inp : bytes) : option bytes :=
  if nSize =? 0x00 then Some ([OP_DUP; OP_HASH160; 20] ++ take 20 inp ++ [OP_EQUALVERIFY; OP_CHECKSIG])
  else if nSize =? 0x01 then Some ([OP_HASH160; 20] ++ take 20 inp ++ [OP_EQUAL])
  else if (nSize =? 0x02) || (nSize =? 0x03) then Some ([33; nSize] ++ take 32 inp ++ [OP_CHECKSIG])
  else if (nSize =? 0x04) || (nSize =? 0x05) then
    pubkey ← CPubKey_Decompress (CPubKey_Set ((nSize - 2) :: take 32 inp));
    Some ([65] ++ take 65 pubkey ++ [OP_CHECKSIG])
  else None.

(** ** Amounts *)

(** The loop that divides out powers of ten: the quotient and the exponent. *)
Fixpoint strip_zeros (fuel : nat) (n e : Z) : Z * Z :=
  match fuel with
  | O => (n, e)
  | S fuel => if (n mod 10 =? 0) && (e <? 9) then strip_zeros fuel (n / 10) (e + 1) else (n, e)
  end.

(** The assertion [1 <= d <= 9] is [CompressAmount_digit] below. *)
Definition CompressAmount (n : Z) : Z :=
  if n =? 0 then 0
  else
    let '(n, e) := strip_zeros 9 n 0 in
    if e <? 9 then
      let d := n mod 10 in
      let n := n / 10 in
      u64 (1 + (n * 9 + d - 1) * 10 + e)
    else u64 (1 + (n - 1) * 10 + 9).

Fixpoint times_ten (e : nat) (n : Z) : Z :=
  match e with O => n | S e => times_ten e (u64 (n * 10)) end.

Definition DecompressAmount (x : Z) : Z :=
  if x =? 0 then 0
  else
    let x := x - 1 in
    let e := x mod 10 in
    let x := x / 10 in
    let n :=
      if e <? 9 then
        let d := x mod 9 + 1 in
        let x := x / 9 in
        u64 (x * 10 + d)
      else u64 (x + 1) in
    times_ten (Z.to_nat e) n.

(** ** Formatters *)

Definition VARINT32 : Formatter Z := VarIntFormatter 32 (2 ^ 32 - 1).
Definition VARINT64 : Formatter Z := VarIntFormatter 64 (2 ^ 64 - 1).

Definition nSpecialScripts : Z := 6.

Definition ScriptCompression : Formatter bytes := {|
  Ser script :=
    match CompressScript script with
    | Some compr => compr
    | None => Ser VARINT32 (u32 (Z.of_nat (length script) + nSpecialScripts)) ++ script
    end;
  Unser :=
    nSize <-- Unser VARINT32 ;;
    if nSize <? nSpecialScripts then
      vch <-- read (Z.to_nat (GetSpecialScriptSize nSize)) ;;
      pret (default [] (DecompressScript nSize vch))
    else
      let nSize := nSize - nSpecialScripts in
      if MAX_SCRIPT_SIZE <? nSize then
        _ <-- ignore (Z.to_nat nSize) ;; pret [OP_RETURN]
      else read (Z.to_nat nSize) |}.

Definition AmountCompression : Formatter Z := {|
  Ser val := Ser VARINT64 (CompressAmount (u64 val));
  Unser := v <-- Unser VARINT64 ;; pret (i64 (DecompressAmount v)) |}.

Definition TxOutCompression : Formatter CTxOut := {|
  Ser o := Ser AmountCompression (nValue o) ++ Ser ScriptCompression (scriptPubKey o);
  Unser :=
    v <-- Unser AmountCompression ;;
    s <-- Unser ScriptCompression ;;
    pret {| nValue := v; scriptPubKey := s |} |}.

(** The database form of a coin: what [Coin::Serialize] writes and [Coin::Unserialize] reads. *)
Definition CoinF : Formatter Coin := {|
  Ser c := Ser VARINT32 (u32 (coin_nHeight c * 2 + Z.b2z (fCoinBase c))) ++ Ser TxOutCompression (out c);
  Unser :=
    code <-- Unser VARINT32 ;;
    o <-- Unser TxOutCompression ;;
    pret {| out := o; fCoinBase := negb (code .& 1 =? 0); coin_nHeight := code .>> 1 |} |}.

(** [Coin::Serialize], with its assertion. *)
Definition Coin_Serialize (c : Coin) : res bytes := _ ← Assert (negb (IsSpent c)); inr (Ser CoinF c).

(** ** Amounts round trip *)

Lemma strip_zeros_spec fuel n e m e' :
  0 < n → 0 ≤ e → strip_zeros fuel n e = (m, e') →
  0 < m ∧ n = m * 10 ^ (e' - e) ∧ e ≤ e' ≤ e + Z.of_nat fuel ∧
  (e + Z.of_nat fuel = 9 → e' < 9 → m mod 10 ≠ 0).
Proof.
  revert n e. induction fuel as [|fuel IH]; intros n e Hn He; cbn [strip_zeros].
  - intros [= <- <-]. rewrite Z.sub_diag, Z.pow_0_r. split_and!; lia.
  - destruct ((n mod 10 =? 0) && (e <? 9)) eqn:E.
    + apply andb_true_iff in E as [E1%Z.eqb_eq E2%Z.ltb_lt]. intros H.
      apply IH in H as (H1 & H2 & H3 & H4); [|zlia|lia].
      split_and!; [done| |lia|lia|intros; apply H4; lia].
      replace (e' - e) with (Z.succ (e' - (e + 1))) by lia. rewrite Z.pow_succ_r by lia. zlia.
    + intros [= <- <-]. rewrite Z.sub_diag, Z.pow_0_r. split_and!; try lia.
Qed.

Lemma times_ten_spec e n : 0 ≤ n → n * 10 ^ Z.of_nat e < 2 ^ 64 → times_ten e n = n * 10 ^ Z.of_nat e.
Proof.
  revert n. induction e as [|e IH]; intros n Hn Hlt; [cbn; lia|]. cbn [times_ten].
  rewrite Nat2Z.inj_succ, Z.pow_succ_r in * by lia.
  assert (0 < 10 ^ Z.of_nat e) by (apply Z.pow_pos_nonneg; lia).
  rewrite uwrap_small by (unfold urange; nia). rewrite IH; nia.
Qed.
(** The assertion in [CompressAmount]. *)
Lemma CompressAmount_digit n m e :
  0 < n → strip_zeros 9 n 0 = (m, e) → e < 9 → 1 ≤ m mod 10 ≤ 9.
Proof.
  intros Hn H He. apply strip_zeros_spec in H as (Hm & _ & _ & Hd); [|lia..].
  specialize (Hd eq_refl He). zlia.
Qed.

Lemma amount_roundtrip n :
  0 ≤ n ≤ MAX_MONEY → urange 64 (CompressAmount n) ∧ DecompressAmount (CompressAmount n) = n.
Proof.
  intros Hn. unfold CompressAmount. destruct (Z.eqb_spec n 0) as [->|Hn0]; [done|].
  destruct (strip_zeros 9 n 0) as [m e] eqn:E.
  pose proof (CompressAmount_digit n m e ltac:(lia) E) as Hd.
  apply strip_zeros_spec in E as (Hm & Hnm & He & _); [|lia..]. rewrite Z.sub_0_r in Hnm.
  change (Z.of_nat 9) with 9 in He.
  assert (Hpow : 1 ≤ 10 ^ e) by (apply (Z.pow_le_mono_r 10 0 e); lia).
  assert (HM : MAX_MONEY = 2100000000000000) by done.
  assert (Hmn : m ≤ n) by nia.
  destruct (Z.ltb_spec e 9) as [He9|He9].
  - specialize (Hd He9). rewrite uwrap_small by (unfold urange; zlia). split; [unfold urange; zlia|].
    unfold DecompressAmount. rewrite (proj2 (Z.eqb_neq _ _)) by zlia.
    set (x := 1 + (m / 10 * 9 + m mod 10 - 1) * 10 + e).
    assert (Hx1 : (x - 1) mod 10 = e) by (unfold x; zlia).
    assert (Hx2 : (x - 1) / 10 = m / 10 * 9 + m mod 10 - 1) by (unfold x; zlia).
    rewrite Hx1, Hx2, (proj2 (Z.ltb_lt _ _) He9).
    replace ((m / 10 * 9 + m mod 10 - 1) mod 9 + 1) with (m mod 10) by zlia.
    replace ((m / 10 * 9 + m mod 10 - 1) / 9) with (m / 10) by zlia.
    replace (m / 10 * 10 + m mod 10) with m by zlia.
    rewrite uwrap_small by (unfold urange; lia).
    rewrite times_ten_spec; rewrite ?Z2Nat.id by lia; lia.
  - assert (e = 9) as -> by lia. rewrite uwrap_small by (unfold urange; lia). split; [unfold urange; lia|].
    unfold DecompressAmount. rewrite (proj2 (Z.eqb_neq _ _)) by lia.
    replace ((1 + (m - 1) * 10 + 9 - 1) mod 10) with 9 by zlia.
    replace ((1 + (m - 1) * 10 + 9 - 1) / 10) with (m - 1) by zlia.
    cbn [Z.ltb Z.compare Pos.compare Pos.compare_cont]. replace (m - 1 + 1) with m by lia.
    rewrite uwrap_small by (unfold urange; lia).
    rewrite times_ten_spec; rewrite ?Z2Nat.id by lia; lia.
Qed.

(** ** Scripts round trip *)

Lemma land_1 x : x .& 1 = x mod 2.
Proof. apply (Z.land_ones x 1). lia. Qed.

Lemma take_snoc_at (l : bytes) n : (n < length l)%nat → take (S n) l = take n l ++ [at_ l n].
Proof.
  intros H. destruct (lookup_lt_is_Some_2 l n H) as [x Hx].
  rewrite (take_S_r _ _ _ Hx). unfold at_. by rewrite (nth_lookup_Some _ _ _ _ Hx).
Qed.

Lemma take_head_at (l : bytes) k m : (k + m ≤ length l)%nat → take (k + m) l = take k l ++ take m (drop k l).
Proof. intros. by rewrite take_take_drop. Qed.

(** Turns a test of the form of a script into its parts. *)
Ltac split_test H :=
  repeat match type of H with
  | _ && _ = true => apply andb_true_iff in H as [H ?%Z.eqb_eq]
  end; apply Nat.eqb_eq in H.

Lemma IsToKeyID_form script h :
  IsToKeyID script = Some h →
  length h = 20%nat ∧ script = [OP_DUP; OP_HASH160; 20] ++ h ++ [OP_EQUALVERIFY; OP_CHECKSIG].
Proof.
  unfold IsToKeyID. case_match eqn:E; [|done]. intros [= <-]. split_test E.
  split; [rewrite length_take, length_drop; lia|].
  rewrite <-(firstn_all script) at 1. rewrite E, (take_snoc_at _ 24), (take_snoc_at _ 23) by lia.
  change (take 23 script) with (take (3 + 20) script). rewrite take_head_at by lia.
  rewrite (take_snoc_at _ 2), (take_snoc_at _ 1), (take_snoc_at _ 0) by lia. rewrite take_0. cbn [app]. rewrite <-?app_assoc. cbn [app]. congruence.
Qed.

Lemma IsToScriptID_form script h :
  IsToScriptID script = Some h →
  length h = 20%nat ∧ script = [OP_HASH160; 20] ++ h ++ [OP_EQUAL].
Proof.
  unfold IsToScriptID. case_match eqn:E; [|done]. intros [= <-]. split_test E.
  split; [rewrite length_take, length_drop; lia|].
  rewrite <-(firstn_all script) at 1. rewrite E, (take_snoc_at _ 22) by lia.
  change (take 22 script) with (take (2 + 20) script). rewrite take_head_at by lia.
  rewrite (take_snoc_at _ 1), (take_snoc_at _ 0) by lia. rewrite take_0. cbn [app]. rewrite <-?app_assoc. cbn [app]. congruence.
Qed.

Lemma take_cons_at (l : bytes) k n :
  (k + S n ≤ length l)%nat → take (S n) (drop k l) = at_ l k :: take n (drop (S k) l).
Proof.
  intros H. destruct (lookup_lt_is_Some_2 l k ltac:(lia)) as [x Hx].
  rewrite (drop_S _ _ _ Hx). unfold at_. by rewrite (nth_lookup_Some _ _ _ _ Hx).
Qed.

(** The middle of a script [n; key; OP_CHECKSIG]. *)
Lemma key_script_form script n :
  length script = S (S n) →
  script = [at_ script 0] ++ take n (drop 1 script) ++ [at_ script (S n)].
Proof.
  intros E. rewrite <-(firstn_all script) at 1. rewrite E, (take_snoc_at _ (S n)) by lia.
  change (S n) with (1 + n)%nat at 1. rewrite take_head_at by lia.
  rewrite (take_snoc_at _ 0) by lia. rewrite take_0. by rewrite <-app_assoc.
Qed.

Lemma IsToPubKey_form script k :
  IsToPubKey script = Some k →
  (∃ h x, (h = 2 ∨ h = 3) ∧ length x = 32%nat ∧ k = h :: x ∧ script = [33; h] ++ x ++ [OP_CHECKSIG]) ∨
  (∃ x p, length x = 64%nat ∧ k = 4 :: x ∧ ec_pubkey_parse k = Some p ∧ script = [65; 4] ++ x ++ [OP_CHECKSIG]).
Proof.
  unfold IsToPubKey. case_match eqn:E.
  - intros [= <-]. left. apply andb_true_iff in E as [E Eh]. split_test E.
    exists (at_ script 1), (take 32 (drop 2 script)).
    assert (Hh : at_ script 1 = 2 ∨ at_ script 1 = 3) by (apply orb_true_iff in Eh as [?%Z.eqb_eq|?%Z.eqb_eq]; auto).
    rewrite (take_cons_at script 1 32) by lia. split_and!; [done|rewrite length_take, length_drop; lia| |].
    + apply CPubKey_Set_ok. cbn [length]. rewrite length_take, length_drop.
      destruct Hh as [-> | ->]; change (GetLen _) with 33; lia.
    + rewrite (key_script_form script 33 E) at 1. rewrite (take_cons_at script 1 32) by lia. cbn [app]. congruence.
  - case_match eqn:E2; [|done]. case_match eqn:V; [|done]. intros [= <-]. right. split_test E2.
    rewrite (take_cons_at script 1 64) in V |- * by lia.
    assert (HS : CPubKey_Set (at_ script 1 :: take 64 (drop 2 script)) = 4 :: take 64 (drop 2 script)).
    { replace (at_ script 1) with 4 by done. apply CPubKey_Set_ok. cbn [length].
      rewrite length_take, length_drop. change (GetLen 4) with 65. lia. }
    rewrite HS in V |- *. unfold CPubKey_IsFullyValid in V. cbn [CPubKey_IsValid CPubKey_size] in V.
    destruct (ec_pubkey_parse (4 :: take 64 (drop 2 script))) as [p|] eqn:P; [|by destruct (CPubKey_IsValid _)].
    exists (take 64 (drop 2 script)), p. split_and!; try done; [rewrite length_take, length_drop; lia|].
    rewrite (key_script_form script 65 E2) at 1. rewrite (take_cons_at script 1 64) by lia. cbn [app]. congruence.
Qed.

(** The assertion in [DecompressScript]. *)
Lemma Decompress_size k k' : CPubKey_Decompress k = Some k' → CPubKey_size k' = PUBKEY_SIZE ∧ length k' = 65%nat.
Proof.
  unfold CPubKey_Decompress. destruct (CPubKey_IsValid k); [|done].
  intros (p & _ & [= <-])%bind_Some. destruct (ec_serialize_forms p) as (x & y & Hx & Hy & _ & _ & -> & _).
  rewrite CPubKey_Set_ok; [|cbn [length]; rewrite length_app, Hx, Hy; done].
  split; [done|]. cbn [length]. rewrite length_app. lia.
Qed.

(** Decompressing the compressed form of a valid key. *)
Lemma Decompress_key x p :
  length x = 64%nat → ec_pubkey_parse (4 :: x) = Some p →
  CPubKey_Decompress (CPubKey_Set ((2 .| (at_ (4 :: x) 64 .& 1)) :: take 32 x)) = Some (4 :: x).
Proof.
  intros Hlen Hp. pose proof (ec_serialize_parse (4 :: x) p eq_refl Hp) as Hs.
  destruct (ec_serialize_forms p) as (a & b & Ha & Hb & _ & _ & E1 & E2).
  rewrite Hs in E1. injection E1 as ->.
  assert (Hlast : at_ (4 :: a ++ b) 64 = nth 31 b 0).
  { unfold at_. change (nth 64 (4 :: a ++ b) 0) with (nth 63 (a ++ b) 0). rewrite app_nth2 by lia. by rewrite Ha. }
  rewrite Hlast, take_app_length' by done. rewrite <-E2.
  assert (Hh : 2 .| (nth 31 b 0 .& 1) = 2 ∨ 2 .| (nth 31 b 0 .& 1) = 3).
  { rewrite land_1.
    destruct (Z.mod_pos_bound (nth 31 b 0) 2 ltac:(lia)) as [? ?].
    assert (nth 31 b 0 mod 2 = 0 ∨ nth 31 b 0 mod 2 = 1) as [-> | ->] by lia; auto. }
  assert (HS : CPubKey_Set (ec_pubkey_serialize true p) = ec_pubkey_serialize true p).
  { rewrite E2. apply CPubKey_Set_ok. cbn [length]. rewrite Ha. by destruct Hh as [-> | ->]. }
  rewrite HS. unfold CPubKey_Decompress. rewrite ec_parse_serialize.
  replace (CPubKey_IsValid (ec_pubkey_serialize true p)) with true by (rewrite E2; by destruct Hh as [-> | ->]).
  cbn [mbind option_bind]. rewrite Hs, CPubKey_Set_ok; [done|]. cbn [length]. rewrite Hlen. done.
Qed.

Lemma VARINT32_byte b rest : 0 ≤ b < nSpecialScripts → Unser VARINT32 (b :: rest) = inr (b, rest).
Proof.
  unfold nSpecialScripts. intros Hb.
  assert (b = 0 ∨ b = 1 ∨ b = 2 ∨ b = 3 ∨ b = 4 ∨ b = 5) as Hc by lia. by destruct_or! Hc; subst.
Qed.

#[export] Instance VARINT32_lawful : LawfulFormatter VARINT32 (λ n, 0 ≤ n ≤ 2 ^ 32 - 1).
Proof. apply VarInt_lawful; lia || done. Qed.
#[export] Instance VARINT64_lawful : LawfulFormatter VARINT64 (λ n, 0 ≤ n ≤ 2 ^ 64 - 1).
Proof. apply VarInt_lawful; lia || done. Qed.

(** What a special encoding [b :: x] must satisfy to be read back. *)
Lemma special_roundtrip b x script rest :
  0 ≤ b < nSpecialScripts → Z.of_nat (length x) = GetSpecialScriptSize b →
  DecompressScript b x = Some script → Unser ScriptCompression ((b :: x) ++ rest) = inr (script, rest).
Proof.
  intros Hb Hx Hd. cbn [Unser ScriptCompression app]. unfold pbind. rewrite VARINT32_byte by done.
  rewrite (proj2 (Z.ltb_lt _ _)) by lia. rewrite <-Hx, Nat2Z.id, read_app, Hd by done. done.
Qed.

Lemma CompressScript_roundtrip script compr rest :
  CompressScript script = Some compr → Unser ScriptCompression (compr ++ rest) = inr (script, rest).
Proof.
  unfold CompressScript. destruct (IsToKeyID script) as [h|] eqn:E1.
  { intros [= <-]. apply IsToKeyID_form in E1 as [Hh ->]. apply special_roundtrip; [done|by rewrite Hh|].
    cbn [DecompressScript Z.eqb]. by rewrite take_ge by lia. }
  destruct (IsToScriptID script) as [h|] eqn:E2.
  { intros [= <-]. apply IsToScriptID_form in E2 as [Hh ->]. apply special_roundtrip; [done|by rewrite Hh|].
    cbn [DecompressScript Z.eqb]. by rewrite take_ge by lia. }
  destruct (IsToPubKey script) as [k|] eqn:E3; [|done].
  apply IsToPubKey_form in E3 as [(h & x & Hh & Hx & -> & ->)|(x & p & Hx & -> & Hp & ->)].
  - change (at_ (h :: x) 0) with h. change (drop 1 (h :: x)) with x. rewrite take_ge by lia.
    destruct Hh as [-> | ->]; intros [= <-]; apply special_roundtrip; try done; try (by rewrite Hx);
      cbn [DecompressScript Z.eqb Pos.eqb orb]; by rewrite take_ge by lia.
  - change (at_ (4 :: x) 0) with 4. change (drop 1 (4 :: x)) with x. cbn [Z.eqb Pos.eqb orb]. intros [= <-].
    pose proof (Decompress_key x p Hx Hp) as Hd.
    rewrite land_1 in Hd |- *.
    set (b := at_ (4 :: x) 64 mod 2) in *.
    assert (Hb : b = 0 ∨ b = 1) by (pose proof (Z.mod_pos_bound (at_ (4 :: x) 64) 2); lia).
    assert (Hl : Z.of_nat (length (take 32 x)) = 32) by (rewrite length_take; lia).
    assert (HD : ∀ n, n - 2 = 2 .| b → n = 4 ∨ n = 5 →
      DecompressScript n (take 32 x) = Some ([65; 4] ++ x ++ [OP_CHECKSIG])).
    { intros n Hn Hn'. unfold DecompressScript. rewrite Hn.
      destruct Hn' as [-> | ->]; cbn [Z.eqb Pos.eqb orb]; rewrite (take_ge (take 32 x)), Hd by lia;
        cbn [mbind option_bind]; by rewrite take_ge by (cbn; lia). }
    destruct Hb as [Hb|Hb]; rewrite Hb in HD |- *; apply special_roundtrip; try done; apply HD; auto.
Qed.

Lemma ScriptCompression_roundtrip script rest :
  Z.of_nat (length script) ≤ MAX_SCRIPT_SIZE →
  Unser ScriptCompression (Ser ScriptCompression script ++ rest) = inr (script, rest).
Proof.
  intros Hlen. unfold MAX_SCRIPT_SIZE in Hlen. destruct (CompressScript script) as [compr|] eqn:E.
  - cbn [Ser ScriptCompression]. rewrite E. by apply CompressScript_roundtrip.
  - cbn [Ser Unser ScriptCompression]. rewrite E, <-app_assoc. unfold nSpecialScripts.
    rewrite uwrap_small by (unfold urange; lia). unfold pbind at 1. rewrite fmt_roundtrip by lia.
    rewrite (proj2 (Z.ltb_ge _ _)) by lia. replace (Z.of_nat (length script) + 6 - 6) with (Z.of_nat (length script)) by lia.
    unfold MAX_SCRIPT_SIZE. rewrite (proj2 (Z.ltb_ge _ _)) by lia. by rewrite Nat2Z.id, read_app.
Qed.

Lemma AmountCompression_roundtrip v rest :
  0 ≤ v ≤ MAX_MONEY → Unser AmountCompression (Ser AmountCompression v ++ rest) = inr (v, rest).
Proof.
  intros Hv. assert (HM : MAX_MONEY = 2100000000000000) by done. cbn [Ser Unser AmountCompression].
  rewrite uwrap_small by (unfold urange; lia). destruct (amount_roundtrip v Hv) as [Hr E].
  unfold pbind. rewrite fmt_roundtrip by (unfold urange in Hr; lia). rewrite E. unfold pret.
  by rewrite swrap_small by (unfold srange; lia).
Qed.

(** A coin that a view may hold is read back from the database form. *)
Lemma CoinF_roundtrip c rest : coin_ok c → Unser CoinF (Ser CoinF c ++ rest) = inr (c, rest).
Proof.
  intros (Hv & Hh & _ & Hs). destruct c as [[v s] cb h]. cbn in Hv, Hh, Hs. unfold urange in Hh.
  cbn [Ser Unser CoinF TxOutCompression out fCoinBase coin_nHeight nValue scriptPubKey].
  assert (Hb : 0 ≤ Z.b2z cb ≤ 1) by (destruct cb; cbn; lia).
  rewrite uwrap_small by (unfold urange; lia). rewrite <-!app_assoc.
  unfold pbind at 1. rewrite fmt_roundtrip by lia. unfold pbind at 1 2. rewrite AmountCompression_roundtrip by done.
  unfold pbind. rewrite ScriptCompression_roundtrip by done. unfold pret. do 3 f_equal.
  - rewrite land_1. replace ((h * 2 + Z.b2z cb) mod 2) with (Z.b2z cb) by zlia.
    by destruct cb.
  - rewrite Z.shiftr_div_pow2 by lia. change (2 ^ 1) with 2. zlia.
Qed.

(** ** The encodings are byte strings *)

Lemma CompressScript_bytes script compr :
  bytes_ok script → CompressScript script = Some compr → bytes_ok compr.
Proof.
  intros Hs. unfold CompressScript. destruct (IsToKeyID script) as [h|] eqn:E1.
  { intros [= <-]. apply IsToKeyID_form in E1 as [_ ->].
    apply digits_ok_app in Hs as [_ [Hh _]%digits_ok_app]. constructor; [by unfold urange|done]. }
  destruct (IsToScriptID script) as [h|] eqn:E2.
  { intros [= <-]. apply IsToScriptID_form in E2 as [_ ->].
    apply digits_ok_app in Hs as [_ [Hh _]%digits_ok_app]. constructor; [by unfold urange|done]. }
  destruct (IsToPubKey script) as [k|] eqn:E3; [|done].
  apply IsToPubKey_form in E3 as [(h & x & Hh & Hx & -> & ->)|(x & p & Hx & -> & Hp & ->)];
    apply digits_ok_app in Hs as [_ [Hok _]%digits_ok_app].
  - change (at_ (h :: x) 0) with h. change (drop 1 (h :: x)) with x.
    destruct Hh as [-> | ->]; intros [= <-]; (constructor; [by unfold urange|by apply Forall_take]).
  - change (at_ (4 :: x) 0) with 4. change (drop 1 (4 :: x)) with x. cbn [Z.eqb Pos.eqb orb]. intros [= <-].
    constructor; [|by apply Forall_take]. apply lor_range; [lia|by unfold urange|].
    rewrite land_1. pose proof (Z.mod_pos_bound (at_ (4 :: x) 64) 2). unfold urange. lia.
Qed.

Lemma CoinF_bytes c : coin_ok c → bytes_ok (Ser CoinF c).
Proof.
  intros (Hv & Hh & Hb & Hs). unfold MAX_SCRIPT_SIZE in Hs. assert (HM : MAX_MONEY = 2100000000000000) by done.
  cbn [Ser CoinF TxOutCompression AmountCompression ScriptCompression].
  rewrite !digits_ok_app. split_and!.
  - apply fmt_bytes. destruct (uwrap_range 32 (coin_nHeight c * 2 + Z.b2z (fCoinBase c))); lia.
  - apply fmt_bytes. rewrite uwrap_small by (unfold urange; lia).
    destruct (amount_roundtrip (nValue (out c)) Hv) as [[? ?] _]. lia.
  - destruct (CompressScript (scriptPubKey (out c))) as [compr|] eqn:E; [by eapply CompressScript_bytes|].
    apply digits_ok_app. split; [|done]. apply fmt_bytes.
    destruct (uwrap_range 32 (Z.of_nat (length (scriptPubKey (out c))) + nSpecialScripts)); lia.
Qed.

Lemma Coin_Serialize_spec c : IsSpent c = false → Coin_Serialize c = inr (Ser CoinF c).
Proof. intros Hs. unfold Coin_Serialize. by rewrite Hs. Qed.

Lemma coin_ok_unspent c : coin_ok c → IsSpent c = false.
Proof. intros (Hv & _). unfold IsSpent, CTxOut_IsNull. apply Z.eqb_neq. lia. Qed.

End Compressor.

(** C35: The database form of a coin is a faithful code.  Every coin a view may hold is unspent, so
    that the assertion of [Coin::Serialize] holds, and is written as a byte string and read back unchanged whatever follows it: the amount compressed by its decimal
    exponent, the script by the special forms for key hashes, script hashes and public keys (an
    uncompressed key is rebuilt from its compressed form by the curve library), or verbatim. *)
Theorem coin_codec `{!Secp256k1} (c : Coin) (rest : bytes) (Hc : coin_ok c) :
  ∃ b, Coin_Serialize c = inr b ∧ bytes_ok b ∧ Unser CoinF (b ++ rest) = inr (c, rest).
Proof.
  exists (Ser CoinF c). split; [by apply Coin_Serialize_spec, coin_ok_unspent|].
  split; [by apply CoinF_bytes|by apply CoinF_roundtrip].
Qed.
