(* ===== verification/DbWrapper.v ===== *)
(** * The key-value database: dbwrapper.h, dbwrapper.cpp, util/obfuscation.h

    [CDBWrapper] stores serialized values under serialized keys in LevelDB, masking the
    values with an eight-byte key.  LevelDB itself is the class [LevelDB]: a map from byte
    strings to byte strings whose write batches are atomic, as its documentation states.
    [Obfuscation::operator()] works on 64-bit words from the first aligned address on; the
    theory shows that it masks byte by byte whatever the address, so that reading undoes
    writing. *)

From S2P Require Import Prelude Serialize Hash Primitives CoinsList.
From Stdlib Require Import ZArith Lia.
From stdpp Require Import base option list numbers gmap.

Open Scope Z_scope.
Open Scope kernel_scope.

(** ** Obfuscation *)

Definition KEY_SIZE : nat := 8.

(** [std::rotr] on 64 bits. *)
Definition rotr64 (x r : Z) : Z := (x .>> r) .| u64 (x .<< (64 - r)).

(** [m_rotations], on a little-endian machine. *)
Definition SetRotations (key : Z) : list Z := map (λ i, rotr64 key (8 * Z.of_nat i)) (seq 0 KEY_SIZE).
Definition ToKey (key_span : bytes) : Z := undigits 8 key_span.
Definition Obfuscation_none : list Z := SetRotations 0.
Definition Obfuscation_make (key_bytes : bytes) : list Z := SetRotations (ToKey key_bytes).
Definition has_key (m_rotations : list Z) : bool := negb (m_rotations.[0] =? 0).

(** The assertion on the size of [target] holds at every call below. *)
Definition XorWord (target : bytes) (key : Z) : bytes := digits 8 (length target) (undigits 8 target .^ key).

(** The aligned part: words of eight bytes, then what is left. *)
Fixpoint xor_words (fuel : nat) (target : bytes) (key : Z) : bytes :=
  match fuel with
  | O => XorWord target key
  | S fuel =>
      if (KEY_SIZE <=? length target)%nat
      then XorWord (take KEY_SIZE target) key ++ xor_words fuel (drop KEY_SIZE target) key
      else XorWord target key
  end.

(** The inner loop over the eight words of a chunk. *)
Fixpoint xor_unrolled (n : nat) (target : bytes) (key : Z) : bytes :=
  match n with
  | O => []
  | S n => XorWord (take KEY_SIZE target) key ++ xor_unrolled n (drop KEY_SIZE target) key
  end.

Fixpoint xor_chunks (fuel : nat) (target : bytes) (key : Z) : bytes :=
  match fuel with
  | O => xor_words (length target) target key
  | S fuel =>
      if (KEY_SIZE * 8 <=? length target)%nat
      then xor_unrolled 8 (take (KEY_SIZE * 8) target) key ++ xor_chunks fuel (drop (KEY_SIZE * 8) target) key
      else xor_words (length target) target key
  end.

(** [operator()] on a buffer at address [addr]. *)
Definition obfuscate (m_rotations : list Z) (addr : Z) (target : bytes) (key_offset : Z) : bytes :=
  if negb (has_key m_rotations) then target else
  let rot_key := m_rotations.[Z.to_nat (key_offset mod 8)] in
  if (KEY_SIZE <? length target)%nat then
    let misalign := addr mod 8 in
    if misalign =? 0 then xor_chunks (length target) target rot_key
    else
      let alignment := 8 - misalign in
      let rest := drop (Z.to_nat alignment) target in
      XorWord (take (Z.to_nat alignment) target) rot_key ++
      xor_chunks (length rest) rest (m_rotations.[Z.to_nat ((key_offset + alignment) mod 8)])
  else XorWord target rot_key.

(** The key is serialized as a byte vector. *)
Definition ObfuscationF : Formatter (list Z) := {|
  Ser m_rotations := Ser ByteVector (digits 8 KEY_SIZE (m_rotations.[0]));
  Unser :=
    b <-- Unser ByteVector ;;
    if negb (length b =? KEY_SIZE)%nat then pfail end_of_data
    else pret (Obfuscation_make b) |}.

(** ** LevelDB *)

Inductive write_op := OpPut (k v : bytes) | OpDelete (k : bytes).
Inductive db_status := DbOk (v : bytes) | DbNotFound | DbError.

Definition apply_op (m : bytes → option bytes) (w : write_op) : bytes → option bytes :=
  match w with
  | OpPut k v => λ k', if decide (k' = k) then Some v else m k'
  | OpDelete k => λ k', if decide (k' = k) then None else m k'
  end.

Class LevelDB (D : Type) := {
  db_Get : bytes → D → db_status;
  (** [Write] of a batch, [None] for an error status. *)
  db_Write : list write_op → D → option D;
  db_IsEmpty : D → bool;
  batch_ApproximateSize : list write_op → Z;
  (** The contents, and the absence of storage faults. *)
  db_map : D → bytes → option bytes;
  db_healthy : D → Prop;
  db_Get_law d k : db_healthy d →
    db_Get k d = match db_map d k with Some v => DbOk v | None => DbNotFound end;
  db_Write_law d ops : db_healthy d →
    ∃ d', db_Write ops d = Some d' ∧ db_healthy d' ∧ ∀ k, db_map d' k = foldl apply_op (db_map d) ops k;
  db_IsEmpty_law d : db_healthy d → db_IsEmpty d = true → ∀ k, db_map d k = None
}.

(** ** The wrapper *)

Record CDBWrapper (D : Type) := { pdb : D; m_obfuscation : list Z }.
Arguments pdb {D}.
Arguments m_obfuscation {D}.

Section Wrapper.
  Context {D : Type} `{LDB : !LevelDB D}.
  (** The address of the buffer that holds a value. *)
  Variable data_addr : bytes → Z.
  Implicit Types w : CDBWrapper D.

Definition ReadImpl (key : bytes) w : res (option bytes) :=
  match db_Get key (pdb w) with
  | DbOk v => inr (Some v)
  | DbNotFound => inr None
  | DbError => inl database_error
  end.

Definition ExistsImpl (key : bytes) w : res bool :=
  match db_Get key (pdb w) with
  | DbOk _ => inr true
  | DbNotFound => inr false
  | DbError => inl database_error
  end.

(** [Read(key, value)]: [None] is the result false. *)
Definition db_Read {K V} (FK : Formatter K) (FV : Formatter V) (key : K) w : res (option V) :=
  strValue ← ReadImpl (Ser FK key) w;
  match strValue with
  | None => inr None
  | Some s =>
      match Unser FV (obfuscate (m_obfuscation w) (data_addr s) s 0) with
      | inl _ => inr None
      | inr (value, _) => inr (Some value)
      end
  end.

Definition db_Exists {K} (FK : Formatter K) (key : K) w : res bool := ExistsImpl (Ser FK key) w.

(** Batches: the queued operations. *)
Definition batch_Write {K V} (FK : Formatter K) (FV : Formatter V) (key : K) (value : V) w (batch : list write_op) : list write_op :=
  let ssValue := Ser FV value in
  batch ++ [OpPut (Ser FK key) (obfuscate (m_obfuscation w) (data_addr ssValue) ssValue 0)].
Definition batch_Erase {K} (FK : Formatter K) (key : K) (batch : list write_op) : list write_op :=
  batch ++ [OpDelete (Ser FK key)].

Definition WriteBatch (batch : list write_op) w : res (CDBWrapper D) :=
  match db_Write batch (pdb w) with
  | Some d => inr {| pdb := d; m_obfuscation := m_obfuscation w |}
  | None => inl database_error
  end.

Definition db_Put {K V} (FK : Formatter K) (FV : Formatter V) (key : K) (value : V) w : res (CDBWrapper D) :=
  WriteBatch (batch_Write FK FV key value w []) w.
Definition db_Erase {K} (FK : Formatter K) (key : K) w : res (CDBWrapper D) :=
  WriteBatch (batch_Erase FK key []) w.

(** "\000obfuscate_key" *)
Definition OBFUSCATION_KEY : bytes := [0; 111; 98; 102; 117; 115; 99; 97; 116; 101; 95; 107; 101; 121].

(** The constructor on an opened store; [random] are the random bytes of a new key. *)
Definition CDBWrapper_open (use_obfuscation : bool) (random : bytes) (d : D) : res (CDBWrapper D) :=
  let w := {| pdb := d; m_obfuscation := Obfuscation_none |} in
  r ← db_Read ByteVector ObfuscationF OBFUSCATION_KEY w;
  match r with
  | Some obfuscation => inr {| pdb := d; m_obfuscation := obfuscation |}
  | None =>
      if use_obfuscation && db_IsEmpty d then
        let obfuscation := Obfuscation_make random in
        _ ← Assert (negb (has_key (m_obfuscation w)));
        w ← db_Put ByteVector ObfuscationF OBFUSCATION_KEY obfuscation w;
        inr {| pdb := pdb w; m_obfuscation := obfuscation |}
      else inr w
  end.
End Wrapper.

(** ** Obfuscation masks byte by byte *)

Lemma SetRotations_head key : (SetRotations key).[0] = key.
Proof.
  change ((SetRotations key).[0]) with (rotr64 key 0). unfold rotr64. rewrite Z.shiftr_0_r.
  replace (u64 (key .<< (64 - 0))) with 0; [by rewrite Z.lor_0_r|].
  symmetry. unfold uwrap. rewrite Z.shiftl_mul_pow2 by lia. apply Z.mod_mul. lia.
Qed.

(** The reference: byte [i] is combined with byte [(key_offset + i) mod 8] of the key. *)
Fixpoint mask (kb : bytes) (key_offset : nat) (target : bytes) : bytes :=
  match target with
  | [] => []
  | b :: target => (b .^ kb.[(key_offset mod 8)%nat]) :: mask kb (S key_offset) target
  end.

Lemma length_mask kb off t : length (mask kb off t) = length t.
Proof. revert off. induction t; intros; cbn [mask app length]; auto. Qed.

Lemma mask_app kb off t1 t2 : mask kb off (t1 ++ t2) = mask kb off t1 ++ mask kb (off + length t1) t2.
Proof.
  revert off. induction t1 as [|b t1 IH]; intros off; cbn [mask app length]; [by rewrite Nat.add_0_r|].
  rewrite IH. do 3 f_equal. lia.
Qed.

Lemma mask_mod kb off off' t : (off mod 8 = off' mod 8)%nat → mask kb off t = mask kb off' t.
Proof.
  revert off off'. induction t as [|b t IH]; intros off off' E; cbn [mask app length]; [done|]. rewrite E. f_equal. apply IH.
  pose proof (Nat.Div0.add_mod_idemp_r 1 off 8). pose proof (Nat.Div0.add_mod_idemp_r 1 off' 8).
  change (S off) with (1 + off)%nat. change (S off') with (1 + off')%nat. congruence.
Qed.

Lemma mask_involutive kb off t : mask kb off (mask kb off t) = t.
Proof.
  revert off. induction t as [|b t IH]; intros off; cbn [mask app length]; [done|].
  by rewrite IH, Z.lxor_assoc, Z.lxor_nilpotent, Z.lxor_0_r.
Qed.

Lemma mask_zero kb off t : (∀ i, kb.[i] = 0) → mask kb off t = t.
Proof. intros H. revert off. induction t as [|b t IH]; intros off; cbn [mask app length]; [done|]. by rewrite H, Z.lxor_0_r, IH. Qed.

Lemma mask_bytes_ok kb off t : bytes_ok kb → bytes_ok t → bytes_ok (mask kb off t).
Proof.
  intros Hk Ht. revert off. induction Ht as [|b t Hb Ht IH]; intros off; cbn [mask app length]; constructor; [|apply IH].
  apply lxor_range; [lia|done|]. apply digits_ok_zget; [lia|done].
Qed.

Lemma lxor_digit b u x :
  urange 8 b → 0 ≤ u → 0 ≤ x →
  ((b + 2 ^ 8 * u) .^ x) mod 2 ^ 8 = b .^ (x mod 2 ^ 8) ∧ ((b + 2 ^ 8 * u) .^ x) / 2 ^ 8 = u .^ (x / 2 ^ 8).
Proof.
  intros Hb Hu Hx. unfold urange in Hb. rewrite <-!Z.land_ones, <-!Z.shiftr_div_pow2 by lia.
  assert (E : (b + 2 ^ 8 * u) .& Z.ones 8 = b ∧ (b + 2 ^ 8 * u) .>> 8 = u).
  { rewrite Z.land_ones, Z.shiftr_div_pow2 by lia. split; zlia. }
  split.
  - apply Z.bits_inj'. intros n Hn. destruct E as [E _]. rewrite <-E at 2.
    rewrite !Z.land_spec, !Z.lxor_spec, !Z.land_spec. by destruct (Z.testbit (Z.ones 8) n); rewrite ?andb_true_r, ?andb_false_r.
  - rewrite Z.shiftr_lxor. by destruct E as [_ ->].
Qed.

Lemma XorWord_zip t x :
  bytes_ok t → 0 ≤ x → XorWord t x = zip_with Z.lxor t (digits 8 (length t) x).
Proof.
  intros Ht. revert x. unfold XorWord. induction Ht as [|b t Hb Ht IH]; intros x Hx; [done|].
  cbn [length undigits digits zip_with].
  pose proof (undigits_range 8 ltac:(lia) t Ht) as [Hu _].
  destruct (lxor_digit b (undigits 8 t) x Hb Hu Hx) as [-> ->]. f_equal. apply IH. apply Z.div_pos; lia.
Qed.

(** The rotations are the rotations of the byte string. *)
Lemma rotation_bytes key i :
  urange 64 key → (i < 8)%nat →
  urange 64 ((SetRotations key).[i]) ∧
  digits 8 8 ((SetRotations key).[i]) = drop i (digits 8 8 key) ++ take i (digits 8 8 key).
Proof.
  intros Hkey Hi. set (kb := digits 8 8 key).
  assert (Hok : bytes_ok kb) by (apply digits_digits_ok; lia).
  assert (Hlen : length kb = 8%nat) by apply length_digits.
  assert (Hval : undigits 8 kb = key) by (unfold kb; rewrite undigits_digits by lia; by apply Z.mod_small).
  assert (Hr : (SetRotations key).[i] = undigits 8 (drop i kb ++ take i kb)).
  { unfold SetRotations, zget. rewrite list_lookup_fmap, lookup_seq_lt by done. cbn [fmap option_fmap option_map default from_option id plus].
    rewrite undigits_app, length_drop, Hlen by lia.
    pose proof (undigits_take_drop 8 ltac:(lia) kb i ltac:(lia)) as Hs. rewrite Hval in Hs.
    pose proof (undigits_take_range 8 ltac:(lia) kb i Hok ltac:(lia)) as HA.
    set (A := undigits 8 (take i kb)) in *. set (B := undigits 8 (drop i kb)) in *.
    assert (HB : 0 ≤ B < 2 ^ (8 * Z.of_nat (8 - i))).
    { pose proof (undigits_range 8 ltac:(lia) (drop i kb) (Forall_drop _ _ _ Hok)) as H. by rewrite length_drop, Hlen in H. }
    replace (8 * Z.of_nat (8 - i)) with (64 - 8 * Z.of_nat i) in * by lia.
    unfold rotr64. rewrite Z.shiftr_div_pow2, Z.shiftl_mul_pow2 by lia.
    assert (Hp : 2 ^ (64 - 8 * Z.of_nat i) * 2 ^ (8 * Z.of_nat i) = 2 ^ 64) by (rewrite <-Z.pow_add_r by lia; f_equal; lia).
    assert (0 < 2 ^ (8 * Z.of_nat i)) by lia.
    replace (key / 2 ^ (8 * Z.of_nat i)) with B by (rewrite Hs, Z.mul_comm, Z.div_add by lia; rewrite Z.div_small by lia; lia).
    replace (u64 (key * 2 ^ (64 - 8 * Z.of_nat i))) with (A * 2 ^ (64 - 8 * Z.of_nat i)).
    - rewrite Z.lor_comm, lor_add_disjoint by lia. lia.
    - unfold uwrap. rewrite Hs. replace ((A + 2 ^ (8 * Z.of_nat i) * B) * 2 ^ (64 - 8 * Z.of_nat i))
        with (A * 2 ^ (64 - 8 * Z.of_nat i) + B * 2 ^ 64) by (rewrite <-Hp; ring).
      rewrite Z.mod_add by lia. symmetry. apply Z.mod_small. rewrite <-Hp. nia. }
  assert (Hok' : bytes_ok (drop i kb ++ take i kb)) by (apply digits_ok_app; split; [by apply Forall_drop|by apply Forall_take]).
  assert (Hlen' : length (drop i kb ++ take i kb) = 8%nat) by (rewrite length_app, length_drop, length_take; lia).
  rewrite Hr. split.
  - pose proof (undigits_range 8 ltac:(lia) _ Hok') as H. by rewrite Hlen' in H.
  - rewrite <-Hlen' at 1. apply digits_undigits; [lia|done].
Qed.

Lemma digits_take (n m : nat) x : (n ≤ m)%nat → digits 8 n x = take n (digits 8 m x).
Proof. revert m x. induction n as [|n IH]; intros [|m] x H; cbn; try done; [lia|]. f_equal. apply IH. lia. Qed.

Lemma zip_mask kb t i l :
  (∀ j, (j < length t)%nat → l.[j] = kb.[((i + j) mod 8)%nat]) → (length t ≤ length l)%nat →
  zip_with Z.lxor t l = mask kb i t.
Proof.
  revert i l. induction t as [|b t IH]; intros i [|x l] H Hl; cbn [zip_with mask length] in *; try done; [lia|].
  f_equal.
  - specialize (H O ltac:(lia)). rewrite Nat.add_0_r in H. by rewrite <-H.
  - apply IH; [|lia]. intros j Hj. specialize (H (S j) ltac:(lia)). rewrite zget_cons_S in H. rewrite H.
    do 2 f_equal. lia.
Qed.

Lemma zget_rotate (kb : bytes) i j :
  length kb = 8%nat → (i < 8)%nat → (j < 8)%nat → (drop i kb ++ take i kb).[j] = kb.[((i + j) mod 8)%nat].
Proof.
  intros Hl Hi Hj. unfold zget. f_equal. destruct (decide (i + j < 8)%nat) as [H|H].
  - rewrite lookup_app_l by (rewrite length_drop; lia). rewrite lookup_drop. by rewrite Nat.mod_small.
  - rewrite lookup_app_r by (rewrite length_drop; lia). rewrite length_drop, Hl, lookup_take_lt by lia.
    replace (i + j)%nat with (i + j - 8 + 1 * 8)%nat by lia. rewrite Nat.Div0.mod_add, Nat.mod_small by lia. f_equal. lia.
Qed.

Lemma XorWord_mask key i t :
  urange 64 key → (i < 8)%nat → bytes_ok t → (length t ≤ 8)%nat →
  XorWord t ((SetRotations key).[i]) = mask (digits 8 8 key) i t.
Proof.
  intros Hk Hi Ht Hl. destruct (rotation_bytes key i Hk Hi) as [[Hr _] Hb].
  rewrite XorWord_zip, (digits_take _ 8), Hb by done.
  assert (Hlen : length (digits 8 8 key) = 8%nat) by apply length_digits.
  apply zip_mask.
  - intros j Hj. rewrite zget_take by done. apply zget_rotate; lia.
  - rewrite length_take, length_app, length_drop, length_take. lia.
Qed.

Lemma mask_split kb i n t :
  (n ≤ length t)%nat → mask kb i t = mask kb i (take n t) ++ mask kb (i + n) (drop n t).
Proof. intros H. rewrite <-(take_drop n t) at 1. by rewrite mask_app, length_take_le. Qed.

Lemma mask_add8 kb i n t : mask kb (i + 8 * n) t = mask kb i t.
Proof. apply mask_mod. by rewrite Nat.mul_comm, Nat.Div0.mod_add. Qed.

Lemma digits_ok_drop w l i : digits_ok w l → digits_ok w (drop i l).
Proof. apply Forall_drop. Qed.

Section Mask.
  Context (key : Z) (Hkey : urange 64 key).

Lemma xor_words_mask fuel i t :
  (i < 8)%nat → bytes_ok t → (length t ≤ fuel)%nat →
  xor_words fuel t ((SetRotations key).[i]) = mask (digits 8 8 key) i t.
Proof.
  intros Hi. revert t. induction fuel as [|fuel IH]; intros t Ht Hf; cbn [xor_words].
  { apply XorWord_mask; auto; lia. }
  unfold KEY_SIZE. destruct (Nat.leb_spec 8 (length t)); [|apply XorWord_mask; auto; lia].
  rewrite (mask_split _ i 8), (mask_add8 _ i 1) by done.
  rewrite XorWord_mask, IH; auto using digits_ok_take, Forall_drop; rewrite ?length_take, ?length_drop; try lia.
  by apply Forall_drop.
Qed.

Lemma xor_unrolled_mask n i t :
  (i < 8)%nat → bytes_ok t → length t = (8 * n)%nat →
  xor_unrolled n t ((SetRotations key).[i]) = mask (digits 8 8 key) i t.
Proof.
  intros Hi. revert t. induction n as [|n IH]; intros t Ht Hl; cbn [xor_unrolled].
  { by destruct t. }
  unfold KEY_SIZE. rewrite (mask_split _ i 8), (mask_add8 _ i 1) by lia.
  rewrite XorWord_mask, IH; auto; rewrite ?length_take, ?length_drop; try lia.
  - by apply Forall_drop.
  - by apply Forall_take.
Qed.

Lemma xor_chunks_mask fuel i t :
  (i < 8)%nat → bytes_ok t → xor_chunks fuel t ((SetRotations key).[i]) = mask (digits 8 8 key) i t.
Proof.
  intros Hi. revert t. induction fuel as [|fuel IH]; intros t Ht; cbn [xor_chunks].
  { by apply xor_words_mask. }
  change (KEY_SIZE * 8)%nat with 64%nat. destruct (Nat.leb_spec 64 (length t)); [|by apply xor_words_mask].
  rewrite (mask_split _ i 64), (mask_add8 _ i 8) by done.
  rewrite xor_unrolled_mask, IH; [done|by apply Forall_drop|done|by apply Forall_take|].
  rewrite length_take. lia.
Qed.

Lemma Zmod8_nat a : 0 ≤ a → Z.to_nat (a mod 8) = (Z.to_nat a mod 8)%nat.
Proof. intros. by rewrite Z2Nat.inj_mod by lia. Qed.

Lemma rotations_zero : has_key (SetRotations key) = negb (key =? 0).
Proof. unfold has_key. by rewrite SetRotations_head. Qed.

Lemma obfuscate_mask addr off t :
  0 ≤ off → bytes_ok t →
  obfuscate (SetRotations key) addr t off = mask (digits 8 8 key) (Z.to_nat off) t.
Proof.
  intros Hoff Ht. unfold obfuscate. rewrite rotations_zero, negb_involutive.
  destruct (Z.eqb_spec key 0) as [E|_].
  { rewrite mask_zero; [done|]. intros i. rewrite E. destruct (decide (i < 8)%nat); [|apply zget_ge; cbn; lia].
    do 8 (destruct i as [|i]; [done|]). lia. }
  assert (Hm : ∀ a, 0 ≤ a → (Z.to_nat (a mod 8) < 8)%nat) by (intros; pose proof (Z.mod_pos_bound a 8); lia).
  assert (Hoffs : ∀ a u, 0 ≤ a → mask (digits 8 8 key) (Z.to_nat (a mod 8)) u = mask (digits 8 8 key) (Z.to_nat a) u).
  { intros a u Ha. apply mask_mod. rewrite Zmod8_nat by done. by rewrite Nat.Div0.mod_mod. }
  unfold KEY_SIZE. destruct (Nat.ltb_spec 8 (length t)).
  - destruct (Z.eqb_spec (addr mod 8) 0) as [|Hmis]; [by rewrite xor_chunks_mask, Hoffs by auto|].
    pose proof (Z.mod_pos_bound addr 8 ltac:(lia)).
    rewrite XorWord_mask by (auto using digits_ok_take; rewrite length_take; lia).
    rewrite xor_chunks_mask by (auto using digits_ok_drop; apply Hm; lia). rewrite !Hoffs by lia.
    rewrite (mask_split _ _ (Z.to_nat (8 - addr mod 8)) t) by lia. do 2 f_equal. lia.
  - by rewrite XorWord_mask, Hoffs by auto.
Qed.

Lemma obfuscate_twice addr addr' off t :
  0 ≤ off → bytes_ok t →
  obfuscate (SetRotations key) addr' (obfuscate (SetRotations key) addr t off) off = t.
Proof.
  intros Ho Ht. rewrite (obfuscate_mask addr) by done.
  rewrite obfuscate_mask, mask_involutive; [done..|]. apply mask_bytes_ok; [|done].
  apply digits_digits_ok. lia.
Qed.
End Mask.

(** ** The wrapper stores plain values *)

Section WrapperTheory.
  Context {D : Type} `{LDB : !LevelDB D}.
  Variable data_addr : bytes → Z.
  Implicit Types w : CDBWrapper D.

Definition key_of w : Z := (m_obfuscation w).[0].
Definition key_bytes w : bytes := digits 8 8 (key_of w).

Definition wrapper_ok w : Prop :=
  urange 64 (key_of w) ∧ m_obfuscation w = SetRotations (key_of w) ∧ db_healthy (pdb w) ∧
  ∀ k v, db_map (pdb w) k = Some v → bytes_ok v.

(** The unmasked contents. *)
Definition plain w (k : bytes) : option bytes := mask (key_bytes w) 0 <$> db_map (pdb w) k.

(** The masked form of an operation. *)
Definition enc w (o : write_op) : write_op :=
  match o with OpPut k v => OpPut k (mask (key_bytes w) 0 v) | OpDelete k => OpDelete k end.
Definition op_bytes_ok (o : write_op) : Prop := match o with OpPut _ v => bytes_ok v | OpDelete _ => True end.

Definition unmarshal {V} (FV : Formatter V) (s : bytes) : option V :=
  match Unser FV s with inl _ => None | inr (v, _) => Some v end.

Lemma key_bytes_ok w : bytes_ok (key_bytes w).
Proof. apply digits_digits_ok. lia. Qed.

Lemma obfuscate_ok w a v :
  wrapper_ok w → bytes_ok v → obfuscate (m_obfuscation w) a v 0 = mask (key_bytes w) 0 v.
Proof. intros (Hk & -> & _) Hv. by rewrite obfuscate_mask. Qed.

Lemma db_Read_spec {K V} (FK : Formatter K) (FV : Formatter V) key w :
  wrapper_ok w → db_Read data_addr FK FV key w = inr (plain w (Ser FK key) ≫= unmarshal FV).
Proof.
  intros Hw. pose proof Hw as (_ & _ & Hh & Hb). unfold db_Read, ReadImpl, plain.
  rewrite db_Get_law by done. destruct (db_map (pdb w) (Ser FK key)) as [v|] eqn:E; step; [|done].
  rewrite obfuscate_ok by eauto. cbn. unfold unmarshal. by destruct (Unser FV _) as [|[??]].
Qed.

Lemma db_Exists_spec {K} (FK : Formatter K) key w :
  wrapper_ok w → db_Exists FK key w = inr (bool_decide (is_Some (plain w (Ser FK key)))).
Proof.
  intros (_ & _ & Hh & _). unfold db_Exists, ExistsImpl, plain. rewrite db_Get_law by done.
  by destruct (db_map (pdb w) (Ser FK key)).
Qed.

Lemma batch_Write_enc {K V} (FK : Formatter K) (FV : Formatter V) key v w b :
  wrapper_ok w → bytes_ok (Ser FV v) →
  batch_Write data_addr FK FV key v w (map (enc w) b) = map (enc w) (b ++ [OpPut (Ser FK key) (Ser FV v)]).
Proof. intros Hw Hv. unfold batch_Write. rewrite obfuscate_ok by done. by rewrite map_app. Qed.

Lemma batch_Erase_enc {K} (FK : Formatter K) key w b :
  batch_Erase FK key (map (enc w) b) = map (enc w) (b ++ [OpDelete (Ser FK key)]).
Proof. unfold batch_Erase. by rewrite map_app. Qed.

Lemma apply_op_ext m m' o k : (∀ k, m k = m' k) → apply_op m o k = apply_op m' o k.
Proof. intros H. destruct o; cbn; case_decide; auto. Qed.

Lemma foldl_apply_ext ops m m' k : (∀ k, m k = m' k) → foldl apply_op m ops k = foldl apply_op m' ops k.
Proof.
  revert m m'. induction ops as [|o ops IH]; intros m m' H; cbn [foldl]; [done|].
  apply IH. intros. by apply apply_op_ext.
Qed.

Lemma foldl_enc w ops m k :
  mask (key_bytes w) 0 <$> foldl apply_op m (map (enc w) ops) k =
  foldl apply_op (λ k, mask (key_bytes w) 0 <$> m k) ops k.
Proof.
  revert m. induction ops as [|o ops IH]; intros m; cbn [foldl map]; [done|]. rewrite IH.
  apply foldl_apply_ext. intros k'. destruct o; cbn; case_decide; cbn; by rewrite ?mask_involutive.
Qed.

Lemma foldl_bytes_ok ops m k v :
  Forall op_bytes_ok ops → (∀ k v, m k = Some v → bytes_ok v) →
  foldl apply_op m ops k = Some v → bytes_ok v.
Proof.
  intros Hops. revert m. induction Hops as [|o ops Ho Hops IH]; intros m Hm; cbn [foldl]; [apply Hm|].
  apply IH. intros k' v'. destruct o; cbn; case_decide; try apply Hm; [|done]. by intros [= <-].
Qed.

Lemma WriteBatch_spec w ops :
  wrapper_ok w → Forall op_bytes_ok ops →
  ∃ w', WriteBatch (map (enc w) ops) w = inr w' ∧ wrapper_ok w' ∧ m_obfuscation w' = m_obfuscation w ∧
    ∀ k, plain w' k = foldl apply_op (plain w) ops k.
Proof.
  intros (Hk & Hrot & Hh & Hb) Hops. unfold WriteBatch.
  destruct (db_Write_law (pdb w) (map (enc w) ops) Hh) as (d & -> & Hh' & Hm).
  eexists. split; [done|]. unfold wrapper_ok, plain, key_bytes, key_of. cbn [pdb m_obfuscation].
  split_and!; try done.
  - intros k v. rewrite Hm. apply foldl_bytes_ok; [|done]. apply Forall_map.
    eapply Forall_impl; [done|]. intros [k' v'|k'] H; cbn [enc op_bytes_ok] in *; [|done].
    apply mask_bytes_ok; [apply key_bytes_ok|done].
  - intros k. rewrite Hm. apply (foldl_enc w).
Qed.

Lemma unmarshal_roundtrip {V} (FV : Formatter V) v : Unser FV (Ser FV v ++ []) = inr (v, []) → unmarshal FV (Ser FV v) = Some v.
Proof. intros H. rewrite app_nil_r in H. unfold unmarshal. by rewrite H. Qed.

(** ** Opening and reopening *)

(** The stored form of the key, which is not masked. *)
Definition has_key_record w : Prop :=
  db_map (pdb w) (Ser ByteVector OBFUSCATION_KEY) = Some (Ser ObfuscationF (m_obfuscation w)).

Lemma ObfuscationF_roundtrip key : urange 64 key →
  bytes_ok (Ser ObfuscationF (SetRotations key)) ∧
  unmarshal ObfuscationF (Ser ObfuscationF (SetRotations key)) = Some (SetRotations key).
Proof.
  intros Hk. assert (Hok : length_ok (digits 8 8 key) ∧ bytes_ok (digits 8 8 key)).
  { split; [by unfold length_ok; rewrite length_digits|]. apply digits_digits_ok. lia. }
  cbn [Ser ObfuscationF]. rewrite SetRotations_head. split; [by apply fmt_bytes|]. unfold unmarshal. cbn [Unser ObfuscationF].
  unfold pbind. rewrite <-(app_nil_r (Ser ByteVector _)), fmt_roundtrip by done.
  rewrite length_digits. cbn [Nat.eqb negb KEY_SIZE]. unfold Obfuscation_make, ToKey.
  rewrite undigits_digits by lia. unfold pret. do 2 f_equal. by apply Z.mod_small.
Qed.

Lemma unmasked_read (d : D) k :
  let w := {| pdb := d; m_obfuscation := Obfuscation_none |} in
  db_healthy d → (∀ k v, db_map d k = Some v → bytes_ok v) → wrapper_ok w ∧ plain w k = db_map d k.
Proof.
  intros w Hh Hb. split; [by split_and!|]. unfold plain. cbn [pdb w]. destruct (db_map d k) as [v|]; [|done].
  cbn. f_equal. apply mask_zero. intros i. destruct (decide (i < 8)%nat); [|apply zget_ge; cbn; lia].
  do 8 (destruct i as [|i]; [done|]). lia.
Qed.

(** A database with a stored key opens with that key. *)
Lemma CDBWrapper_reopen w obfuscate random :
  wrapper_ok w → has_key_record w → CDBWrapper_open data_addr obfuscate random (pdb w) = inr w.
Proof.
  intros (Hk & Hrot & Hh & Hb) Hr. unfold CDBWrapper_open.
  destruct (unmasked_read (pdb w) (Ser ByteVector OBFUSCATION_KEY) Hh Hb) as [Hw Hp].
  rewrite db_Read_spec, Hp, Hr by done. step. cbn [mbind option_bind].
  rewrite Hrot. destruct (ObfuscationF_roundtrip (key_of w) Hk) as [_ ->]. rewrite <-Hrot. by destruct w.
Qed.

(** A new database gets a key, which is stored before anything else. *)
Lemma CDBWrapper_create d random :
  db_healthy d → db_IsEmpty d = true → length random = KEY_SIZE → bytes_ok random →
  ∃ w, CDBWrapper_open data_addr true random d = inr w ∧ wrapper_ok w ∧ has_key_record w ∧
    m_obfuscation w = Obfuscation_make random ∧
    ∀ k, k ≠ Ser ByteVector OBFUSCATION_KEY → db_map (pdb w) k = None.
Proof.
  intros Hh He Hl Hr. pose proof (db_IsEmpty_law d Hh He) as Hempty.
  assert (Hb : ∀ k v, db_map d k = Some v → bytes_ok v) by (intros k v; by rewrite Hempty).
  destruct (unmasked_read d (Ser ByteVector OBFUSCATION_KEY) Hh Hb) as [Hw Hp]. unfold CDBWrapper_open.
  rewrite db_Read_spec, Hp, Hempty by done. step. cbn [mbind option_bind]. rewrite He. cbn [andb]. step.
  assert (Hk : urange 64 (ToKey random)).
  { unfold ToKey. pose proof (undigits_range 8 ltac:(lia) random Hr) as H. rewrite Hl in H. exact H. }
  destruct (ObfuscationF_roundtrip _ Hk) as [Hbytes _].
  unfold db_Put, WriteBatch, batch_Write, obfuscate. cbn [app pdb m_obfuscation has_key Obfuscation_none].
  change (negb (has_key Obfuscation_none)) with true. cbn match.
  destruct (db_Write_law d [OpPut (Ser ByteVector OBFUSCATION_KEY) (Ser ObfuscationF (Obfuscation_make random))] Hh)
    as (d' & -> & Hh' & Hm). step. cbn [foldl apply_op] in Hm.
  exists {| pdb := d'; m_obfuscation := Obfuscation_make random |}. split; [done|].
  assert (Hrot : key_of {| pdb := d'; m_obfuscation := Obfuscation_make random |} = ToKey random) by by apply SetRotations_head.
  split_and!; try done.
  - unfold wrapper_ok. rewrite Hrot. split_and!; try done. cbn [pdb]. intros k v. rewrite Hm. case_decide; [|by rewrite Hempty].
    by intros [= <-].
  - unfold has_key_record. cbn [pdb m_obfuscation]. rewrite Hm. by rewrite decide_True.
  - intros k Hne. cbn [pdb]. rewrite Hm, decide_False by done. apply Hempty.
Qed.
End WrapperTheory.

(** Obfuscation, which works on eight rotated keys, word by word and unrolled after an alignment
    step that depends on the buffer's address, is the byte-wise exclusive or with the repeated key,
    and applying it again, wherever the buffer then lies, restores the bytes. *)
Theorem obfuscate_is_mask (key : Z) (addr addr' off : Z) (target : bytes)
    (Hkey : urange 64 key) (Hoff : 0 ≤ off) (Ht : bytes_ok target) :
  obfuscate (SetRotations key) addr target off = mask (digits 8 8 key) (Z.to_nat off) target ∧
  obfuscate (SetRotations key) addr' (obfuscate (SetRotations key) addr target off) off = target.
Proof. split; [by apply obfuscate_mask|by apply obfuscate_twice]. Qed.

Lemma obfuscate_is_mask_witness :
  obfuscate (SetRotations 0x0807060504030201) 4099 [0; 0; 0; 0; 0; 0; 0; 0; 0; 255] 3 = [4; 5; 6; 7; 8; 1; 2; 3; 4; 250] ∧
  obfuscate (SetRotations 0x0807060504030201) 4096
    (obfuscate (SetRotations 0x0807060504030201) 4099 [0; 0; 0; 0; 0; 0; 0; 0; 0; 255] 3) 3 = [0; 0; 0; 0; 0; 0; 0; 0; 0; 255].
Proof.
  destruct (obfuscate_is_mask 0x0807060504030201 4099 4096 3 [0; 0; 0; 0; 0; 0; 0; 0; 0; 255]) as [H1 H2].
  - unfold urange. lia.
  - lia.
  - repeat constructor; done.
  - rewrite H2, H1. by split; vm_compute.
Defined.
