(* ===== verification/TxDb.v ===== *)
(** * The coins database: txdb.h, txdb.cpp

    [CCoinsViewDB] keeps coins, the best block and, while a batch is being written, the
    range of blocks of the unfinished transition, in a [CDBWrapper].  [BatchWrite] writes
    several LevelDB batches; what is on disk after each of them is recorded in [wr_disk], so
    that the state a crash leaves behind can be described.  The theory shows that the
    database is a lawful coins view, which makes the theorems on caches apply to the stack
    of caches over the database, and that a crash at any point is recoverable. *)

From S2P Require Import Prelude Serialize Hash Primitives PubKey CoinsList Coins Compressor DbWrapper.
From Stdlib Require Import ZArith Lia.
From stdpp Require Import base option list numbers gmap.

Open Scope Z_scope.
Open Scope kernel_scope.

Definition DB_COIN : Z := 67.         (* 'C' *)
Definition DB_BEST_BLOCK : Z := 66.   (* 'B' *)
Definition DB_HEAD_BLOCKS : Z := 72.  (* 'H' *)

Definition uint256F : Formatter uint256 := Blob 32.
Definition HeadsF : Formatter (list uint256) := VectorFormatter uint256F 32.

(** The key of a coin. *)
Definition CoinEntry : Formatter COutPoint := {|
  Ser o := Ser U8 DB_COIN ++ Ser uint256F (op_hash o) ++ Ser VARINT32 (op_n o);
  Unser :=
    _ <-- Unser U8 ;;
    h <-- Unser uint256F ;;
    n <-- Unser VARINT32 ;;
    pret {| op_hash := h; op_n := n |} |}.

Record CCoinsViewDB (D : Type) := {
  m_db : CDBWrapper D;
  batch_write_bytes : Z;
  simulate_crash_ratio : Z;
  (** The draws [rng.randrange(simulate_crash_ratio)]. *)
  rng : nat → Z
}.
Arguments m_db {D}. Arguments batch_write_bytes {D}. Arguments simulate_crash_ratio {D}. Arguments rng {D}.

Section TxDb.
  Context `{SECP : !Secp256k1} {D : Type} `{LDB : !LevelDB D}.
  Variable data_addr : bytes → Z.
  Implicit Types s : CCoinsViewDB D.

Definition set_db (w : CDBWrapper D) s : CCoinsViewDB D :=
  {| m_db := w; batch_write_bytes := batch_write_bytes s;
     simulate_crash_ratio := simulate_crash_ratio s; rng := rng s |}.

Definition DB_GetCoin (o : COutPoint) s : res (option Coin) :=
  r ← db_Read data_addr CoinEntry CoinF o (m_db s);
  match r with
  | Some coin => _ ← Assert (negb (IsSpent coin)); inr (Some coin)
  | None => inr None
  end.

Definition DB_HaveCoin (o : COutPoint) s : res bool := db_Exists CoinEntry o (m_db s).

Definition DB_GetBestBlock s : res uint256 :=
  r ← db_Read data_addr U8 uint256F DB_BEST_BLOCK (m_db s);
  inr (default uint256_zero r).

Definition DB_GetHeadBlocks s : res (list uint256) :=
  r ← db_Read data_addr U8 HeadsF DB_HEAD_BLOCKS (m_db s);
  inr (default [] r).

(** The tip before the transition, [BatchWrite] up to the first batch. *)
Definition old_tip (hashBlock : uint256) s : res uint256 :=
  old_tip ← DB_GetBestBlock s;
  if uint256_IsNull old_tip then
    old_heads ← DB_GetHeadBlocks s;
    match old_heads with
    | [h0; h1] => _ ← Assert (bool_decide (h0 = hashBlock)); inr h1
    | _ => inr old_tip
    end
  else inr old_tip.

(** The local state of [BatchWrite]: the database, the batch, the draws made, and (not in
    the code) the states of the disk after each partial batch, the latest first. *)
Record writer := { wr_db : CDBWrapper D; wr_batch : list write_op; wr_draws : nat; wr_disk : list (CDBWrapper D) }.

(** Queueing the change of one entry. *)
Definition write_entry (k : COutPoint) (e : CCoinsCacheEntry) (cur : CoinsViewCacheCursor) (wr : writer)
    : res (CoinsViewCacheCursor * writer) :=
  if IsDirty e then
    batch ← (if IsSpent (coin e) then inr (batch_Erase CoinEntry k (wr_batch wr))
             else _ ← Coin_Serialize (coin e);
                  inr (batch_Write data_addr CoinEntry CoinF k (coin e) (wr_db wr) (wr_batch wr)));
    inr (cur, {| wr_db := wr_db wr; wr_batch := batch; wr_draws := wr_draws wr; wr_disk := wr_disk wr |})
  else inr (cur, wr).

(** Writing a partial batch when it has grown large. *)
Definition write_partial s (wr : writer) : res writer :=
  if batch_write_bytes s <? batch_ApproximateSize (wr_batch wr) then
    w ← WriteBatch (wr_batch wr) (wr_db wr);
    let wr := {| wr_db := w; wr_batch := []; wr_draws := wr_draws wr; wr_disk := w :: wr_disk wr |} in
    if negb (simulate_crash_ratio s =? 0) then
      if rng s (wr_draws wr) =? 0 then inl aborted
      else inr {| wr_db := w; wr_batch := []; wr_draws := S (wr_draws wr); wr_disk := wr_disk wr |}
    else inr wr
  else inr wr.

Definition BatchWrite_run (cur : CoinsViewCacheCursor) (hashBlock : uint256) s
    : res (CoinsViewCacheCursor * writer) :=
  _ ← Assert (negb (uint256_IsNull hashBlock));
  tip ← old_tip hashBlock s;
  let batch := batch_Erase U8 DB_BEST_BLOCK [] in
  let batch := batch_Write data_addr U8 HeadsF DB_HEAD_BLOCKS [hashBlock; tip] (m_db s) batch in
  '(cur, wr) ← cursor_for write_entry (write_partial s) cur
    {| wr_db := m_db s; wr_batch := batch; wr_draws := 0; wr_disk := [] |};
  let batch := batch_Erase U8 DB_HEAD_BLOCKS (wr_batch wr) in
  let batch := batch_Write data_addr U8 uint256F DB_BEST_BLOCK hashBlock (wr_db wr) batch in
  w ← WriteBatch batch (wr_db wr);
  inr (cur, {| wr_db := w; wr_batch := batch; wr_draws := wr_draws wr; wr_disk := w :: wr_disk wr |}).

Definition DB_BatchWrite (cur : CoinsViewCacheCursor) (hashBlock : uint256) s
    : res (CoinsViewCacheCursor * CCoinsViewDB D) :=
  '(cur, wr) ← BatchWrite_run cur hashBlock s;
  inr (cur, set_db (wr_db wr) s).

Definition CCoinsViewDB_view : CCoinsView (CCoinsViewDB D) := {|
  view_GetCoin o s := c ← DB_GetCoin o s; inr (c, s);
  view_PeekCoin o s := DB_GetCoin o s;
  view_HaveCoin o s := b ← DB_HaveCoin o s; inr (b, s);
  view_GetBestBlock s := h ← DB_GetBestBlock s; inr (h, s);
  view_GetHeadBlocks s := DB_GetHeadBlocks s;
  view_BatchWrite := DB_BatchWrite |}.
(** ** Keys *)

#[local] Instance uint256F_lawful : LawfulFormatter uint256F uint256_ok.
Proof. apply Blob_lawful. Qed.

#[local] Instance HeadsF_lawful : LawfulFormatter HeadsF (λ v, length_ok v ∧ Forall uint256_ok v).
Proof. apply VectorFormatter_lawful; [apply _|unfold MAX_VECTOR_ALLOCATE; lia]. Qed.

Definition best_key : bytes := Ser U8 DB_BEST_BLOCK.
Definition heads_key : bytes := Ser U8 DB_HEAD_BLOCKS.
Definition coin_key (o : COutPoint) : bytes := Ser CoinEntry o.

Lemma coin_key_other o : outpoint_ok o → coin_key o ≠ best_key ∧ coin_key o ≠ heads_key.
Proof. by intros _. Qed.

Lemma coin_key_inj o o' : outpoint_ok o → outpoint_ok o' → coin_key o = coin_key o' → o = o'.
Proof.
  intros [[Hl _] Hn] [[Hl' _] Hn'] E. unfold coin_key in E. cbn [Ser CoinEntry uint256F Blob] in E.
  apply app_inv_head, app_inj_1 in E as [E1 E2]; [|congruence].
  apply (Ser_inj VARINT32 (λ n, 0 ≤ n ≤ 2 ^ 32 - 1)) in E2; [|unfold urange in *; lia..].
  destruct o, o'; cbn in *; congruence.
Qed.

(** ** The contents of the database *)

Definition stored s (o : COutPoint) : option bytes := plain (m_db s) (coin_key o).
Definition db_coin s (o : COutPoint) : option Coin := stored s o ≫= unmarshal CoinF.
Definition db_best s : uint256 := default uint256_zero (plain (m_db s) best_key ≫= unmarshal uint256F).

(** A database in a consistent state. *)
Definition db_inv s : Prop :=
  wrapper_ok (m_db s) ∧ simulate_crash_ratio s = 0 ∧ plain (m_db s) heads_key = None ∧
  (plain (m_db s) best_key = None ∨ ∃ h, uint256_ok h ∧ plain (m_db s) best_key = Some h) ∧
  ∀ o v, outpoint_ok o → stored s o = Some v → ∃ c, coin_ok c ∧ v = Ser CoinF c.

Lemma unmarshal_coin c : coin_ok c → unmarshal CoinF (Ser CoinF c) = Some c.
Proof. intros H. apply unmarshal_roundtrip. by apply CoinF_roundtrip. Qed.

Lemma unmarshal_uint256 h : uint256_ok h → unmarshal uint256F h = Some h.
Proof. intros H. apply (unmarshal_roundtrip uint256F). by apply (fmt_roundtrip (F := uint256F)). Qed.

Lemma db_coin_spec s o :
  db_inv s → outpoint_ok o →
  match db_coin s o with
  | Some c => coin_ok c ∧ stored s o = Some (Ser CoinF c)
  | None => stored s o = None
  end.
Proof.
  intros (_ & _ & _ & _ & Hc) Ho. unfold db_coin. destruct (stored s o) as [v|] eqn:E; [|done].
  destruct (Hc o v Ho E) as (c & Hok & ->). cbn [mbind option_bind]. by rewrite unmarshal_coin.
Qed.

Lemma db_best_ok s : db_inv s → uint256_ok (db_best s).
Proof.
  intros (_ & _ & _ & Hb & _). unfold db_best. destruct Hb as [-> | (h & Hh & ->)]; cbn [mbind option_bind default from_option].
  - apply uint256_zero_ok.
  - by rewrite unmarshal_uint256.
Qed.

Lemma DB_GetCoin_spec s o : db_inv s → outpoint_ok o → DB_GetCoin o s = inr (db_coin s o).
Proof.
  intros Hi Ho. pose proof Hi as (Hw & _). unfold DB_GetCoin. rewrite db_Read_spec by done. step.
  change (plain (m_db s) (Ser CoinEntry o) ≫= unmarshal CoinF) with (db_coin s o).
  pose proof (db_coin_spec s o Hi Ho) as H. destruct (db_coin s o) as [c|]; [|done].
  destruct H as [H _]. by rewrite coin_ok_unspent.
Qed.

Lemma DB_HaveCoin_spec s o :
  db_inv s → outpoint_ok o → DB_HaveCoin o s = inr (bool_decide (is_Some (db_coin s o))).
Proof.
  intros Hi Ho. pose proof Hi as (Hw & _). unfold DB_HaveCoin. rewrite db_Exists_spec by done.
  pose proof (db_coin_spec s o Hi Ho) as H. unfold stored, coin_key in H.
  destruct (db_coin s o); [destruct H as [_ ->]|rewrite H]; done.
Qed.

Lemma DB_GetBestBlock_spec s : db_inv s → DB_GetBestBlock s = inr (db_best s).
Proof. intros (Hw & _). unfold DB_GetBestBlock. by rewrite db_Read_spec. Qed.

Lemma old_tip_spec h s : db_inv s → old_tip h s = inr (db_best s).
Proof.
  intros Hi. pose proof Hi as (Hw & _ & Hh & _). unfold old_tip. rewrite DB_GetBestBlock_spec by done. step.
  destruct (uint256_IsNull (db_best s)); [|done]. unfold DB_GetHeadBlocks. rewrite db_Read_spec by done.
  change (Ser U8 DB_HEAD_BLOCKS) with heads_key. by rewrite Hh.
Qed.

(** ** Writing a batch *)

Section Write.
  Variables (s : CCoinsViewDB D) (E : gmap COutPoint (Z * Coin)) (h : uint256).

(** What the batch makes of the stored coin at [o]. *)
Definition new_stored (o : COutPoint) : option bytes :=
  match E !! o with
  | Some (f, x) => if dirty f then (if IsSpent x then None else Some (Ser CoinF x)) else stored s o
  | None => stored s o
  end.

Definition transition_mark : bytes := Ser HeadsF [h; db_best s].

(** The disk in the middle of the write: marked, every coin old or new. *)
Definition crash_state (w : CDBWrapper D) : Prop :=
  wrapper_ok w ∧ plain w best_key = None ∧ plain w heads_key = Some transition_mark ∧
  ∀ o, outpoint_ok o → plain w (coin_key o) = stored s o ∨ plain w (coin_key o) = new_stored o.

(** The contents once the queued operations are applied. *)
Definition pending (w : CDBWrapper D) (ops : list write_op) : bytes → option bytes := foldl apply_op (plain w) ops.

Definition writer_inv (ks : list COutPoint) (wr : writer) : Prop :=
  NoDup ks ∧ ∃ ops, wr_batch wr = map (enc (m_db s)) ops ∧ Forall op_bytes_ok ops ∧
    wrapper_ok (wr_db wr) ∧ m_obfuscation (wr_db wr) = m_obfuscation (m_db s) ∧
    pending (wr_db wr) ops best_key = None ∧ pending (wr_db wr) ops heads_key = Some transition_mark ∧
    (∀ o, outpoint_ok o →
      pending (wr_db wr) ops (coin_key o) = if bool_decide (o ∈ ks) then stored s o else new_stored o) ∧
    Forall crash_state (wr_disk wr).

Lemma enc_same (w w' : CDBWrapper D) : m_obfuscation w' = m_obfuscation w → enc w' = enc w.
Proof. intros Hm. unfold enc, key_bytes, key_of. by rewrite Hm. Qed.

Lemma pending_snoc w ops o k : pending w (ops ++ [o]) k = apply_op (pending w ops) o k.
Proof. unfold pending. by rewrite foldl_app. Qed.

(** Queueing one operation on a coin. *)
Lemma write_entry_spec k e cur ks wr :
  writer_inv (k :: ks) wr → outpoint_ok k → E !! k = Some (m_flags e, coin e) → dirty (m_flags e) = true →
  (IsSpent (coin e) = false → coin_ok (coin e)) →
  ∃ wr', write_entry k e cur wr = inr (cur, wr') ∧ writer_inv ks wr'.
Proof.
  intros ([Hk ND]%NoDup_cons & ops & Hb & Hops & Hw & Hm & H1 & H2 & H3 & H4) Ho HE Hd Hok.
  unfold write_entry. change (IsDirty e) with (dirty (m_flags e)). rewrite Hd.
  assert (Hq : (if IsSpent (coin e) then inr (batch_Erase CoinEntry k (wr_batch wr))
     else _ ← Coin_Serialize (coin e); inr (batch_Write data_addr CoinEntry CoinF k (coin e) (wr_db wr) (wr_batch wr)))
    =@{res (list write_op)} inr (if IsSpent (coin e) then batch_Erase CoinEntry k (wr_batch wr)
         else batch_Write data_addr CoinEntry CoinF k (coin e) (wr_db wr) (wr_batch wr))).
  { destruct (IsSpent (coin e)) eqn:Hs; [done|]. by rewrite Coin_Serialize_spec. }
  rewrite Hq. eexists. split; [done|]. split; [done|]. cbn [wr_batch wr_db wr_disk].
  set (op := if IsSpent (coin e) then OpDelete (coin_key k) else OpPut (coin_key k) (Ser CoinF (coin e))).
  exists (ops ++ [op]).
  assert (Hop : op_bytes_ok op) by (unfold op; destruct (IsSpent (coin e)); [done|]; apply CoinF_bytes; auto).
  assert (Happ : ∀ k', k' ≠ coin_key k → pending (wr_db wr) (ops ++ [op]) k' = pending (wr_db wr) ops k').
  { intros k' Hne. rewrite pending_snoc. unfold op. by destruct (IsSpent (coin e)); cbn; rewrite decide_False. }
  destruct (coin_key_other k Ho) as [Hn1 Hn2].
  split_and!; try done.
  - rewrite Hb. unfold op. destruct (IsSpent (coin e)) eqn:Hs; [apply batch_Erase_enc|].
    rewrite <-(enc_same _ _ Hm). apply batch_Write_enc; [done|]. apply CoinF_bytes. auto.
  - apply Forall_app. split; [done|]. by constructor.
  - rewrite Happ by congruence. done.
  - rewrite Happ by congruence. done.
  - intros o Hoo. destruct (decide (o = k)) as [->|Hne].
    + rewrite bool_decide_eq_false_2 by done. unfold new_stored. rewrite HE, Hd, pending_snoc. unfold op.
      destruct (IsSpent (coin e)); cbn; by rewrite decide_True.
    + rewrite Happ, H3 by (done || by intros ?%coin_key_inj). destruct (decide (o ∈ ks)).
      * rewrite !bool_decide_eq_true_2 by set_solver. done.
      * rewrite !bool_decide_eq_false_2 by set_solver. done.
Qed.

(** The state after a write of what is queued. *)
Lemma flush_spec ks wr :
  writer_inv ks wr →
  ∃ w, WriteBatch (wr_batch wr) (wr_db wr) = inr w ∧ crash_state w ∧
    ∀ n, writer_inv ks {| wr_db := w; wr_batch := []; wr_draws := n; wr_disk := w :: wr_disk wr |}.
Proof.
  intros (ND & ops & Hb & Hops & Hw & Hm & H1 & H2 & H3 & H4).
  destruct (WriteBatch_spec (wr_db wr) ops Hw Hops) as (w & Ew & Hw' & Hm' & Hp).
  rewrite (enc_same _ _ Hm), <-Hb in Ew. exists w. split; [done|].
  assert (Hc : crash_state w).
  { split_and!; try done; rewrite ?Hp; try done. intros o Ho. rewrite Hp. unfold pending in H3. rewrite H3 by done.
    case_bool_decide; auto. }
  split; [done|]. intros n. split; [done|]. exists []. cbn [wr_batch wr_db wr_disk]. unfold pending. cbn [foldl].
  split_and!; try done; [by rewrite Hm'|rewrite ?Hp; done..| |by constructor].
  intros o Ho. rewrite Hp. by apply H3.
Qed.

Lemma write_partial_spec ks wr :
  simulate_crash_ratio s = 0 → writer_inv ks wr →
  ∃ wr', write_partial s wr = inr wr' ∧ writer_inv ks wr'.
Proof.
  intros Hr Hi. unfold write_partial. destruct (_ <? _); [|eauto].
  destruct (flush_spec ks wr Hi) as (w & -> & _ & Hi'). step. rewrite Hr. cbn. eauto.
Qed.

(** The writer after the marks of the transition are queued. *)
Lemma writer_init cur ks :
  db_inv s → uint256_ok h → E = data (cur_ring cur) → entries_ok (db_coin s) E → ring (cur_ring cur) ks →
  writer_inv ks {| wr_db := m_db s;
    wr_batch := batch_Write data_addr U8 HeadsF DB_HEAD_BLOCKS [h; db_best s] (m_db s) (batch_Erase U8 DB_BEST_BLOCK []);
    wr_draws := 0; wr_disk := [] |}.
Proof.
  intros Hi Hh HE Hok Hr. pose proof Hi as (Hw & _). pose proof Hr as (ND & _). split; [done|].
  exists [OpDelete best_key; OpPut heads_key transition_mark]. cbn [wr_batch wr_db wr_disk].
  assert (Hmark : bytes_ok transition_mark).
  { apply (fmt_bytes (F := HeadsF)). split; [done|]. repeat constructor; try apply Hh; apply (db_best_ok s Hi). }
  split_and!; try done.
  - change (batch_Erase U8 DB_BEST_BLOCK []) with (batch_Erase U8 DB_BEST_BLOCK (map (enc (m_db s)) [])).
    rewrite batch_Erase_enc, batch_Write_enc by done. done.
  - apply Forall_cons. split; [done|]. apply Forall_singleton. exact Hmark.
  - intros o Ho. destruct (coin_key_other o Ho) as [Hn1 Hn2]. unfold pending. cbn [foldl apply_op].
    rewrite !decide_False by done. change (plain (m_db s) (coin_key o)) with (stored s o).
    case_bool_decide as Hk; [done|]. unfold new_stored. destruct (E !! o) as [[f x]|] eqn:Ho'; [|done].
    destruct (dirty f) eqn:Hd; [|done]. exfalso. apply Hk. subst E.
    eapply ring_elem; [done..|]. eapply entry_flagged; [by apply Hok|done].
Qed.

(** The final batch clears the mark and sets the best block. *)
Lemma write_final wr :
  db_inv s → uint256_ok h → writer_inv [] wr →
  let batch := batch_Write data_addr U8 uint256F DB_BEST_BLOCK h (wr_db wr)
                 (batch_Erase U8 DB_HEAD_BLOCKS (wr_batch wr)) in
  ∃ w, WriteBatch batch (wr_db wr) = inr w ∧ wrapper_ok w ∧ plain w best_key = Some h ∧
    plain w heads_key = None ∧ ∀ o, outpoint_ok o → plain w (coin_key o) = new_stored o.
Proof.
  intros Hi Hh (_ & ops & Hb & Hops & Hw & Hm & H1 & H2 & H3 & _) batch.
  set (ops' := ops ++ [OpDelete heads_key; OpPut best_key h]).
  assert (Hbatch : batch = map (enc (wr_db wr)) ops').
  { unfold batch, ops'. rewrite Hb, <-(enc_same _ _ Hm), batch_Erase_enc, batch_Write_enc by (done || apply Hh).
    by rewrite <-app_assoc. }
  destruct (WriteBatch_spec (wr_db wr) ops' Hw) as (w & Ew & Hw' & _ & Hp).
  { apply Forall_app. split; [done|]. repeat constructor. apply Hh. }
  exists w. rewrite Hbatch. split; [done|].
  assert (Hp' : ∀ k, plain w k = apply_op (apply_op (pending (wr_db wr) ops) (OpDelete heads_key)) (OpPut best_key h) k).
  { intros k. rewrite Hp. unfold ops', pending. by rewrite foldl_app. }
  split_and!; try done; [by rewrite Hp'..|].
  intros o Ho. destruct (coin_key_other o Ho) as [Hn1 Hn2]. rewrite Hp'. cbn [apply_op].
  rewrite !decide_False, H3, bool_decide_eq_false_2 by (done || set_solver). done.
Qed.

Lemma BatchWrite_run_spec cur :
  db_inv s → E = data (cur_ring cur) → cursor_ok cur → entries_ok (db_coin s) E →
  uint256_ok h → uint256_IsNull h = false →
  ∃ cur' wr disk, BatchWrite_run cur h s = inr (cur', wr) ∧ drained cur cur' ∧
    wr_disk wr = wr_db wr :: disk ∧ Forall crash_state disk ∧
    wrapper_ok (wr_db wr) ∧ plain (wr_db wr) best_key = Some h ∧ plain (wr_db wr) heads_key = None ∧
    ∀ o, outpoint_ok o → plain (wr_db wr) (coin_key o) = new_stored o.
Proof.
  intros Hi HE Hcur Hok Hh Hnull. unfold BatchWrite_run. rewrite Hnull, old_tip_spec by done.
  cbn [negb Assert]. step. set (wr0 := {| wr_db := m_db s |}).
  destruct (cursor_for_spec write_entry (write_partial s) writer_inv (db_coin s) cur wr0)
    as (cur' & wr & Erun & Hwr & Hdr).
  - intros k e cur1 wr1 ks Hinv He HD Hd. rewrite <-HE in HD. destruct (Hok _ _ _ HD) as [Ho (_ & Hx & _)].
    destruct (write_entry_spec k e cur1 ks wr1 Hinv Ho HD Hd) as (wr2 & E2 & Hi2).
    { intros Hs. rewrite Hs in Hx. apply Hx. }
    destruct (write_partial_spec ks wr2) as (wr3 & E3 & Hi3); [apply Hi|done|].
    exists cur1, wr2, wr3. split_and!; try done. by left.
  - done.
  - by rewrite <-HE.
  - intros ks Hr. by apply (writer_init cur).
  - rewrite Erun. step. destruct (write_final wr Hi Hh Hwr) as (w & -> & Hw & H1 & H2 & H3). step.
    do 3 eexists. split; [done|]. cbn [wr_db wr_disk]. split_and!; try done. by destruct Hwr as (_ & ops & ? & ? & ? & ? & ? & ? & ? & ?).
Qed.

End Write.

(** ** The database is a lawful view *)

Lemma new_stored_over s (E : gmap COutPoint (Z * Coin)) o :
  db_inv s → entries_ok (db_coin s) E → outpoint_ok o →
  (new_stored s E o ≫= unmarshal CoinF) = over E (db_coin s) o ∧
  ∀ v, new_stored s E o = Some v → ∃ c, coin_ok c ∧ v = Ser CoinF c.
Proof.
  intros Hi HE Ho. pose proof Hi as (_ & _ & _ & _ & Hs). unfold new_stored, over.
  destruct (E !! o) as [[f x]|] eqn:HEo; [|split; [done|intros v; by apply Hs]].
  destruct (HE _ _ _ HEo) as [_ (_ & Hx & Hclean & _)].
  destruct (dirty f) eqn:Hd.
  - destruct (IsSpent x); [done|]. destruct Hx as [Hx _]. split; [cbn [mbind option_bind]; by apply unmarshal_coin|].
    intros v [= <-]. eauto.
  - destruct (IsSpent x); [by destruct Hx; congruence|]. split; [by apply Hclean|]. intros v. by apply Hs.
Qed.

Lemma DB_BatchWrite_spec s cur h :
  db_inv s → cursor_ok cur → entries_ok (db_coin s) (data (cur_ring cur)) → uint256_ok h → uint256_IsNull h = false →
  ∃ cur' s', DB_BatchWrite cur h s = inr (cur', s') ∧ drained cur cur' ∧ db_inv s' ∧ db_best s' = h ∧
    ∀ o, outpoint_ok o → db_coin s' o = over (data (cur_ring cur)) (db_coin s) o.
Proof.
  intros Hi Hcur HE Hh Hnull.
  destruct (BatchWrite_run_spec s _ h cur Hi eq_refl Hcur HE Hh Hnull)
    as (cur' & wr & disk & Erun & Hdr & _ & _ & Hw & H1 & H2 & H3).
  exists cur', (set_db (wr_db wr) s). unfold DB_BatchWrite. rewrite Erun. step. split; [done|]. split; [done|].
  split_and!.
  - split_and!; try done; [apply Hi|right; by exists h|].
    intros o v Ho. unfold stored. cbn [m_db set_db]. rewrite H3 by done. by apply new_stored_over.
  - unfold db_best. cbn [m_db set_db]. rewrite H1. cbn [mbind option_bind]. by rewrite unmarshal_uint256.
  - intros o Ho. unfold db_coin at 1, stored. cbn [m_db set_db]. rewrite H3 by done. by apply new_stored_over.
Qed.

#[export] Instance CCoinsViewDB_lawful : LawfulView (CCoinsViewDB D) (CCoinsView0 := CCoinsViewDB_view).
Proof.
  refine {| coin_at := db_coin; best_block := db_best; view_inv := db_inv |}.
  - intros s o x Hi Ho Hx. pose proof (db_coin_spec s o Hi Ho) as H. rewrite Hx in H. destruct H as [H _].
    split; [by apply coin_ok_unspent|done].
  - intros s Hi. by apply db_best_ok.
  - intros s o Hi Ho. exists s. cbn [view_GetCoin CCoinsViewDB_view]. rewrite DB_GetCoin_spec by done. by step.
  - intros s o Hi Ho. by apply DB_GetCoin_spec.
  - intros s o Hi Ho. exists s. cbn [view_HaveCoin CCoinsViewDB_view]. rewrite DB_HaveCoin_spec by done. by step.
  - intros s Hi. exists s. cbn [view_GetBestBlock CCoinsViewDB_view]. rewrite DB_GetBestBlock_spec by done. by step.
  - intros s cur h Hi Hcur HE Hh Hn. by apply DB_BatchWrite_spec.
Defined.
(** ** What a crash leaves behind *)

(** A reader of the disk in the middle of a write. *)
Lemma crash_state_reads s (E : gmap COutPoint (Z * Coin)) h w :
  db_inv s → entries_ok (db_coin s) E → uint256_ok h → crash_state s E h w →
  DB_GetBestBlock (set_db w s) = inr uint256_zero ∧ DB_GetHeadBlocks (set_db w s) = inr [h; db_best s] ∧
  (∀ o, outpoint_ok o → DB_GetCoin o (set_db w s) = inr (db_coin s o) ∨
                        DB_GetCoin o (set_db w s) = inr (over E (db_coin s) o)) ∧
  (∀ h', old_tip h' (set_db w s) = if decide (h' = h) then inr (db_best s) else inl assertion_failed).
Proof.
  intros Hi HE Hh (Hw & H1 & H2 & H3).
  assert (Hbest : DB_GetBestBlock (set_db w s) = inr uint256_zero).
  { unfold DB_GetBestBlock. cbn [m_db set_db]. rewrite db_Read_spec by done. fold best_key. by rewrite H1. }
  assert (Hheads : DB_GetHeadBlocks (set_db w s) = inr [h; db_best s]).
  { unfold DB_GetHeadBlocks. cbn [m_db set_db]. rewrite db_Read_spec by done. fold heads_key. rewrite H2. step.
    cbn [mbind option_bind]. unfold transition_mark. rewrite unmarshal_roundtrip; [done|].
    apply (fmt_roundtrip (F := HeadsF)). split; [done|].
    apply Forall_cons. split; [done|]. apply Forall_singleton. by apply db_best_ok. }
  split_and!; try done.
  - intros o Ho. unfold DB_GetCoin. cbn [m_db set_db]. rewrite db_Read_spec by done. fold (coin_key o). step.
    assert (HC : ∀ x, (∀ c, x = Some c → coin_ok c) → match x with
      | Some coin => _ ← Assert (negb (IsSpent coin)); inr (Some coin)
      | None => inr None
      end = inr x :> res (option Coin)).
    { intros [c|] Hx; [|done]. by rewrite coin_ok_unspent by auto. }
    destruct (H3 o Ho) as [-> | ->]; [left|right].
    + fold (db_coin s o). apply HC. intros c Hc. pose proof (db_coin_spec s o Hi Ho) as H. rewrite Hc in H. apply H.
    + destruct (new_stored_over s E o Hi HE Ho) as [<- Hv]. apply HC. intros c Hc.
      apply bind_Some in Hc as (v & Ev & Hc). destruct (Hv v Ev) as (c' & Hok & ->).
      rewrite unmarshal_coin in Hc by done. by injection Hc as <-.
  - intros h'. unfold old_tip. rewrite Hbest. step. cbn [uint256_IsNull]. rewrite Hheads. step.
    destruct (decide (h' = h)) as [->|Hne]; [by rewrite bool_decide_eq_true_2|].
    rewrite bool_decide_eq_false_2 by congruence. done.
Qed.
End TxDb.

(** C23: Writing the coins database is crash-safe.  Let [s] be a consistent database and [cur] the
    flagged entries of a cache over it.  [BatchWrite] succeeds, and every state [w] the disk goes
    through between its LevelDB batches is recoverable: there is no best block, the recorded range
    is from the old tip to [hashBlock], every coin reads as before or as after the write, and a new
    [BatchWrite] is accepted exactly for [hashBlock].  After the last batch the best block is
    [hashBlock] and every coin reads as after the write. *)
Theorem coins_db_crash_recoverable `{!Secp256k1} {D : Type} `{!LevelDB D} (data_addr : bytes → Z)
    (s : CCoinsViewDB D) (cur : CoinsViewCacheCursor) (hashBlock : uint256)
    (Hs : db_inv s) (Hcur : cursor_ok cur) (Hentries : entries_ok (db_coin s) (data (cur_ring cur)))
    (Hh : uint256_ok hashBlock) (Hnull : uint256_IsNull hashBlock = false) :
  let old := db_coin s in
  let new := over (data (cur_ring cur)) (db_coin s) in
  ∃ cur' wr disk, BatchWrite_run data_addr cur hashBlock s = inr (cur', wr) ∧
    wr_disk wr = wr_db wr :: disk ∧
    (∀ w, w ∈ disk →
      DB_GetBestBlock data_addr (set_db w s) = inr uint256_zero ∧
      DB_GetHeadBlocks data_addr (set_db w s) = inr [hashBlock; db_best s] ∧
      (∀ o, outpoint_ok o → DB_GetCoin data_addr o (set_db w s) = inr (old o) ∨
                            DB_GetCoin data_addr o (set_db w s) = inr (new o)) ∧
      (∀ h', old_tip data_addr h' (set_db w s) = if decide (h' = hashBlock) then inr (db_best s) else inl assertion_failed)) ∧
    DB_GetBestBlock data_addr (set_db (wr_db wr) s) = inr hashBlock ∧
    DB_GetHeadBlocks data_addr (set_db (wr_db wr) s) = inr [] ∧
    (∀ o, outpoint_ok o → DB_GetCoin data_addr o (set_db (wr_db wr) s) = inr (new o)).
Proof.
  intros old new.
  destruct (BatchWrite_run_spec data_addr s _ hashBlock cur Hs eq_refl Hcur Hentries Hh Hnull)
    as (cur' & wr & disk & Erun & Hdr & Hdisk & Hcrash & Hw & H1 & H2 & H3).
  destruct (DB_BatchWrite_spec data_addr s cur hashBlock Hs Hcur Hentries Hh Hnull)
    as (cur2 & s' & E' & _ & Hs' & Hbest & Hnew).
  unfold DB_BatchWrite in E'. rewrite Erun in E'. injection E' as <- <-.
  exists cur', wr, disk. split_and!; try done.
  - intros w Hw'. rewrite Forall_forall in Hcrash. eapply crash_state_reads; eauto.
  - rewrite DB_GetBestBlock_spec by done. by rewrite Hbest.
  - unfold DB_GetHeadBlocks. cbn [m_db set_db]. rewrite db_Read_spec by done. fold heads_key. by rewrite H2.
  - intros o Ho. rewrite DB_GetCoin_spec by done. by rewrite Hnew.
Qed.
