(* ===== verification/CoinsStack.v ===== *)
(** * A stack of coins caches over a database in memory

    Concrete instances of the interfaces the coins components are proved against: LevelDB as a
    finite map, a curve library that knows one point, and data on which the theorems on caches
    and on the coins database are evaluated. *)

From S2P Require Import Prelude Serialize Hash Primitives Script PubKey CoinsList Coins Compressor DbWrapper TxDb.
From Stdlib Require Import ZArith Lia.
From stdpp Require Import base option list numbers gmap.

Open Scope Z_scope.
Open Scope kernel_scope.

(** ** A store in memory *)

Abbreviation store := (gmap bytes bytes).

Definition memory_apply (d : store) (p : write_op) : store :=
  match p with OpPut k v => <[k := v]> d | OpDelete k => delete k d end.

Lemma memory_apply_lookup (ops : list write_op) (d : store) (m : bytes → option bytes) k :
  (∀ k, d !! k = m k) → foldl memory_apply d ops !! k = foldl apply_op m ops k.
Proof.
  revert d m. induction ops as [|p ops IH]; intros d m Hd; [apply Hd|].
  apply IH. intros k'. destruct p as [k0 v|k0]; cbn [memory_apply apply_op];
    destruct (decide (k' = k0)) as [->|Hne]; by simplify_map_eq.
Qed.

#[export] Instance memory_store : LevelDB store.
Proof.
  refine {|
    db_Get k d := match d !! k with Some v => DbOk v | None => DbNotFound end;
    db_Write ops d := Some (foldl memory_apply d ops);
    db_IsEmpty d := bool_decide (d = ∅);
    batch_ApproximateSize ops := 12 + 40 * Z.of_nat (length ops);
    db_map d k := d !! k;
    db_healthy _ := True |}.
  - done.
  - intros d ops _. eexists. split_and!; try done. intros k. by apply memory_apply_lookup.
  - intros d _ H k. apply bool_decide_eq_true in H as ->. apply lookup_empty.
Defined.

(** ** A curve library with the generator as its only point *)

Definition gen_x : bytes := rev (digits 8 32 0x79be667ef9dcbbac55a06295ce870b07029bfcdb2dce28d959f2815b16f81798).
Definition gen_y : bytes := rev (digits 8 32 0x483ada7726a3c4655da4fbfc0e1108a8fd17b448a68554199c47d08ffb10d4b8).

Lemma gen_ok : bytes_ok gen_x ∧ bytes_ok gen_y.
Proof. split; apply (bool_decide_unpack _); vm_compute; exact I. Qed.

#[export] Instance generator_only : Secp256k1.
Proof.
  refine {|
    secp_pubkey := unit;
    ec_pubkey_parse b := if decide (b = 4 :: gen_x ++ gen_y ∨ b = 2 :: gen_x) then Some tt else None;
    ec_pubkey_serialize compressed _ := if compressed then 2 :: gen_x else 4 :: gen_x ++ gen_y |}.
  - intros _. exists gen_x, gen_y. split_and!; try reflexivity; by apply gen_ok.
  - intros [] []; by vm_compute.
  - intros b p Hh Hp. case_decide as H; [|done]. by destruct H as [-> | ->].
Defined.

(** ** Data *)

Definition coin_a : Coin :=
  {| out := {| nValue := 5000000000; scriptPubKey := 65 :: (4 :: gen_x ++ gen_y) ++ [OP_CHECKSIG] |};
     fCoinBase := true; coin_nHeight := 1 |}.
Definition coin_b : Coin :=
  {| out := {| nValue := 123456789; scriptPubKey := [OP_HASH160; 20] ++ repeat 7 20 ++ [OP_EQUAL] |};
     fCoinBase := false; coin_nHeight := 170 |}.
Definition point_a : COutPoint := {| op_hash := repeat 17 32; op_n := 0 |}.
Definition point_b : COutPoint := {| op_hash := repeat 34 32; op_n := 4 |}.
Definition block_1 : uint256 := repeat 1 32.
Definition block_2 : uint256 := repeat 2 32.

(** A new database whose batches are written after every entry. *)
Definition new_db : CCoinsViewDB store :=
  {| m_db := {| pdb := ∅; m_obfuscation := Obfuscation_make [222; 173; 190; 239; 1; 35; 69; 103] |};
     batch_write_bytes := 1; simulate_crash_ratio := 0; rng := λ _, 1 |}.

Lemma coin_codec_witness :
  ∃ b, Coin_Serialize coin_a = inr b ∧ length b = 35%nat ∧ Unser CoinF (b ++ [9]) = inr (coin_a, [9]).
Proof.
  destruct (coin_codec coin_a [9]) as (b & E & _ & H).
  - split_and!; try done. apply (bool_decide_unpack _); by vm_compute.
  - exists b. split; [exact E|]. split; [|exact H].
    assert (X : match Coin_Serialize coin_a with inr b => length b | inl _ => O end = 35%nat) by (vm_compute; reflexivity).
    by rewrite E in X.
Defined.

Definition data_addr (b : bytes) : Z := 4096 + 8 * Z.of_nat (length b) + 3.

#[export] Instance db_view : CCoinsView (CCoinsViewDB store) := CCoinsViewDB_view data_addr.
#[export] Instance db_lawful : LawfulView (CCoinsViewDB store) := CCoinsViewDB_lawful data_addr.

Lemma new_db_inv : db_inv new_db.
Proof.
  unfold db_inv. split_and!; try reflexivity.
  - by split_and!.
  - by left.
  - intros o v _ H. by vm_compute in H.
Qed.

(** Two blocks: the first makes coins [a] and [b], the second spends [a]. *)
Definition session : list op :=
  [OpGet point_a; OpAdd point_a coin_a false; OpAdd point_b coin_b true; OpSetBest block_1; OpSync;
   OpHave point_a; OpSpend point_a true; OpSpend point_a false; OpAccess point_a; OpUncache point_b; OpSetBest block_2;
   OpFlush true; OpGet point_b; OpGetBest].

Lemma session_ok {S} `{!CCoinsView S} `{!LawfulView S} (b : S) : coin_at b point_a = None → ops_ok session (initial b).
Proof.
  intros Ha.
  assert (Hp : outpoint_ok point_a ∧ outpoint_ok point_b).
  { split; (split; [split; [done|]|]); apply (bool_decide_unpack _); by vm_compute. }
  assert (Hc : coin_ok coin_a ∧ coin_ok coin_b).
  { split; (split_and!; try done); apply (bool_decide_unpack _); by vm_compute. }
  assert (Hb : uint256_ok block_1 ∧ uint256_ok block_2).
  { split; (split; [done|]); apply (bool_decide_unpack _); by vm_compute. }
  destruct Hp, Hc, Hb. cbn. split_and!; try done; intros _; (split; [done|]); [by right|by left].
Qed.

(** A cache over a cache over the new database. *)
Definition stack : CCoinsViewCache (CCoinsViewDB store) := CCoinsViewCache_make CacheClass new_db.

Lemma stack_inv : view_inv stack ∧ coin_at stack point_a = None.
Proof. split; [|by vm_compute]. change (cache_inv stack). apply make_spec. exact new_db_inv. Qed.

(** The second spend of [a] still answers true, since the entry was written by [OpSync] and is kept
    as a spent one. *)
Lemma coins_cache_refines_map_witness :
  ∃ rs c', run session (CCoinsViewCache_make OverlayClass stack) = inr (rs, c') ∧
    rs = [RCoin None; RUnit; RUnit; RUnit; RUnit; RBool true; RSpend true (Some coin_a); RSpend true None; RAccess (Coin_Clear coin_a); RUnit; RUnit;
      RUnit; RCoin (Some coin_b); RHash block_2] ∧
    spec_replies session (initial stack) rs ∧
    (∀ o, outpoint_ok o → PeekCoin o c' = inr (coins (spec_final session (initial stack)) o)).
Proof.
  destruct (coins_cache_refines_map OverlayClass stack session) as (rs & c' & E & Hr & Hv); [apply stack_inv|apply session_ok, stack_inv|].
  exists rs, c'. split; [exact E|]. split; [|split; [exact Hr|exact Hv]].
  assert (X : match run session (CCoinsViewCache_make OverlayClass stack) with inr (rs, _) => Some rs | inl _ => None end =
    Some [RCoin None; RUnit; RUnit; RUnit; RUnit; RBool true; RSpend true (Some coin_a); RSpend true None; RAccess (Coin_Clear coin_a); RUnit; RUnit;
      RUnit; RCoin (Some coin_b); RHash block_2]) by (vm_compute; reflexivity).
  rewrite E in X. by injection X as ->.
Defined.

(** The cache after the session. *)
Definition after_session : CCoinsViewCache (CCoinsViewDB store) :=
  match run session stack with inr (_, c) => c | inl _ => stack end.
Definition replies : list reply := match run session stack with inr (rs, _) => rs | inl _ => [] end.

Lemma session_runs : ops_ok session (initial new_db) ∧ run session stack = inr (replies, after_session).
Proof.
  assert (Hv : view_inv new_db) by exact new_db_inv.
  assert (Hok : ops_ok session (initial new_db)) by (apply session_ok; by vm_compute).
  destruct (run_implements session _ _ (make_implements CacheClass new_db Hv) Hok) as (rs & c & E & _).
  fold stack in E. split; [done|]. unfold after_session, replies. by rewrite E.
Qed.

Lemma coins_cache_sane_witness : SanityCheck after_session = inr tt.
Proof.
  apply (coins_cache_sane CacheClass new_db session replies after_session).
  - exact new_db_inv.
  - apply session_runs.
  - apply session_runs.
Defined.

Lemma coins_cache_flush_witness :
  ∃ c', Flush true after_session = inr c' ∧ GetCacheSize c' = 0 ∧ m_dirty_count c' = 0 ∧
    view_inv (base c') ∧ best_block (base c') = tip (spec_final session (initial new_db)) ∧
    ∀ o, outpoint_ok o → coin_at (base c') o = coins (spec_final session (initial new_db)) o.
Proof.
  apply (coins_cache_flush CacheClass new_db session replies after_session true).
  - exact new_db_inv.
  - apply session_runs.
  - apply session_runs.
  - vm_compute. reflexivity.
Defined.

(** The cursor of the cache when the first block is written. *)
Definition first_block : list op := [OpAdd point_a coin_a false; OpAdd point_b coin_b true; OpSetBest block_1].
Definition after_first : CCoinsViewCache (CCoinsViewDB store) :=
  match run first_block stack with inr (_, c) => c | inl _ => stack end.
Definition first_cursor : CoinsViewCacheCursor :=
  {| cur_dirty_count := m_dirty_count after_first; cur_ring := coins_ring after_first; m_will_erase := true |}.

Lemma first_cursor_ok : cursor_ok first_cursor ∧ entries_ok (db_coin new_db) (data (cur_ring first_cursor)).
Proof.
  assert (Hok : ops_ok first_block (initial new_db)).
  { pose proof (session_ok new_db eq_refl) as (_ & H1 & H2 & H3 & _). by split_and!. }
  assert (Hv : view_inv new_db) by exact new_db_inv.
  destruct (run_implements first_block _ _ (make_implements CacheClass new_db Hv) Hok) as (rs & c & E & _ & Hi & _).
  fold stack in E. assert (after_first = c) as Hc by (unfold after_first; by rewrite E).
  unfold first_cursor. rewrite Hc. destruct Hi as (ks & Hr & Hn & _ & He & Hb & _). split; [exists ks; exact (conj Hr Hn)|].
  assert (base c = new_db) as Hbase by (rewrite <-Hc; by vm_compute). by rewrite Hbase in He.
Qed.

Lemma coins_db_crash_recoverable_witness :
  ∃ cur' wr disk, BatchWrite_run data_addr first_cursor block_1 new_db = inr (cur', wr) ∧
    wr_disk wr = wr_db wr :: disk ∧
    (∀ w, w ∈ disk → DB_GetHeadBlocks data_addr (set_db w new_db) = inr [block_1; uint256_zero]) ∧
    DB_GetCoin data_addr point_a (set_db (wr_db wr) new_db) = inr (Some coin_a).
Proof.
  destruct (coins_db_crash_recoverable data_addr new_db first_cursor block_1) as (cur' & wr & disk & H1 & H2 & H3 & _ & _ & H4).
  - exact new_db_inv.
  - apply first_cursor_ok.
  - apply first_cursor_ok.
  - split; [done|]. apply (bool_decide_unpack _); by vm_compute.
  - reflexivity.
  - exists cur', wr, disk. split_and!; [done|done| |].
    + intros w Hw. destruct (H3 w Hw) as (_ & H & _). rewrite H. by vm_compute.
    + rewrite H4; [by vm_compute|]. split; [split; [done|]|]; apply (bool_decide_unpack _); by vm_compute.
Defined.

(** Two batches are on disk before the one that completes the transition. *)
Example crash_states_exist :
  match BatchWrite_run data_addr first_cursor block_1 new_db with
  | inr (_, wr) => length (wr_disk wr)
  | inl _ => O
  end = 3%nat.
Proof. vm_compute. reflexivity. Qed.
