(* ===== verification/TxVerify.v ===== *)
(** * Checks on transactions: consensus/tx_check.cpp, consensus/tx_verify.cpp

    [CheckTransaction], the lock times, the counts of signature operations and [CheckTxInputs].
    A check returns the reason it records in the validation state, or nothing when it passes.  The
    theory shows that each check decides the rule it stands for, without a wrap-around, and that
    the lock-time opcodes of the interpreter and the lock times of transactions agree. *)

From S2P Require Import Prelude Serialize Hash Primitives Script PubKey Interpreter SigHash VerifyScript BlockIndex MedianTime Headers CoinsList Coins CoinsProgram.
From Stdlib Require Import ZArith Lia.
From stdpp Require Import base option list numbers strings gmap.

Open Scope Z_scope.
Open Scope kernel_scope.

Abbreviation tx_verdict := (option (TxValidationResult * string)).

(** The first check that fails decides. *)
Definition or_else {E} (v w : option E) : option E := match v with Some e => Some e | None => w end.

(** ** [CheckTransaction] *)

Fixpoint check_outputs (nValueOut : Z) (outs : list CTxOut) : tx_verdict :=
  match outs with
  | [] => None
  | txout :: outs =>
      if nValue txout <? 0 then Some (TX_CONSENSUS, "bad-txns-vout-negative")
      else if MAX_MONEY <? nValue txout then Some (TX_CONSENSUS, "bad-txns-vout-toolarge")
      else
        let nValueOut := i64 (nValueOut + nValue txout) in
        if negb (MoneyRange nValueOut) then Some (TX_CONSENSUS, "bad-txns-txouttotal-toolarge")
        else check_outputs nValueOut outs
  end.

Fixpoint check_duplicates (vInOutPoints : gset COutPoint) (ins : list CTxIn) : tx_verdict :=
  match ins with
  | [] => None
  | txin :: ins =>
      if decide (prevout txin ∈ vInOutPoints) then Some (TX_CONSENSUS, "bad-txns-inputs-duplicate")
      else check_duplicates ({[prevout txin]} ∪ vInOutPoints) ins
  end.

Definition CheckTransaction `{!ABI} (tx : CTransaction) : tx_verdict :=
  match vin tx, vout tx with
  | [], _ => Some (TX_CONSENSUS, "bad-txns-vin-empty")
  | _, [] => Some (TX_CONSENSUS, "bad-txns-vout-empty")
  | txin0 :: _, _ =>
      if MAX_BLOCK_WEIGHT <? u64 (GetSerializeSize (TransactionF false) tx * WITNESS_SCALE_FACTOR)
      then Some (TX_CONSENSUS, "bad-txns-oversize")
      else
        or_else (check_outputs 0 (vout tx)) (or_else (check_duplicates ∅ (vin tx))
          (if IsCoinBase tx then
             if (zlen (scriptSig txin0) <? 2) || (100 <? zlen (scriptSig txin0)) then Some (TX_CONSENSUS, "bad-cb-length") else None
           else if existsb (λ txin, COutPoint_IsNull (prevout txin)) (vin tx) then Some (TX_CONSENSUS, "bad-txns-prevout-null")
           else None))
  end.

(** ** Lock times *)

Definition IsFinalTx (tx : CTransaction) (nBlockHeight nBlockTime : Z) : bool :=
  if nLockTime tx =? 0 then true
  else if nLockTime tx <? (if nLockTime tx <? LOCKTIME_THRESHOLD then nBlockHeight else nBlockTime) then true
  else forallb (λ txin, nSequence txin =? SEQUENCE_FINAL) (vin tx).

Section SequenceLocks.
Context (m : BlockMap).

(** The loop over the inputs; with the new contents of [prevHeights].  [None] is a failed assertion. *)
Fixpoint sequence_locks_loop (block : ptr) (ins : list CTxIn) (prevHeights : list Z) (nMinHeight nMinTime : Z)
    : option (Z * Z * list Z) :=
  match ins, prevHeights with
  | [], _ => Some (nMinHeight, nMinTime, prevHeights)
  | _ :: _, [] => None
  | txin :: ins, nCoinHeight :: prevHeights =>
      if negb (nSequence txin .& SEQUENCE_LOCKTIME_DISABLE_FLAG =? 0) then
        '(h, t, heights) ← sequence_locks_loop block ins prevHeights nMinHeight nMinTime; Some (h, t, 0 :: heights)
      else if negb (nSequence txin .& SEQUENCE_LOCKTIME_TYPE_FLAG =? 0) then
        prior ← mjoin (GetAncestor m block (Z.max (nCoinHeight - 1) 0));
        nCoinTime ← GetMedianTimePast m prior;
        let delay := (nSequence txin .& SEQUENCE_LOCKTIME_MASK) .<< SEQUENCE_LOCKTIME_GRANULARITY in
        '(h, t, heights) ← sequence_locks_loop block ins prevHeights nMinHeight (Z.max nMinTime (i64 (nCoinTime + u32 delay - 1)));
        Some (h, t, nCoinHeight :: heights)
      else
        let nMinHeight := Z.max nMinHeight (i32 (nCoinHeight + (nSequence txin .& SEQUENCE_LOCKTIME_MASK) - 1)) in
        '(h, t, heights) ← sequence_locks_loop block ins prevHeights nMinHeight nMinTime; Some (h, t, nCoinHeight :: heights)
  end.

Definition CalculateSequenceLocks (tx : CTransaction) (flags : Z) (prevHeights : list Z) (block : ptr) : option (Z * Z * list Z) :=
  if negb (length prevHeights =? length (vin tx))%nat then None else
  let fEnforceBIP68 := (2 <=? version tx) && negb (flags .& LOCKTIME_VERIFY_SEQUENCE =? 0) in
  if negb fEnforceBIP68 then Some (-1, -1, prevHeights) else
  sequence_locks_loop block (vin tx) prevHeights (-1) (-1).

Definition EvaluateSequenceLocks (block : ptr) (lockPair : Z * Z) : option bool :=
  b ← m !! block;
  prev ← pprev b;
  nBlockTime ← GetMedianTimePast m prev;
  Some (negb ((nHeight b <=? lockPair.1) || (nBlockTime <=? lockPair.2))).

Definition SequenceLocks (tx : CTransaction) (flags : Z) (prevHeights : list Z) (block : ptr) : option (bool * list Z) :=
  '(lockPair, prevHeights) ← CalculateSequenceLocks tx flags prevHeights block;
  r ← EvaluateSequenceLocks block lockPair;
  Some (r, prevHeights).
End SequenceLocks.

(** ** Signature operations *)

Definition GetLegacySigOpCount (tx : CTransaction) : Z :=
  let nSigOps := foldl (λ n txin, u32 (n + GetSigOpCount (scriptSig txin) false)) 0 (vin tx) in
  foldl (λ n txout, u32 (n + GetSigOpCount (scriptPubKey txout) false)) nSigOps (vout tx).

(** [const Coin& coin = inputs.AccessCoin(prevout); assert(!coin.IsSpent());] *)
Definition unspent_coin (o : COutPoint) : prog Coin :=
  coin ← AccessCoin' o; _ ← checked (negb (IsSpent coin)); mret coin.

Fixpoint p2sh_sigops_loop (ins : list CTxIn) (nSigOps : Z) : prog Z :=
  match ins with
  | [] => mret nSigOps
  | txin :: ins =>
      coin ← unspent_coin (prevout txin);
      let script := scriptPubKey (out coin) in
      p2sh_sigops_loop ins (if IsPayToScriptHash script then u32 (nSigOps + GetSigOpCount_p2sh script (scriptSig txin)) else nSigOps)
  end.
Definition GetP2SHSigOpCount (tx : CTransaction) : prog Z :=
  if IsCoinBase tx then mret 0 else p2sh_sigops_loop (vin tx) 0.

Fixpoint witness_sigops_loop (flags : Z) (ins : list CTxIn) (nSigOps : Z) : prog Z :=
  match ins with
  | [] => mret nSigOps
  | txin :: ins =>
      coin ← unspent_coin (prevout txin);
      n ← or_fail CoinsList.assertion_failed (CountWitnessSigOps (scriptSig txin) (scriptPubKey (out coin)) (scriptWitness txin) flags);
      witness_sigops_loop flags ins (i64 (nSigOps + n))
  end.
Definition GetTransactionSigOpCost (tx : CTransaction) (flags : Z) : prog Z :=
  let nSigOps := u32 (GetLegacySigOpCount tx * WITNESS_SCALE_FACTOR) in
  if IsCoinBase tx then mret nSigOps else
  nSigOps ← (if has_flag flags SCRIPT_VERIFY_P2SH
             then n ← GetP2SHSigOpCount tx; mret (i64 (nSigOps + u32 (n * WITNESS_SCALE_FACTOR)))
             else mret nSigOps);
  witness_sigops_loop flags (vin tx) nSigOps.

(** ** [CheckTxInputs] *)

(** The amount spent by the inputs. *)
Fixpoint input_values_loop (nSpendHeight : Z) (ins : list CTxIn) (nValueIn : Z) : prog ((TxValidationResult * string) + Z) :=
  match ins with
  | [] => mret (inr nValueIn)
  | txin :: ins =>
      coin ← unspent_coin (prevout txin);
      if fCoinBase coin && (i32 (nSpendHeight - coin_nHeight coin) <? COINBASE_MATURITY)
      then mret (inl (TX_PREMATURE_SPEND, "bad-txns-premature-spend-of-coinbase"%string)) else
      let nValueIn := i64 (nValueIn + nValue (out coin)) in
      if negb (MoneyRange (nValue (out coin))) || negb (MoneyRange nValueIn)
      then mret (inl (TX_CONSENSUS, "bad-txns-inputvalues-outofrange"%string)) else
      input_values_loop nSpendHeight ins nValueIn
  end.

(** The fee, or the reason the inputs are rejected for. *)
Definition CheckTxInputs (tx : CTransaction) (nSpendHeight : Z) : prog ((TxValidationResult * string) + Z) :=
  have ← HaveInputs tx;
  if negb have then mret (inl (TX_MISSING_INPUTS, "bad-txns-inputs-missingorspent"%string)) else
  r ← input_values_loop nSpendHeight (vin tx) 0;
  match r with
  | inl e => mret (inl e)
  | inr nValueIn =>
      value_out ← or_fail value_out_of_range (GetValueOut tx);
      if nValueIn <? value_out then mret (inl (TX_CONSENSUS, "bad-txns-in-belowout"%string)) else
      let txfee_aux := i64 (nValueIn - value_out) in
      if negb (MoneyRange txfee_aux) then mret (inl (TX_CONSENSUS, "bad-txns-fee-outofrange"%string)) else
      mret (inr txfee_aux)
  end.

(** ** Theory: [CheckTransaction] *)

Lemma or_else_None {E} (v w : option E) : or_else v w = None ↔ v = None ∧ w = None.
Proof. destruct v; cbn; naive_solver. Qed.

Lemma money_sum acc v : 0 ≤ acc ≤ MAX_MONEY → 0 ≤ v ≤ MAX_MONEY → i64 (acc + v) = acc + v.
Proof. intros. apply swrap_small; [lia|]. unfold srange, MAX_MONEY, COIN in *. lia. Qed.

Lemma check_outputs_spec acc outs :
  0 ≤ acc ≤ MAX_MONEY →
  check_outputs acc outs = None ↔ Forall (λ o, 0 ≤ nValue o ≤ MAX_MONEY) outs ∧ acc + sum_values outs ≤ MAX_MONEY.
Proof.
  revert acc. induction outs as [|o outs IH]; intros acc Hacc; cbn [check_outputs sum_values foldr].
  { split; [intros _; split; [done|lia]|done]. }
  destruct (Z.ltb_spec (nValue o) 0) as [|H0]. { split; [done|]. intros [Hf _]. inversion_clear Hf. lia. }
  destruct (Z.ltb_spec MAX_MONEY (nValue o)) as [|H1]. { split; [done|]. intros [Hf _]. inversion_clear Hf. lia. }
  rewrite money_sum by done. destruct (MoneyRange (acc + nValue o)) eqn:Hs; cbn [negb].
  - apply MoneyRange_spec in Hs. rewrite IH by done. rewrite Forall_cons. unfold sum_values. intuition lia.
  - split; [done|]. intros [Hf Hle]. apply Forall_cons in Hf as [_ Hf%sum_values_nonneg]. unfold sum_values in *.
    assert (MoneyRange (acc + nValue o) = true) by (apply MoneyRange_spec; lia). congruence.
Qed.

Lemma check_duplicates_spec seen ins :
  check_duplicates seen ins = None ↔ NoDup (map prevout ins) ∧ Forall (λ i, prevout i ∉ seen) ins.
Proof.
  revert seen. induction ins as [|i ins IH]; intros seen; cbn [check_duplicates map].
  { split; [|done]. split; constructor. }
  rewrite NoDup_cons, Forall_cons. case_decide as Hd; [naive_solver|]. rewrite IH, !Forall_forall.
  setoid_rewrite list_elem_of_fmap. set_solver.
Qed.

(** What a transaction must satisfy on its own. *)
Record tx_rules `{!ABI} (tx : CTransaction) : Prop := {
  tr_vin : vin tx ≠ [];
  tr_vout : vout tx ≠ [];
  tr_size : GetSerializeSize (TransactionF false) tx * WITNESS_SCALE_FACTOR ≤ MAX_BLOCK_WEIGHT;
  tr_values : Forall (λ o, 0 ≤ nValue o ≤ MAX_MONEY) (vout tx);
  tr_total : sum_values (vout tx) ≤ MAX_MONEY;
  tr_distinct : NoDup (map prevout (vin tx));
  tr_coinbase : IsCoinBase tx = true → ∀ txin, head (vin tx) = Some txin → 2 ≤ zlen (scriptSig txin) ≤ 100;
  tr_prevouts : IsCoinBase tx = false → Forall (λ txin, COutPoint_IsNull (prevout txin) = false) (vin tx)
}.

Lemma existsb_Forall {A} (f : A → bool) l : existsb f l = false ↔ Forall (λ x, f x = false) l.
Proof.
  induction l as [|x l IH]; cbn [existsb]; [split; [constructor|done]|].
  rewrite orb_false_iff, Forall_cons. tauto.
Qed.

(** C8: [CheckTransaction] accepts exactly the transactions that meet the rules: inputs and outputs, no
    more than a block's weight, every output and their sum within the money range, no input spent
    twice, a coinbase script of 2 to 100 bytes, and otherwise no null input. *)
Theorem CheckTransaction_exact `{!ABI} (tx : CTransaction) :
  GetSerializeSize (TransactionF false) tx < 2 ^ 62 → CheckTransaction tx = None ↔ tx_rules tx.
Proof.
  intros Hsize. unfold CheckTransaction.
  destruct (vin tx) as [|i ins] eqn:Hin; [split; [done|intros []; congruence]|].
  destruct (vout tx) as [|o outs] eqn:Hout; [split; [done|intros []; congruence]|].
  rewrite uwrap_small by (unfold urange, WITNESS_SCALE_FACTOR, GetSerializeSize in *; lia).
  destruct (Z.ltb_spec MAX_BLOCK_WEIGHT (GetSerializeSize (TransactionF false) tx * WITNESS_SCALE_FACTOR)) as [|Hw].
  { split; [done|]. intros []. lia. }
  rewrite <-Hin, <-Hout, !or_else_None, check_outputs_spec, check_duplicates_spec by (unfold MAX_MONEY, COIN; lia).
  assert (Hlast : (if IsCoinBase tx then
       if (zlen (scriptSig i) <? 2) || (100 <? zlen (scriptSig i)) then Some (TX_CONSENSUS, "bad-cb-length"%string) else None
     else if existsb (λ txin, COutPoint_IsNull (prevout txin)) (vin tx) then Some (TX_CONSENSUS, "bad-txns-prevout-null"%string) else None) = None
    ↔ (IsCoinBase tx = true → 2 ≤ zlen (scriptSig i) ≤ 100) ∧
      (IsCoinBase tx = false → Forall (λ txin, COutPoint_IsNull (prevout txin) = false) (vin tx))).
  { rewrite <-existsb_Forall. destruct (IsCoinBase tx).
    - destruct (Z.ltb_spec (zlen (scriptSig i)) 2), (Z.ltb_spec 100 (zlen (scriptSig i))); cbn [orb]; intuition (done || lia).
    - destruct (existsb _ _); intuition done. }
  rewrite Hlast. split.
  - intros ((? & ?) & (? & _) & Hcb & ?). split; try (done || congruence). intros Hc txin. rewrite Hin. intros [= <-]. auto.
  - intros []. split_and!; try done; [apply Forall_forall; set_solver|]. intros Hc. apply tr_coinbase0; [done|]. by rewrite Hin.
Qed.

(** ** Theory: lock times *)

Section Locks.
Context `{SIGS : Secp256k1Signatures} (tx : CTransaction) (nIn : nat) (amount : Z) (txdata : option PrecomputedTransactionData)
  (mdb : MissingDataBehavior) (flags : Z).
Abbreviation checker := (GenericTransactionSignatureChecker tx nIn amount txdata mdb).

Lemma CheckLockTime_sound n :
  tx_CheckLockTime tx nIn n = true →
  (nLockTime tx < LOCKTIME_THRESHOLD ↔ n < LOCKTIME_THRESHOLD) ∧ n ≤ nLockTime tx ∧ nSequence (vin_at tx nIn) ≠ SEQUENCE_FINAL.
Proof.
  unfold tx_CheckLockTime.
  destruct (Z.ltb_spec (nLockTime tx) LOCKTIME_THRESHOLD), (Z.ltb_spec n LOCKTIME_THRESHOLD),
    (Z.leb_spec LOCKTIME_THRESHOLD (nLockTime tx)), (Z.leb_spec LOCKTIME_THRESHOLD n); cbn [andb orb negb]; try (done || lia);
    destruct (Z.ltb_spec (nLockTime tx) n); try done; destruct (Z.eqb_spec SEQUENCE_FINAL (nSequence (vin_at tx nIn))); try done;
    intros _; split_and!; try (done || lia); congruence.
Qed.

Lemma IsFinalTx_sound h t :
  IsFinalTx tx h t = true → (nIn < length (vin tx))%nat → nSequence (vin_at tx nIn) ≠ SEQUENCE_FINAL → 
  nLockTime tx = 0 ∨ nLockTime tx < (if nLockTime tx <? LOCKTIME_THRESHOLD then h else t).
Proof.
  unfold IsFinalTx, vin_at. intros Hf Hi Hs. destruct (Z.eqb_spec (nLockTime tx) 0); [by left|].
  destruct (Z.ltb_spec (nLockTime tx) (if nLockTime tx <? LOCKTIME_THRESHOLD then h else t)); [by right|].
  apply lookup_lt_is_Some in Hi as [i Hi]. rewrite Hi in Hs. cbn in Hs.
  rewrite forallb_forall in Hf. specialize (Hf i). rewrite Z.eqb_eq in Hf.
  destruct Hs. apply Hf. apply list_elem_of_In. by eapply list_elem_of_lookup_2.
Qed.
End Locks.

(** The two parts of a sequence number that a relative lock uses. *)
Definition lock_delay (n : Z) : Z := n .& SEQUENCE_LOCKTIME_MASK.
Definition lock_by_time (n : Z) : bool := negb (n .& SEQUENCE_LOCKTIME_TYPE_FLAG =? 0).

Lemma lock_delay_range n : 0 ≤ lock_delay n < 2 ^ 16.
Proof.
  unfold lock_delay. change SEQUENCE_LOCKTIME_MASK with (Z.ones 16). rewrite Z.land_ones by lia. apply Z.mod_pos_bound. lia.
Qed.

Lemma masked_sequence n :
  n .& (SEQUENCE_LOCKTIME_TYPE_FLAG .| SEQUENCE_LOCKTIME_MASK)
  = (if lock_by_time n then SEQUENCE_LOCKTIME_TYPE_FLAG else 0) + lock_delay n.
Proof.
  assert (Hb : n .& SEQUENCE_LOCKTIME_TYPE_FLAG = if lock_by_time n then SEQUENCE_LOCKTIME_TYPE_FLAG else 0).
  { unfold lock_by_time, SEQUENCE_LOCKTIME_TYPE_FLAG. rewrite land_bit_eqb by lia. rewrite Z.shiftl_1_l.
    apply Z.bits_inj'. intros k Hk. rewrite Z.land_spec, Z.pow2_bits_eqb by lia.
    destruct (Z.eqb_spec 22 k) as [<-|]; [|rewrite andb_false_r]; destruct (Z.testbit n 22);
      rewrite ?Z.pow2_bits_eqb, ?Z.bits_0 by lia; try done. by rewrite (proj2 (Z.eqb_neq 22 k)). }
  rewrite Z.land_lor_distr_r, Hb. fold (lock_delay n). symmetry.
  assert (H0 : (if lock_by_time n then SEQUENCE_LOCKTIME_TYPE_FLAG else 0) .& lock_delay n = 0).
  { rewrite <-Hb. unfold lock_delay. rewrite Z.land_comm, Z.land_assoc, <-(Z.land_assoc n), (Z.land_comm _ n), Z.land_assoc.
    rewrite <-Z.land_assoc. change (SEQUENCE_LOCKTIME_MASK .& SEQUENCE_LOCKTIME_TYPE_FLAG) with 0. apply Z.land_0_r. }
  rewrite Z.add_nocarry_lxor by done. by apply Z.lxor_lor.
Qed.

Lemma CheckSequence_sound tx nIn n :
  tx_CheckSequence tx nIn n = true → let q := nSequence (vin_at tx nIn) in
  2 ≤ version tx ∧ q .& SEQUENCE_LOCKTIME_DISABLE_FLAG = 0 ∧ lock_by_time q = lock_by_time n ∧ lock_delay n ≤ lock_delay q.
Proof.
  unfold tx_CheckSequence. cbn zeta. set (q := nSequence (vin_at tx nIn)). rewrite !masked_sequence.
  pose proof (lock_delay_range n). pose proof (lock_delay_range q).
  assert (SEQUENCE_LOCKTIME_TYPE_FLAG = 2 ^ 22) as E by done.
  destruct (Z.ltb_spec (version tx) 2); [done|]. destruct (Z.eqb_spec (q .& SEQUENCE_LOCKTIME_DISABLE_FLAG) 0); [|done].
  cbn [negb].
  destruct (lock_by_time n), (lock_by_time q); rewrite ?Z.add_0_l;
    repeat match goal with |- context [?a <? ?b] => destruct (Z.ltb_spec a b); try lia
                         | |- context [?a <=? ?b] => destruct (Z.leb_spec a b); try lia end; cbn [andb orb negb];
    try done; intros _; split_and!; try (done || lia).
Qed.

Section SequenceTheory.
Context (m : BlockMap) (Hl : linked m) (Hs : skips_ok m) (Htimes : ∀ p b, m !! p = Some b → urange 32 (bi_nTime b)).

Lemma past_times_range n p l : past_times m n p = Some l → Forall (urange 32) l.
Proof.
  revert p l. induction n as [|n IH]; intros p l; cbn [past_times]; [intros [= <-]; constructor|].
  destruct p as [p|]; [|intros [= <-]; constructor]. destruct (m !! p) as [b|] eqn:Hp; [|done]. cbn [mbind option_bind].
  destruct (past_times m n (pprev b)) as [rest|] eqn:Hr; [|done]. cbn [mbind option_bind]. intros [= <-].
  constructor; [by eapply Htimes|by eapply IH].
Qed.

Lemma GetMedianTimePast_range p t : GetMedianTimePast m p = Some t → urange 32 t.
Proof.
  unfold GetMedianTimePast. destruct (past_times _ _ _) as [l|] eqn:El; [|done]. cbn [mbind option_bind]. intros Ht.
  apply past_times_range in El. rewrite Forall_forall in El. apply El. destruct (sorted_times l) as [HP _]. rewrite <-HP. clear HP.
  by eapply list_elem_of_lookup_2.
Qed.

(** What one input asks of a lock. *)
Definition lock_holds (block : ptr) (txin : CTxIn) (nCoinHeight h t : Z) : Prop :=
  if lock_by_time (nSequence txin) then
    ∃ prior, ancestor m block (Z.max (nCoinHeight - 1) 0) = Some prior ∧
      mtp m prior + lock_delay (nSequence txin) * 512 - 1 ≤ t
  else nCoinHeight + lock_delay (nSequence txin) - 1 ≤ h.

Lemma lock_holds_mono block txin hc h t h' t' : lock_holds block txin hc h t → h ≤ h' → t ≤ t' → lock_holds block txin hc h' t'.
Proof. unfold lock_holds. destruct (lock_by_time _); [|lia]. intros (q & ? & ?) ??. exists q. split; [done|lia]. Qed.

Lemma sequence_locks_loop_spec block b ins heights h0 t0 :
  m !! block = Some b → length heights = length ins →
  Forall (λ hc, 0 ≤ hc ≤ nHeight b ∧ hc < 2 ^ 31 - 2 ^ 16) heights → 
  ∃ h t hs, sequence_locks_loop m block ins heights h0 t0 = Some (h, t, hs) ∧ h0 ≤ h ∧ t0 ≤ t ∧
    (∀ k txin hc, ins !! k = Some txin → heights !! k = Some hc → nSequence txin .& SEQUENCE_LOCKTIME_DISABLE_FLAG = 0 →
      lock_holds block txin hc h t).
Proof.
  intros Hb. revert heights h0 t0. induction ins as [|i ins IH]; intros [|hc heights] h0 t0; cbn [length]; intros Hlen Hf; try done.
  { exists h0, t0, []. split_and!; try (done || lia). }
  apply Forall_cons in Hf as [Hhc Hf]. injection Hlen as Hlen. cbn [sequence_locks_loop].
  assert (Hdel := lock_delay_range (nSequence i)).
  destruct (Z.eqb_spec (nSequence i .& SEQUENCE_LOCKTIME_DISABLE_FLAG) 0) as [Hd|Hd]; cbn [negb].
  2: { destruct (IH heights h0 t0 Hlen Hf) as (h & t & hs & -> & ? & ? & H). cbn [mbind option_bind].
       eexists h, t, _. split_and!; try done. intros [|k] txin hc'; cbn; [by intros [= <-]|apply H]. }
  fold (lock_by_time (nSequence i)). fold (lock_delay (nSequence i)). destruct (lock_by_time (nSequence i)) eqn:Hty.
  - rewrite (GetAncestor_spec m Hl Hs block b) by done. cbn [mjoin option_join].
    destruct (ancestor_Some m Hl block b (Z.max (hc - 1) 0) Hb ltac:(lia)) as (q & c & Hq & Hc & _). rewrite Hq. cbn [mbind option_bind].
    rewrite (GetMedianTimePast_total m Hl q c Hc). cbn [mbind option_bind].
    assert (Hr : urange 32 (mtp m q)) by (eapply GetMedianTimePast_range, GetMedianTimePast_total; done).
    rewrite Z.shiftl_mul_pow2 by done. unfold SEQUENCE_LOCKTIME_GRANULARITY. change (2 ^ 9) with 512.
    rewrite uwrap_small by (unfold urange; lia). rewrite swrap_small by (unfold srange, urange in *; lia).
    destruct (IH heights h0 (Z.max t0 (mtp m q + lock_delay (nSequence i) * 512 - 1)) Hlen Hf) as (h & t & hs & -> & ? & ? & H).
    cbn [mbind option_bind]. eexists h, t, _. split_and!; try (done || lia).
    intros [|k] txin hc'; cbn; [intros [= <-] [= <-] _|apply H]. unfold lock_holds. rewrite Hty. exists q. split; [done|lia].
  - rewrite swrap_small by (unfold srange; lia).
    destruct (IH heights (Z.max h0 (hc + lock_delay (nSequence i) - 1)) t0 Hlen Hf) as (h & t & hs & -> & ? & ? & H).
    cbn [mbind option_bind]. eexists h, t, _. split_and!; try (done || lia).
    intros [|k] txin hc'; cbn; [intros [= <-] [= <-] _|apply H]. unfold lock_holds. rewrite Hty. lia.
Qed.
End SequenceTheory.

(** C6: The lock-time opcodes bind blocks.  Let OP_CHECKLOCKTIMEVERIFY or OP_CHECKSEQUENCEVERIFY accept
    the number [n] in a script that spends input [nIn] of [tx].  If [tx] is final in a block of
    height [h] and median time [t], then the absolute lock [n] is below the one of the two it
    refers to.  If the sequence locks of [tx] hold in a block of the index, then the block comes at
    least the relative lock [n] after the coin of height [hc] that the input spends: in blocks, or
    in median time past counted from the block before the coin's. *)
Theorem lock_opcodes_bind_blocks `{SIGS : Secp256k1Signatures} (tx : CTransaction) (nIn : nat) (amount : Z)
    (txdata : option PrecomputedTransactionData) (mdb : MissingDataBehavior) (flags : Z) (vch : bytes) (s : list bytes) (n : Z) :
  let checker := GenericTransactionSignatureChecker tx nIn amount txdata mdb in
  (nIn < length (vin tx))%nat → stack_number flags vch 5 = inr n → 0 < n →
  (has_flag flags SCRIPT_VERIFY_CHECKLOCKTIMEVERIFY = true →
   op_checklocktimeverify checker flags (vch :: s) = inr (vch :: s) →
   ∀ h t, IsFinalTx tx h t = true → n < (if n <? LOCKTIME_THRESHOLD then h else t)) ∧
  (has_flag flags SCRIPT_VERIFY_CHECKSEQUENCEVERIFY = true → n .& SEQUENCE_LOCKTIME_DISABLE_FLAG = 0 →
   op_checksequenceverify checker flags (vch :: s) = inr (vch :: s) →
   ∀ m block b prevHeights hc heights,
   linked m → skips_ok m → (∀ p b, m !! p = Some b → urange 32 (bi_nTime b)) → m !! block = Some b →
   Forall (λ hc, 0 ≤ hc ≤ nHeight b ∧ hc < 2 ^ 31 - 2 ^ 16) prevHeights → prevHeights !! nIn = Some hc →
   SequenceLocks m tx LOCKTIME_VERIFY_SEQUENCE prevHeights block = Some (true, heights) →
   if lock_by_time n then
     ∃ prior prev, ancestor m block (Z.max (hc - 1) 0) = Some prior ∧ pprev b = Some prev ∧
       mtp m prior + lock_delay n * 512 ≤ mtp m prev
   else hc + lock_delay n ≤ nHeight b).
Proof.
  intros checker Hin Hn Hpos. split.
  - unfold op_checklocktimeverify. intros ->. cbn [negb]. rewrite Hn. cbn [mbind sum_mbind].
    destruct (Z.ltb_spec n 0); [done|]. destruct (CheckLockTime checker n) eqn:Hc; [|done]. intros _ h t Hf.
    apply CheckLockTime_sound in Hc as (Hty & Hle & Hseq).
    destruct (IsFinalTx_sound tx nIn h t Hf Hin Hseq) as [|Hlt]; [lia|].
    destruct (Z.ltb_spec (nLockTime tx) LOCKTIME_THRESHOLD), (Z.ltb_spec n LOCKTIME_THRESHOLD); lia.
  - unfold op_checksequenceverify. intros -> Hd. cbn [negb]. rewrite Hn. cbn [mbind sum_mbind].
    destruct (Z.ltb_spec n 0); [done|]. rewrite Hd. cbn [Z.eqb negb].
    destruct (CheckSequence checker n) eqn:Hc; [|done]. intros _ m block b prevHeights hc heights Hl Hs Ht Hb Hf Hhc.
    apply CheckSequence_sound in Hc as (Hv & Hdis & Hty & Hle). unfold SequenceLocks, CalculateSequenceLocks.
    destruct (Nat.eqb_spec (length prevHeights) (length (vin tx))) as [Hlen|]; [|done]. cbn [negb].
    rewrite (proj2 (Z.leb_le _ _) Hv). change (negb (LOCKTIME_VERIFY_SEQUENCE .& LOCKTIME_VERIFY_SEQUENCE =? 0)) with true.
    cbn [andb negb].
    destruct (sequence_locks_loop_spec m Hl Hs Ht block b (vin tx) prevHeights (-1) (-1) Hb Hlen Hf)
      as (h & t & hs & -> & _ & _ & Hlock).
    apply lookup_lt_is_Some in Hin as [txin Hi]. unfold vin_at in *. rewrite Hi in *. cbn [default from_option] in *.
    specialize (Hlock nIn txin hc Hi Hhc Hdis).
    cbn [mbind option_bind]. unfold EvaluateSequenceLocks. rewrite Hb. cbn [mbind option_bind].
    pose proof (Hl block b Hb) as Hprev. destruct (pprev b) as [prev|]; [|done]. destruct Hprev as (d & Hpd & _).
    cbn [mbind option_bind fst snd]. rewrite (GetMedianTimePast_total m Hl prev d Hpd). cbn [mbind option_bind].
    destruct (Z.leb_spec (nHeight b) h), (Z.leb_spec (mtp m prev) t); cbn [orb negb]; try done. intros _.
    unfold lock_holds in Hlock. cbn [id] in *. rewrite Hty in Hlock. destruct (lock_by_time n); [|lia].
    destruct Hlock as (q & ? & ?). exists q, prev. split_and!; try done. lia.
Qed.

(** ** Theory: the inputs *)

(** The maps that caches implement hold unspent, well-formed coins. *)
Definition utxo_ok (s : utxo) : Prop := ∀ o x, outpoint_ok o → coins s o = Some x → IsSpent x = false ∧ coin_ok x.

Lemma implements_utxo_ok {S} `{!CCoinsView S} `{!LawfulView S} (c : CCoinsViewCache S) s : implements c s → utxo_ok s.
Proof. intros (Hi & Hv & _) o x Ho Hx. apply (cview_unspent c o); [done..|]. by rewrite Hv. Qed.

(** The coins that the inputs spend. *)
Definition spent_coins (s : utxo) (ins : list CTxIn) : option (list Coin) := mapM (λ i, coins s (prevout i)) ins.
Definition coin_values (cs : list Coin) : Z := foldr (λ x acc, nValue (out x) + acc) 0 cs.
Definition inputs_ok (ins : list CTxIn) : Prop := Forall (λ i, outpoint_ok (prevout i)) ins.

(** A coinbase output is spent a hundred blocks later at the earliest. *)
Definition mature (nSpendHeight : Z) (x : Coin) : Prop := fCoinBase x = true → coin_nHeight x + COINBASE_MATURITY ≤ nSpendHeight.

Lemma unspent_Some x y : unspent x = Some y → x = y ∧ IsSpent x = false.
Proof. unfold unspent. destruct (IsSpent x); [done|]. by intros [= <-]. Qed.

Lemma spent_coins_cons s i ins cs :
  spent_coins s (i :: ins) = Some cs ↔ ∃ x cs', coins s (prevout i) = Some x ∧ spent_coins s ins = Some cs' ∧ cs = x :: cs'.
Proof.
  unfold spent_coins. cbn [mapM]. destruct (coins s (prevout i)) as [x|]; cbn [mbind option_bind]; [|naive_solver].
  destruct (mapM _ ins) as [cs'|]; cbn [mbind option_bind].
  - split; [intros [= <-]; by exists x, cs'|]. by intros (? & ? & [= <-] & [= <-] & ->).
  - split; [done|]. by intros (? & ? & _ & [=] & _).
Qed.

Lemma spent_coins_ok s ins cs :
  utxo_ok s → inputs_ok ins → spent_coins s ins = Some cs → Forall (λ x, IsSpent x = false ∧ coin_ok x) cs.
Proof.
  intros Hs. revert cs. induction ins as [|i ins IH]; intros cs Hi; [intros [= <-]; constructor|].
  apply Forall_cons in Hi as [Ho Hi]. intros (x & cs' & Hx & Hcs & ->)%spent_coins_cons. constructor; [by eapply Hs|by apply IH].
Qed.

Lemma wp_HaveCoin {A} o (k : bool → prog A) s Q :
  outpoint_ok o → wp (k (bool_decide (is_Some (coins s o)))) s Q → wp (HaveCoin' o ≫= k) s Q.
Proof. intros Ho Hk. cbn. split; [done|]. by intros r s' [-> ->]. Qed.

Lemma wp_unspent_coin {A} o (k : Coin → prog A) s x Q :
  outpoint_ok o → coins s o = Some x → wp (k x) s Q → wp (unspent_coin o ≫= k) s Q.
Proof.
  intros Ho Hx Hk. cbn. split; [done|]. intros r s' [-> Hr]. rewrite Hx in Hr. apply unspent_Some in Hr as [-> Hr].
  rewrite Hr. done.
Qed.

Lemma HaveInputs_wp s ins :
  inputs_ok ins → wp (HaveInputs_loop ins) s (λ b s', s' = s ∧ b = bool_decide (is_Some (spent_coins s ins))).
Proof.
  induction ins as [|i ins IH]; intros Hi; [by split; [|rewrite bool_decide_true by by eexists]|].
  apply Forall_cons in Hi as [Ho Hi]. apply wp_HaveCoin; [done|]. unfold spent_coins in *. cbn [mapM].
  destruct (coins s (prevout i)) as [x|]; cbn [mbind option_bind].
  - rewrite bool_decide_true by by eexists. eapply wp_mono; [by apply IH|]. intros b s' [-> ->]. split; [done|].
    apply bool_decide_ext. destruct (mapM _ ins); cbn; [|by rewrite !is_Some_alt]. split; by eexists.
  - rewrite !bool_decide_false by by intros [? ?]. done.
Qed.

Lemma input_values_wp s ins cs h acc :
  utxo_ok s → inputs_ok ins → 0 ≤ h < 2 ^ 31 → spent_coins s ins = Some cs → 0 ≤ acc ≤ MAX_MONEY →
  wp (input_values_loop h ins acc) s (λ r s', s' = s ∧
    ∀ v, r = inr v ↔ v = acc + coin_values cs ∧ Forall (mature h) cs ∧ v ≤ MAX_MONEY).
Proof.
  intros Hs. revert cs acc. induction ins as [|i ins IH]; intros cs acc Hi Hh Hcs Hacc.
  { injection Hcs as <-. cbn. split; [done|]. intros v. split; [intros [= <-]; split_and!; try (done || lia)|].
    intros (-> & _). f_equal. lia. }
  apply Forall_cons in Hi as [Ho Hi]. apply spent_coins_cons in Hcs as (x & cs' & Hx & Hcs & ->).
  apply (wp_unspent_coin _ _ s x); [done..|].
  destruct (Hs _ _ Ho Hx) as (_ & Hval & [Hh0 Hh1] & _). unfold urange in *.
  rewrite swrap_small by (unfold srange; lia). rewrite money_sum by done.
  destruct (fCoinBase x && (h - coin_nHeight x <? COINBASE_MATURITY)) eqn:Hm.
  { apply andb_true_iff in Hm as [Hm1 Hm2%Z.ltb_lt]. split; [done|]. intros v. split; [done|].
    intros (_ & Hf & _). apply Forall_cons in Hf as [Hf _]. specialize (Hf Hm1). lia. }
  assert (Hmat : mature h x). { intros Hcb. rewrite Hcb in Hm. cbn [andb] in Hm. apply Z.ltb_ge in Hm. lia. }
  rewrite (proj2 (MoneyRange_spec (nValue (out x)))) by done. cbn [negb orb].
  assert (Hnn : 0 ≤ coin_values cs').
  { apply (spent_coins_ok s) in Hcs; [|done..]. unfold coin_values. clear -Hcs. induction Hcs as [|y l (_ & ? & _)]; cbn; lia. }
  destruct (MoneyRange (acc + nValue (out x))) eqn:Hr; cbn [negb].
  - apply MoneyRange_spec in Hr. eapply wp_mono; [by apply (IH cs')|]. intros r s' [-> H]. split; [done|].
    intros v. rewrite H. cbn [coin_values foldr]. rewrite Forall_cons. unfold coin_values. intuition lia.
  - split; [done|]. intros v. split; [done|]. intros (-> & _ & Hle). cbn [coin_values foldr] in Hle. unfold coin_values in *.
    assert (MoneyRange (acc + nValue (out x)) = true) by (apply MoneyRange_spec; lia). congruence.
Qed.

Lemma coin_values_nonneg cs : Forall (λ x, IsSpent x = false ∧ coin_ok x) cs → 0 ≤ coin_values cs.
Proof. unfold coin_values. induction 1 as [|y l (_ & ? & _)]; cbn; lia. Qed.

(** When the inputs of a transaction are accepted, with which fee. *)
Definition inputs_rule (s : utxo) (tx : CTransaction) (nSpendHeight fee : Z) : Prop :=
  ∃ cs, spent_coins s (vin tx) = Some cs ∧ Forall (mature nSpendHeight) cs ∧ coin_values cs ≤ MAX_MONEY ∧
    0 ≤ fee ∧ coin_values cs = sum_values (vout tx) + fee.

Lemma CheckTxInputs_wp s tx h :
  utxo_ok s → inputs_ok (vin tx) → 0 ≤ h < 2 ^ 31 → is_Some (GetValueOut tx) → IsCoinBase tx = false →
  wp (CheckTxInputs tx h) s (λ r s', s' = s ∧ ∀ fee, r = inr fee ↔ inputs_rule s tx h fee).
Proof.
  intros Hs Hi Hh [v Hv] Hcb. unfold CheckTxInputs, HaveInputs. rewrite Hcb.
  eapply wp_bind_mono; [by apply HaveInputs_wp|]. intros b s' [-> ->]. unfold inputs_rule.
  destruct (spent_coins s (vin tx)) as [cs|] eqn:Hcs.
  2: { rewrite bool_decide_false by by intros []. split; [done|]. naive_solver. }
  rewrite bool_decide_true by by eexists. cbn [negb].
  eapply wp_bind_mono; [by apply (input_values_wp s _ cs)|]. intros r s' [-> Hr].
  rewrite Hv. assert (Hvo : v = sum_values (vout tx) ∧ 0 ≤ v).
  { unfold GetValueOut in Hv. destruct (GetValueOut_loop 0 (vout tx)) as [v'|] eqn:El; [|done]. cbn [mbind option_bind] in Hv.
    apply GetValueOut_loop_spec in El as (-> & Hf%sum_values_nonneg & _); [|unfold MAX_MONEY, COIN; lia].
    destruct (MoneyRange _); [|done]. injection Hv as <-. lia. }
  destruct r as [e|vin_total].
  { split; [done|]. intros fee. split; [done|]. intros (cs' & [= <-] & Hm & Hle & Hfee & Heq). 
    assert (inl e = inr (coin_values cs)) as [=]. apply Hr. split_and!; try done. }
  destruct (proj1 (Hr vin_total) eq_refl) as (-> & Hm & Hle). cbn [or_fail mbind prog_bind]. rewrite Z.add_0_l in *.
  destruct (Z.ltb_spec (coin_values cs) v) as [Hlt|Hge].
  { split; [done|]. intros fee. split; [done|]. intros (cs' & [= <-] & _ & _ & ? & ?). lia. }
  rewrite swrap_small by (unfold srange, MAX_MONEY, COIN in *; lia).
  rewrite (proj2 (MoneyRange_spec (coin_values cs - v))) by lia. cbn [negb]. split; [done|]. intros fee. split.
  - intros [= <-]. exists cs. split_and!; try (done || lia).
  - intros (cs' & [= <-] & _ & _ & ? & ?). f_equal. lia.
Qed.

(** The outputs are in the money range: what [CheckTransaction] has established, and without which
    [GetValueOut] throws. *)
Definition outputs_in_range (tx : CTransaction) : Prop :=
  Forall (λ o, 0 ≤ nValue o ≤ MAX_MONEY) (vout tx) ∧ sum_values (vout tx) ≤ MAX_MONEY.
Lemma outputs_in_range_spec tx : outputs_in_range tx ↔ is_Some (GetValueOut tx).
Proof.
  split.
  - intros [Hf Hs]. exists (sum_values (vout tx)). by apply GetValueOut_exact.
  - intros [v Hv]. apply GetValueOut_exact in Hv as (-> & Hf & Hs). by split.
Qed.

(** Out of range, the inputs are rejected or the exception is thrown. *)
Lemma CheckTxInputs_throws {S} `{!CCoinsView S} `{!LawfulView S} (c : CCoinsViewCache S) (s : utxo) (tx : CTransaction) (h : Z) :
  implements c s → inputs_ok (vin tx) → 0 ≤ h < 2 ^ 31 → GetValueOut tx = None → IsCoinBase tx = false →
  match on_cache (CheckTxInputs tx h) c with
  | inr (r, c') => implements c' s ∧ ∃ e, r = inl e
  | inl e => e = value_out_of_range
  end.
Proof.
  intros Himp Hi Hh Hv Hcb. pose proof (implements_utxo_ok c s Himp) as Hs. unfold CheckTxInputs, HaveInputs. rewrite Hcb, Hv.
  rewrite on_cache_bind. destruct (on_cache_wp _ c s _ Himp (HaveInputs_wp s (vin tx) Hi)) as (b & c1 & s1 & -> & H1 & -> & ->).
  cbn [mbind sum_mbind]. destruct (spent_coins s (vin tx)) as [cs|] eqn:Hcs.
  2: { rewrite bool_decide_false by by intros []. split; [done|]. by eexists. }
  rewrite bool_decide_true by by eexists. cbn [negb]. rewrite on_cache_bind.
  destruct (on_cache_wp _ c1 s _ H1 (input_values_wp s (vin tx) cs h 0 Hs Hi Hh Hcs ltac:(unfold MAX_MONEY, COIN; lia)))
    as ([e|v] & c2 & s2 & -> & H2 & -> & _); cbn; [|done]. split; [done|]. by eexists.
Qed.

(** ** Theory: signature operations *)

Definition sum_of {A} (f : A → Z) (l : list A) : Z := foldr (λ x acc, f x + acc) 0 l.

Lemma sum_of_bounds {A} (f g : A → Z) l : (∀ x, x ∈ l → 0 ≤ f x ≤ g x) → 0 ≤ sum_of f l ≤ sum_of g l.
Proof.
  induction l as [|x l IH]; intros H; cbn [sum_of foldr]; [lia|]. fold (sum_of f l) (sum_of g l).
  pose proof (H x ltac:(left)). assert (0 ≤ sum_of f l ≤ sum_of g l) by (apply IH; set_solver). lia.
Qed.

Lemma uwrap_le x : 0 ≤ x → 0 ≤ u32 x ≤ x.
Proof.
  intros. unfold uwrap. pose proof (Z.mod_pos_bound x (2 ^ 32) ltac:(lia)). pose proof (Z.mod_le x (2 ^ 32) ltac:(lia) ltac:(lia)). lia.
Qed.

Lemma GetSigOpCount_loop_bound fuel acc pc last n :
  0 ≤ n → 0 ≤ GetSigOpCount_loop fuel acc pc last n ≤ n + 20 * Z.of_nat fuel.
Proof.
  revert pc last n. induction fuel as [|fuel IH]; intros pc last n Hn; cbn [GetSigOpCount_loop]; [lia|].
  destruct (GetScriptOp pc) as [[[[] opcode] ?] pc']; [|lia].
  assert (Hstep : ∀ k, 0 ≤ k ≤ 20 → 0 ≤ GetSigOpCount_loop fuel acc pc' opcode (u32 (n + k)) ≤ n + 20 * Z.of_nat (S fuel)).
  { intros k Hk. pose proof (uwrap_le (n + k) ltac:(lia)). specialize (IH pc' opcode (u32 (n + k))). lia. }
  cbn zeta. destruct ((opcode =? OP_CHECKSIG) || (opcode =? OP_CHECKSIGVERIFY)); [apply Hstep; lia|].
  destruct ((opcode =? OP_CHECKMULTISIG) || (opcode =? OP_CHECKMULTISIGVERIFY)); [|specialize (IH pc' opcode n); lia].
  destruct (acc && (OP_1 <=? last) && (last <=? OP_16)) eqn:E; [|apply Hstep; unfold MAX_PUBKEYS_PER_MULTISIG; lia].
  apply Hstep. unfold DecodeOP_N, OP_1, OP_16 in *. rewrite !andb_true_iff, !Z.leb_le in E. repeat case_match; cbn; lia.
Qed.

Lemma GetSigOpCount_bound script acc : 0 ≤ GetSigOpCount script acc ≤ 20 * zlen script.
Proof. pose proof (GetSigOpCount_loop_bound (length script) acc script OP_INVALIDOPCODE 0 ltac:(lia)). unfold GetSigOpCount. lia. Qed.

Lemma foldl_u32 {A} (f : A → Z) l acc :
  0 ≤ acc → (∀ x, x ∈ l → 0 ≤ f x) → acc + sum_of f l < 2 ^ 32 → foldl (λ n x, u32 (n + f x)) acc l = acc + sum_of f l.
Proof.
  revert acc. induction l as [|x l IH]; intros acc Ha Hf Hlt; cbn [foldl sum_of foldr] in *; [lia|]. fold (sum_of f l) in *.
  pose proof (Hf x ltac:(left)). assert (0 ≤ sum_of f l) by (apply (sum_of_bounds f f); intros; split; [apply Hf; set_solver|lia]).
  rewrite uwrap_small by (unfold urange; lia). rewrite IH; [lia|lia| |lia]. intros; apply Hf; set_solver.
Qed.

(** The signature operations of a transaction's own scripts, and the bytes of these scripts. *)
Definition legacy_sigops (tx : CTransaction) : Z :=
  sum_of (λ i, GetSigOpCount (scriptSig i) false) (vin tx) + sum_of (λ o, GetSigOpCount (scriptPubKey o) false) (vout tx).
Definition script_bytes (tx : CTransaction) : Z :=
  sum_of (λ i, zlen (scriptSig i)) (vin tx) + sum_of (λ o, zlen (scriptPubKey o)) (vout tx).

Lemma sum_of_scale {A} k (f : A → Z) l : sum_of (λ x, k * f x) l = k * sum_of f l.
Proof. induction l as [|x l IH]; cbn [sum_of foldr]; [lia|]. fold (sum_of f l) (sum_of (λ x, k * f x) l). lia. Qed.

Lemma legacy_sigops_bound tx : 0 ≤ legacy_sigops tx ≤ 20 * script_bytes tx.
Proof.
  unfold legacy_sigops, script_bytes. rewrite Z.mul_add_distr_l, <-!sum_of_scale.
  pose proof (sum_of_bounds (λ i, GetSigOpCount (scriptSig i) false) (λ i, 20 * zlen (scriptSig i)) (vin tx) (λ i _, GetSigOpCount_bound _ _)).
  pose proof (sum_of_bounds (λ o, GetSigOpCount (scriptPubKey o) false) (λ o, 20 * zlen (scriptPubKey o)) (vout tx) (λ i _, GetSigOpCount_bound _ _)).
  lia.
Qed.

Lemma GetLegacySigOpCount_exact tx : legacy_sigops tx < 2 ^ 32 → GetLegacySigOpCount tx = legacy_sigops tx.
Proof.
  intros H. unfold GetLegacySigOpCount. cbn zeta.
  pose proof (sum_of_bounds (λ i, GetSigOpCount (scriptSig i) false) (λ i, 20 * zlen (scriptSig i)) (vin tx) (λ i _, GetSigOpCount_bound _ _)).
  pose proof (sum_of_bounds (λ o, GetSigOpCount (scriptPubKey o) false) (λ o, 20 * zlen (scriptPubKey o)) (vout tx) (λ i _, GetSigOpCount_bound _ _)).
  unfold legacy_sigops in *. rewrite (foldl_u32 (λ i, GetSigOpCount (scriptSig i) false)); [|lia|intros; apply GetSigOpCount_bound|lia].
  rewrite (foldl_u32 (λ o, GetSigOpCount (scriptPubKey o) false)); [lia|lia|intros; apply GetSigOpCount_bound|lia].
Qed.

(** The scripts are part of the serialization. *)
Lemma Vector_size {A} (F : Formatter A) limit l (f : A → Z) :
  (∀ x, 0 ≤ f x ≤ Z.of_nat (length (Ser F x))) → sum_of f l ≤ Z.of_nat (length (Ser (VectorFormatter F limit) l)).
Proof.
  intros H. cbn [VectorFormatter Ser]. rewrite length_app.
  assert (sum_of f l ≤ Z.of_nat (length (concat (map (Ser F) l)))); [|lia].
  induction l as [|x l IH]; cbn [sum_of foldr map concat]; [done|]. fold (sum_of f l). rewrite length_app. specialize (H x). lia.
Qed.

Lemma script_bytes_size `{!ABI} tx : script_bytes tx ≤ GetSerializeSize (TransactionF false) tx.
Proof.
  unfold GetSerializeSize, script_bytes. cbn [TransactionF Ser]. rewrite SerializeTransaction_basic by by rewrite andb_false_l.
  rewrite !length_app.
  pose proof (Vector_size CTxInF sizeof_CTxIn (vin tx) (λ i, zlen (scriptSig i))) as H1.
  pose proof (Vector_size CTxOutF sizeof_CTxOut (vout tx) (λ o, zlen (scriptPubKey o))) as H2.
  assert (sum_of (λ i, zlen (scriptSig i)) (vin tx) ≤ Z.of_nat (length (Ser VinF (vin tx)))).
  { apply H1. intros x. cbn. rewrite !length_app. lia. }
  assert (sum_of (λ o, zlen (scriptPubKey o)) (vout tx) ≤ Z.of_nat (length (Ser VoutF (vout tx)))).
  { apply H2. intros x. cbn. rewrite !length_app. lia. }
  lia.
Qed.

Definition p2sh_sigops (i : CTxIn) (x : Coin) : Z :=
  if IsPayToScriptHash (scriptPubKey (out x)) then GetSigOpCount_p2sh (scriptPubKey (out x)) (scriptSig i) else 0.
Definition witness_sigops (flags : Z) (i : CTxIn) (x : Coin) : Z :=
  default 0 (CountWitnessSigOps (scriptSig i) (scriptPubKey (out x)) (scriptWitness i) flags).

(** The cost of a transaction that spends the coins [cs]. *)
Definition sigop_cost (flags : Z) (tx : CTransaction) (cs : list Coin) : Z :=
  WITNESS_SCALE_FACTOR * legacy_sigops tx +
  (if IsCoinBase tx then 0 else
   (if has_flag flags SCRIPT_VERIFY_P2SH then WITNESS_SCALE_FACTOR * sum_of (uncurry p2sh_sigops) (zip (vin tx) cs) else 0)
   + sum_of (uncurry (witness_sigops flags)) (zip (vin tx) cs)).

Lemma last_push_length fuel pc v d : last_push fuel pc v = Some d → (length d ≤ Nat.max (length pc) (length v))%nat.
Proof.
  revert pc v. induction fuel as [|fuel IH]; intros pc v; cbn [last_push]; [destruct pc; intros [= <-]; cbn; lia|].
  destruct pc as [|b pc]; [intros [= <-]; cbn; lia|].
  destruct (GetScriptOp (b :: pc)) as [[[ok opcode] data] rest] eqn:E. destruct ok; [|done].
  case_match; [done|]. intros Hd%IH. pose proof (GetScriptOp_progress _ _ _ _ _ E ltac:(done)).
  assert (length data ≤ length (b :: pc))%nat; [|lia].
  unfold GetScriptOp, immediate, GetScriptOp_fail in E. repeat case_match; simplify_eq; cbn [length] in *;
    rewrite ?length_take, ?length_drop in *; cbn [length] in *; lia.
Qed.

Lemma p2sh_sigops_bound i x : 0 ≤ p2sh_sigops i x ≤ 20 * zlen (scriptSig i).
Proof.
  unfold p2sh_sigops, GetSigOpCount_p2sh. destruct (IsPayToScriptHash _); cbn [negb]; [|lia].
  destruct (last_push _ _ _) as [d|] eqn:E; [|lia]. apply last_push_length in E. cbn [length] in E.
  pose proof (GetSigOpCount_bound d true). lia.
Qed.

Definition witness_bytes (i : CTxIn) : Z := sum_of (λ item, zlen item) (scriptWitness i).

Lemma sum_of_elem {A} (f : A → Z) l x : (∀ y, 0 ≤ f y) → x ∈ l → f x ≤ sum_of f l.
Proof.
  intros Hf. induction l as [|y l IH]; [set_solver|]. intros [->|H]%elem_of_cons; cbn [sum_of foldr]; fold (sum_of f l).
  - assert (0 ≤ sum_of f l) by (apply (sum_of_bounds f f); intros z _; specialize (Hf z); lia). lia.
  - specialize (IH H). specialize (Hf y). lia.
Qed.

Lemma WitnessSigOps_bound v program i : 0 ≤ WitnessSigOps v program (scriptWitness i) ≤ 1 + 20 * witness_bytes i.
Proof.
  assert (0 ≤ witness_bytes i) by (unfold witness_bytes; apply (sum_of_bounds (λ b : bytes, zlen b) (λ b, zlen b)); lia).
  unfold WitnessSigOps. destruct (v =? 0); [|lia]. case_match; [lia|]. case_match eqn:E; [|lia].
  pose proof (GetSigOpCount_bound (List.last (scriptWitness i) []) true).
  assert (zlen (List.last (scriptWitness i) []) ≤ witness_bytes i); [|lia].
  apply (sum_of_elem (λ b : bytes, zlen b)); [intros; lia|].
  destruct (scriptWitness i) as [|b l]; [by rewrite andb_false_r in E|]. apply list_elem_of_In.
  destruct (exists_last (l := b :: l)) as (l' & x & ->); [done|]. rewrite List.last_last. apply in_app_iff. right. by left.
Qed.

Lemma witness_sigops_bound flags i x : 0 ≤ witness_sigops flags i x ≤ 1 + 20 * witness_bytes i.
Proof.
  assert (0 ≤ witness_bytes i) by (unfold witness_bytes; apply (sum_of_bounds (λ b : bytes, zlen b) (λ b, zlen b)); lia).
  unfold witness_sigops, CountWitnessSigOps. repeat case_match; cbn [default from_option id]; try lia; apply WitnessSigOps_bound.
Qed.

Lemma p2sh_sigops_wp s ins cs acc :
  inputs_ok ins → spent_coins s ins = Some cs → 0 ≤ acc → acc + sum_of (uncurry p2sh_sigops) (zip ins cs) < 2 ^ 32 →
  wp (p2sh_sigops_loop ins acc) s (λ n s', s' = s ∧ n = acc + sum_of (uncurry p2sh_sigops) (zip ins cs)).
Proof.
  revert cs acc. induction ins as [|i ins IH]; intros cs acc Hi Hcs Hacc Hlt; [cbn; split; [done|]; lia|].
  apply Forall_cons in Hi as [Ho Hi]. apply spent_coins_cons in Hcs as (x & cs' & Hx & Hcs & ->).
  apply (wp_unspent_coin _ _ s x); [done..|].
  cbn [zip zip_with sum_of foldr uncurry] in *. fold (sum_of (uncurry p2sh_sigops) (zip ins cs')) in *.
  pose proof (p2sh_sigops_bound i x) as [H0 _].
  assert (0 ≤ sum_of (uncurry p2sh_sigops) (zip ins cs')).
  { apply (sum_of_bounds (uncurry p2sh_sigops) (uncurry p2sh_sigops)). intros [i' x'] _. cbn. pose proof (p2sh_sigops_bound i' x'). lia. }
  assert (E : (if IsPayToScriptHash (scriptPubKey (out x)) then u32 (acc + GetSigOpCount_p2sh (scriptPubKey (out x)) (scriptSig i)) else acc)
    = acc + p2sh_sigops i x).
  { unfold p2sh_sigops in *. destruct (IsPayToScriptHash _); [|lia]. apply uwrap_small. unfold urange. lia. }
  rewrite E. eapply wp_mono; [apply (IH cs'); done || lia|]. intros n s' [-> ->]. split; [done|]. lia.
Qed.

Lemma witness_sigops_wp s flags ins cs acc :
  (has_flag flags SCRIPT_VERIFY_WITNESS = true → has_flag flags SCRIPT_VERIFY_P2SH = true) →
  inputs_ok ins → spent_coins s ins = Some cs → 0 ≤ acc → acc + sum_of (uncurry (witness_sigops flags)) (zip ins cs) < 2 ^ 63 →
  wp (witness_sigops_loop flags ins acc) s (λ n s', s' = s ∧ n = acc + sum_of (uncurry (witness_sigops flags)) (zip ins cs)).
Proof.
  intros Hflags. revert cs acc. induction ins as [|i ins IH]; intros cs acc Hi Hcs Hacc Hlt; [cbn; split; [done|]; lia|].
  apply Forall_cons in Hi as [Ho Hi]. apply spent_coins_cons in Hcs as (x & cs' & Hx & Hcs & ->).
  apply (wp_unspent_coin _ _ s x); [done..|].
  cbn [zip zip_with sum_of foldr uncurry] in *. fold (sum_of (uncurry (witness_sigops flags)) (zip ins cs')) in *.
  pose proof (witness_sigops_bound flags i x) as [H0 _].
  assert (0 ≤ sum_of (uncurry (witness_sigops flags)) (zip ins cs')).
  { apply (sum_of_bounds (uncurry (witness_sigops flags)) (uncurry (witness_sigops flags))). intros [i' x'] _. cbn.
    pose proof (witness_sigops_bound flags i' x'). lia. }
  assert (E : CountWitnessSigOps (scriptSig i) (scriptPubKey (out x)) (scriptWitness i) flags = Some (witness_sigops flags i x)).
  { unfold witness_sigops, CountWitnessSigOps. destruct (has_flag flags SCRIPT_VERIFY_WITNESS); [|done].
    rewrite Hflags by done. cbn [negb]. by repeat case_match. }
  rewrite E. cbn [or_fail mbind prog_bind]. rewrite swrap_small by (unfold srange; lia).
  eapply wp_mono; [apply (IH cs'); done || lia|]. intros n s' [-> ->]. split; [done|]. lia.
Qed.

Lemma sum_of_zip {A B} (f : A → B → Z) (g : A → Z) l (l' : list B) :
  (∀ x y, 0 ≤ f x y ≤ g x) → (∀ x, 0 ≤ g x) → 0 ≤ sum_of (uncurry f) (zip l l') ≤ sum_of g l.
Proof.
  intros H Hg. revert l'. induction l as [|x l IH]; intros [|y l']; cbn [zip zip_with sum_of foldr uncurry]; [lia|lia| |];
    fold (sum_of g l).
  - pose proof (sum_of_bounds g g l (λ y _, conj (Hg y) (Z.le_refl _))). specialize (Hg x). lia.
  - fold (sum_of (uncurry f) (zip l l')). specialize (IH l'). specialize (H x y). lia.
Qed.

Lemma sum_of_plus {A} (f g : A → Z) l : sum_of (λ x, f x + g x) l = sum_of f l + sum_of g l.
Proof. induction l as [|x l IH]; cbn [sum_of foldr]; [done|]. fold (sum_of f l) (sum_of g l) (sum_of (λ x, f x + g x) l). lia. Qed.

Lemma sum_of_const {A} k (l : list A) : sum_of (λ _, k) l = k * zlen l.
Proof. induction l as [|x l IH]; cbn [sum_of foldr length]; [lia|]. fold (sum_of (λ _ : A, k) l). lia. Qed.

Lemma witness_bytes_nonneg i : 0 ≤ witness_bytes i.
Proof. unfold witness_bytes. apply (sum_of_bounds (λ b : bytes, zlen b) (λ b, zlen b)). lia. Qed.

(** Transactions whose scripts cannot make a count of signature operations wrap around. *)
Definition countable_sigops (tx : CTransaction) : Prop :=
  script_bytes tx ≤ 2 ^ 24 ∧ zlen (vin tx) ≤ 2 ^ 50 ∧ sum_of witness_bytes (vin tx) ≤ 2 ^ 50.

Lemma GetTransactionSigOpCost_wp s flags tx cs :
  (has_flag flags SCRIPT_VERIFY_WITNESS = true → has_flag flags SCRIPT_VERIFY_P2SH = true) →
  countable_sigops tx → inputs_ok (vin tx) → (IsCoinBase tx = false → spent_coins s (vin tx) = Some cs) →
  wp (GetTransactionSigOpCost tx flags) s (λ n s', s' = s ∧ n = sigop_cost flags tx cs).
Proof.
  intros Hflags (Hb & Hn & Hw) Hi Hcs. pose proof (legacy_sigops_bound tx) as Hleg. unfold GetTransactionSigOpCost, sigop_cost.
  rewrite GetLegacySigOpCount_exact by lia. unfold WITNESS_SCALE_FACTOR. rewrite (uwrap_small 32) by (unfold urange; lia).
  destruct (IsCoinBase tx) eqn:Hcb; [cbn; split; [done|lia]|]. specialize (Hcs eq_refl).
  assert (Hp : 0 ≤ sum_of (uncurry p2sh_sigops) (zip (vin tx) cs) ≤ 20 * script_bytes tx).
  { pose proof (sum_of_zip p2sh_sigops (λ i, 20 * zlen (scriptSig i)) (vin tx) cs p2sh_sigops_bound (λ i, ltac:(cbv beta; lia))).
    rewrite sum_of_scale in *. unfold script_bytes.
    pose proof (sum_of_bounds (λ o, zlen (scriptPubKey o)) (λ o, zlen (scriptPubKey o)) (vout tx) (λ o _, ltac:(cbv beta; lia))). lia. }
  assert (Hws : 0 ≤ sum_of (uncurry (witness_sigops flags)) (zip (vin tx) cs) ≤ 2 ^ 60).
  { pose proof (sum_of_zip (witness_sigops flags) (λ i, 1 + 20 * witness_bytes i) (vin tx) cs (witness_sigops_bound flags)
      (λ i, ltac:(pose proof (witness_bytes_nonneg i); cbv beta; lia))) as H.
    rewrite (sum_of_plus (λ _, 1) (λ i, 20 * witness_bytes i)), sum_of_scale, sum_of_const in H. lia. }
  eapply (wp_bind_mono _ _ _ (λ n s', s' = s ∧ n = 4 * legacy_sigops tx +
    if has_flag flags SCRIPT_VERIFY_P2SH then 4 * sum_of (uncurry p2sh_sigops) (zip (vin tx) cs) else 0)).
  - destruct (has_flag flags SCRIPT_VERIFY_P2SH); [|cbn; split; [done|lia]]. unfold GetP2SHSigOpCount. rewrite Hcb.
    eapply wp_bind_mono; [by apply (p2sh_sigops_wp s _ cs); try done; lia|]. intros n s' [-> ->]. cbn. split; [done|].
    rewrite (uwrap_small 32) by (unfold urange; lia). rewrite swrap_small by (unfold srange; lia). lia.
  - intros n s' [-> ->]. eapply wp_mono; [apply (witness_sigops_wp s flags _ cs); try done|].
    + destruct (has_flag flags SCRIPT_VERIFY_P2SH); lia.
    + destruct (has_flag flags SCRIPT_VERIFY_P2SH); lia.
    + intros n s' [-> ->]. split; [done|]. destruct (has_flag flags SCRIPT_VERIFY_P2SH); lia.
Qed.

(** C5: Accepted inputs conserve value.  On every cache that implements a map of coins, for a
    transaction that is not a coinbase, [CheckTxInputs] leaves the map as it is and accepts with a fee
    exactly when the outputs are in the money range, all inputs are there and mature, and what they
    are worth, at most the money supply, is what the outputs are worth plus the fee, which is not
    negative.  The only way not to return is the exception of [GetValueOut], and it needs outputs out
    of the money range, which [CheckTransaction] has excluded in the callers. *)
Theorem tx_inputs_conserve_value {S} `{!CCoinsView S} `{!LawfulView S} (c : CCoinsViewCache S) (s : utxo) (tx : CTransaction) (h : Z) :
  implements c s → inputs_ok (vin tx) → 0 ≤ h < 2 ^ 31 → IsCoinBase tx = false →
  match on_cache (CheckTxInputs tx h) c with
  | inr (r, c') => implements c' s ∧ ∀ fee, r = inr fee ↔ outputs_in_range tx ∧ inputs_rule s tx h fee
  | inl e => e = value_out_of_range ∧ ¬ outputs_in_range tx
  end.
Proof.
  intros Himp Hi Hh Hcb. pose proof (implements_utxo_ok c s Himp) as Hs. pose proof (outputs_in_range_spec tx) as Ho.
  destruct (GetValueOut tx) as [v|] eqn:Hv.
  - destruct (on_cache_wp _ c s _ Himp (CheckTxInputs_wp s tx h Hs Hi Hh ltac:(rewrite Hv; by eexists) Hcb))
      as (r & c' & s' & -> & H & -> & Hr). split; [done|]. intros fee. rewrite Hr. split; [|by intros [_ ?]].
    intros H1. split; [apply Ho; by eexists|done].
  - pose proof (CheckTxInputs_throws c s tx h Himp Hi Hh Hv Hcb) as H. destruct (on_cache _ c) as [e|[r c']].
    { split; [done|]. intros Hr%Ho. by destruct Hr. }
    destruct H as [H [e ->]]. split; [done|]. intros fee. split; [done|]. intros [Hr%Ho _]. by destruct Hr.
Qed.
