(* ===== verification/Signet.v ===== *)
(** * Signet block solutions: signet.cpp

    A signet block carries in its coinbase a script and a witness that solve the network's challenge
    for a pair of transactions computed from the block.  The theory shows which fields of the block
    the solution commits to. *)

From S2P Require Import Prelude Serialize Hash Primitives Script PubKey Interpreter InterpreterTheory SigHash VerifyScript VerifyTheory Merkle Headers.
From Stdlib Require Import ZArith Lia.
From stdpp Require Import base option list numbers gmap.

Open Scope Z_scope.
Open Scope kernel_scope.

Definition SIGNET_HEADER : bytes := [0xec; 0xc7; 0xda; 0xa2].
Definition BLOCK_SCRIPT_VERIFY_FLAGS : Z :=
  script_verify_flags SCRIPT_VERIFY_P2SH .| script_verify_flags SCRIPT_VERIFY_WITNESS
  .| script_verify_flags SCRIPT_VERIFY_DERSIG .| script_verify_flags SCRIPT_VERIFY_NULLDUMMY.

(** The loop over the instructions: the replacement, [found_header] and [result]. *)
Fixpoint commitment_loop (fuel : nat) (header pc replacement : bytes) (found_header : bool) (result : bytes) : bytes * bool * bytes :=
  match fuel with
  | O => (replacement, found_header, result)
  | S fuel =>
      match GetScriptOp pc with
      | (false, _, _, _) => (replacement, found_header, result)
      | (true, opcode, pushdata, pc) =>
          if (0 <? length pushdata)%nat then
            if negb found_header && (length header <? length pushdata)%nat && bool_decide (take (length header) pushdata = header)
            then commitment_loop fuel header pc (replacement ++ push_data (take (length header) pushdata)) true
                   (result ++ drop (length header) pushdata)
            else commitment_loop fuel header pc (replacement ++ push_data pushdata) found_header result
          else commitment_loop fuel header pc (replacement ++ [opcode]) found_header result
      end
  end.

(** The new commitment, whether the header was found, and the data after it. *)
Definition FetchAndClearCommitmentSection (header witness_commitment : bytes) : bytes * bool * bytes :=
  let '(replacement, found_header, result) := commitment_loop (length witness_commitment) header witness_commitment [] false [] in
  (if found_header then replacement else witness_commitment, found_header, result).

Section Signet.
Context `{!D64Impl, !ABI}.

Definition ComputeModifiedMerkleRoot (cb : CTransaction) (block : CBlock) : uint256 :=
  fst (ComputeMerkleRoot (ComputeHash cb :: map ComputeHash (drop 1 (vtx block))) false).

Definition set_scriptPubKey (tx : CTransaction) (i : nat) (script : bytes) : CTransaction :=
  {| vin := vin tx; vout := alter (λ o, {| nValue := nValue o; scriptPubKey := script |}) i (vout tx);
     version := version tx; nLockTime := nLockTime tx |}.

(** The header fields and the modified root that the solution signs. *)
Definition signet_block_data (h : CBlockHeader) (signet_merkle : uint256) : bytes :=
  Ser I32 (nVersion h) ++ Ser (Blob 32) (hashPrevBlock h) ++ Ser (Blob 32) signet_merkle ++ Ser U32 (nTime h).

(** The transactions to be spent and to be signed. *)
Definition tx_to_spend (challenge block_data : bytes) : CTransaction :=
  {| version := 0; nLockTime := 0;
     vin := [{| prevout := COutPoint_null; scriptSig := OP_0 :: push_data block_data; nSequence := 0; scriptWitness := [] |}];
     vout := [{| nValue := 0; scriptPubKey := challenge |}] |}.
Definition tx_spending (txid : uint256) (sig : bytes) (witness : list bytes) : CTransaction :=
  {| version := 0; nLockTime := 0;
     vin := [{| prevout := {| Primitives.op_hash := txid; op_n := 0 |}; scriptSig := sig; nSequence := 0; scriptWitness := witness |}];
     vout := [{| nValue := 0; scriptPubKey := [OP_RETURN] |}] |}.

Definition parse_solution (signet_solution : bytes) : option (bytes * list bytes) :=
  match Unser ByteVector signet_solution with
  | inl _ => None
  | inr (sig, v) =>
      match Unser StackF v with
      | inl _ => None
      | inr (stack, v) => match v with [] => Some (sig, stack) | _ => None end
      end
  end.

(** The coinbase without the solution, and the solution. *)
Definition modified_coinbase (block : CBlock) : option (CTransaction * bytes * list bytes) :=
  match vtx block with
  | [] => None
  | cb :: _ =>
      let cidx := GetWitnessCommitmentIndex block in
      if cidx =? NO_WITNESS_COMMITMENT then None else
      out ← vout cb !! Z.to_nat cidx;
      let '(commitment, found, signet_solution) := FetchAndClearCommitmentSection SIGNET_HEADER (scriptPubKey out) in
      '(sig, witness) ← (if (found : bool) then parse_solution signet_solution else Some ([], []));
      Some (set_scriptPubKey cb (Z.to_nat cidx) commitment, sig, witness)
  end.

Definition SignetTxs_Create (block : CBlock) (challenge : bytes) : option (CTransaction * CTransaction) :=
  '(modified_cb, sig, witness) ← modified_coinbase block;
  let to_spend := tx_to_spend challenge (signet_block_data (header block) (ComputeModifiedMerkleRoot modified_cb block)) in
  Some (to_spend, tx_spending (ComputeHash to_spend) sig witness).

Context `{SIGS : Secp256k1Signatures}.

(** [None] is a failed assertion. *)
Definition CheckSignetBlockSolution (params : ConsensusParams) (block : CBlock) : option bool :=
  if decide (CBlockHeader_GetHash (header block) = hashGenesisBlock params) then Some true else
  match SignetTxs_Create block (signet_challenge params) with
  | None => Some false
  | Some (m_to_spend, m_to_sign) =>
      let txin := vin_at m_to_sign 0 in
      let spent := vout_at m_to_spend 0 in
      txdata ← Init m_to_sign [spent] false;
      match VerifyScript (GenericTransactionSignatureChecker m_to_sign 0 (nValue spent) (Some txdata) ASSERT_FAIL)
              BLOCK_SCRIPT_VERIFY_FLAGS (scriptSig txin) (scriptPubKey spent) (scriptWitness txin) SigHashCache_new with
      | inr _ => Some true
      | inl (returns_false _) => Some false
      | inl _ => None
      end
  end.
End Signet.

(** ** Theory *)

Lemma commitment_loop_ok fuel header pc replacement found result :
  bytes_ok pc → bytes_ok result → bytes_ok (commitment_loop fuel header pc replacement found result).2.
Proof.
  revert pc replacement found result. induction fuel as [|fuel IH]; intros pc replacement found result Hpc Hres; [done|].
  cbn [commitment_loop]. destruct (GetScriptOp pc) as [[[ok opcode] data] rest] eqn:E. destruct ok; [|done].
  destruct (GetScriptOp_inv pc opcode data rest Hpc E) as (i & -> & _ & _).
  apply digits_ok_app in Hpc as [_ [Hdata Hrest]%digits_ok_app].
  repeat case_match; apply IH; try done. apply digits_ok_app. split; [done|]. by apply Forall_drop.
Qed.

Lemma serializable_script_ok b : Primitives.script_ok b → script_ok b.
Proof. intros [Hl Hb]. split; [done|]. unfold length_ok, MAX_SIZE, ConditionStack.NO_FALSE in *. lia. Qed.

Section Theory.
Context `{!D64Impl, !ABI} `{SIGS : Secp256k1Signatures}.

Lemma parse_solution_ok b sig witness :
  bytes_ok b → parse_solution b = Some (sig, witness) → script_ok sig ∧ witness_ok witness.
Proof.
  intros Hb. unfold parse_solution. destruct (Unser ByteVector b) as [|[s v]] eqn:E1; [done|].
  destruct (fmt_canonical _ _ _ Hb E1) as [Hs ->]. apply digits_ok_app in Hb as [_ Hv].
  destruct (Unser StackF v) as [|[st w]] eqn:E2; [done|]. destruct (fmt_canonical _ _ _ Hv E2) as [[Hl Hst] _].
  destruct w; [|done]. intros [= <- <-]. split; [by apply serializable_script_ok|].
  split; [eapply Forall_impl, serializable_script_ok; done|]. unfold length_ok, MAX_SIZE in Hl. lia.
Qed.

(** The solution transaction has one input, which spends the only output of the other. *)
Lemma SignetTxs_shape block challenge spend sign :
  SignetTxs_Create block challenge = Some (spend, sign) → Forall tx_ok (vtx block) →
  ∃ data txid sig witness, spend = tx_to_spend challenge data ∧ sign = tx_spending txid sig witness ∧ script_ok sig ∧ witness_ok witness.
Proof.
  unfold SignetTxs_Create, modified_coinbase. destruct (vtx block) as [|cb txs]; [done|]. case_match; [done|]. intros HC Hok.
  destruct (vout cb !! _) as [out|] eqn:Hout; [|done]. cbn [mbind option_bind] in HC.
  destruct (FetchAndClearCommitmentSection _ _) as [[c found] solution] eqn:EF.
  assert (Hsol : bytes_ok solution).
  { unfold FetchAndClearCommitmentSection in EF. destruct (commitment_loop _ _ _ _ _ _) as [[r f] s] eqn:EL. injection EF as <- <- <-.
    change s with ((r, f, s).2). rewrite <-EL. apply commitment_loop_ok; [|constructor].
    apply Forall_cons in Hok as [(_ & [_ Hvout] & _) _]. rewrite Forall_lookup in Hvout. apply (Hvout _ _ Hout). }
  destruct (if found then _ else _) as [[sig witness]|] eqn:EP; [|done]. cbn [mbind option_bind] in HC. injection HC as <- <-.
  do 4 eexists. split; [done|]. split; [done|]. destruct found; [by eapply parse_solution_ok|]. injection EP as <- <-.
  split; [split; [constructor|done]|]. split; [constructor|done].
Qed.

Lemma CheckSignetBlockSolution_returns params block :
  Forall tx_ok (vtx block) → script_ok (signet_challenge params) → is_Some (CheckSignetBlockSolution params block).
Proof.
  intros Hok Hch. unfold CheckSignetBlockSolution. case_decide; [by eexists|].
  destruct (SignetTxs_Create _ _) as [[spend sign]|] eqn:EC; [|by eexists].
  destruct (SignetTxs_shape _ _ _ _ EC Hok) as (data & txid & sig & witness & -> & -> & Hsig & Hw).
  change (vin_at (tx_spending txid sig witness) 0) with
    {| prevout := {| Primitives.op_hash := txid; op_n := 0 |}; scriptSig := sig; nSequence := 0; scriptWitness := witness |}.
  change (vout_at (tx_to_spend (signet_challenge params) data) 0) with {| nValue := 0; scriptPubKey := signet_challenge params |}.
  cbn [scriptSig scriptWitness nValue scriptPubKey].
  destruct (Init _ _ _) as [d|] eqn:HI; [|unfold Init in HI; cbn [length vin tx_spending Nat.eqb negb andb] in HI; by repeat case_match].
  cbn [mbind option_bind].
  assert (Hr : returns (VerifyScript (GenericTransactionSignatureChecker (tx_spending txid sig witness) 0 0 (Some d) ASSERT_FAIL)
    BLOCK_SCRIPT_VERIFY_FLAGS sig (signet_challenge params) witness SigHashCache_new)).
  { apply VerifyScript_safe; try done.
    refine (tx_checker_ok (tx_spending txid sig witness) 0 0 d ASSERT_FAIL _ _ false
      {| prevout := {| Primitives.op_hash := txid; op_n := 0 |}; scriptSig := sig; nSequence := 0; scriptWitness := witness |}
      {| nValue := 0; scriptPubKey := signet_challenge params |} HI eq_refl eq_refl _ _); [cbn; lia|apply Hch|done]. }
  destruct (VerifyScript _ _ _ _ _ _) as [[]|]; try done; by eexists.
Qed.
End Theory.

Section Commitment.
Context `{!D64Impl, !ABI}.

Lemma ComputeMerkleRoot_hash l : Forall uint256_ok l → uint256_ok (fst (ComputeMerkleRoot l false)).
Proof.
  intros Hl. rewrite ComputeMerkleRoot_spec by (eapply Forall_impl; [done|]; by intros ? []). cbn [fst]. destruct (height l) as [|d].
  - destruct l as [|h l]; [apply uint256_zero_ok|]. by inversion_clear Hl.
  - cbn [mroot]. case_match; rewrite Hash2_app; apply Hash_ok.
Qed.

Definition SignetDataF : Formatter (Z * (uint256 * (uint256 * Z))) := Pair I32 (Pair (Blob 32) (Pair (Blob 32) U32)).
Definition signet_data_ok (x : Z * (uint256 * (uint256 * Z))) : Prop :=
  srange 32 x.1 ∧ uint256_ok x.2.1 ∧ uint256_ok x.2.2.1 ∧ urange 32 x.2.2.2.
#[local] Instance SignetDataF_lawful : LawfulFormatter SignetDataF signet_data_ok.
Proof. unfold SignetDataF. eassert (LawfulFormatter (Pair I32 (Pair (Blob 32) (Pair (Blob 32) U32))) _) as HL by apply _. exact HL. Qed.

Lemma signet_block_data_inj h1 h2 m1 m2 :
  header_ok h1 → header_ok h2 → uint256_ok m1 → uint256_ok m2 → signet_block_data h1 m1 = signet_block_data h2 m2 →
  nVersion h1 = nVersion h2 ∧ hashPrevBlock h1 = hashPrevBlock h2 ∧ m1 = m2 ∧ nTime h1 = nTime h2.
Proof.
  intros (V1 & P1 & _ & T1 & _) (V2 & P2 & _ & T2 & _) M1 M2 Heq.
  assert ((nVersion h1, (hashPrevBlock h1, (m1, nTime h1))) = (nVersion h2, (hashPrevBlock h2, (m2, nTime h2)))) as [=]; [|done].
  apply (Ser_inj SignetDataF signet_data_ok); [by split_and!..|exact Heq].
Qed.

Lemma tx_to_spend_ok challenge data : Primitives.script_ok challenge → length data = 72%nat → bytes_ok data → tx_ok (tx_to_spend challenge data).
Proof.
  intros Hc Hlen Hd. unfold tx_to_spend, tx_ok. cbn [vin vout version nLockTime]. rewrite push_data_small by lia.
  split_and!; try (unfold length_ok, MAX_SIZE; cbn; lia); try (by unfold urange).
  - constructor; [|constructor]. split; [|by split; [unfold length_ok, MAX_SIZE; cbn; lia|constructor]].
    split; [split; [apply uint256_zero_ok|by unfold urange]|]. split; [|by unfold urange]. cbn [scriptSig]. split.
    + unfold length_ok, MAX_SIZE. cbn [length]. lia.
    + do 2 (apply digits_ok_cons; split; [unfold urange, OP_0; lia|]). done.
  - constructor; [|constructor]. by split.
Qed.

Lemma ComputeModifiedMerkleRoot_ok cb block : uint256_ok (ComputeModifiedMerkleRoot cb block).
Proof.
  apply ComputeMerkleRoot_hash. constructor; [apply ComputeHash_ok|]. apply Forall_forall. intros h Hh.
  apply list_elem_of_fmap in Hh as (tx & -> & _). apply ComputeHash_ok.
Qed.

End Commitment.
