(* ===== verification/CheckBlock.v ===== *)
(** * Checks on blocks: validation.cpp

    The checks of a block that need no view of the coins: [CheckBlock], [ContextualCheckBlock], the
    Merkle root and the witness commitment, [IsBlockMutated], and the commitment that a miner adds.
    A block object remembers which checks it has passed; the flags are explicit state.  [None] is a
    failed assertion or an access out of range. *)

From S2P Require Import Prelude ArithUint256 Serialize Hash Primitives Script PubKey Interpreter SigHash VerifyScript Merkle BlockIndex MedianTime Pow VersionBits Headers CoinsList Coins CoinsProgram TxVerify Signet.
From Stdlib Require Import ZArith Lia.
From stdpp Require Import base option list numbers strings gmap.

Open Scope Z_scope.
Open Scope kernel_scope.

(** The memory-only fields of [CBlock]. *)
Record block_flags := { fChecked : bool; m_checked_witness_commitment : bool; m_checked_merkle_root : bool }.
Definition unchecked : block_flags := {| fChecked := false; m_checked_witness_commitment := false; m_checked_merkle_root := false |}.

Definition set_fChecked (f : block_flags) : block_flags :=
  {| fChecked := true; m_checked_witness_commitment := m_checked_witness_commitment f; m_checked_merkle_root := m_checked_merkle_root f |}.
Definition set_witness_commitment (f : block_flags) : block_flags :=
  {| fChecked := fChecked f; m_checked_witness_commitment := true; m_checked_merkle_root := m_checked_merkle_root f |}.
Definition set_merkle_root (f : block_flags) : block_flags :=
  {| fChecked := fChecked f; m_checked_witness_commitment := m_checked_witness_commitment f; m_checked_merkle_root := true |}.

Section Checks.
Context `{!D64Impl, !ABI} `{SIGS : Secp256k1Signatures}.

Definition CheckMerkleRoot (block : CBlock) (f : block_flags) : verdict * block_flags :=
  if m_checked_merkle_root f then (None, f) else
  let '(merkle_root, mutated) := BlockMerkleRoot block true in
  if negb (bool_decide (hashMerkleRoot (header block) = merkle_root)) then (Some (BLOCK_MUTATED, "bad-txnmrklroot"%string), f)
  else if mutated then (Some (BLOCK_MUTATED, "bad-txns-duplicate"%string), f)
  else (None, set_merkle_root f).

Definition no_witness (block : CBlock) : verdict :=
  if existsb (λ tx, HasWitness (vin tx)) (vtx block) then Some (BLOCK_MUTATED, "unexpected-witness"%string) else None.

Definition CheckWitnessMalleation (block : CBlock) (expect_witness_commitment : bool) (f : block_flags) : option (verdict * block_flags) :=
  let commitpos := GetWitnessCommitmentIndex block in
  if expect_witness_commitment && m_checked_witness_commitment f then Some (None, f) else
  if expect_witness_commitment && negb (commitpos =? NO_WITNESS_COMMITMENT) then
    cb ← head (vtx block);
    txin ← head (vin cb);
    match scriptWitness txin with
    | [nonce] =>
        if negb (length nonce =? 32)%nat then Some (Some (BLOCK_MUTATED, "bad-witness-nonce-size"%string), f) else
        let hash_witness := Hash2 (BlockWitnessMerkleRoot block) nonce in
        out ← vout cb !! Z.to_nat commitpos;
        if negb (bool_decide (hash_witness = take 32 (drop 6 (scriptPubKey out))))
        then Some (Some (BLOCK_MUTATED, "bad-witness-merkle-match"%string), f)
        else Some (None, set_witness_commitment f)
    | _ => Some (Some (BLOCK_MUTATED, "bad-witness-nonce-size"%string), f)
    end
  else Some (no_witness block, f).

(** The loop over the transactions with the assertion on the result. *)
Fixpoint check_transactions (txs : list CTransaction) : option verdict :=
  match txs with
  | [] => Some None
  | tx :: txs =>
      match CheckTransaction tx with
      | Some (TX_CONSENSUS, reason) => Some (Some (BLOCK_CONSENSUS, reason))
      | Some _ => None
      | None => check_transactions txs
      end
  end.

Definition check_signet (params : ConsensusParams) (block : CBlock) (fCheckPOW : bool) : option verdict :=
  if signet_blocks params && fCheckPOW then
    ok ← CheckSignetBlockSolution params block;
    Some (if (ok : bool) then None else Some (BLOCK_CONSENSUS, "bad-signet-blksig"%string))
  else Some None.

Definition check_length (block : CBlock) : verdict :=
  if (length (vtx block) =? 0)%nat || (MAX_BLOCK_WEIGHT <? u64 (zlen (vtx block) * WITNESS_SCALE_FACTOR))
     || (MAX_BLOCK_WEIGHT <? u64 (GetSerializeSize (CBlockF false) block * WITNESS_SCALE_FACTOR))
  then Some (BLOCK_CONSENSUS, "bad-blk-length"%string) else None.

Definition check_coinbases (block : CBlock) : verdict :=
  match vtx block with
  | cb :: txs =>
      if negb (IsCoinBase cb) then Some (BLOCK_CONSENSUS, "bad-cb-missing"%string)
      else if existsb IsCoinBase txs then Some (BLOCK_CONSENSUS, "bad-cb-multiple"%string) else None
  | [] => Some (BLOCK_CONSENSUS, "bad-cb-missing"%string)
  end.

Definition check_sigops (block : CBlock) : verdict :=
  let nSigOps := foldl (λ n tx, u32 (n + GetLegacySigOpCount tx)) 0 (vtx block) in
  if MAX_BLOCK_SIGOPS_COST <? u32 (nSigOps * WITNESS_SCALE_FACTOR) then Some (BLOCK_CONSENSUS, "bad-blk-sigops"%string) else None.

Definition CheckBlock (params : ConsensusParams) (block : CBlock) (fCheckPOW fCheckMerkleRoot : bool) (f : block_flags)
    : option (verdict * block_flags) :=
  if fChecked f then Some (None, f) else
  match CheckBlockHeader params (header block) fCheckPOW with Some e => Some (Some e, f) | None =>
  signet ← check_signet params block fCheckPOW;
  match signet with Some e => Some (Some e, f) | None =>
  match (if fCheckMerkleRoot then CheckMerkleRoot block f else (None, f)) with (Some e, f) => Some (Some e, f) | (None, f) =>
  match check_length block with Some e => Some (Some e, f) | None =>
  match check_coinbases block with Some e => Some (Some e, f) | None =>
  txs ← check_transactions (vtx block);
  match txs with Some e => Some (Some e, f) | None =>
  match check_sigops block with Some e => Some (Some e, f) | None =>
  Some (None, if fCheckPOW && fCheckMerkleRoot then set_fChecked f else f)
  end end end end end end end.

(** ** Mining and relay *)

Definition set_vtx0 (block : CBlock) (tx : CTransaction) : CBlock :=
  {| header := header block; vtx := <[0%nat := tx]> (vtx block) |}.
Definition set_witness0 (tx : CTransaction) (stack : list bytes) : CTransaction :=
  {| vin := alter (λ i, with_witness i stack) 0%nat (vin tx); vout := vout tx; version := version tx; nLockTime := nLockTime tx |}.

Definition UpdateUncommittedBlockStructures (params : ConsensusParams) (block : CBlock) (prev : option CBlockIndex) : option CBlock :=
  if negb (GetWitnessCommitmentIndex block =? NO_WITNESS_COMMITMENT) && DeploymentActiveAfter params prev DEPLOYMENT_SEGWIT then
    cb ← head (vtx block);
    if HasWitness (vin cb) then Some block else
    _ ← head (vin cb);
    Some (set_vtx0 block (set_witness0 cb [replicate 32 0]))
  else Some block.

Definition commitment_output (hash : uint256) : CTxOut :=
  {| nValue := 0; scriptPubKey := [OP_RETURN; 0x24; 0xaa; 0x21; 0xa9; 0xed] ++ hash |}.
Definition push_output (tx : CTransaction) (out : CTxOut) : CTransaction :=
  {| vin := vin tx; vout := vout tx ++ [out]; version := version tx; nLockTime := nLockTime tx |}.

Definition GenerateCoinbaseCommitment (params : ConsensusParams) (block : CBlock) (prev : option CBlockIndex) : option CBlock :=
  block ← (if GetWitnessCommitmentIndex block =? NO_WITNESS_COMMITMENT then
             let witnessroot := Hash2 (BlockWitnessMerkleRoot block) (replicate 32 0) in
             cb ← head (vtx block);
             Some (set_vtx0 block (push_output cb (commitment_output witnessroot)))
           else Some block);
  UpdateUncommittedBlockStructures params block prev.

Definition HasValidProofOfWork (params : ConsensusParams) (headers : list CBlockHeader) : bool :=
  forallb (λ h, CheckProofOfWork false (CBlockHeader_GetHash h) (nBits h) (pow params)) headers.

Definition IsBlockMutated (block : CBlock) (check_witness_root : bool) (f : block_flags) : option (bool * block_flags) :=
  match CheckMerkleRoot block f with
  | (Some _, f) => Some (true, f)
  | (None, f) =>
      if negb (match vtx block with cb :: _ => IsCoinBase cb | [] => false end)
      then Some (existsb (λ tx, GetSerializeSize (TransactionF false) tx =? 64) (vtx block), f)
      else '(v, f) ← CheckWitnessMalleation block check_witness_root f; Some (bool_decide (v ≠ None), f)
  end.

(** ** [ContextualCheckBlock] *)

Definition check_coinbase_height (params : ConsensusParams) (prev : option CBlockIndex) (nHeight : Z) (block : CBlock) : option verdict :=
  if DeploymentActiveAfter params prev DEPLOYMENT_HEIGHTINCB then
    let expect := push_int64 nHeight in
    cb ← head (vtx block);
    txin ← head (vin cb);
    Some (if (length (scriptSig txin) <? length expect)%nat || negb (bool_decide (expect = take (length expect) (scriptSig txin)))
          then Some (BLOCK_CONSENSUS, "bad-cb-height"%string) else None)
  else Some None.

Definition ContextualCheckBlock (params : ConsensusParams) (m : BlockMap) (pindexPrev : option ptr) (block : CBlock) (f : block_flags)
    : option (verdict * block_flags) :=
  prev ← (match pindexPrev with None => Some None | Some p => b ← m !! p; Some (Some b) end);
  let height := match prev with None => 0 | Some b => i32 (nHeight b + 1) end in
  nLockTimeCutoff ← (if DeploymentActiveAfter params prev DEPLOYMENT_CSV
                     then p ← pindexPrev; GetMedianTimePast m p
                     else Some (nTime (header block)));
  if existsb (λ tx, negb (IsFinalTx tx height nLockTimeCutoff)) (vtx block) then Some (Some (BLOCK_CONSENSUS, "bad-txns-nonfinal"%string), f) else
  v ← check_coinbase_height params prev height block;
  match v with Some e => Some (Some e, f) | None =>
  '(v, f) ← CheckWitnessMalleation block (DeploymentActiveAfter params prev DEPLOYMENT_SEGWIT) f;
  match v with Some e => Some (Some e, f) | None =>
  if MAX_BLOCK_WEIGHT <? GetBlockWeight block then Some (Some (BLOCK_CONSENSUS, "bad-blk-weight"%string), f)
  else Some (None, f)
  end end.
End Checks.

Definition CalculateClaimedHeadersWork (headers : list CBlockHeader) : option (list Z) :=
  foldl (λ total h, total ← total; w ← GetBitsProof (nBits h); Some (base_uint.add arith_uint256.WIDTH total w)) (Some (base_uint.of_u64 arith_uint256.WIDTH 0)) headers.

(** ** Theory: [CheckBlock] *)

Section Theory.
Context `{!D64Impl, !ABI} `{SIGS : Secp256k1Signatures}.

Lemma CheckTransaction_consensus tx e reason : CheckTransaction tx = Some (e, reason) → e = TX_CONSENSUS.
Proof.
  assert (Ho : ∀ acc outs, check_outputs acc outs = Some (e, reason) → e = TX_CONSENSUS).
  { intros acc outs. revert acc. induction outs as [|o outs IH]; intros acc; cbn [check_outputs]; [done|].
    repeat case_match; try (by intros [= <- <-]). apply IH. }
  assert (Hd : ∀ seen ins, check_duplicates seen ins = Some (e, reason) → e = TX_CONSENSUS).
  { intros seen ins. revert seen. induction ins as [|i ins IH]; intros seen; cbn [check_duplicates]; [done|].
    case_decide; [by intros [= <- <-]|apply IH]. }
  unfold CheckTransaction. destruct (vin tx) as [|i ins]; [by intros [= <- <-]|]. destruct (vout tx) as [|o outs]; [by intros [= <- <-]|].
  case_match; [by intros [= <- <-]|].
  destruct (check_outputs 0 (o :: outs)) as [[]|] eqn:E1; cbn [or_else]; [intros [= -> ->]; by eapply Ho|].
  destruct (check_duplicates ∅ (i :: ins)) as [[]|] eqn:E2; cbn [or_else]; [intros [= -> ->]; by eapply Hd|].
  repeat case_match; try done; by intros [= <- <-].
Qed.

Lemma check_transactions_spec txs :
  Forall (λ tx, GetSerializeSize (TransactionF false) tx < 2 ^ 62) txs →
  ∃ v, check_transactions txs = Some v ∧ (v = None ↔ Forall tx_rules txs).
Proof.
  induction 1 as [|tx txs Hs _ IH]; [by exists None|]. cbn [check_transactions]. pose proof (CheckTransaction_exact tx Hs) as Hx.
  destruct (CheckTransaction tx) as [[e reason]|] eqn:E.
  - rewrite (CheckTransaction_consensus _ _ _ E). eexists. split; [done|]. split; [done|]. intros Hf. apply Forall_cons in Hf as [Hf _].
    by apply Hx in Hf.
  - destruct IH as (v & -> & Hv). exists v. split; [done|]. rewrite Hv, Forall_cons. intuition.
Qed.

(** The transactions are part of the serialized block. *)
Lemma block_size block : sum_of (GetSerializeSize (TransactionF false)) (vtx block) ≤ GetSerializeSize (CBlockF false) block.
Proof.
  unfold GetSerializeSize at 2.
  change (Ser (CBlockF false) block) with
    (Ser CBlockHeaderF (header block) ++ Ser (VectorFormatter (TransactionF false) sizeof_CTransactionRef) (vtx block)).
  rewrite length_app.
  pose proof (Vector_size (TransactionF false) sizeof_CTransactionRef (vtx block) (GetSerializeSize (TransactionF false))) as H1.
  assert (sum_of (GetSerializeSize (TransactionF false)) (vtx block) ≤
    Z.of_nat (length (Ser (VectorFormatter (TransactionF false) sizeof_CTransactionRef) (vtx block)))); [|lia].
  apply H1. intros tx. unfold GetSerializeSize. lia.
Qed.

Lemma tx_size_pos tx : 10 ≤ GetSerializeSize (TransactionF false) tx.
Proof.
  unfold GetSerializeSize. cbn [TransactionF Ser]. rewrite SerializeTransaction_basic by done. rewrite !length_app.
  assert (∀ {A} (F : Formatter A) n l, (1 ≤ length (Ser (VectorFormatter F n) l))%nat) as HV.
  { intros. cbn [VectorFormatter Ser]. rewrite length_app. unfold WriteCompactSize. repeat case_match; cbn; lia. }
  pose proof (HV _ CTxInF sizeof_CTxIn (vin tx)). pose proof (HV _ CTxOutF sizeof_CTxOut (vout tx)).
  unfold VinF, VoutF. assert (length (Ser U32 (version tx)) = 4%nat ∧ length (Ser U32 (nLockTime tx)) = 4%nat) as [-> ->] by done. lia.
Qed.

Lemma block_tx_size block tx :
  tx ∈ vtx block → GetSerializeSize (TransactionF false) tx ≤ GetSerializeSize (CBlockF false) block.
Proof.
  intros Htx. etrans; [|apply block_size]. apply sum_of_elem; [|done]. intros y. unfold GetSerializeSize. lia.
Qed.

Lemma check_length_spec block :
  GetSerializeSize (CBlockF false) block < 2 ^ 62 →
  check_length block = None ↔ vtx block ≠ [] ∧ GetSerializeSize (CBlockF false) block * WITNESS_SCALE_FACTOR ≤ MAX_BLOCK_WEIGHT.
Proof.
  intros Hlt. assert (Hn : 10 * zlen (vtx block) ≤ GetSerializeSize (CBlockF false) block).
  { etrans; [|apply block_size]. rewrite <-sum_of_const. apply sum_of_bounds. intros tx _. pose proof (tx_size_pos tx). lia. }
  assert (0 ≤ GetSerializeSize (CBlockF false) block) by (unfold GetSerializeSize; lia).
  unfold check_length, WITNESS_SCALE_FACTOR. rewrite !(uwrap_small 64) by (unfold urange; lia).
  destruct (vtx block) as [|tx txs] eqn:Hv; [split; [done|]; by intros []|].
  change (length (tx :: txs) =? 0)%nat with false.
  assert (E : (MAX_BLOCK_WEIGHT <? zlen (tx :: txs) * 4) = true → (MAX_BLOCK_WEIGHT <? GetSerializeSize (CBlockF false) block * 4) = true)
    by (rewrite !Z.ltb_lt; lia).
  rewrite <-Z.ltb_ge. destruct (MAX_BLOCK_WEIGHT <? zlen (tx :: txs) * 4), (MAX_BLOCK_WEIGHT <? GetSerializeSize (CBlockF false) block * 4);
    cbn [orb]; intuition congruence.
Qed.

Definition coinbase_first (block : CBlock) : Prop :=
  ∃ cb txs, vtx block = cb :: txs ∧ IsCoinBase cb = true ∧ Forall (λ tx, IsCoinBase tx = false) txs.

Definition starts_with_coinbase (block : CBlock) : Prop := ∃ cb, head (vtx block) = Some cb ∧ IsCoinBase cb = true.

Lemma coinbase_first_starts block : coinbase_first block → starts_with_coinbase block.
Proof. intros (cb & txs & Hv & Hcb & _). exists cb. by rewrite Hv. Qed.

Lemma check_coinbases_spec block : check_coinbases block = None ↔ coinbase_first block.
Proof.
  unfold check_coinbases, coinbase_first. destruct (vtx block) as [|cb txs]; [split; [done|]; by intros (? & ? & ? & _)|].
  destruct (IsCoinBase cb) eqn:Hcb; cbn [negb]; [|split; [done|]; intros (? & ? & [= <- <-] & ? & _); congruence].
  destruct (existsb IsCoinBase txs) eqn:He.
  - split; [done|]. intros (? & ? & [= <- <-] & _ & Hf). apply existsb_Forall in Hf. congruence.
  - split; [|done]. intros _. exists cb, txs. split_and!; try done. by apply existsb_Forall.
Qed.

Lemma check_sigops_spec block :
  GetSerializeSize (CBlockF false) block * WITNESS_SCALE_FACTOR ≤ MAX_BLOCK_WEIGHT →
  check_sigops block = None ↔ WITNESS_SCALE_FACTOR * sum_of legacy_sigops (vtx block) ≤ MAX_BLOCK_SIGOPS_COST.
Proof.
  unfold WITNESS_SCALE_FACTOR, MAX_BLOCK_WEIGHT. intros Hs. pose proof (block_size block) as Hb.
  assert (Hsum : 0 ≤ sum_of legacy_sigops (vtx block) ≤ 20 * sum_of (GetSerializeSize (TransactionF false)) (vtx block)).
  { rewrite <-sum_of_scale. apply sum_of_bounds. intros tx _. pose proof (legacy_sigops_bound tx). pose proof (script_bytes_size tx). lia. }
  assert (Hx : ∀ tx, tx ∈ vtx block → GetLegacySigOpCount tx = legacy_sigops tx).
  { intros tx Htx. apply GetLegacySigOpCount_exact. pose proof (sum_of_elem legacy_sigops (vtx block) tx).
    assert (legacy_sigops tx ≤ sum_of legacy_sigops (vtx block)); [|lia].
    apply sum_of_elem; [|done]. intros y. apply legacy_sigops_bound. }
  unfold check_sigops. cbn zeta.
  assert (foldl (λ n tx, u32 (n + GetLegacySigOpCount tx)) 0 (vtx block) = foldl (λ n tx, u32 (n + legacy_sigops tx)) 0 (vtx block)) as ->.
  { clear -Hx. generalize 0. induction (vtx block) as [|tx txs IH]; intros n; [done|]. cbn [foldl]. rewrite Hx by set_solver.
    apply IH. intros; apply Hx; set_solver. }
  rewrite foldl_u32 by (lia || (intros tx _; apply legacy_sigops_bound)). unfold WITNESS_SCALE_FACTOR.
  rewrite uwrap_small by (unfold urange; lia). case_match eqn:E; [apply Z.ltb_lt in E|apply Z.ltb_ge in E]; split; try done; lia.
Qed.

(** ** Theory: the witness commitment *)

Definition commitment_step (outs : list CTxOut) (commitpos : Z) (o : nat) : Z :=
  match outs !! o with
  | Some out => if is_witness_commitment (scriptPubKey out) then Z.of_nat o else commitpos
  | None => commitpos
  end.

Lemma commitment_steps outs n :
  let r := foldl (commitment_step outs) NO_WITNESS_COMMITMENT (seq 0 n) in
  r = NO_WITNESS_COMMITMENT ∨ ∃ out, 0 ≤ r ∧ outs !! Z.to_nat r = Some out ∧ is_witness_commitment (scriptPubKey out) = true.
Proof.
  cbn zeta. induction n as [|n IH]; [by left|]. rewrite seq_S, foldl_app. cbn [foldl].
  set (r := foldl _ _ _) in *. clearbody r. unfold commitment_step. rewrite Nat.add_0_l. destruct (outs !! n) as [out|] eqn:E; [|done]. destruct (is_witness_commitment _) eqn:Ec; [|done].
  right. exists out. rewrite Nat2Z.id. split_and!; [lia|done|done].
Qed.

Lemma GetWitnessCommitmentIndex_spec block :
  GetWitnessCommitmentIndex block = NO_WITNESS_COMMITMENT ∨
  ∃ cb out, head (vtx block) = Some cb ∧ 0 ≤ GetWitnessCommitmentIndex block ∧
    vout cb !! Z.to_nat (GetWitnessCommitmentIndex block) = Some out ∧ is_witness_commitment (scriptPubKey out) = true.
Proof.
  unfold GetWitnessCommitmentIndex. destruct (vtx block) as [|cb txs]; [by left|]. fold (commitment_step (vout cb)).
  destruct (commitment_steps (vout cb) (length (vout cb))) as [->|(out & ? & ? & ?)]; [by left|]. right. by exists cb, out.
Qed.

(** The coinbase commits to the witnesses: the last commitment output holds the hash of the witness
    root and of the reserved value in the coinbase's witness. *)
Definition witness_committed (block : CBlock) : Prop :=
  ∃ cb txin nonce out, head (vtx block) = Some cb ∧ head (vin cb) = Some txin ∧ scriptWitness txin = [nonce] ∧
    length nonce = 32%nat ∧ vout cb !! Z.to_nat (GetWitnessCommitmentIndex block) = Some out ∧
    Hash2 (BlockWitnessMerkleRoot block) nonce = take 32 (drop 6 (scriptPubKey out)).

Definition witness_rule (block : CBlock) (expect : bool) : Prop :=
  if expect && negb (GetWitnessCommitmentIndex block =? NO_WITNESS_COMMITMENT) then witness_committed block
  else Forall (λ tx, HasWitness (vin tx) = false) (vtx block).

Definition root_rule (block : CBlock) : Prop := BlockMerkleRoot block true = (hashMerkleRoot (header block), false).

(** What a block must satisfy on its own, as far as the caller asks for the checks of the work and
    of the Merkle root. *)
Record block_rules (params : ConsensusParams) (block : CBlock) (fCheckPOW fCheckMerkleRoot : bool) : Prop := {
  br_pow : fCheckPOW = true →
    CheckProofOfWork false (CBlockHeader_GetHash (header block)) (nBits (header block)) (pow params) = true;
  br_signet : fCheckPOW = true → signet_blocks params = true → CheckSignetBlockSolution params block = Some true;
  br_root : fCheckMerkleRoot = true → root_rule block;
  br_size : GetSerializeSize (CBlockF false) block * WITNESS_SCALE_FACTOR ≤ MAX_BLOCK_WEIGHT;
  br_coinbase : coinbase_first block;
  br_txs : Forall tx_rules (vtx block);
  br_sigops : WITNESS_SCALE_FACTOR * sum_of legacy_sigops (vtx block) ≤ MAX_BLOCK_SIGOPS_COST
}.

(** A block that passed every check passes those a caller asks for. *)
Lemma block_rules_all params block fp fr : block_rules params block true true → block_rules params block fp fr.
Proof. intros [H1 H2 H3 ? ? ? ?]. split; auto. Qed.

(** The flags of a block object remember checks that passed. *)
Record flags_sound (params : ConsensusParams) (block : CBlock) (f : block_flags) : Prop := {
  fs_checked : fChecked f = true → block_rules params block true true;
  fs_root : m_checked_merkle_root f = true → root_rule block;
  fs_witness : m_checked_witness_commitment f = true →
    negb (GetWitnessCommitmentIndex block =? NO_WITNESS_COMMITMENT) = true ∧ witness_committed block
}.

Lemma unchecked_sound params block : flags_sound params block unchecked.
Proof. by split. Qed.

Lemma CheckMerkleRoot_spec params block f :
  flags_sound params block f →
  ∃ v f', CheckMerkleRoot block f = (v, f') ∧ flags_sound params block f' ∧ (v = None ↔ root_rule block).
Proof.
  intros Hf. unfold CheckMerkleRoot. destruct (m_checked_merkle_root f) eqn:Hm; [exists None, f; split; [done|]; split; [done|]; split; [|done]; intros _; by apply (fs_root _ _ _ Hf)|].
  unfold root_rule. destruct (BlockMerkleRoot block true) as [root mutated] eqn:Hr.
  case_bool_decide as Hd; cbn [negb]; [|eexists _, f; split; [done|]; split; [done|]; split; [done|]; intros [= -> ->]; done].
  destruct mutated; [eexists _, f; split; [done|]; split; [done|]; by split|]. eexists _, _. split; [done|]. split; [|by rewrite Hd].
  destruct Hf as [F1 F2 F3]. split; cbn; try done. intros _. unfold root_rule. by rewrite Hr, Hd.
Qed.

Lemma CheckWitnessMalleation_spec params block expect f :
  flags_sound params block f → starts_with_coinbase block →
  ∃ v f', CheckWitnessMalleation block expect f = Some (v, f') ∧ flags_sound params block f' ∧ (v = None ↔ witness_rule block expect).
Proof.
  intros Hf (cb & Hv & Hcb). unfold CheckWitnessMalleation, witness_rule. cbn zeta.
  destruct (GetWitnessCommitmentIndex_spec block) as [Ei|(cb' & out & Hhd & Hpos & Hout & _)].
  { rewrite Ei. change (negb (NO_WITNESS_COMMITMENT =? NO_WITNESS_COMMITMENT)) with false. rewrite !andb_false_r.
    assert (m_checked_witness_commitment f = false) as ->.
    { destruct (m_checked_witness_commitment f) eqn:E; [|done]. destruct (fs_witness _ _ _ Hf E) as [Hx _]. by rewrite Ei in Hx. }
    rewrite andb_false_r. eexists _, f. split; [done|]. split; [done|]. unfold no_witness. rewrite <-existsb_Forall.
    by destruct (existsb _ _). }
  rewrite (proj2 (Z.eqb_neq _ _)) by (unfold NO_WITNESS_COMMITMENT; lia). cbn [negb]. rewrite !andb_true_r.
  destruct expect; cbn [andb]; [|eexists _, f; split; [done|]; split; [done|]; unfold no_witness; rewrite <-existsb_Forall; by destruct (existsb _ _)].
  destruct (m_checked_witness_commitment f) eqn:E. { exists None, f. split; [done|]. split; [done|]. split; [|done]. intros _. by apply (fs_witness _ _ _ Hf). }
  rewrite Hhd. cbn [mbind option_bind]. rewrite Hv in Hhd. injection Hhd as <-.
  unfold IsCoinBase in Hcb. destruct (vin cb) as [|txin [|]] eqn:Hin; try done. cbn [head mbind option_bind].
  assert (Hno : ∀ P : Prop, (∀ nonce, scriptWitness txin = [nonce] → length nonce = 32%nat →
      Hash2 (BlockWitnessMerkleRoot block) nonce = take 32 (drop 6 (scriptPubKey out)) → P) → witness_committed block → P).
  { intros P HP (cb' & txin' & nonce & out' & H1 & H2 & H3 & H4 & H5 & H6). rewrite Hv in H1. injection H1 as <-. rewrite Hin in H2.
    injection H2 as <-. rewrite Hout in H5. injection H5 as <-. by apply (HP nonce). }
  destruct (scriptWitness txin) as [|nonce [|]] eqn:Hw; try (eexists _, f; split; [done|]; split; [done|]; split; [done|]; by apply Hno).
  destruct (Nat.eqb_spec (length nonce) 32) as [Hn|Hn]; cbn [negb].
  2: { eexists _, f. split; [done|]. split; [done|]. split; [done|]. apply Hno. by intros ? [= <-]. }
  rewrite Hout. cbn [mbind option_bind]. case_bool_decide as Hd; cbn [negb].
  - eexists _, _. split; [done|]. assert (witness_committed block).
    { exists cb, txin, nonce, out. rewrite Hv, Hin. by split_and!. }
    split; [|done]. destruct Hf as [F1 F2 F3]. split; cbn; try done. intros _. split; [|done].
    rewrite (proj2 (Z.eqb_neq _ _)) by (unfold NO_WITNESS_COMMITMENT; lia). done.
  - eexists _, f. split; [done|]. split; [done|]. split; [done|]. apply Hno. intros ? [= <-] _ ?. done.
Qed.

Lemma check_signet_spec params block fp :
  is_Some (CheckSignetBlockSolution params block) →
  ∃ v, check_signet params block fp = Some v ∧
    (v = None ↔ (fp = true → signet_blocks params = true → CheckSignetBlockSolution params block = Some true)).
Proof.
  intros [ok E]. unfold check_signet. rewrite E. cbn [mbind option_bind].
  destruct (signet_blocks params), fp; cbn [andb]; try by (exists None; naive_solver).
  eexists. split; [done|]. destruct ok; [done|]. split; [done|]. by intros [=]%(λ H, H eq_refl eq_refl).
Qed.

Lemma asked_root_spec params block (fr : bool) f :
  flags_sound params block f →
  ∃ v f', (if fr then CheckMerkleRoot block f else (None, f)) = (v, f') ∧ flags_sound params block f' ∧
    (v = None ↔ (fr = true → root_rule block)).
Proof.
  intros Hf. destruct fr; [|by exists None, f].
  destruct (CheckMerkleRoot_spec params block f Hf) as (v & f' & -> & Hf' & Hv). exists v, f'. naive_solver.
Qed.

Lemma CheckBlock_spec params block fp fr f :
  flags_sound params block f → GetSerializeSize (CBlockF false) block < 2 ^ 62 → is_Some (CheckSignetBlockSolution params block) →
  ∃ v f', CheckBlock params block fp fr f = Some (v, f') ∧ flags_sound params block f' ∧ (v = None ↔ block_rules params block fp fr).
Proof.
  intros Hf Hsize Hsig. unfold CheckBlock.
  assert (Hfail : ∀ (e : BlockValidationResult * string) f', flags_sound params block f' → (block_rules params block fp fr → False) → ∃ v f'',
    (Some (Some e, f') : option (verdict * block_flags)) = Some (v, f'') ∧ flags_sound params block f'' ∧ (v = None ↔ block_rules params block fp fr)).
  { intros e f' Hf' Hno. eexists _, f'. split; [done|]. split; [done|]. split; [done|]. intros Hb. by destruct (Hno Hb). }
  destruct (fChecked f) eqn:Hc.
  { exists None, f. split; [done|]. split; [done|]. split; [|done]. intros _. by apply block_rules_all, (fs_checked _ _ _ Hf). }
  unfold CheckBlockHeader. destruct (fp && _) eqn:Hpow.
  { apply Hfail; [done|]. intros []. destruct fp; [|done]. by rewrite br_pow0 in Hpow. }
  destruct (check_signet_spec params block fp Hsig) as (vs & -> & Hvs). cbn [mbind option_bind].
  destruct vs as [e|]; [apply Hfail; [done|]; intros []; by apply Hvs in br_signet0|].
  destruct (asked_root_spec params block fr f Hf) as (vr & f1 & -> & Hf1 & Hvr).
  destruct vr as [e|]; [apply Hfail; [done|]; intros []; by apply Hvr in br_root0|].
  pose proof (check_length_spec block Hsize) as Hl. destruct (check_length block) as [e|].
  { apply Hfail; [done|]. intros [? ? ? ? Hcb ? ?]. assert (Some e = None) as [=]. apply Hl. split; [|done]. destruct Hcb as (? & ? & -> & _). done. }
  destruct (proj1 Hl eq_refl) as [_ Hlen].
  pose proof (check_coinbases_spec block) as Hcb. destruct (check_coinbases block) as [e|];
    [apply Hfail; [done|]; intros []; by apply Hcb in br_coinbase0|].
  destruct (check_transactions_spec (vtx block)) as (vt & -> & Hvt).
  { apply Forall_forall. intros tx Htx. pose proof (block_tx_size block tx Htx). lia. }
  cbn [mbind option_bind]. destruct vt as [e|]; [apply Hfail; [done|]; intros []; by apply Hvt in br_txs0|].
  pose proof (check_sigops_spec block Hlen) as Hs. destruct (check_sigops block) as [e|];
    [apply Hfail; [done|]; intros []; by apply Hs in br_sigops0|].
  assert (Hb : block_rules params block fp fr).
  { split; [|by apply Hvs|by apply Hvr|done|by apply Hcb|by apply Hvt|by apply Hs].
    intros ->. by destruct (CheckProofOfWork _ _ _ _). }
  eexists None, _. split; [done|]. split; [|done]. destruct Hf1. destruct fp, fr; by split.
Qed.

(** What a block must satisfy on top of the parent [prev] of the block. *)
Record contextual_rules (params : ConsensusParams) (m : BlockMap) (pindexPrev : ptr) (prev : CBlockIndex) (block : CBlock) : Prop := {
  cr_final : Forall (λ tx, IsFinalTx tx (nHeight prev + 1)
    (if CSVHeight params <=? nHeight prev + 1 then mtp m pindexPrev else nTime (header block)) = true) (vtx block);
  cr_height : BIP34Height params ≤ nHeight prev + 1 → ∀ cb txin, head (vtx block) = Some cb → head (vin cb) = Some txin →
    push_int64 (nHeight prev + 1) `prefix_of` scriptSig txin;
  cr_witness : witness_rule block (SegwitHeight params <=? nHeight prev + 1);
  cr_weight : GetBlockWeight block ≤ MAX_BLOCK_WEIGHT
}.

Lemma prefix_take {A} (p l : list A) : p `prefix_of` l ↔ (length p ≤ length l)%nat ∧ p = take (length p) l.
Proof.
  split; [intros [k ->]; rewrite length_app, take_app_length; split; [lia|done]|]. intros [_ E]. exists (drop (length p) l).
  rewrite E at 1. by rewrite take_drop.
Qed.

Lemma check_coinbase_height_spec params prev block :
  starts_with_coinbase block →
  ∃ v, check_coinbase_height params (Some prev) (nHeight prev + 1) block = Some v ∧ (v = None ↔
    (BIP34Height params ≤ nHeight prev + 1 → ∀ cb txin, head (vtx block) = Some cb → head (vin cb) = Some txin →
      push_int64 (nHeight prev + 1) `prefix_of` scriptSig txin)).
Proof.
  intros (cb & Hv & Hc). unfold check_coinbase_height. rewrite Hv.
  change (DeploymentActiveAfter params (Some prev) DEPLOYMENT_HEIGHTINCB) with (BIP34Height params <=? nHeight prev + 1).
  destruct (Z.leb_spec (BIP34Height params) (nHeight prev + 1)); [|exists None; split; [done|]; split; [lia|done]].
  cbn [head mbind option_bind]. unfold IsCoinBase in Hc. destruct (vin cb) as [|txin [|]] eqn:Ein; try done.
  cbn [head mbind option_bind]. eexists. split; [done|]. pose proof (prefix_take (push_int64 (nHeight prev + 1)) (scriptSig txin)) as Hpre.
  destruct (Nat.ltb_spec (length (scriptSig txin)) (length (push_int64 (nHeight prev + 1)))) as [Hlt|Hge]; cbn [orb].
  - split; [done|]. intros Hx. specialize (Hx ltac:(lia) cb txin eq_refl). rewrite Ein in Hx. apply Hpre in Hx as [? _]; [lia|done].
  - case_bool_decide as Hd; cbn [negb]; (split; [try done|]).
    + intros _ _ cb' txin' [= <-]. rewrite Ein. intros [= <-]. by apply Hpre.
    + done.
    + intros Hx. specialize (Hx ltac:(lia) cb txin eq_refl). rewrite Ein in Hx. by apply Hpre in Hx as [_ ?].
Qed.

Lemma ContextualCheckBlock_spec params m p prev block f :
  linked m → flags_sound params block f → starts_with_coinbase block → m !! p = Some prev → nHeight prev < 2 ^ 31 - 1 →
  ∃ v f', ContextualCheckBlock params m (Some p) block f = Some (v, f') ∧ flags_sound params block f' ∧
    (v = None ↔ contextual_rules params m p prev block).
Proof.
  intros Hl Hf Hcb Hp Hh. pose proof (linked_height m Hl p prev Hp) as H0h. unfold ContextualCheckBlock. rewrite Hp. cbn [mbind option_bind].
  rewrite swrap_small by (unfold srange; lia).
  assert (Hfail : ∀ (e : BlockValidationResult * string) f', flags_sound params block f' → (contextual_rules params m p prev block → False) → ∃ v f'',
    (Some (Some e, f') : option (verdict * block_flags)) = Some (v, f'') ∧ flags_sound params block f'' ∧ (v = None ↔ contextual_rules params m p prev block)).
  { intros e f' Hf' Hno. eexists _, f'. split; [done|]. split; [done|]. split; [done|]. intros Hb. by destruct (Hno Hb). }
  change (DeploymentActiveAfter params (Some prev) DEPLOYMENT_CSV) with (CSVHeight params <=? nHeight prev + 1).
  change (DeploymentActiveAfter params (Some prev) DEPLOYMENT_SEGWIT) with (SegwitHeight params <=? nHeight prev + 1).
  assert (Hcut : (if CSVHeight params <=? nHeight prev + 1 then GetMedianTimePast m p else Some (nTime (header block))) =
    Some (if CSVHeight params <=? nHeight prev + 1 then mtp m p else nTime (header block))).
  { destruct (_ <=? _); [|done]. by apply (GetMedianTimePast_total m Hl p prev). }
  rewrite Hcut. cbn [mbind option_bind]. set (cut := if CSVHeight params <=? nHeight prev + 1 then mtp m p else nTime (header block)).
  destruct (existsb _ (vtx block)) eqn:Hfin.
  { apply Hfail; [done|]. intros [Hx _ _ _]. assert (existsb (λ tx, negb (IsFinalTx tx (nHeight prev + 1) cut)) (vtx block) = false); [|congruence].
    apply existsb_Forall. eapply Forall_impl; [done|]. cbv beta. fold cut. by intros tx ->. }
  apply existsb_Forall in Hfin.
  destruct (check_coinbase_height_spec params prev block Hcb) as (vc & -> & Hvc). cbn [mbind option_bind]. destruct vc as [e|]; [apply Hfail; [done|]; intros []; by apply Hvc in cr_height0|].
  destruct (CheckWitnessMalleation_spec params block (SegwitHeight params <=? nHeight prev + 1) f Hf Hcb) as (vw & f' & -> & Hf' & Hvw).
  cbn [mbind option_bind]. destruct vw as [e|]; [apply Hfail; [done|]; intros []; by apply Hvw in cr_witness0|].
  destruct (Z.ltb_spec MAX_BLOCK_WEIGHT (GetBlockWeight block)); [apply Hfail; [done|]; intros []; lia|].
  exists None, f'. split; [done|]. split; [done|]. split; [|done]. intros _. split; [|by apply Hvc|by apply Hvw|done].
  eapply Forall_impl; [done|]. cbv beta. intros tx Hx. by apply negb_false_iff in Hx.
Qed.
End Theory.

(** C3: [CheckBlock] and [ContextualCheckBlock] decide the rules for blocks.  For every block that
    fits in memory, whatever checks its flags remember, and whichever of the checks of the work and
    of the Merkle root the caller asks for, [CheckBlock] returns without a failed assertion and
    accepts exactly the blocks with proof of work and a signet solution where one is needed (if
    asked), the right Merkle root without repeated transactions (if asked), the size limits, exactly
    one coinbase in front, valid transactions and few enough signature operations, counted without
    wrap-around.  For every such block whose first transaction is a coinbase, on top of an entry of
    the index, [ContextualCheckBlock] returns and accepts exactly the blocks with final transactions,
    the height in the coinbase, the witness commitment and the weight limit.  Neither makes the
    flags remember a check that would fail. *)
Theorem block_checks_exact `{!D64Impl, !ABI} `{SIGS : Secp256k1Signatures} (params : ConsensusParams) (m : BlockMap)
    (p : ptr) (prev : CBlockIndex) (block : CBlock) (fCheckPOW fCheckMerkleRoot : bool) (f : block_flags) :
  linked m → m !! p = Some prev → nHeight prev < 2 ^ 31 - 1 →
  Forall tx_ok (vtx block) → Primitives.script_ok (signet_challenge params) → GetSerializeSize (CBlockF false) block < 2 ^ 62 →
  flags_sound params block f →
  (∃ v f', CheckBlock params block fCheckPOW fCheckMerkleRoot f = Some (v, f') ∧ flags_sound params block f' ∧
     (v = None ↔ block_rules params block fCheckPOW fCheckMerkleRoot)) ∧
  (starts_with_coinbase block →
   ∃ v f', ContextualCheckBlock params m (Some p) block f = Some (v, f') ∧ flags_sound params block f' ∧
     (v = None ↔ contextual_rules params m p prev block)).
Proof.
  intros Hl Hp Hh Htx Hch Hsize Hf. split; [|intros Hcb; by apply ContextualCheckBlock_spec].
  apply CheckBlock_spec; [done|done|]. by apply CheckSignetBlockSolution_returns, serializable_script_ok.
Qed.
