(* ===== verification/BlockBinding.v ===== *)
(** * What a block hash binds: consensus/merkle.cpp, validation.cpp

    A block hash commits to the transactions through the Merkle root and, in the coinbase, to the
    witnesses through the root of the witness ids.  Two blocks with one hash that are both not
    [IsBlockMutated] are the same block; the comments of the code name the conditions, and the
    theory proves them sufficient: repeated transactions are caught by the mutation flag, the
    witness tree needs no flag of its own, and trees of different heights need a coinbase of 64
    bytes.  A commitment that a miner generates passes the check, and coinbases of different heights
    differ. *)

From S2P Require Import Prelude ArithUint256 Serialize Hash Primitives Script PubKey Interpreter SigHash VerifyScript Merkle BlockIndex MedianTime Pow VersionBits Headers CoinsList Coins CoinsProgram TxVerify Signet CheckBlock.
From Stdlib Require Import ZArith Lia.
From stdpp Require Import base option list numbers gmap.

Open Scope Z_scope.
Open Scope kernel_scope.

(** ** Trees of different heights *)

(** The level [n] above the leaves. *)
Definition level (n : nat) (l : list uint256) : list uint256 := Nat.iter n pair_up l.

Lemma level_S n l : level (S n) l = level n (pair_up l).
Proof. unfold level. by rewrite Nat.iter_succ_r. Qed.

Lemma pair_up_range l d : (0 < length l ≤ 2 ^ S d)%nat → (0 < length (pair_up l) ≤ 2 ^ d)%nat.
Proof.
  intros Hl. split; [apply pair_up_nonempty; lia|]. rewrite length_pair_up. cbn [Nat.pow] in Hl.
  pose proof (Nat.div_mod_eq (length l + 1) 2). lia.
Qed.

Lemma level_range n d l : (0 < length l ≤ 2 ^ (n + d))%nat → (0 < length (level n l) ≤ 2 ^ d)%nat.
Proof.
  revert l. induction n as [|n IH]; intros l Hl; [done|]. rewrite level_S. apply IH. by apply pair_up_range.
Qed.

Lemma mroot_level n d l : (0 < length l ≤ 2 ^ (n + d))%nat → mroot (n + d) l = mroot d (level n l).
Proof.
  revert l. induction n as [|n IH]; intros l Hl; [done|]. rewrite level_S. cbn [Nat.add]. rewrite mroot_pair_up by done.
  apply IH. by apply pair_up_range.
Qed.

Lemma mutated_level n d l : mutated_at (n + d) l = false → mutated_at d (level n l) = false.
Proof.
  revert l. induction n as [|n IH]; intros l Hl; [done|]. rewrite level_S. cbn [Nat.add mutated_at] in Hl.
  apply orb_false_iff in Hl as [_ Hl]. by apply IH.
Qed.

(** A hash of two nodes whose message is one of [M]. *)
Definition inner_node (M : list bytes) (h : uint256) : Prop :=
  ∃ a b, h = Hash2 a b ∧ length a = 32%nat ∧ length b = 32%nat ∧ a ++ b ∈ M.

Lemma inner_node_mono M M' l : M ⊆ M' → Forall (inner_node M) l → Forall (inner_node M') l.
Proof. intros HM F. eapply Forall_impl; [exact F|]. intros h (a & b & ? & ? & ? & ?). exists a, b. auto. Qed.

Lemma pair_up_hashes l : Forall hash_ok l → Forall (inner_node (pair_messages l)) (pair_up l).
Proof.
  induction l as [|a|a b l IH] using list_pair_ind; intros Hl; cbn [pair_up pair_messages]; [constructor| |].
  - apply Forall_cons in Hl as [Ha _]. constructor; [|constructor]. exists a, a. set_solver.
  - apply Forall_cons in Hl as [Ha [Hb Hl]%Forall_cons]. constructor; [exists a, b; set_solver|].
    eapply inner_node_mono, IH; [set_solver|done].
Qed.

Lemma level_hashes n d l : Forall hash_ok l → Forall (inner_node (tree_messages (S n + d) l)) (level (S n) l).
Proof.
  revert l. induction n as [|n IH]; intros l Hl.
  - eapply inner_node_mono, pair_up_hashes; [cbn; set_solver|done].
  - rewrite level_S. eapply inner_node_mono, IH, pair_up_ok. change (S (S n) + d)%nat with (S (S n + d)). cbn [tree_messages]. set_solver.
Qed.

Lemma level_messages n d l : tree_messages d (level n l) ⊆ tree_messages (n + d) l.
Proof. revert l. induction n as [|n IH]; intros l; [done|]. rewrite level_S. cbn. specialize (IH (pair_up l)). set_solver. Qed.

Lemma level_ok n l : Forall hash_ok l → Forall hash_ok (level n l).
Proof. revert l. induction n as [|n IH]; intros l Hl; [done|]. rewrite level_S. apply IH, pair_up_ok. Qed.

(** Equal roots of unmutated trees: the leaves of the lower tree are a level of the higher one. *)
Lemma roots_level l1 l2 :
  Forall hash_ok l1 → Forall hash_ok l2 → l1 ≠ [] → l2 ≠ [] → (height l1 ≤ height l2)%nat →
  mutated_at (height l1) l1 = false → mutated_at (height l2) l2 = false →
  mroot (height l1) l1 = mroot (height l2) l2 →
  l1 = level (height l2 - height l1) l2 ∨ hash_collision (tree_messages (height l1) l1 ++ tree_messages (height l2) l2).
Proof.
  intros H1 H2 N1 N2 Hle M1 M2 Heq. pose proof (length_le_height l1) as L1. pose proof (length_le_height l2) as L2.
  set (n := (height l2 - height l1)%nat). assert (En : height l2 = (n + height l1)%nat) by lia. rewrite En in *.
  assert (0 < length l2 ≤ 2 ^ (n + height l1))%nat by (by split; [apply nonempty_length|]).
  rewrite mroot_level in Heq by done. apply mutated_level in M2.
  destruct (mroot_inj (height l1) l1 (level n l2)) as [|Hx]; try done;
    [by apply level_ok|by split; [apply nonempty_length|]|by apply level_range|by left|right].
  eapply hash_collision_mono, Hx. pose proof (level_messages n (height l1) l2). set_solver.
Qed.

(** ** Equal roots of trees with the same number of leaves *)

Lemma pair_up_inj_length l1 l2 :
  Forall hash_ok l1 → Forall hash_ok l2 → length l1 = length l2 → pair_up l1 = pair_up l2 →
  l1 = l2 ∨ hash_collision (pair_messages l1 ++ pair_messages l2).
Proof.
  intros H1. revert l2. induction l1 as [|a|a b l1 IH] using list_pair_ind; intros [|c [|d l2]] H2 Hlen Heq; try done; [by left| |].
  - apply Forall_cons in H1 as [Ha _], H2 as [Hc _]. cbn [pair_up] in Heq. injection Heq as Heq.
    destruct (Hash2_inj a a c c) as [[-> _]|]; [congruence|done|by left|by right].
  - apply Forall_cons in H1 as [Ha [Hb H1]%Forall_cons], H2 as [Hc [Hd H2]%Forall_cons]. cbn [pair_up] in Heq. injection Heq as Heq Hrest.
    destruct (Hash2_inj a b c d) as [[-> ->]|Hx]; [congruence|done| |right; eapply hash_collision_mono, Hx; set_solver].
    destruct (IH H1 l2 H2) as [->|Hx]; [cbn in Hlen; lia|done|by left|right; eapply hash_collision_mono, Hx; set_solver].
Qed.

Lemma mroot_inj_length d l1 l2 :
  Forall hash_ok l1 → Forall hash_ok l2 → length l1 = length l2 → (0 < length l1 ≤ 2 ^ d)%nat →
  mroot d l1 = mroot d l2 → l1 = l2 ∨ hash_collision (tree_messages d l1 ++ tree_messages d l2).
Proof.
  revert l1 l2. induction d as [|d IH]; intros l1 l2 H1 H2 Hlen L1 Heq.
  { destruct l1 as [|a [|]], l2 as [|b [|]]; cbn [length Nat.pow] in *; try lia. left. cbn [mroot] in Heq. by f_equal. }
  rewrite !mroot_pair_up in Heq by lia. destruct (IH (pair_up l1) (pair_up l2)) as [E|Hx]; try done; [apply pair_up_ok..| | | |].
  - by rewrite !length_pair_up, Hlen.
  - by apply pair_up_range.
  - destruct (pair_up_inj_length l1 l2) as [|Hx]; try done; [by left|right]. eapply hash_collision_mono, Hx. cbn. set_solver.
  - right. eapply hash_collision_mono, Hx. cbn. set_solver.
Qed.

(** ** Blocks with the same hash *)

Section Binding.
Context `{!D64Impl, !ABI}.

Lemma Forall_or {A} (P : A → Prop) (Q : Prop) l : Forall (λ x, P x ∨ Q) l → Forall P l ∨ Q.
Proof. induction 1 as [|x l [] _ [|]]; try (by right); [by left|]. left. by constructor. Qed.

(** A transaction whose id is an inner node of a tree is 64 bytes long. *)
Lemma inner_node_size tx a b :
  ComputeHash tx = Hash2 a b → length a = 32%nat → length b = 32%nat →
  GetSerializeSize (TransactionF false) tx = 64 ∨ hash_collision [SerializeTransaction false tx; a ++ b].
Proof.
  unfold ComputeHash. rewrite HashWriter_put_Hash, Hash2_app. intros [Heq|]%Hash_inj Ha Hb; [left|by right].
  unfold GetSerializeSize. rewrite Heq, length_app, Ha, Hb. done.
Qed.

Lemma same_header_stripped b1 b2 :
  header_ok (header b1) → header_ok (header b2) → Forall tx_ok (vtx b1) → Forall tx_ok (vtx b2) → vtx b1 ≠ [] → vtx b2 ≠ [] →
  root_rule b1 → root_rule b2 → CBlockHeader_GetHash (header b1) = CBlockHeader_GetHash (header b2) →
  (length (vtx b1) ≤ length (vtx b2))%nat →
  (header b1 = header b2 ∧ map strip (vtx b1) = map strip (vtx b2)) ∨ hash_collision (block_messages b1 ++ block_messages b2) ∨
  Forall (λ tx, GetSerializeSize (TransactionF false) tx = 64) (vtx b1).
Proof.
  intros H1 H2 T1 T2 N1 N2 R1 R2 Heq Hlen. unfold block_messages.
  apply GetHash_inj in Heq as [Heq|Hx]; [|right; left; eapply hash_collision_mono, Hx; set_solver|done|done].
  unfold root_rule, BlockMerkleRoot in R1, R2. rewrite Heq in R1.
  rewrite ComputeMerkleRoot_spec in R1, R2 by apply txids_ok. injection R1 as R1 M1. injection R2 as R2 M2.
  set (l1 := map ComputeHash (vtx b1)) in *. set (l2 := map ComputeHash (vtx b2)) in *.
  assert (Hh : (height l1 ≤ height l2)%nat).
  { unfold height, l1, l2. rewrite !length_map. by apply Nat.log2_up_le_mono. }
  destruct (roots_level l1 l2) as [El|Hx]; [apply txids_ok..| | |done|done|done|congruence| |right; left; eapply hash_collision_mono, Hx; set_solver].
  1,2: by intros ?%map_eq_nil.
  destruct (height l2 - height l1)%nat as [|n] eqn:En.
  - unfold level in El. cbn in El. apply map_ComputeHash_inj in El as [El|Hx]; [by left|right; left; eapply hash_collision_mono, Hx; set_solver|done|done].
  - right. set (M := _ ++ _). pose proof (level_hashes n (height l1) l2 (txids_ok (vtx b2))) as Hl.
    rewrite <-El in Hl. replace (S n + height l1)%nat with (height l2) in Hl by lia. unfold l1 in Hl. rewrite Forall_map in Hl.
    destruct (Forall_or (λ tx, GetSerializeSize (TransactionF false) tx = 64) (hash_collision M) (vtx b1)); [|by right|by left].
    apply Forall_forall. intros tx Htx. apply list_elem_of_In in Htx as Hin. rewrite Forall_forall in Hl. destruct (Hl tx) as (a & b & E & Ha & Hb & Hm); [done|].
    destruct (inner_node_size tx a b) as [|Hx]; [done..|by left|right]. eapply hash_collision_mono, Hx.
    apply (list_elem_of_fmap_2 (SerializeTransaction false)) in Htx. change (_ <$> vtx b1) with (map (SerializeTransaction false) (vtx b1)) in Htx.
    unfold M. clear -Htx Hm. clearbody l1 l2. revert Htx Hm. generalize (map (SerializeTransaction false) (vtx b1)) (SerializeTransaction false tx) (a ++ b). set_solver.
Qed.

Lemma strip_tx_inj tx1 tx2 :
  strip tx1 = strip tx2 → map scriptWitness (vin tx1) = map scriptWitness (vin tx2) → tx1 = tx2.
Proof.
  destruct tx1 as [in1 o1 v1 n1], tx2 as [in2 o2 v2 n2]. unfold strip. cbn. intros [= E -> -> ->] W. f_equal.
  revert in2 E W. induction in1 as [|[p q r w] in1 IH]; intros [|[p' q' r' w'] in2]; cbn; try done.
  intros [= -> -> -> E] [= -> W]. f_equal. by apply IH.
Qed.

Lemma HasWitness_none ins : HasWitness ins = false → map scriptWitness ins = map (λ _, []) ins.
Proof.
  unfold HasWitness. rewrite existsb_Forall. induction 1 as [|i ins Hi _ IH]; [done|]. cbn [map]. rewrite IH. f_equal.
  by destruct (scriptWitness i).
Qed.

Lemma no_witness_same txs1 txs2 :
  Forall (λ tx, HasWitness (vin tx) = false) txs1 → Forall (λ tx, HasWitness (vin tx) = false) txs2 →
  map strip txs1 = map strip txs2 → txs1 = txs2.
Proof.
  intros F1. revert txs2. induction F1 as [|t1 txs1 W1 _ IH]; intros [|t2 txs2] F2 E; try done.
  apply Forall_cons in F2 as [W2 F2]. cbn [map] in E. apply (inj2 cons) in E as [E Es]. f_equal; [|by apply IH]. apply strip_tx_inj; [done|].
  rewrite !HasWitness_none by done. apply (f_equal vin) in E. cbn in E. clear -E.
  revert E. generalize (vin t2). induction (vin t1) as [|i ins IH]; intros [|i' ins'] E; cbn in *; try done. f_equal. apply IH.
  by injection E.
Qed.

Lemma GetWitnessCommitmentIndex_strip b1 b2 :
  map strip (vtx b1) = map strip (vtx b2) → GetWitnessCommitmentIndex b1 = GetWitnessCommitmentIndex b2.
Proof.
  intros E. unfold GetWitnessCommitmentIndex. destruct (vtx b1) as [|t1 l1], (vtx b2) as [|t2 l2]; try done.
  cbn [map] in E. apply (inj2 cons) in E as [E _]. apply (f_equal vout) in E. cbn in E. by rewrite E.
Qed.

Lemma wtxids_inj txs1 txs2 :
  Forall (serializable true) txs1 → Forall (serializable true) txs2 →
  map ComputeWitnessHash txs1 = map ComputeWitnessHash txs2 →
  txs1 = txs2 ∨ hash_collision (map (SerializeTransaction true) (txs1 ++ txs2)).
Proof.
  intros F1. revert txs2. induction F1 as [|t1 txs1 S1 _ IH]; intros [|t2 txs2] F2 E; try done; [by left|].
  apply Forall_cons in F2 as [S2 F2]. cbn [map] in E. apply (inj2 cons) in E as [E Es].
  destruct (ComputeWitnessHash_inj t1 t2 S1 S2 E) as [->|Hx]; [|right; eapply hash_collision_mono, Hx; set_solver].
  destruct (IH txs2 F2 Es) as [->|Hx]; [by left|right; eapply hash_collision_mono, Hx; set_solver].
Qed.

Lemma ComputeWitnessHash_ok tx : uint256_ok (ComputeWitnessHash tx).
Proof. unfold ComputeWitnessHash, ComputeHash. case_match; rewrite HashWriter_put_Hash; apply Hash_ok. Qed.

Lemma wtxids_ok txs : Forall uint256_ok (uint256_zero :: map ComputeWitnessHash txs).
Proof.
  constructor; [apply uint256_zero_ok|]. apply Forall_forall. intros h Hh. apply list_elem_of_fmap in Hh as (tx & -> & _).
  apply ComputeWitnessHash_ok.
Qed.

(** The messages hashed to compute and to commit to the witness root of a block. *)
Definition witness_ids (b : CBlock) : list uint256 := uint256_zero :: map ComputeWitnessHash (drop 1 (vtx b)).

Definition reserved_value (b : CBlock) : option bytes :=
  cb ← head (vtx b); txin ← head (vin cb); head (scriptWitness txin).

Definition witness_messages (b : CBlock) : list bytes :=
  map (SerializeTransaction true) (vtx b) ++ tree_messages (height (witness_ids b)) (witness_ids b) ++
  match reserved_value b with Some nonce => [BlockWitnessMerkleRoot b ++ nonce] | None => [] end.

Lemma drop_witness_messages b : map (SerializeTransaction true) (drop 1 (vtx b)) ⊆ map (SerializeTransaction true) (vtx b).
Proof. destruct (vtx b); cbn; [done|]. rewrite drop_0. set_solver. Qed.

Lemma witness_roots_inj b1 b2 :
  Forall (serializable true) (vtx b1) → Forall (serializable true) (vtx b2) → length (vtx b1) = length (vtx b2) →
  BlockWitnessMerkleRoot b1 = BlockWitnessMerkleRoot b2 → drop 1 (vtx b1) = drop 1 (vtx b2) ∨
  hash_collision (witness_messages b1 ++ witness_messages b2).
Proof.
  intros S1 S2 Hlen. unfold BlockWitnessMerkleRoot.
  assert (Hh : ∀ txs, Forall hash_ok (uint256_zero :: map ComputeWitnessHash txs)).
  { intros txs. eapply Forall_impl; [apply wtxids_ok|]. by intros ? []. }
  rewrite !ComputeMerkleRoot_spec by done. cbn [fst]. fold (witness_ids b1) (witness_ids b2).
  set (l1 := witness_ids b1). set (l2 := witness_ids b2).
  assert (El : length l1 = length l2) by (unfold l1, l2, witness_ids; cbn [length]; rewrite !length_map, !length_drop; lia).
  assert (Eh : height l1 = height l2) by (unfold height; by rewrite El). rewrite <-Eh. intros Heq. unfold witness_messages.
  destruct (mroot_inj_length (height l1) l1 l2) as [E|Hx]; [apply Hh..|done|split; [cbn; lia|apply length_le_height]|done| |].
  - unfold l1, l2 in E. apply (inj2 cons) in E as [_ E]. apply wtxids_inj in E as [|Hx]; [by left| |by apply Forall_drop..].
    right. eapply hash_collision_mono, Hx. rewrite map_app. pose proof (drop_witness_messages b1). pose proof (drop_witness_messages b2). set_solver.
  - right. eapply hash_collision_mono, Hx. fold l1 l2. rewrite <-Eh. set_solver.
Qed.

Lemma committed_same b1 b2 :
  Forall (serializable true) (vtx b1) → Forall (serializable true) (vtx b2) →
  starts_with_coinbase b1 → starts_with_coinbase b2 → map strip (vtx b1) = map strip (vtx b2) →
  witness_committed b1 → witness_committed b2 →
  vtx b1 = vtx b2 ∨ hash_collision (witness_messages b1 ++ witness_messages b2).
Proof.
  intros S1 S2 (cb1 & C1 & K1) (cb2 & C2 & K2) E (? & i1 & n1 & o1 & D1 & I1 & W1 & L1 & O1 & Q1) (? & i2 & n2 & o2 & D2 & I2 & W2 & L2 & O2 & Q2).
  rewrite C1 in D1. injection D1 as <-. rewrite C2 in D2. injection D2 as <-.
  assert (X1 : BlockWitnessMerkleRoot b1 ++ n1 ∈ witness_messages b1).
  { unfold witness_messages, reserved_value. rewrite C1. cbn [mbind option_bind]. rewrite I1. cbn [mbind option_bind]. rewrite W1. set_solver. }
  assert (X2 : BlockWitnessMerkleRoot b2 ++ n2 ∈ witness_messages b2).
  { unfold witness_messages, reserved_value. rewrite C2. cbn [mbind option_bind]. rewrite I2. cbn [mbind option_bind]. rewrite W2. set_solver. }
  assert (Hlen : length (vtx b1) = length (vtx b2)) by (rewrite <-(length_map strip), E; apply length_map).
  destruct (vtx b1) as [|? txs1] eqn:V1; [done|]. destruct (vtx b2) as [|? txs2] eqn:V2; [done|].
  injection C1 as ->. injection C2 as ->. pose proof E as Hstrip. cbn [map] in E. apply (inj2 cons) in E as [Ecb Etxs].
  rewrite (GetWitnessCommitmentIndex_strip b1 b2) in O1 by by rewrite V1, V2.
  assert (vout cb1 = vout cb2) as Ev by by apply (f_equal vout) in Ecb. rewrite Ev, O2 in O1. injection O1 as ->. rewrite <-Q2 in Q1.
  assert (Hr : ∀ b, length (BlockWitnessMerkleRoot b) = 32%nat) by (intros b; apply ComputeMerkleRoot_hash, wtxids_ok).
  apply Hash2_inj in Q1 as [[Er ->]|Hx]; [|right; eapply hash_collision_mono, Hx; set_solver|by rewrite !Hr].
  apply witness_roots_inj in Er as [Er|Hx]; [|by right|by rewrite ?V1|by rewrite ?V2|by rewrite V1, V2].
  rewrite V1, V2 in Er. cbn in Er. rewrite !drop_0 in Er. left. subst txs2. f_equal. apply strip_tx_inj; [done|].
  unfold IsCoinBase in K1, K2. destruct (vin cb1) as [|j1 [|]]; try done. destruct (vin cb2) as [|j2 [|]]; try done.
  injection I1 as ->. injection I2 as ->. cbn. by rewrite W1, W2.
Qed.

Context `{SIGS : Secp256k1Signatures}.

Lemma IsBlockMutated_false params block f f' :
  flags_sound params block f → starts_with_coinbase block → IsBlockMutated block true f = Some (false, f') →
  root_rule block ∧ witness_rule block true.
Proof.
  intros Hf Hcb. unfold IsBlockMutated. destruct (CheckMerkleRoot_spec params block f Hf) as (v & f1 & -> & Hf1 & Hv).
  destruct v as [e|]; [done|]. pose proof Hcb as (cb & Hhd & Hc). assert (match vtx block with cb :: _ => IsCoinBase cb | [] => false end = true) as ->
    by (destruct (vtx block); [done|]; by injection Hhd as ->). cbn [negb].
  destruct (CheckWitnessMalleation_spec params block true f1 Hf1 Hcb) as (w & f2 & -> & _ & Hw). cbn [mbind option_bind].
  intros [= Hb <-]. apply bool_decide_eq_false in Hb. split; [by apply Hv|]. apply Hw. destruct w; [|done]. by destruct Hb.
Qed.
(** C4: Blocks that are not mutated are determined by their hash.  Let two blocks read from the network
    start with a coinbase and not be [IsBlockMutated], whatever earlier checks their flags remember.
    If they have the same hash then they are the same block with all witnesses, unless two of
    the messages hashed for them collide under double SHA-256 or the coinbase of one of them is 64
    bytes long. *)
Theorem unmutated_block_unique (params : ConsensusParams) (b1 b2 : CBlock) (f1 f2 f1' f2' : block_flags) :
  block_ok true b1 → block_ok true b2 → starts_with_coinbase b1 → starts_with_coinbase b2 →
  flags_sound params b1 f1 → flags_sound params b2 f2 →
  IsBlockMutated b1 true f1 = Some (false, f1') → IsBlockMutated b2 true f2 = Some (false, f2') →
  CBlockHeader_GetHash (header b1) = CBlockHeader_GetHash (header b2) →
  b1 = b2 ∨ hash_collision (block_messages b1 ++ witness_messages b1 ++ block_messages b2 ++ witness_messages b2) ∨
  ∃ b cb, (b = b1 ∨ b = b2) ∧ head (vtx b) = Some cb ∧ GetSerializeSize (TransactionF false) cb = 64.
Proof.
  intros (H1 & _ & S1) (H2 & _ & S2) C1 C2 F1 F2 M1 M2 Heq.
  apply (IsBlockMutated_false params) in M1 as [R1 W1]; [|done..]. apply (IsBlockMutated_false params) in M2 as [R2 W2]; [|done..].
  assert (T1 : Forall tx_ok (vtx b1)) by (eapply Forall_impl; [exact S1|by intros ? []]).
  assert (T2 : Forall tx_ok (vtx b2)) by (eapply Forall_impl; [exact S2|by intros ? []]).
  assert (N1 : vtx b1 ≠ []) by (destruct C1 as (? & ? & _); by destruct (vtx b1)).
  assert (N2 : vtx b2 ≠ []) by (destruct C2 as (? & ? & _); by destruct (vtx b2)).
  set (M := block_messages b1 ++ _).
  assert (Hstrip : (header b1 = header b2 ∧ map strip (vtx b1) = map strip (vtx b2)) ∨ hash_collision M ∨
    ∃ b cb, (b = b1 ∨ b = b2) ∧ head (vtx b) = Some cb ∧ GetSerializeSize (TransactionF false) cb = 64).
  { destruct (Nat.le_ge_cases (length (vtx b1)) (length (vtx b2))) as [Hle|Hle].
    - destruct (same_header_stripped b1 b2) as [|[Hx|Hf]]; try done; [by left|right; left; eapply hash_collision_mono, Hx; set_solver|]. right; right.
      destruct C1 as (cb & Hcb & _). exists b1, cb. split_and!; [by left|done|]. destruct (vtx b1); [done|]. injection Hcb as ->. by inversion_clear Hf.
    - destruct (same_header_stripped b2 b1) as [[? ?]|[Hx|Hf]]; try done; [by left|right; left; eapply hash_collision_mono, Hx; set_solver|]. right; right.
      destruct C2 as (cb & Hcb & _). exists b2, cb. split_and!; [by right|done|]. destruct (vtx b2); [done|]. injection Hcb as ->. by inversion_clear Hf. }
  destruct Hstrip as [[Hhd Hs]|]; [|by right]. unfold witness_rule in W1, W2. rewrite (GetWitnessCommitmentIndex_strip b1 b2 Hs) in W1.
  assert (vtx b1 = vtx b2 ∨ hash_collision M) as [Hv|]; [|left|by right; left].
  { destruct (_ && _); [|left; by apply no_witness_same]. destruct (committed_same b1 b2) as [|Hx]; try done; [by left|right].
    eapply hash_collision_mono, Hx. set_solver. }
  destruct b1, b2; cbn in *. by subst.
Qed.

(** ** Generated commitments *)

Lemma is_witness_commitment_output hash : length hash = 32%nat → is_witness_commitment (scriptPubKey (commitment_output hash)) = true.
Proof.
  intros Hl. unfold is_witness_commitment, commitment_output. cbn [scriptPubKey]. rewrite length_app, Hl. done.
Qed.

Lemma commitment_index_push cb out txs h :
  is_witness_commitment (scriptPubKey out) = true →
  GetWitnessCommitmentIndex {| header := h; vtx := push_output cb out :: txs |} = zlen (vout cb).
Proof.
  intros Ho. unfold GetWitnessCommitmentIndex. cbn [vtx vout push_output]. rewrite length_app, Nat.add_1_r, seq_S, foldl_app.
  cbn [foldl]. rewrite Nat.add_0_l, lookup_app_r, Nat.sub_diag by lia. cbn [lookup list_lookup]. by rewrite Ho.
Qed.

(** What stays of a block to which a commitment was added. *)
Definition commitment_added (block block' : CBlock) (cb : CTransaction) : Prop :=
  header block' = header block ∧ drop 1 (vtx block') = drop 1 (vtx block) ∧
  ∃ cb' out, head (vtx block') = Some cb' ∧ map strip_in (vin cb') = map strip_in (vin cb) ∧ vout cb' = vout cb ++ [out] ∧ nValue out = 0.

Lemma generated_commitment_active (params : ConsensusParams) (block : CBlock) (prev : option CBlockIndex) (cb : CTransaction) :
  head (vtx block) = Some cb → IsCoinBase cb = true → HasWitness (vin cb) = false →
  GetWitnessCommitmentIndex block = NO_WITNESS_COMMITMENT → DeploymentActiveAfter params prev DEPLOYMENT_SEGWIT = true →
  ∃ block' f', GenerateCoinbaseCommitment params block prev = Some block' ∧
    CheckWitnessMalleation block' true unchecked = Some (None, f') ∧ commitment_added block block' cb.
Proof.
  intros Hhd Hcb Hw Hi Hseg. unfold GenerateCoinbaseCommitment. rewrite Hi, Z.eqb_refl, Hhd. cbn [mbind option_bind].
  destruct block as [h [|? txs]]; [done|]. injection Hhd as ->. set (out := commitment_output _). set (cb1 := push_output cb out).
  change (set_vtx0 {| header := h; vtx := cb :: txs |} cb1) with {| header := h; vtx := cb1 :: txs |}.
  assert (Ho : is_witness_commitment (scriptPubKey out) = true).
  { apply is_witness_commitment_output. rewrite Hash2_app. apply Hash_ok. }
  assert (Ei : GetWitnessCommitmentIndex {| header := h; vtx := cb1 :: txs |} = zlen (vout cb)) by by apply commitment_index_push.
  unfold UpdateUncommittedBlockStructures. rewrite Ei, Hseg.
  rewrite (proj2 (Z.eqb_neq _ _)) by (unfold NO_WITNESS_COMMITMENT; lia). cbn [negb andb vtx head mbind option_bind].
  change (vin cb1) with (vin cb). rewrite Hw. unfold IsCoinBase in Hcb. destruct (vin cb) as [|txin [|]] eqn:Ein; try done.
  cbn [head mbind option_bind]. set (cb2 := set_witness0 cb1 [replicate 32 0]).
  change (set_vtx0 {| header := h; vtx := cb1 :: txs |} cb2) with {| header := h; vtx := cb2 :: txs |}.
  eexists _, _. split; [done|]. unfold CheckWitnessMalleation, commitment_added. cbn zeta.
  cbn [m_checked_witness_commitment unchecked andb].
  assert (GetWitnessCommitmentIndex {| header := h; vtx := cb2 :: txs |} = zlen (vout cb)) as ->.
  { exact (commitment_index_push cb out txs h Ho). }
  rewrite (proj2 (Z.eqb_neq _ _)) by (unfold NO_WITNESS_COMMITMENT; lia). cbn [negb vtx head mbind option_bind].
  assert (vin cb2 = [with_witness txin [replicate 32 0]]) as -> by (unfold cb2, set_witness0, cb1; cbn; by rewrite Ein).
  cbn [head mbind option_bind scriptWitness with_witness length replicate Nat.eqb negb].
  assert (vout cb2 !! Z.to_nat (zlen (vout cb)) = Some out) as ->.
  { unfold cb2, cb1. cbn [vout set_witness0 push_output]. rewrite Nat2Z.id, lookup_app_r, Nat.sub_diag by lia. done. }
  cbn [mbind option_bind]. change (BlockWitnessMerkleRoot {| header := h; vtx := cb2 :: txs |})
    with (BlockWitnessMerkleRoot {| header := h; vtx := cb :: txs |}).
  rewrite bool_decide_true; [split; [done|]|].
  - split; [done|]. split; [done|]. exists cb2, out. split; [done|]. split; [|done]. unfold cb2, cb1. cbn. by rewrite Ein.
  - unfold out, commitment_output. cbn [scriptPubKey]. rewrite (drop_app_le _ _ 6) by (cbn; lia). cbn [drop app].
    rewrite take_ge; [done|]. rewrite Hash2_app. by destruct (Hash_ok (BlockWitnessMerkleRoot {| header := h; vtx := cb :: txs |} ++ replicate 32 0)) as [-> _].
Qed.

(** Before segwit the reserved value is not added, and no commitment is asked for. *)
Lemma generated_commitment_inactive (params : ConsensusParams) (block : CBlock) (prev : option CBlockIndex) (cb : CTransaction) :
  head (vtx block) = Some cb → GetWitnessCommitmentIndex block = NO_WITNESS_COMMITMENT →
  DeploymentActiveAfter params prev DEPLOYMENT_SEGWIT = false →
  ∃ block', GenerateCoinbaseCommitment params block prev = Some block' ∧ commitment_added block block' cb ∧
    (Forall (λ tx, HasWitness (vin tx) = false) (vtx block) → CheckWitnessMalleation block' false unchecked = Some (None, unchecked)).
Proof.
  intros Hhd Hi Hseg. unfold GenerateCoinbaseCommitment, UpdateUncommittedBlockStructures. rewrite Hi, Z.eqb_refl, Hhd, Hseg.
  cbn [mbind option_bind]. rewrite andb_false_r. destruct block as [h [|? txs]]; [done|]. injection Hhd as ->.
  set (out := commitment_output _). eexists. split; [done|]. split.
  { split; [done|]. split; [done|]. by exists (push_output cb out), out. }
  intros Hf. unfold CheckWitnessMalleation, no_witness. cbn [andb]. rewrite (proj2 (existsb_Forall _ _)); [done|].
  cbn [vtx set_vtx0]. apply Forall_cons in Hf as [Hf1 Hf2]. by apply Forall_cons_2.
Qed.

(** C10: [GenerateCoinbaseCommitment] adds to a block without a commitment, whose coinbase has no
    witness, an output worth nothing with the commitment; the header, the other transactions, the
    inputs of the coinbase up to their witness and its other outputs stay the same.  Once segwit is
    active for the block, it also adds the reserved value, and [CheckWitnessMalleation], which then
    expects a commitment, accepts the result.  Before, it expects none and accepts the result when no
    transaction has a witness. *)
Theorem generated_commitment_valid (params : ConsensusParams) (block : CBlock) (prev : option CBlockIndex) (cb : CTransaction) :
  head (vtx block) = Some cb → IsCoinBase cb = true → HasWitness (vin cb) = false →
  GetWitnessCommitmentIndex block = NO_WITNESS_COMMITMENT →
  ∃ block', GenerateCoinbaseCommitment params block prev = Some block' ∧ commitment_added block block' cb ∧
    let active := DeploymentActiveAfter params prev DEPLOYMENT_SEGWIT in
    (active = true ∨ Forall (λ tx, HasWitness (vin tx) = false) (vtx block) →
     ∃ f', CheckWitnessMalleation block' active unchecked = Some (None, f')).
Proof.
  intros Hhd Hcb Hw Hi. destruct (DeploymentActiveAfter params prev DEPLOYMENT_SEGWIT) eqn:Hseg.
  - destruct (generated_commitment_active params block prev cb Hhd Hcb Hw Hi Hseg) as (block' & f' & E & Hm & Ha).
    exists block'. split; [done|]. split; [done|]. intros active _. by exists f'.
  - destruct (generated_commitment_inactive params block prev cb Hhd Hi Hseg) as (block' & E & Ha & Hm).
    exists block'. split; [done|]. split; [done|]. intros active [Ht|Hf]; [discriminate Ht|]. exists unchecked. by apply Hm.
Qed.

(** ** Heights in coinbases *)

Lemma push_int64_prefix n1 n2 s : Z.abs n1 < 2 ^ 63 → Z.abs n2 < 2 ^ 63 →
  push_int64 n1 `prefix_of` s → push_int64 n2 `prefix_of` s → n1 = n2.
Proof.
  intros H1 H2 [r1 ->] [r2 E].
  destruct (proj2 script_push_reads_back n1 r1 H1) as (o1 & d1 & G1 & D1).
  destruct (proj2 script_push_reads_back n2 r2 H2) as (o2 & d2 & G2 & D2).
  rewrite <-E, G1 in G2. injection G2 as <- <- _. unfold OP_1, OP_PUSHDATA4, OP_1NEGATE in *.
  destruct D1 as [(? & -> & _)|(? & -> & ?)], D2 as [(? & E2 & _)|(? & ? & ?)]; try lia.
  apply (f_equal num_decode) in E2. destruct (serialize_num_decode n1 ltac:(lia)) as (_ & _ & X1 & _), (serialize_num_decode n2 ltac:(lia)) as (_ & _ & X2 & _).
  congruence.
Qed.

(** C7: BIP 34: coinbases of different heights differ.  Two blocks that [ContextualCheckBlock] accepts
    on parents of different heights, both past the activation, have coinbases with different
    transaction ids, unless their serializations collide under double SHA-256. *)
Theorem coinbase_heights_differ (params : ConsensusParams) (m : BlockMap) (p1 p2 : ptr) (prev1 prev2 : CBlockIndex)
    (b1 b2 : CBlock) (cb1 cb2 : CTransaction) (f1 f2 f1' f2' : block_flags) :
  linked m → m !! p1 = Some prev1 → m !! p2 = Some prev2 → nHeight prev1 ≠ nHeight prev2 →
  nHeight prev1 < 2 ^ 31 - 1 → nHeight prev2 < 2 ^ 31 - 1 →
  BIP34Height params ≤ nHeight prev1 + 1 → BIP34Height params ≤ nHeight prev2 + 1 →
  flags_sound params b1 f1 → flags_sound params b2 f2 → coinbase_first b1 → coinbase_first b2 →
  ContextualCheckBlock params m (Some p1) b1 f1 = Some (None, f1') → ContextualCheckBlock params m (Some p2) b2 f2 = Some (None, f2') →
  head (vtx b1) = Some cb1 → head (vtx b2) = Some cb2 → tx_ok cb1 → tx_ok cb2 →
  ComputeHash cb1 ≠ ComputeHash cb2 ∨ hash_collision [SerializeTransaction false cb1; SerializeTransaction false cb2].
Proof.
  intros Hl P1 P2 Hne B1 B2 A1 A2 F1 F2 C1 C2 X1 X2 D1 D2 T1 T2.
  pose proof (linked_height m Hl p1 prev1 P1). pose proof (linked_height m Hl p2 prev2 P2).
  destruct (ContextualCheckBlock_spec params m p1 prev1 b1 f1 Hl F1 (coinbase_first_starts _ C1) P1 B1) as (v1 & ? & E1 & _ & R1).
  destruct (ContextualCheckBlock_spec params m p2 prev2 b2 f2 Hl F2 (coinbase_first_starts _ C2) P2 B2) as (v2 & ? & E2 & _ & R2).
  rewrite X1 in E1. rewrite X2 in E2. injection E1 as <- <-. injection E2 as <- <-.
  destruct (proj1 R1 eq_refl) as [_ Q1 _ _], (proj1 R2 eq_refl) as [_ Q2 _ _]. specialize (Q1 A1 cb1). specialize (Q2 A2 cb2).
  destruct (decide (ComputeHash cb1 = ComputeHash cb2)) as [Heq|]; [|by left]. right.
  apply ComputeHash_inj in Heq as [Heq|]; [|done..]. exfalso. apply Hne.
  destruct C1 as (? & ? & V1 & K1 & _), C2 as (? & ? & V2 & K2 & _). rewrite V1 in D1. rewrite V2 in D2. injection D1 as ->. injection D2 as ->.
  unfold IsCoinBase in K1, K2. apply (f_equal vin) in Heq. cbn in Heq.
  destruct (vin cb1) as [|i1 [|]]; try done. destruct (vin cb2) as [|i2 [|]]; try done. cbn in Heq. injection Heq as _ Hs _.
  rewrite V1 in Q1. rewrite V2 in Q2. specialize (Q1 i1 eq_refl eq_refl). specialize (Q2 i2 eq_refl eq_refl). rewrite Hs in Q1.
  assert (nHeight prev1 + 1 = nHeight prev2 + 1); [|lia]. apply (push_int64_prefix _ _ (scriptSig i2)); try done; lia.
Qed.
End Binding.
