(* ===== verification/ScriptExamples.v ===== *)
(** * Examples of script verification

    An instance of the signature interface and small transactions at which the theorems about
    scripts apply. *)

From S2P Require Import Prelude Endian Serialize Hasher Sha256 Hash Primitives Script PubKey Interpreter InterpreterTheory SigHash SigHashTheory VerifyScript VerifyTheory ScriptCaching CoinsStack.
From Stdlib Require Import ZArith Lia.
From stdpp Require Import base option list numbers gmap.

Open Scope Z_scope.
Open Scope kernel_scope.

(** A scheme over the single key of [generator_only] in which a signature is valid when its last
    byte is that of the digest. *)
#[export] Instance toy_signatures : Secp256k1Signatures.
Proof.
  refine {|
    secp_signature := Z;
    ecdsa_signature_parse_compact b := if decide (length b = 64%nat) then Some (back b) else None;
    ecdsa_signature_normalize s := (s, false);
    ecdsa_verify s h _ := s =? back h;
    secp_recoverable := unit;
    ecdsa_recoverable_parse_compact _ _ := None;
    ecdsa_recover _ _ := None;
    ec_pubkey_tweak_add _ _ := None;
    secp_xonly := unit;
    xonly_pubkey_parse b := if decide (b = gen_x) then Some tt else None;
    xonly_pubkey_serialize _ := gen_x;
    xonly_pubkey_from_pubkey _ := (tt, false);
    xonly_pubkey_tweak_add _ _ := None;
    xonly_pubkey_tweak_add_check _ _ _ _ := false;
    schnorrsig_verify s h _ := back s =? back h;
    invalid_signature := 0 |}.
  reflexivity.
Defined.
#[export] Instance example_abi : ABI := x86_64.

Definition spending_tx : CTransaction := {|
  vin := [{| prevout := point_a; scriptSig := []; nSequence := SEQUENCE_FINAL; scriptWitness := [[1]; [2; 3]] |}];
  vout := [{| nValue := 1000; scriptPubKey := [OP_1] |}];
  version := 2; nLockTime := 0 |}.
Definition taproot_out : CTxOut := {| nValue := 5000; scriptPubKey := [OP_1; 32] ++ gen_x |}.
Definition plain_code : list bytes := [[OP_DUP]; [OP_CODESEPARATOR]; [2; 7; 7]; [OP_CHECKSIG]].

Lemma plain_code_instrs : Forall is_instr plain_code.
Proof.
  repeat constructor.
  - by exists [OP_DUP], OP_DUP, []; split; [|right].
  - by exists [OP_CODESEPARATOR], OP_CODESEPARATOR, []; split; [|right].
  - by exists [2], 2, [7; 7]; split; [|left; left].
  - by exists [OP_CHECKSIG], OP_CHECKSIG, []; split; [|right].
Qed.

Lemma legacy_signature_serialization_witness :
  SerializeSignature spending_tx (concat plain_code ++ []) 0 SIGHASH_ALL =
  SerializeTransaction false (rewritten_transaction spending_tx plain_code 0 SIGHASH_ALL).
Proof. apply legacy_signature_serialization; [split; [apply plain_code_instrs|done]|done|simpl; lia|done]. Defined.

Lemma signature_hash_message_witness :
  SignatureHash (concat plain_code) spending_tx 0 SIGHASH_ALL 5000 WITNESS_V0 None None =
  inr (sighash_spec spending_tx 0 5000 WITNESS_V0 (concat plain_code) SIGHASH_ALL, None).
Proof.
  apply (signature_hash_message spending_tx 0 5000 WITNESS_V0 None SigHashCache_new (concat plain_code) SIGHASH_ALL);
    [simpl; lia|done|apply cache_ok_new].
Defined.

Definition taproot_data : PrecomputedTransactionData :=
  default {| m_prevouts_single_hash := []; m_sequences_single_hash := []; m_outputs_single_hash := []; m_spent_amounts_single_hash := [];
    m_spent_scripts_single_hash := []; m_bip341_taproot_ready := false; hashPrevouts := []; hashSequence := []; hashOutputs := [];
    m_bip143_segwit_ready := false; m_spent_outputs := []; m_spent_outputs_ready := false |} (Init spending_tx [taproot_out] false).
Lemma taproot_data_Init : Init spending_tx [taproot_out] false = Some taproot_data.
Proof. reflexivity. Qed.

Lemma taproot_hash_message_witness :
  SignatureHashSchnorr (set_annex None ScriptExecutionData_new) spending_tx 0 SIGHASH_DEFAULT TAPROOT taproot_data ASSERT_FAIL =
  inr (Some (tapsighash (bip341_message spending_tx [taproot_out] 0 SIGHASH_DEFAULT all_outputs false TAPROOT (set_annex None ScriptExecutionData_new)),
             set_annex None ScriptExecutionData_new)).
Proof.
  apply (taproot_hash_message spending_tx [taproot_out] false taproot_data (set_annex None ScriptExecutionData_new) 0
    SIGHASH_DEFAULT TAPROOT ASSERT_FAIL); [by left|simpl; lia|done|apply taproot_data_Init|reflexivity|by split|done].
Defined.

Lemma flags_are_soft_forks_witness :
  accepts (VerifyScript base_checker (script_verify_flags SCRIPT_VERIFY_P2SH) [OP_1] [OP_NOP] [] ()).
Proof.
  apply (flags_are_soft_forks base_checker (script_verify_flags SCRIPT_VERIFY_P2SH)
    (script_verify_flags SCRIPT_VERIFY_P2SH .| script_verify_flags SCRIPT_VERIFY_WITNESS .| script_verify_flags SCRIPT_VERIFY_CLEANSTACK)).
  - by intros [].
  - by split.
  - by exists ().
Defined.

Lemma bytes_ok_decide (b : bytes) : bool_decide (Forall (λ x, 0 ≤ x < 2 ^ 8) b) = true → bytes_ok b.
Proof. by intros H%bool_decide_eq_true. Qed.

Lemma script_check_returns_witness :
  returns (VerifyScript (GenericTransactionSignatureChecker spending_tx 0 5000 (Some taproot_data) ASSERT_FAIL)
    (script_verify_flags SCRIPT_VERIFY_P2SH .| script_verify_flags SCRIPT_VERIFY_WITNESS .| script_verify_flags SCRIPT_VERIFY_TAPROOT)
    [] ([OP_1; 32] ++ gen_x) [[1]; [2; 3]] SigHashCache_new).
Proof.
  apply (script_check_returns spending_tx [taproot_out] false taproot_data 0
    {| prevout := point_a; scriptSig := []; nSequence := SEQUENCE_FINAL; scriptWitness := [[1]; [2; 3]] |} taproot_out);
    [apply taproot_data_Init|reflexivity|reflexivity|..].
  - split; [by apply bytes_ok_decide|done].
  - split; [by apply bytes_ok_decide|done].
  - split; [|done]. repeat (apply Forall_cons_2; [split; [by apply bytes_ok_decide|done]|]). constructor.
  - done.
  - by split.
Defined.

(** A script that checks a signature twice, the second time with the cached midstate. *)
Definition two_checks : bytes := [OP_DUP; 33; 2] ++ gen_x ++ [OP_CHECKSIG; OP_DROP; 33; 2] ++ gen_x ++ [OP_CHECKSIG; OP_NOT].
Lemma verify_script_caches_transparent_witness :
  (VerifyScript (GenericTransactionSignatureChecker spending_tx 0 5000 None FAIL) 0 [2; 7; 1] two_checks [] SigHashCache_new ≫= λ _, mret ()) =
  VerifyScript (reference_checker spending_tx 0 5000 None FAIL) 0 [2; 7; 1] two_checks [] ().
Proof.
  apply (verify_script_caches_transparent spending_tx 0 5000 None FAIL); [simpl; lia|done|by apply bytes_ok_decide|by apply bytes_ok_decide].
Defined.

(** A checker with no state that accepts a signature for the key with the same bytes. *)
Definition equality_checker : BaseSignatureChecker unit := {|
  CheckECDSASignature sig key _ _ c := mret (bool_decide (sig = key), c);
  CheckSchnorrSignature _ _ _ e c := mret (e, c);
  CheckLockTime _ := false;
  CheckSequence _ := false |}.
Definition multisig_state : EvalState (C:=unit) :=
  start [[2]; [10]; [11]; [1]; [11]; []; [99]] [OP_CHECKMULTISIG] ScriptExecutionData_new ().

Lemma checkmultisig_matches_in_order_witness :
  ∃ st' b, op_checkmultisig equality_checker 0 WITNESS_V0 OP_CHECKMULTISIG multisig_state = inr st' ∧ Interpreter.stack st' = of_bool b :: [[99]].
Proof.
  eexists. destruct (checkmultisig_matches_in_order equality_checker 0 WITNESS_V0 (λ _ sig key, bool_decide (sig = key))
    ltac:(intros; by eexists) multisig_state (set_check [[1]; [99]] (execdata multisig_state) () (set_nOpCount 2 multisig_state))
    [2] [1] [] [[10]; [11]] [[11]] [[99]]) as (b & Hb & _); try reflexivity; [simpl; lia..|].
  exists b. split; [reflexivity|exact Hb].
Defined.

Lemma evaluation_type_sound_witness :
  ∃ s' e' c', EvalScript equality_checker 0 BASE [[5]] [OP_DUP; OP_EQUAL] ScriptExecutionData_new () = inr (s', e', c') ∧ Forall item_ok s'.
Proof.
  do 3 eexists. split; [reflexivity|].
  apply (evaluation_type_sound equality_checker 0 BASE [[5]] [OP_DUP; OP_EQUAL] ScriptExecutionData_new ());
    [by split|done|by apply bytes_ok_decide|done|done| |done].
  apply Forall_cons_2; [split; [by apply bytes_ok_decide|done]|constructor].
Defined.

Lemma FindAndDelete_removes_witness :
  FindAndDelete (concat plain_code ++ []) [OP_DUP] = (concat [[OP_CODESEPARATOR]; [2; 7; 7]; [OP_CHECKSIG]] ++ [], 1).
Proof.
  apply (FindAndDelete_removes [OP_DUP] plain_code []).
  - by exists [OP_DUP], OP_DUP, []; split; [|right].
  - split; [apply plain_code_instrs|done].
Defined.

Lemma script_num_codec_witness : CScriptNum (serialize (-1000)) true 4 = inr (-1000).
Proof. apply script_num_codec; [lia|]. change (2 ^ (8 * 4 - 1)) with 2147483648. lia. Defined.
