(* ===== verification/BlockExamples.v ===== *)
(** * Examples of block validation

    The first blocks of the main chain, small variants of them and views of coins at which the
    theorems about blocks apply. *)

From S2P Require Import Prelude Endian ArithUint256 Serialize Hasher Sha256 Hash Primitives Script PubKey Interpreter SigHash VerifyScript VerifyTheory Merkle BlockIndex Pow MedianTime VersionBits Headers CoinsList Coins CoinsProgram Compressor DbWrapper TxDb CoinsStack TxVerify Signet CheckBlock BlockBinding ScriptExamples.
From Stdlib Require Import ZArith Lia.
From stdpp Require Import base option list numbers strings gmap.

Open Scope Z_scope.
Open Scope kernel_scope.

#[export] Existing Instance portable.

(** ** The first block after genesis *)

Definition coinbase1_script : bytes :=
  65 :: rev (digits 8 65 0x0496b538e853519c726a2c91e61ec11600ae1390813a627c66fb8be7947be63c52da7589379515d4e0a604f8141781e62294721166bf621e73a82cbf2342c858ee)
  ++ [OP_CHECKSIG].
Definition coinbase_of (sig script : bytes) : CTransaction := {|
  vin := [{| prevout := COutPoint_null; scriptSig := sig; nSequence := SEQUENCE_FINAL; scriptWitness := [] |}];
  vout := [{| nValue := 5000000000; scriptPubKey := script |}]; version := 1; nLockTime := 0 |}.
Definition coinbase1 : CTransaction := coinbase_of [4; 255; 255; 0; 29; 1; 4] coinbase1_script.
Definition block1 : CBlock := {| header := main_block1; vtx := [coinbase1] |}.

Lemma coinbase1_ok : tx_ok coinbase1.
Proof. unfold coinbase1, coinbase_of, coinbase1_script. solve_ok. Qed.

Lemma CheckTransaction_exact_witness : tx_rules coinbase1.
Proof. apply (CheckTransaction_exact coinbase1); [reflexivity|]. vm_compute. reflexivity. Defined.

(** The index with the first two blocks. *)
Definition genesis_hash : uint256 := hashGenesisBlock main_consensus.
Definition block1_hash : uint256 := CBlockHeader_GetHash main_block1.
Definition two_blocks : BlockManager := after main_index main_block1.
Definition entry (p : ptr) : CBlockIndex :=
  match m_block_index two_blocks !! p with Some b => b | None => CBlockIndex_make CBlockHeader_null end.

Lemma two_blocks_reachable : reachable two_blocks.
Proof.
  apply after_reachable; [apply after_reachable; [constructor|]|].
  - split_and!; [by split|vm_compute; discriminate|done].
  - split_and!; [by split|vm_compute; discriminate|]. intros prev Hp.
    assert (nHeight <$> m_block_index main_index !! hashPrevBlock main_block1 = Some 0) as H0 by (vm_compute; reflexivity).
    rewrite Hp in H0. injection H0 as ->. lia.
Qed.

Lemma two_blocks_entries :
  m_block_index two_blocks !! genesis_hash = Some (entry genesis_hash) ∧ nHeight (entry genesis_hash) = 0 ∧
  m_block_index two_blocks !! block1_hash = Some (entry block1_hash) ∧ nHeight (entry block1_hash) = 1.
Proof. split_and!; vm_compute; reflexivity. Qed.

Lemma two_blocks_linked : linked (m_block_index two_blocks) ∧ skips_ok (m_block_index two_blocks).
Proof. destruct (reachable_inv _ two_blocks_reachable) as [Hl Hs _ _ _]. done. Qed.

(** Mainnet's block 1 is accepted on top of genesis. *)
Lemma block1_starts : starts_with_coinbase block1.
Proof. exists coinbase1. split; [done|]. vm_compute. reflexivity. Qed.

Lemma block_checks_exact_witness : block_rules main_consensus block1 true true ∧
  contextual_rules main_consensus (m_block_index two_blocks) genesis_hash (entry genesis_hash) block1.
Proof.
  destruct two_blocks_entries as (Hg & Hh & _).
  destruct (block_checks_exact main_consensus (m_block_index two_blocks) genesis_hash (entry genesis_hash) block1 true true unchecked)
    as [(v & f1 & E & _ & Hv) Hc].
  - apply two_blocks_linked.
  - exact Hg.
  - rewrite Hh. lia.
  - apply Forall_cons_2; [apply coinbase1_ok|constructor].
  - split; [done|constructor].
  - reflexivity.
  - apply unchecked_sound.
  - assert (X : CheckBlock main_consensus block1 true true unchecked = Some (None, set_fChecked (set_merkle_root unchecked))) by (vm_compute; reflexivity).
    rewrite X in E. injection E as <- <-. split; [by apply Hv|]. destruct (Hc block1_starts) as (w & f2 & E & _ & Hw).
    assert (Y : ContextualCheckBlock main_consensus (m_block_index two_blocks) (Some genesis_hash) block1 unchecked
      = Some (None, unchecked)) by (vm_compute; reflexivity).
    rewrite Y in E. injection E as <- _. by apply Hw.
Defined.

Lemma block1_ok : block_ok true block1.
Proof.
  split; [|split; [done|]].
  - split_and!; try done; apply (bool_decide_unpack _); vm_compute; exact I.
  - apply Forall_cons_2; [|constructor]. split; [apply coinbase1_ok|by left].
Qed.

Lemma unmutated_block_unique_witness :
  block1 = block1 ∨ hash_collision (block_messages block1 ++ witness_messages block1 ++ block_messages block1 ++ witness_messages block1) ∨
  ∃ b cb, (b = block1 ∨ b = block1) ∧ head (vtx b) = Some cb ∧ GetSerializeSize (TransactionF false) cb = 64.
Proof.
  apply (unmutated_block_unique main_consensus block1 block1 unchecked unchecked (set_merkle_root unchecked) (set_merkle_root unchecked)).
  1,2: exact block1_ok. 1,2: exact block1_starts. 1,2: apply unchecked_sound. 1,2: vm_compute; reflexivity. reflexivity.
Defined.

(** ** A chain with all deployments from its first block on *)

Definition early_consensus : ConsensusParams := {|
  deployments := deployments main_consensus; hashGenesisBlock := genesis_hash; nSubsidyHalvingInterval := 210000;
  script_flag_exceptions := ∅; BIP34Height := 1; BIP34Hash := uint256_zero; BIP65Height := 1; BIP66Height := 1; CSVHeight := 1; SegwitHeight := 1;
  signet_blocks := true; signet_challenge := [OP_1] |}.
Definition early_block (height : Z) : CBlock :=
  {| header := main_block1; vtx := [coinbase_of (push_int64 height ++ [0; 0]) [OP_1]] |}.

Lemma early_coinbases_ok : tx_ok (coinbase_of (push_int64 1 ++ [0; 0]) [OP_1]) ∧ tx_ok (coinbase_of (push_int64 2 ++ [0; 0]) [OP_1]).
Proof. split; unfold coinbase_of; solve_ok. Qed.

Lemma coinbase_heights_differ_witness :
  let cb h := coinbase_of (push_int64 h ++ [0; 0]) [OP_1] in
  ComputeHash (cb 1) ≠ ComputeHash (cb 2) ∨ hash_collision [SerializeTransaction false (cb 1); SerializeTransaction false (cb 2)].
Proof.
  intros cb. destruct two_blocks_entries as (Hg & Hg0 & H1 & Hh1).
  assert (F : ∀ h, coinbase_first (early_block h)) by (intros h; eexists _, []; split_and!; [done|done|constructor]).
  apply (coinbase_heights_differ early_consensus (m_block_index two_blocks) genesis_hash block1_hash (entry genesis_hash)
    (entry block1_hash) (early_block 1) (early_block 2) (cb 1) (cb 2) unchecked unchecked unchecked unchecked).
  - apply two_blocks_linked.
  - exact Hg.
  - exact H1.
  - by rewrite Hg0, Hh1.
  - rewrite Hg0. lia.
  - rewrite Hh1. lia.
  - rewrite Hg0. cbn. lia.
  - rewrite Hh1. cbn. lia.
  - apply unchecked_sound.
  - apply unchecked_sound.
  - apply F.
  - apply F.
  - vm_compute. reflexivity.
  - vm_compute. reflexivity.
  - reflexivity.
  - reflexivity.
  - apply early_coinbases_ok.
  - apply early_coinbases_ok.
Defined.

Lemma generated_commitment_valid_witness :
  ∃ block' f', GenerateCoinbaseCommitment early_consensus (early_block 1) (Some (entry genesis_hash)) = Some block' ∧
    CheckWitnessMalleation block' true unchecked = Some (None, f').
Proof.
  destruct (generated_commitment_valid early_consensus (early_block 1) (Some (entry genesis_hash)) (coinbase_of (push_int64 1 ++ [0; 0]) [OP_1]))
    as (block' & H1 & _ & H2); [reflexivity|reflexivity|reflexivity|vm_compute; reflexivity|].
  assert (A : DeploymentActiveAfter early_consensus (Some (entry genesis_hash)) DEPLOYMENT_SEGWIT = true) by (vm_compute; reflexivity).
  rewrite A in H2. destruct (H2 (or_introl eq_refl)) as [f' H3]. exists block', f'. split; [exact H1|exact H3].
Defined.


(** ** Lock times *)

Definition locked_tx : CTransaction := {|
  vin := [{| prevout := point_a; scriptSig := []; nSequence := 1; scriptWitness := [] |}];
  vout := [{| nValue := 4999990000; scriptPubKey := [OP_1] |}]; version := 2; nLockTime := 1 |}.

(** A script that asks for one block, absolute and relative: the transaction is not in a block
    below the second, and its block is above that of the coin. *)
Lemma lock_opcodes_bind_blocks_witness :
  let flags := script_verify_flags SCRIPT_VERIFY_CHECKLOCKTIMEVERIFY .| script_verify_flags SCRIPT_VERIFY_CHECKSEQUENCEVERIFY in
  (IsFinalTx locked_tx 2 0 = true → 1 < 2) ∧ 0 + lock_delay 1 ≤ nHeight (entry block1_hash).
Proof.
  intros flags.
  destruct (lock_opcodes_bind_blocks locked_tx 0 5000000000 None FAIL flags [1] [] 1) as [H1 H2]; [cbn; lia|reflexivity|lia|].
  split; [intros Hf; by apply (H1 eq_refl eq_refl 2 0)|]. destruct two_blocks_entries as (_ & _ & Hb & Hh).
  refine (H2 eq_refl eq_refl eq_refl (m_block_index two_blocks) block1_hash (entry block1_hash) [0] 0 [0] _ _ _ Hb _ eq_refl _).
  - apply two_blocks_linked.
  - apply two_blocks_linked.
  - assert (map_Forall (λ _ b, urange 32 (bi_nTime b)) (m_block_index two_blocks)) as H; [|by intros p b Hp; apply (H p b)].
    apply (bool_decide_unpack _). vm_compute. exact I.
  - rewrite Hh. repeat constructor; lia.
  - vm_compute. reflexivity.
Defined.

(** ** Spending a coin *)

Definition first_coins : utxo := spec_final first_block (initial new_db).

Lemma after_first_implements : implements after_first first_coins.
Proof.
  assert (Hok : ops_ok first_block (initial new_db)).
  { pose proof (session_ok new_db eq_refl) as (_ & H1 & H2 & H3 & _). by split_and!. }
  assert (Hv : view_inv new_db) by exact new_db_inv.
  destruct (run_implements first_block _ _ (make_implements CacheClass new_db Hv) Hok) as (rs & c & E & _ & Hi).
  fold stack in E. assert (after_first = c) as -> by (unfold after_first; by rewrite E). exact Hi.
Qed.

Lemma point_a_ok : outpoint_ok point_a.
Proof. split; [split; [done|]|]; apply (bool_decide_unpack _); vm_compute; exact I. Qed.

(** The coin of block 1 is worth 10000 more than what is sent on, and is mature in block 101. *)
Lemma tx_inputs_conserve_value_witness : inputs_rule first_coins locked_tx 101 10000.
Proof.
  pose proof (tx_inputs_conserve_value after_first first_coins locked_tx 101 after_first_implements) as H.
  assert (X : match on_cache (CheckTxInputs locked_tx 101) after_first with inr (r, _) => Some r | inl _ => None end = Some (inr 10000)) by (vm_compute; reflexivity).
  destruct (on_cache (CheckTxInputs locked_tx 101) after_first) as [e|[r c']]; [discriminate X|]. injection X as ->.
  apply H; [apply Forall_cons_2; [exact point_a_ok|constructor]|lia|reflexivity|reflexivity].
Defined.
